(** * Sample-library loading server: a shallow embedding and its properties

    The definitions below follow [sample_library_server.cpp]
    (src/unnamed/part_002) function by function.  Objects that the C++ code
    reaches through pointers (audio entries, instruments, library nodes,
    channels) live in association lists or finite maps keyed by their
    address; atomics are plain fields updated through the operations of
    [os/threading.hpp]. *)

From Stdlib Require Import ZArith Lia.
From stdpp Require Import base tactics option list gmap strings.

(** ** Foundation: machine integers, atomics, error codes *)

Module Foundation.

(** [u32] values are integers reduced modulo 2^32. *)
Definition u32_wrap (z : Z) : Z := (z mod 2 ^ 32)%Z.

(** [Atomic<u32>::FetchAdd] and [FetchSub]: the stored value after the
    operation. *)
Definition FetchAdd (cell v : Z) : Z := u32_wrap (cell + v).
Definition FetchSub (cell v : Z) : Z := u32_wrap (cell - v).

(** [Atomic<T>::CompareExchangeStrong(expected, desired)] returns whether
    the exchange happened, the new content of the cell and the new value of
    the by-reference [expected]. *)
Definition CompareExchangeStrong {T} `{EqDecision T}
    (cell expected desired : T) : bool * T * T :=
  if decide (cell = expected) then (true, desired, expected)
  else (false, cell, cell).

(** The error codes the server distinguishes. *)
Inductive ErrorCode :=
| NotFound            (* CommonError::NotFound *)
| PathDoesNotExist    (* FilesystemError::PathDoesNotExist *)
| OtherError (code : Z).

#[global] Instance ErrorCode_eq_dec : EqDecision ErrorCode.
Proof. solve_decision. Defined.

Inductive ErrorCodeOr (A : Type) :=
| Value (a : A)
| Error (e : ErrorCode).
Arguments Value {A} a.
Arguments Error {A} e.

(** Addresses of arena-allocated objects. *)
Definition ptr := nat.

(** A listed instrument lives in the arena list of its library node: its
    address is the node's address and its own within that list. *)
Definition InstPtr : Type := ptr * ptr.

(** Objects of an [ArenaList], in iteration order, with their address. *)
Fixpoint lookup_ptr {A} (p : ptr) (l : list (ptr * A)) : option A :=
  match l with
  | [] => None
  | (q, a) :: l' => if decide (q = p) then Some a else lookup_ptr p l'
  end.

(** In-place update of the object at address [p]. *)
Definition update_ptr {A} (p : ptr) (f : A -> A) (l : list (ptr * A))
    : list (ptr * A) :=
  map (fun qa => if decide (qa.1 = p) then (qa.1, f qa.2) else qa) l.

(** The address handed out by [PrependUninitialised]: one that no live
    object of the list has. *)
Definition fresh_ptr {A} (l : list (ptr * A)) : ptr :=
  S (foldr Nat.max 0 (map fst l)).

End Foundation.
Export Foundation.

(** ** Audio data store *)

Module AudioStore.

Inductive LoadingState :=
| PendingLoad
| PendingCancel
| Loading
| CompletedSucessfully
| CompletedWithError
| CompletedCancelled.

#[global] Instance LoadingState_eq_dec : EqDecision LoadingState.
Proof. solve_decision. Defined.

(** Decoded audio: only the size of the sample buffer is kept. *)
Record AudioData := { interleaved_samples_size : nat }.

Record ListedAudioData := {
  library_name : string;
  path : string;
  audio_data : AudioData;
  refs : Z;
  state : LoadingState;
  error : option ErrorCode;
}.

Definition set_state (st : LoadingState) (d : ListedAudioData) : ListedAudioData :=
  {| library_name := library_name d; path := path d; audio_data := audio_data d;
     refs := refs d; state := st; error := error d |}.

Definition set_refs (r : Z) (d : ListedAudioData) : ListedAudioData :=
  {| library_name := library_name d; path := path d; audio_data := audio_data d;
     refs := r; state := state d; error := error d |}.

(** The loading thread's [audio_datas] list together with the decode jobs
    handed to the thread pool so far; a job is the closure of
    [LoadAudioAsync], which captures the entry by reference. *)
Record Store := {
  audio_datas : list (ptr * ListedAudioData);
  thread_pool_jobs : list ptr;
}.

Definition store_state (p : ptr) (st : LoadingState) (s : Store) : Store :=
  {| audio_datas := update_ptr p (set_state st) (audio_datas s);
     thread_pool_jobs := thread_pool_jobs s |}.

(** [LoadAudioAsync]: the orchestrator's side, which queues the job. *)
Definition LoadAudioAsync (p : ptr) (s : Store) : Store :=
  {| audio_datas := audio_datas s;
     thread_pool_jobs := thread_pool_jobs s ++ [p] |}.

(** [TriggerReloadIfAudioIsCancelled]. *)
Definition TriggerReloadIfAudioIsCancelled (p : ptr) (s : Store) : Store :=
  match lookup_ptr p (audio_datas s) with
  | None => s
  | Some d =>
      let '(exchanged, cell, expected) :=
        CompareExchangeStrong (state d) PendingCancel PendingLoad in
      if exchanged then store_state p cell s
      else if decide (expected = CompletedCancelled)
           then LoadAudioAsync p (store_state p PendingLoad s)
           else s
  end.

(** The search loop of [FetchOrCreateAudioData]: the first entry whose
    library name and path match. *)
Fixpoint find_audio (lib_name file_path : string)
    (l : list (ptr * ListedAudioData)) : option ptr :=
  match l with
  | [] => None
  | (p, d) :: l' =>
      if bool_decide (lib_name = library_name d) && bool_decide (path d = file_path)
      then Some p
      else find_audio lib_name file_path l'
  end.

Definition new_audio_data (lib_name file_path : string) : ListedAudioData :=
  {| library_name := lib_name; path := file_path;
     audio_data := {| interleaved_samples_size := 0 |};
     refs := 0; state := PendingLoad; error := None |}.

(** [FetchOrCreateAudioData]. *)
Definition FetchOrCreateAudioData (lib_name file_path : string) (s : Store)
    : ptr * Store :=
  match find_audio lib_name file_path (audio_datas s) with
  | Some p => (p, TriggerReloadIfAudioIsCancelled p s)
  | None =>
      let p := fresh_ptr (audio_datas s) in
      (p, LoadAudioAsync p
            {| audio_datas := (p, new_audio_data lib_name file_path) :: audio_datas s;
               thread_pool_jobs := thread_pool_jobs s |})
  end.

(** One iteration of the loop of [CancelLoadingAudioForInstrumentIfPossible]
    on the entry at [p]; [None] is a failed [ASSERT] (or a dangling
    pointer).  The counter is the local [num_cancelled]. *)
Definition cancel_one (p : ptr) (acc : Store * nat) : option (Store * nat) :=
  let '(s, num_cancelled) := acc in
  match lookup_ptr p (audio_datas s) with
  | None => None
  | Some d =>
      if decide (refs d = 0%Z) then None
      else if decide (refs d = 1%Z) then
        let '(_, cell, _) := CompareExchangeStrong (state d) PendingLoad PendingCancel in
        Some (store_state p cell s, S num_cancelled)
      else Some (s, num_cancelled)
  end.

Fixpoint cancel_loop (set : list ptr) (acc : Store * nat) : option (Store * nat) :=
  match set with
  | [] => Some acc
  | p :: set' =>
      match cancel_one p acc with
      | None => None
      | Some acc' => cancel_loop set' acc'
      end
  end.

(** [CancelLoadingAudioForInstrumentIfPossible], on the instrument's
    [audio_data_set]. *)
Definition CancelLoadingAudioForInstrumentIfPossible (audio_data_set : list ptr)
    (s : Store) : option (Store * nat) :=
  cancel_loop audio_data_set (s, 0).

End AudioStore.
Export AudioStore.

(** ** Interleaving of the decode job with the orchestrator, for one entry

    The closure queued by [LoadAudioAsync] runs on a pool thread while the
    loading thread keeps calling [TriggerReloadIfAudioIsCancelled] and
    [CancelLoadingAudioForInstrumentIfPossible] on the same entry.  Every
    access to [audio_data.state] is one step of the machine below. *)

Module DecodeRace.

(** Where a decode job is, up to its last access to the entry: the store
    of the result, or the exchange to [CompletedCancelled].  A job leaves
    the list with that access; what its closure still runs afterwards (the
    deferred count-down and signal) touches the entry no more. *)
Inductive JobPc :=
| JobQueued                         (* added to the pool, not started *)
| JobCasLoop (state : LoadingState) (* in the do/while, with its local [state] *)
| JobDecoding                       (* past the loop, decoding the file *)
| JobPanicked.                      (* PanicIfReached *)

(** Where the loading thread is inside [TriggerReloadIfAudioIsCancelled]. *)
Inductive OrchPc :=
| OrchIdle
| OrchReloadStore      (* the exchange failed with expected = CompletedCancelled *)
| OrchReloadDispatch.  (* PendingLoad stored, LoadAudioAsync not yet called *)

Record Sys := {
  cell : LoadingState;       (* audio_data.state *)
  jobs : list JobPc;
  orch : OrchPc;
}.

(** What the scheduler lets happen next. *)
Inductive Event :=
| EvJob (i : nat) (spurious_failure : bool) (decoded : bool)
| EvTriggerReload
| EvOrchContinue
| EvCancel (loaded_refs : Z).

(** The body of the do/while of the job: the state to exchange to. *)
Definition job_new_state (state : LoadingState) : option LoadingState :=
  match state with
  | PendingLoad => Some Loading
  | PendingCancel => Some CompletedCancelled
  | _ => None
  end.

Definition job_step (i : nat) (spurious_failure decoded : bool) (s : Sys)
    : option Sys :=
  match jobs s !! i with
  | None => None
  | Some JobQueued =>
      (* auto state = audio_data.state.Load(); *)
      Some {| cell := cell s; jobs := <[i := JobCasLoop (cell s)]> (jobs s); orch := orch s |}
  | Some (JobCasLoop state) =>
      match job_new_state state with
      | None => Some {| cell := cell s; jobs := <[i := JobPanicked]> (jobs s); orch := orch s |}
      | Some new_state =>
          (* CompareExchangeWeak(state, new_state) *)
          if bool_decide (cell s = state) && negb spurious_failure then
            if bool_decide (new_state = CompletedCancelled)
            then Some {| cell := new_state; jobs := delete i (jobs s); orch := orch s |}
            else Some {| cell := new_state; jobs := <[i := JobDecoding]> (jobs s); orch := orch s |}
          else Some {| cell := cell s; jobs := <[i := JobCasLoop (cell s)]> (jobs s); orch := orch s |}
      end
  | Some JobDecoding =>
      (* audio_data.state.Store(result); *)
      Some {| cell := if decoded then CompletedSucessfully else CompletedWithError;
              jobs := delete i (jobs s); orch := orch s |}
  | Some JobPanicked => None
  end.

Definition step (e : Event) (s : Sys) : option Sys :=
  match e, orch s with
  | EvJob i spurious_failure decoded, _ => job_step i spurious_failure decoded s
  | EvTriggerReload, OrchIdle =>
      let '(exchanged, c, expected) :=
        CompareExchangeStrong (cell s) PendingCancel PendingLoad in
      if exchanged then Some {| cell := c; jobs := jobs s; orch := OrchIdle |}
      else if decide (expected = CompletedCancelled)
           then Some {| cell := c; jobs := jobs s; orch := OrchReloadStore |}
           else Some {| cell := c; jobs := jobs s; orch := OrchIdle |}
  | EvOrchContinue, OrchReloadStore =>
      Some {| cell := PendingLoad; jobs := jobs s; orch := OrchReloadDispatch |}
  | EvOrchContinue, OrchReloadDispatch =>
      Some {| cell := cell s; jobs := jobs s ++ [JobQueued]; orch := OrchIdle |}
  | EvCancel loaded_refs, OrchIdle =>
      if decide (loaded_refs = 1%Z) then
        let '(_, c, _) := CompareExchangeStrong (cell s) PendingLoad PendingCancel in
        Some {| cell := c; jobs := jobs s; orch := OrchIdle |}
      else Some s
  | _, _ => None
  end.

(** An entry as [FetchOrCreateAudioData] creates it: [PendingLoad], with
    its first decode job queued. *)
Definition created : Sys :=
  {| cell := PendingLoad; jobs := [JobQueued]; orch := OrchIdle |}.

Inductive reachable : Sys -> Prop :=
| reachable_created : reachable created
| reachable_step s e s' : reachable s -> step e s = Some s' -> reachable s'.

(** The state diagram of the specification. *)
Definition diagram (a b : LoadingState) : bool :=
  match a, b with
  | PendingLoad, Loading
  | Loading, CompletedSucessfully
  | Loading, CompletedWithError
  | PendingLoad, PendingCancel
  | PendingCancel, CompletedCancelled
  | CompletedCancelled, PendingLoad
  | PendingCancel, PendingLoad => true
  | _, _ => false
  end.

(** What holds of every reachable configuration. *)
Definition pending (s : LoadingState) : bool :=
  match s with PendingLoad | PendingCancel => true | _ => false end.

Definition inv (s : Sys) : bool :=
  match orch s, jobs s with
  | OrchIdle, [] =>
      match cell s with
      | CompletedSucessfully | CompletedWithError | CompletedCancelled => true
      | _ => false
      end
  | OrchIdle, [JobQueued] => pending (cell s)
  | OrchIdle, [JobCasLoop state] => pending (cell s) && pending state
  | OrchIdle, [JobDecoding] => bool_decide (cell s = Loading)
  | OrchReloadStore, [] => bool_decide (cell s = CompletedCancelled)
  | OrchReloadDispatch, [] => bool_decide (cell s = PendingLoad)
  | _, _ => false
  end.

End DecodeRace.

(** ** Sample-library descriptors ([sample_library.hpp]) *)

Module sample_lib.

Inductive FileFormat := Mdata | Lua.

Module Region.
(** Only [file.path] matters to the server. *)
Record t := { file_path : string }.
End Region.

Module Instrument.
Record t := {
  name : string;
  audio_file_path_for_waveform : string;
  regions : list Region.t;
}.
End Instrument.

Module ImpulseResponse.
Record t := { name : string; path : string }.
End ImpulseResponse.

Module LoadedInstrument.
(** [audio_datas] is parallel to [instrument.regions]; a pointer to the
    [AudioData] of an entry is kept as the address of the entry. *)
Record t := {
  instrument : Instrument.t;
  audio_datas : list ptr;
  file_for_gui_waveform : option ptr;
}.
End LoadedInstrument.

Module Library.
Record t := {
  name : string;
  insts_by_name : gmap string Instrument.t;
  irs_by_name : gmap string ImpulseResponse.t;
  path : string;
  file_hash : Z;
  file_format : FileFormat;
}.

Definition with_file_hash (h : Z) (l : t) : t :=
  {| name := name l; insts_by_name := insts_by_name l; irs_by_name := irs_by_name l;
     path := path l; file_hash := h; file_format := file_format l |}.
End Library.

End sample_lib.
Import sample_lib.

(** ** Instrument cache *)

Module ListedInstrument.
Record t := {
  inst : LoadedInstrument.t;
  refs : Z;
  audio_data_set : list ptr;
}.

Definition set_refs (r : Z) (i : t) : t :=
  {| inst := inst i; refs := r; audio_data_set := audio_data_set i |}.
End ListedInstrument.

Module ListedLibrary.
Record t := {
  lib : Library.t;
  instruments : list (ptr * ListedInstrument.t);
}.
End ListedLibrary.

(** [LibrariesList::Node]: the listed library and its reader-use counter. *)
Module LibNode.
Record t := {
  value : ListedLibrary.t;
  reader_uses : Z;
}.
End LibNode.

Module InstrumentCache.

Fixpoint find_instrument (inst_name : string) (l : list (ptr * ListedInstrument.t))
    : option (ptr * ListedInstrument.t) :=
  match l with
  | [] => None
  | (p, i) :: l' =>
      if bool_decide (Instrument.name (LoadedInstrument.instrument (ListedInstrument.inst i)) = inst_name)
      then Some (p, i)
      else find_instrument inst_name l'
  end.

(** [dyn::AppendIfNotAlreadyThere]. *)
Definition AppendIfNotAlreadyThere (l : list ptr) (p : ptr) : list ptr :=
  if bool_decide (p ∈ l) then l else l ++ [p].

(** The locals of the region loop of [FetchOrCreateInstrument]. *)
Record RegionLoop := {
  rl_audio_datas : list ptr;
  rl_audio_data_set : list ptr;
  rl_file_for_gui_waveform : option ptr;
  rl_store : Store;
}.

Definition region_step (lib_name waveform_path : string) (acc : RegionLoop)
    (region_info : Region.t) : RegionLoop :=
  let '(ref_audio_data, s) :=
    FetchOrCreateAudioData lib_name (Region.file_path region_info) (rl_store acc) in
  {| rl_audio_datas := rl_audio_datas acc ++ [ref_audio_data];
     rl_audio_data_set := AppendIfNotAlreadyThere (rl_audio_data_set acc) ref_audio_data;
     rl_file_for_gui_waveform :=
       if bool_decide (waveform_path = Region.file_path region_info)
       then Some ref_audio_data else rl_file_for_gui_waveform acc;
     rl_store := s |}.

(** [d->refs.FetchAdd(1)]. *)
Definition retain_audio (p : ptr) (s : Store) : Store :=
  {| audio_datas := update_ptr p (fun d => AudioStore.set_refs (FetchAdd (AudioStore.refs d) 1) d)
                      (audio_datas s);
     thread_pool_jobs := thread_pool_jobs s |}.

(** [FetchOrCreateInstrument]; [None] is the failed
    [ASSERT(audio_data_set.size)]. *)
Definition FetchOrCreateInstrument (lib_node : LibNode.t) (s : Store)
    (inst : Instrument.t) : option (ptr * LibNode.t * Store) :=
  let lib := LibNode.value lib_node in
  match find_instrument (Instrument.name inst) (ListedLibrary.instruments lib) with
  | Some (p, i) =>
      Some (p, lib_node,
            foldl (fun s d => TriggerReloadIfAudioIsCancelled d s) s
                  (ListedInstrument.audio_data_set i))
  | None =>
      let new_inst := fresh_ptr (ListedLibrary.instruments lib) in
      let loop :=
        foldl (region_step (Library.name (ListedLibrary.lib lib))
                           (Instrument.audio_file_path_for_waveform inst))
              {| rl_audio_datas := []; rl_audio_data_set := [];
                 rl_file_for_gui_waveform := None; rl_store := s |}
              (Instrument.regions inst) in
      let s' := foldl (fun s d => retain_audio d s) (rl_store loop) (rl_audio_data_set loop) in
      if bool_decide (rl_audio_data_set loop = []) then None
      else
        let listed :=
          {| ListedInstrument.inst :=
               {| LoadedInstrument.instrument := inst;
                  LoadedInstrument.audio_datas := rl_audio_datas loop;
                  LoadedInstrument.file_for_gui_waveform := rl_file_for_gui_waveform loop |};
             ListedInstrument.refs := 0;
             ListedInstrument.audio_data_set := rl_audio_data_set loop |} in
        Some (new_inst,
              {| LibNode.value :=
                   {| ListedLibrary.lib := ListedLibrary.lib lib;
                      ListedLibrary.instruments :=
                        (new_inst, listed) :: ListedLibrary.instruments lib |};
                 LibNode.reader_uses := FetchAdd (LibNode.reader_uses lib_node) 1 |},
              s')
  end.

End InstrumentCache.
Import InstrumentCache.

(** ** What the server takes from files that are not modelled

    [U32FromChars], [Hash32] and [Hash] (foundation), [path::Equal] and
    [path::IsWithinDirectory], the number of layers, the name of the built-in
    library and its embedded impulse responses, and the float rounding behind
    the loading percentage. *)

Class Platform := {
  U32FromChars : string -> Z;
  Hash32 : string -> Z;
  Hash64 : string -> Z;   (* [Hash], the 64-bit hash *)
  path_Equal : string -> string -> bool;
  path_IsWithinDirectory : string -> string -> bool;
  k_num_layers : nat;
  k_builtin_library_name : string;
  EmbeddedIrs : gmap string ImpulseResponse.t;
  RoundedPercent : nat -> nat -> Z;
}.

(** ** Error notifications ([ThreadsafeErrorNotifications]) *)

Module ThreadsafeErrorNotifications.

Record Item := {
  title : string;
  message : string;
  error_code : option ErrorCode;
  id : Z;
}.

Definition u64_wrap (z : Z) : Z := (z mod 2 ^ 64)%Z.

(** [Id(data, string_to_hash)]:
    [((u64)U32FromChars(data) << 32) | Hash32(string_to_hash)]. *)
Definition Id `{Platform} (data string_to_hash : string) : Z :=
  Z.lor (u64_wrap (Z.shiftl (U32FromChars data) 32)) (Hash32 string_to_hash).

Fixpoint update_first (node : Item) (items : list Item) : list Item :=
  match items with
  | [] => []
  | i :: rest =>
      if decide (id i = id node) then node :: rest
      else i :: update_first node rest
  end.

Definition AddOrUpdateError (node : Item) (items : list Item) : list Item :=
  if existsb (fun i => bool_decide (id i = id node)) items
  then update_first node items
  else node :: items.

Definition RemoveError (error_id : Z) (items : list Item) : list Item :=
  filter (fun i => id i <> error_id) items.

End ThreadsafeErrorNotifications.
Import ThreadsafeErrorNotifications.

(** ** Requests, results and channels *)

Inductive LoadRequest :=
| LoadRequestInstrumentIdWithLayer (library_name inst_name : string) (layer_index : nat)
| IrId (library_name ir_name : string).

Module QueuedRequest.
Record t := {
  id : Z;
  request : LoadRequest;
  async_comms_channel : ptr;
}.
End QueuedRequest.

(** A [RefCounted<T>] view is determined by the object whose counter it
    points at: the [refs] of a listed instrument or of an audio entry. *)
Inductive RefUnion :=
| RefInstrument (i : InstPtr)   (* RefCounted<LoadedInstrument> {i->inst, i->refs} *)
| RefIr (a : ptr).          (* RefCounted<AudioData> {a->audio_data, a->refs} *)

Module LoadResult.
Inductive Result :=
| Success (asset : RefUnion)
| Error (e : ErrorCode)
| Cancelled.

Record t := {
  id : Z;
  result : Result;
}.
End LoadResult.

Inductive RefCountChange := Retain | Release.

Module AsyncCommsChannel.
(** [result_added_callback] is opaque; its invocations are counted.  The
    channel's reference to an error sink is kept as the sink's items. *)
Record t := {
  error_notifications : list Item;
  result_added_callback_calls : nat;
  used : bool;
  instrument_loading_percents : list Z;
  desired_inst : list (option InstPtr);
  results : list LoadResult.t;
}.

Definition notify (item : Item) (c : t) : t :=
  {| error_notifications := AddOrUpdateError item (error_notifications c);
     result_added_callback_calls := result_added_callback_calls c;
     used := used c;
     instrument_loading_percents := instrument_loading_percents c;
     desired_inst := desired_inst c;
     results := results c |}.

Definition store_percent (layer : nat) (v : Z) (c : t) : t :=
  {| error_notifications := error_notifications c;
     result_added_callback_calls := result_added_callback_calls c;
     used := used c;
     instrument_loading_percents := <[layer := v]> (instrument_loading_percents c);
     desired_inst := desired_inst c;
     results := results c |}.

Definition set_desired (layer : nat) (i : InstPtr) (c : t) : t :=
  {| error_notifications := error_notifications c;
     result_added_callback_calls := result_added_callback_calls c;
     used := used c;
     instrument_loading_percents := instrument_loading_percents c;
     desired_inst := <[layer := Some i]> (desired_inst c);
     results := results c |}.

(** [results.Push(result); result_added_callback();] *)
Definition deliver (r : LoadResult.t) (c : t) : t :=
  {| error_notifications := error_notifications c;
     result_added_callback_calls := S (result_added_callback_calls c);
     used := used c;
     instrument_loading_percents := instrument_loading_percents c;
     desired_inst := desired_inst c;
     results := results c ++ [r] |}.

(** [used.Store(false)] and the queue emptied by [TryPop]. *)
Definition closed (c : t) : t :=
  {| error_notifications := error_notifications c;
     result_added_callback_calls := result_added_callback_calls c;
     used := false;
     instrument_loading_percents := instrument_loading_percents c;
     desired_inst := desired_inst c;
     results := [] |}.
End AsyncCommsChannel.

(** ** The server *)

Module ScanFolder.
Inductive Source := AlwaysScannedFolder | ExtraFolder.
Inductive State := NotScanned | RescanRequested | Scanning | ScannedSuccessfully | ScanFailed.

#[global] Instance State_eq_dec : EqDecision State.
Proof. solve_decision. Defined.

Record t := {
  path : string;
  source : Source;
  state : State;
}.

Definition set_state (st : State) (f : t) : t :=
  {| path := path f; source := source f; state := st |}.
End ScanFolder.

(** [LibrariesList]: the nodes readers can see and the removed nodes that
    wait for [DeleteRemovedAndUnreferenced]. *)
Module LibrariesList.
Record t := {
  live : list (ptr * LibNode.t);
  dead_list : list (ptr * LibNode.t);
}.

Definition Insert (p : ptr) (n : LibNode.t) (l : t) : t :=
  {| live := (p, n) :: live l; dead_list := dead_list l |}.

Definition AllocateUninitialised (l : t) : ptr := fresh_ptr (live l ++ dead_list l).

Definition deref (p : ptr) (l : t) : option LibNode.t :=
  lookup_ptr p (live l ++ dead_list l).

Definition update (p : ptr) (f : LibNode.t -> LibNode.t) (l : t) : t :=
  {| live := update_ptr p f (live l); dead_list := update_ptr p f (dead_list l) |}.
End LibrariesList.

Module Server.
Record t := {
  libraries : LibrariesList.t;
  libraries_by_name : gmap string ptr;
  error_notifications : list Item;
  scan_folders : list (ptr * ScanFolder.t);
  channels : list (ptr * AsyncCommsChannel.t);
  request_queue : list QueuedRequest.t;
}.

Definition with_libraries (l : LibrariesList.t) (s : t) : t :=
  {| libraries := l; libraries_by_name := libraries_by_name s;
     error_notifications := error_notifications s; scan_folders := scan_folders s;
     channels := channels s; request_queue := request_queue s |}.

Definition with_libraries_by_name (m : gmap string ptr) (s : t) : t :=
  {| libraries := libraries s; libraries_by_name := m;
     error_notifications := error_notifications s; scan_folders := scan_folders s;
     channels := channels s; request_queue := request_queue s |}.

Definition with_error_notifications (e : list Item) (s : t) : t :=
  {| libraries := libraries s; libraries_by_name := libraries_by_name s;
     error_notifications := e; scan_folders := scan_folders s;
     channels := channels s; request_queue := request_queue s |}.

Definition with_scan_folders (f : list (ptr * ScanFolder.t)) (s : t) : t :=
  {| libraries := libraries s; libraries_by_name := libraries_by_name s;
     error_notifications := error_notifications s; scan_folders := f;
     channels := channels s; request_queue := request_queue s |}.

Definition with_channels (c : list (ptr * AsyncCommsChannel.t)) (s : t) : t :=
  {| libraries := libraries s; libraries_by_name := libraries_by_name s;
     error_notifications := error_notifications s; scan_folders := scan_folders s;
     channels := c; request_queue := request_queue s |}.

Definition with_request_queue (q : list QueuedRequest.t) (s : t) : t :=
  {| libraries := libraries s; libraries_by_name := libraries_by_name s;
     error_notifications := error_notifications s; scan_folders := scan_folders s;
     channels := channels s; request_queue := q |}.
End Server.

(** ** Library read and scan jobs *)

Module LibrariesAsyncContext.

Inductive PathOrMemory := PathString (s : string) | Memory.

(** What the collaborators answer to one read job: reading the file,
    opening a reader, hashing and parsing. *)
Record ReadOutcomes := {
  ReadEntireFile : ErrorCodeOr unit;
  FromPathOrMemory : ErrorCodeOr unit;
  Hash : ErrorCodeOr Z;
  Read : ErrorCodeOr Library.t;
}.

Definition is_path (pm : PathOrMemory) : bool :=
  match pm with PathString _ => true | Memory => false end.

(** The [try_job] closure of the [ReadLibrary] case of [AddAsyncJob]. *)
Definition try_job (o : ReadOutcomes) (path_or_memory : PathOrMemory)
    (format : FileFormat) (libraries : LibrariesList.t)
    : option (ErrorCodeOr Library.t) :=
  match (if (match format with Lua => true | Mdata => false end) && is_path path_or_memory
         then ReadEntireFile o else Value tt) with
  | Error e => Some (Error e)
  | Value _ =>
      match FromPathOrMemory o with
      | Error e => Some (Error e)
      | Value _ =>
          match Hash o with
          | Error e => Some (Error e)
          | Value file_hash =>
              if existsb (fun node =>
                    bool_decide (Library.file_hash (ListedLibrary.lib (LibNode.value node.2)) = file_hash))
                   (LibrariesList.live libraries)
              then None
              else
                match Read o with
                | Error e => Some (Error e)
                | Value lib => Some (Value (Library.with_file_hash file_hash lib))
                end
          end
      end
  end.

Inductive JobData :=
| ReadLibrary (path_or_memory : PathOrMemory) (format : FileFormat)
              (result : option (ErrorCodeOr Library.t))
| ScanFolder (folder : ptr) (outcome : ErrorCodeOr unit).

Record Job := {
  data : JobData;
  completed : bool;
  handled : bool;
}.

Record t := {
  jobs : list Job;
  num_uncompleted_jobs : Z;
}.

End LibrariesAsyncContext.
Import LibrariesAsyncContext.

(** ** The registry blocks of [UpdateLoadingThread] *)

Module Registry.
Section WithPlatform.
Context `{Platform}.

Definition lib_of (node : ptr * LibNode.t) : Library.t :=
  ListedLibrary.lib (LibNode.value node.2).

(** The loop "only allow one with the same name or path": whether a node
    with the new hash was seen, the nodes kept and the nodes removed. *)
Fixpoint replace_loop (lib : Library.t) (l : list (ptr * LibNode.t))
    : bool * list (ptr * LibNode.t) * list (ptr * LibNode.t) :=
  match l with
  | [] => (false, [], [])
  | it :: l' =>
      let '(already_exists, kept, removed) := replace_loop lib l' in
      let seen := bool_decide (Library.file_hash (lib_of it) = Library.file_hash lib) in
      if bool_decide (Library.name (lib_of it) = Library.name lib)
         || path_Equal (Library.path (lib_of it)) (Library.path lib)
      then (seen || already_exists, kept, it :: removed)
      else (seen || already_exists, it :: kept, removed)
  end.

Inductive Flow := Next | Return.

Definition job_path (pm : PathOrMemory) : string :=
  match pm with PathString s => s | Memory => ":memory:" end.

(** The [ReadLibrary] case of "handle async jobs that have completed".  The
    parser's own error text, which the code appends to the message, is not
    kept. *)
Definition handle_read_library (path_or_memory : PathOrMemory)
    (result : option (ErrorCodeOr Library.t)) (server : Server.t) : Flow * Server.t :=
  let path := job_path path_or_memory in
  match result with
  | None => (Return, server)
  | Some outcome =>
      let error_id := Id "libs" path in
      match outcome with
      | Value lib =>
          let libs := Server.libraries server in
          let '(already_exists, kept, removed) := replace_loop lib (LibrariesList.live libs) in
          let libs1 := {| LibrariesList.live := kept;
                          LibrariesList.dead_list := removed ++ LibrariesList.dead_list libs |} in
          if already_exists then (Next, Server.with_libraries libs1 server)
          else
            let new_node := LibrariesList.AllocateUninitialised libs1 in
            let node := {| LibNode.value := {| ListedLibrary.lib := lib;
                                               ListedLibrary.instruments := [] |};
                           LibNode.reader_uses := 0 |} in
            let server1 := Server.with_libraries (LibrariesList.Insert new_node node libs1) server in
            (Next, Server.with_error_notifications
                     (RemoveError error_id (Server.error_notifications server1)) server1)
      | Error e =>
          if decide (e = PathDoesNotExist) then (Return, server)
          else
            let item := {| title := "Failed to read library";
                           message := match path_or_memory with
                                      | PathString s => s ++ String.String (Ascii.ascii_of_nat 10) EmptyString
                                      | Memory => EmptyString
                                      end;
                           error_code := Some e;
                           id := error_id |} in
            (Next, Server.with_error_notifications
                     (AddOrUpdateError item (Server.error_notifications server)) server)
      end
  end.

(** The [ScanFolder] case. *)
Definition handle_scan_folder (folder : ptr) (outcome : ErrorCodeOr unit)
    (server : Server.t) : Server.t :=
  match lookup_ptr folder (Server.scan_folders server) with
  | None => server
  | Some f =>
      let folder_error_id := Id "libs" (ScanFolder.path f) in
      match outcome with
      | Error e =>
          let is_always_scanned_folder :=
            match ScanFolder.source f with
            | ScanFolder.AlwaysScannedFolder => true
            | ScanFolder.ExtraFolder => false
            end in
          let server1 :=
            if negb (is_always_scanned_folder && bool_decide (e = PathDoesNotExist)) then
              Server.with_error_notifications
                (AddOrUpdateError {| title := "Failed to scan library folder";
                                     message := ScanFolder.path f;
                                     error_code := Some e;
                                     id := folder_error_id |}
                                  (Server.error_notifications server)) server
            else server in
          Server.with_scan_folders
            (update_ptr folder (ScanFolder.set_state ScanFolder.ScanFailed)
                        (Server.scan_folders server1)) server1
      | Value _ =>
          let server1 :=
            Server.with_error_notifications
              (RemoveError folder_error_id (Server.error_notifications server)) server in
          Server.with_scan_folders
            (update_ptr folder (ScanFolder.set_state ScanFolder.ScannedSuccessfully)
                        (Server.scan_folders server1)) server1
      end
  end.

Definition handle_job (job : Job) (server : Server.t) : Flow * Server.t :=
  match data job with
  | ReadLibrary path_or_memory _ result => handle_read_library path_or_memory result server
  | ScanFolder folder outcome => (Next, handle_scan_folder folder outcome server)
  end.

Definition mark_handled (job : Job) : Job :=
  {| data := data job; completed := completed job; handled := true |}.

(** The loop over [async_ctx.jobs]; the deferred block marks the job
    handled and counts it down also when the case returns. *)
Fixpoint handle_jobs (l : list Job) (num_uncompleted : Z) (server : Server.t)
    : Flow * list Job * Z * Server.t :=
  match l with
  | [] => (Next, [], num_uncompleted, server)
  | job :: rest =>
      if handled job || negb (completed job) then
        let '(flow, rest', n, server') := handle_jobs rest num_uncompleted server in
        (flow, job :: rest', n, server')
      else
        let '(flow, server1) := handle_job job server in
        let n1 := FetchSub num_uncompleted 1 in
        match flow with
        | Return => (Return, mark_handled job :: rest, n1, server1)
        | Next =>
            let '(flow', rest', n, server') := handle_jobs rest n1 server1 in
            (flow', mark_handled job :: rest', n, server')
        end
  end.

(** "remove libraries that are not in any active scan-folders". *)
Definition within_any_folder (folders : list (ptr * ScanFolder.t)) (lib : Library.t) : bool :=
  if bool_decide (Library.name lib = k_builtin_library_name) then true
  else existsb (fun sn => path_IsWithinDirectory (Library.path lib) (ScanFolder.path sn.2)) folders.

Definition remove_orphans (server : Server.t) : Server.t :=
  let libs := Server.libraries server in
  let keep := fun node => within_any_folder (Server.scan_folders server) (lib_of node) in
  Server.with_libraries
    {| LibrariesList.live := List.filter keep (LibrariesList.live libs);
       LibrariesList.dead_list :=
         List.filter (fun node => negb (keep node)) (LibrariesList.live libs)
         ++ LibrariesList.dead_list libs |}
    server.

(** "update libraries_by_name"; [None] is the failed [ASSERT(inserted)]. *)
Fixpoint rebuild_libraries_by_name (l : list (ptr * LibNode.t)) (libs_by_name : gmap string ptr)
    : option (gmap string ptr) :=
  match l with
  | [] => Some libs_by_name
  | n :: l' =>
      match libs_by_name !! Library.name (lib_of n) with
      | Some _ => None
      | None => rebuild_libraries_by_name l' (<[Library.name (lib_of n) := n.1]> libs_by_name)
      end
  end.

(** [UpdateLoadingThread], without the blocks that only queue jobs or
    touch scan folders (scan triggering, directory watching, scan-folder
    clean-up): none of them writes to [server.libraries]. *)
Definition UpdateLoadingThread (async_ctx : LibrariesAsyncContext.t) (server : Server.t)
    : option (LibrariesAsyncContext.t * Server.t) :=
  let '(flow, jobs', n, server1) :=
    handle_jobs (jobs async_ctx) (num_uncompleted_jobs async_ctx) server in
  let async_ctx' := {| jobs := jobs'; num_uncompleted_jobs := n |} in
  match flow with
  | Return => Some (async_ctx', server1)
  | Next =>
      let server2 := remove_orphans server1 in
      match rebuild_libraries_by_name (LibrariesList.live (Server.libraries server2)) ∅ with
      | None => None
      | Some m => Some (async_ctx', Server.with_libraries_by_name m server2)
      end
  end.

(** [BuiltinLibrary()] and the start of [LoadingThreadLoop], which
    inserts it. *)
Definition BuiltinLibrary : Library.t :=
  {| Library.name := k_builtin_library_name;
     Library.insts_by_name := ∅;
     Library.irs_by_name := EmbeddedIrs;
     Library.path := ":memory:";
     Library.file_hash := 100;
     Library.file_format := Lua |}.

Definition insert_builtin (server : Server.t) : Server.t :=
  let libs := Server.libraries server in
  let node := LibrariesList.AllocateUninitialised libs in
  Server.with_libraries_by_name
    (<[Library.name BuiltinLibrary := node]> (Server.libraries_by_name server))
    (Server.with_libraries
       (LibrariesList.Insert node
          {| LibNode.value := {| ListedLibrary.lib := BuiltinLibrary;
                                 ListedLibrary.instruments := [] |};
             LibNode.reader_uses := 0 |} libs)
       (Server.with_scan_folders
          (map (fun n => (n.1, ScanFolder.set_state ScanFolder.NotScanned n.2))
               (Server.scan_folders server))
          server)).

End WithPlatform.
End Registry.

(** ** The loading thread *)

Module PendingResult.
Inductive LoadingAsset :=
| AssetInstrument (i : InstPtr)
| AssetIr (a : ptr).

Inductive State :=
| AwaitingLibrary
| AwaitingAudio (asset : LoadingAsset)
| Cancelled
| Failed (e : ErrorCode)
| CompletedSuccessfully (r : RefUnion).

Record t := {
  state : State;
  request : QueuedRequest.t;
  debug_id : nat;
}.

Definition with_state (st : State) (p : t) : t :=
  {| state := st; request := request p; debug_id := debug_id p |}.
End PendingResult.

Module LoadingThread.

(** The server together with the locals of [LoadingThreadLoop]. *)
Record t := {
  server : Server.t;
  libs_async_ctx : LibrariesAsyncContext.t;
  audio : Store;
  pending_results : list PendingResult.t;
  debug_result_id : nat;
}.

Definition with_server (s : Server.t) (m : t) : t :=
  {| server := s; libs_async_ctx := libs_async_ctx m; audio := audio m;
     pending_results := pending_results m; debug_result_id := debug_result_id m |}.

Definition with_audio (a : Store) (m : t) : t :=
  {| server := server m; libs_async_ctx := libs_async_ctx m; audio := a;
     pending_results := pending_results m; debug_result_id := debug_result_id m |}.

Definition with_pending_results (l : list PendingResult.t) (m : t) : t :=
  {| server := server m; libs_async_ctx := libs_async_ctx m; audio := audio m;
     pending_results := l; debug_result_id := debug_result_id m |}.

Definition update_channel (ch : ptr) (f : AsyncCommsChannel.t -> AsyncCommsChannel.t)
    (m : t) : t :=
  with_server (Server.with_channels (update_ptr ch f (Server.channels (server m))) (server m)) m.

Definition update_libraries (f : LibrariesList.t -> LibrariesList.t) (m : t) : t :=
  with_server (Server.with_libraries (f (Server.libraries (server m))) (server m)) m.

Definition deref_instrument (i : InstPtr) (libs : LibrariesList.t)
    : option ListedInstrument.t :=
  match LibrariesList.deref i.1 libs with
  | None => None
  | Some node => lookup_ptr i.2 (ListedLibrary.instruments (LibNode.value node))
  end.

Definition update_instrument (i : InstPtr) (f : ListedInstrument.t -> ListedInstrument.t)
    (libs : LibrariesList.t) : LibrariesList.t :=
  LibrariesList.update i.1
    (fun node =>
       {| LibNode.value :=
            {| ListedLibrary.lib := ListedLibrary.lib (LibNode.value node);
               ListedLibrary.instruments :=
                 update_ptr i.2 f (ListedLibrary.instruments (LibNode.value node)) |};
          LibNode.reader_uses := LibNode.reader_uses node |})
    libs.

(** A reference to a channel that is gone reads as unused. *)
Definition channel_used (ch : ptr) (s : Server.t) : bool :=
  match lookup_ptr ch (Server.channels s) with
  | Some c => AsyncCommsChannel.used c
  | None => false
  end.

(** Modelled from the spec: [RefCounted<T>::ChangeRefCount] is declared in
    the header of the server, which is not among the sources.  A view holds
    "a shared object plus its atomic counter"; retaining adds one to the
    counter and releasing subtracts one. *)
Definition RefCounted_ChangeRefCount (change : RefCountChange) (counter : Z) : Z :=
  match change with
  | Retain => FetchAdd counter 1
  | Release => FetchSub counter 1
  end.

(** [LoadResult::ChangeRefCount].  In the [Ir] case a [break] comes before
    the call on the view, which is therefore never reached. *)
Definition ChangeRefCount (change : RefCountChange) (r : LoadResult.t) (m : t) : t :=
  match LoadResult.result r with
  | LoadResult.Success asset_union =>
      match asset_union with
      | RefInstrument i =>
          update_libraries
            (update_instrument i
               (fun li => ListedInstrument.set_refs
                            (RefCounted_ChangeRefCount change (ListedInstrument.refs li)) li))
            m
      | RefIr _ => m
      end
  | _ => m
  end.

Section WithPlatform.
Context `{Platform}.

(** [OpenAsyncCommsChannel]. *)
Definition OpenAsyncCommsChannel (error_notifications : list Item) (s : Server.t)
    : ptr * Server.t :=
  let channel := fresh_ptr (Server.channels s) in
  (channel,
   Server.with_channels
     ((channel,
       {| AsyncCommsChannel.error_notifications := error_notifications;
          AsyncCommsChannel.result_added_callback_calls := 0;
          AsyncCommsChannel.used := true;
          AsyncCommsChannel.instrument_loading_percents := replicate k_num_layers (-1)%Z;
          AsyncCommsChannel.desired_inst := replicate k_num_layers None;
          AsyncCommsChannel.results := [] |}) :: Server.channels s)
     s).

(** [CloseAsyncCommsChannel]. *)
Definition CloseAsyncCommsChannel (channel : ptr) (m : t) : t :=
  match lookup_ptr channel (Server.channels (server m)) with
  | None => m
  | Some c =>
      foldl (fun m r => ChangeRefCount Release r m)
            (update_channel channel AsyncCommsChannel.closed m)
            (AsyncCommsChannel.results c)
  end.

(** [SendAsyncLoadRequest]; the request id counter is the caller's. *)
Definition SendAsyncLoadRequest (request_id : Z) (channel : ptr) (request : LoadRequest)
    (s : Server.t) : Server.t :=
  Server.with_request_queue
    (Server.request_queue s ++
       [{| QueuedRequest.id := request_id; QueuedRequest.request := request;
           QueuedRequest.async_comms_channel := channel |}])
    s.

(** "consume any incoming requests": one popped request. *)
Definition request_scanning (folders : list (ptr * ScanFolder.t)) : list (ptr * ScanFolder.t) :=
  map (fun n =>
         let '(_, cell, _) :=
           CompareExchangeStrong (ScanFolder.state n.2) ScanFolder.NotScanned
                                 ScanFolder.RescanRequested in
         (n.1, ScanFolder.set_state cell n.2))
      folders.

Definition consume_request (queued_request : QueuedRequest.t) (m : t) : t :=
  if negb (channel_used (QueuedRequest.async_comms_channel queued_request) (server m)) then m
  else
    {| server := Server.with_scan_folders
                   (request_scanning (Server.scan_folders (server m))) (server m);
       libs_async_ctx := libs_async_ctx m;
       audio := audio m;
       pending_results :=
         {| PendingResult.state := PendingResult.AwaitingLibrary;
            PendingResult.request := queued_request;
            PendingResult.debug_id := debug_result_id m |} :: pending_results m;
       debug_result_id := S (debug_result_id m) |}.

Definition consume_requests (m : t) : t :=
  foldl (fun m q => consume_request q m)
        (with_server (Server.with_request_queue [] (server m)) m)
        (Server.request_queue (server m)).

Definition request_library_name (r : LoadRequest) : string :=
  match r with
  | LoadRequestInstrumentIdWithLayer library_name _ _ => library_name
  | IrId library_name _ => library_name
  end.

Definition quote : string := String.String (Ascii.ascii_of_nat 34) EmptyString.

Definition library_not_found_item (library_name : string) : Item :=
  {| title := library_name ++ " not found"; message := EmptyString;
     error_code := Some NotFound; id := Id "lib " library_name |}.

Definition instrument_not_found_item (inst_name : string) : Item :=
  {| title := "Cannot find instrument " ++ quote ++ inst_name ++ quote;
     message := EmptyString;
     error_code := Some NotFound; id := Id "inst" inst_name |}.

Definition ir_not_found_item (ir_name : string) : Item :=
  {| title := "Failed to find IR"; message := ir_name;
     error_code := Some NotFound; id := Id "ir  " ir_name |}.

(** The body of the loop "Fill in library" for one pending result; [None]
    is a failed [ASSERT]. *)
Definition fill_in_library (pending_result : PendingResult.t) (m : t)
    : option (PendingResult.t * t) :=
  match PendingResult.state pending_result with
  | PendingResult.AwaitingLibrary =>
      let request := QueuedRequest.request (PendingResult.request pending_result) in
      let channel := QueuedRequest.async_comms_channel (PendingResult.request pending_result) in
      let library_name := request_library_name request in
      if bool_decide (library_name = EmptyString) then None
      else
        match Server.libraries_by_name (server m) !! library_name with
        | None =>
            if decide (num_uncompleted_jobs (libs_async_ctx m) = 0%Z) then
              Some (PendingResult.with_state (PendingResult.Failed NotFound) pending_result,
                    update_channel channel
                      (AsyncCommsChannel.notify (library_not_found_item library_name)) m)
            else Some (pending_result, m)
        | Some lib =>
            match LibrariesList.deref lib (Server.libraries (server m)) with
            | None => None
            | Some lib_node =>
                let library := ListedLibrary.lib (LibNode.value lib_node) in
                match request with
                | LoadRequestInstrumentIdWithLayer _ inst_name layer_index =>
                    if bool_decide (inst_name = EmptyString) then None
                    else
                      match Library.insts_by_name library !! inst_name with
                      | Some i =>
                          let m1 := update_channel channel
                                      (AsyncCommsChannel.store_percent layer_index 0) m in
                          match FetchOrCreateInstrument lib_node (audio m1) i with
                          | None => None
                          | Some (inst, lib_node', audio') =>
                              let m2 := with_audio audio'
                                          (update_libraries
                                             (LibrariesList.update lib (fun _ => lib_node')) m1) in
                              Some (PendingResult.with_state
                                      (PendingResult.AwaitingAudio
                                         (PendingResult.AssetInstrument (lib, inst)))
                                      pending_result,
                                    update_channel channel
                                      (AsyncCommsChannel.set_desired layer_index (lib, inst)) m2)
                          end
                      | None =>
                          Some (PendingResult.with_state (PendingResult.Failed NotFound)
                                  pending_result,
                                update_channel channel
                                  (AsyncCommsChannel.notify (instrument_not_found_item inst_name)) m)
                      end
                | IrId _ ir_name =>
                    match Library.irs_by_name library !! ir_name with
                    | Some ir =>
                        let '(audio_data, audio') :=
                          FetchOrCreateAudioData (Library.name library)
                            (ImpulseResponse.path ir) (audio m) in
                        Some (PendingResult.with_state
                                (PendingResult.AwaitingAudio (PendingResult.AssetIr audio_data))
                                pending_result,
                              with_audio audio' m)
                    | None =>
                        Some (PendingResult.with_state (PendingResult.Failed NotFound)
                                pending_result,
                              update_channel channel
                                (AsyncCommsChannel.notify (ir_not_found_item ir_name)) m)
                    end
                end
            end
        end
  | _ => Some (pending_result, m)
  end.

Definition LayerIndex (pending_result : PendingResult.t) : option nat :=
  match QueuedRequest.request (PendingResult.request pending_result) with
  | LoadRequestInstrumentIdWithLayer _ _ layer_index => Some layer_index
  | IrId _ _ => None
  end.

Definition channel_of (pending_result : PendingResult.t) : ptr :=
  QueuedRequest.async_comms_channel (PendingResult.request pending_result).

(** [PendingResult::IsDesired], for the instrument [i] the result awaits. *)
Definition IsDesired (pending_result : PendingResult.t) (i : InstPtr) (m : t) : bool :=
  match LayerIndex pending_result, lookup_ptr (channel_of pending_result) (Server.channels (server m)) with
  | Some layer, Some c =>
      bool_decide (AsyncCommsChannel.desired_inst c !! layer = Some (Some i))
  | _, _ => false
  end.

(** [LoadingPercent().Store(v)]. *)
Definition store_loading_percent (pending_result : PendingResult.t) (v : Z) (m : t) : t :=
  match LayerIndex pending_result with
  | Some layer =>
      update_channel (channel_of pending_result) (AsyncCommsChannel.store_percent layer v) m
  | None => m
  end.

Definition audio_state (a : ptr) (m : t) : option LoadingState :=
  AudioStore.state <$> lookup_ptr a (audio_datas (audio m)).

(** The first entry of the set in [CompletedWithError], with its error. *)
Fixpoint first_error (set : list ptr) (m : t) : option ErrorCode :=
  match set with
  | [] => None
  | a :: set' =>
      match lookup_ptr a (audio_datas (audio m)) with
      | Some d =>
          if decide (AudioStore.state d = CompletedWithError) then AudioStore.error d
          else first_error set' m
      | None => first_error set' m
      end
  end.

(** The body of the loop "For each inst, check for errors". *)
Definition check_for_errors (pending_result : PendingResult.t) (m : t)
    : option (PendingResult.t * t) :=
  match PendingResult.state pending_result with
  | PendingResult.AwaitingAudio (PendingResult.AssetInstrument i) =>
      match deref_instrument i (Server.libraries (server m)) with
      | None => None
      | Some li =>
          if bool_decide (ListedInstrument.audio_data_set li = []) then None
          else
            match first_error (ListedInstrument.audio_data_set li) m with
            | None => Some (pending_result, m)
            | Some error =>
                let name := Instrument.name
                              (LoadedInstrument.instrument (ListedInstrument.inst li)) in
                let m1 := update_channel (channel_of pending_result)
                            (AsyncCommsChannel.notify
                               {| title := "Failed to load audio"; message := name;
                                  error_code := Some error; id := Id "audi" name |}) m in
                match CancelLoadingAudioForInstrumentIfPossible
                        (ListedInstrument.audio_data_set li) (audio m1) with
                | None => None
                | Some (audio', _) =>
                    let m2 := with_audio audio' m1 in
                    let m3 := if IsDesired pending_result i m2
                              then store_loading_percent pending_result (-1) m2 else m2 in
                    Some (PendingResult.with_state (PendingResult.Failed error) pending_result, m3)
                end
            end
      end
  | _ => Some (pending_result, m)
  end.

Definition num_completed (set : list ptr) (m : t) : nat :=
  length (List.filter (fun a => bool_decide (audio_state a m = Some CompletedSucessfully)) set).

(** Whether some pending result's channel desires [i] on some layer. *)
Definition is_desired_by_another (i : InstPtr) (m : t) : bool :=
  existsb (fun other_pending_result =>
             match lookup_ptr (channel_of other_pending_result) (Server.channels (server m)) with
             | Some c =>
                 existsb (fun other_desired => bool_decide (other_desired = Some i))
                         (AsyncCommsChannel.desired_inst c)
             | None => false
             end)
          (pending_results m).

(** The body of the loop "For each inst, check if it's still needed, and
    cancel if not.  And update percent markers". *)
Definition check_still_needed (pending_result : PendingResult.t) (m : t)
    : option (PendingResult.t * t) :=
  match PendingResult.state pending_result with
  | PendingResult.AwaitingAudio (PendingResult.AssetInstrument i) =>
      match deref_instrument i (Server.libraries (server m)) with
      | None => None
      | Some li =>
          let set := ListedInstrument.audio_data_set li in
          if IsDesired pending_result i m then
            if decide (num_completed set m = length set) then
              Some (PendingResult.with_state
                      (PendingResult.CompletedSuccessfully (RefInstrument i)) pending_result,
                    store_loading_percent pending_result (-1) m)
            else
              Some (pending_result,
                    store_loading_percent pending_result
                      (RoundedPercent (num_completed set m) (length set)) m)
          else
            if is_desired_by_another i m then
              Some (PendingResult.with_state PendingResult.Cancelled pending_result, m)
            else
              match CancelLoadingAudioForInstrumentIfPossible set (audio m) with
              | None => None
              | Some (audio', _) =>
                  Some (PendingResult.with_state PendingResult.Cancelled pending_result,
                        with_audio audio' m)
              end
      end
  | _ => Some (pending_result, m)
  end.

(** The body of the loop "Store the result of the IR load in the result". *)
Definition store_ir_result (pending_result : PendingResult.t) (m : t)
    : option (PendingResult.t * t) :=
  match PendingResult.state pending_result with
  | PendingResult.AwaitingAudio (PendingResult.AssetIr a) =>
      match lookup_ptr a (audio_datas (audio m)) with
      | None => None
      | Some ir_data =>
          match AudioStore.state ir_data with
          | CompletedSucessfully =>
              Some (PendingResult.with_state
                      (PendingResult.CompletedSuccessfully (RefIr a)) pending_result, m)
          | CompletedWithError =>
              match AudioStore.error ir_data,
                    QueuedRequest.request (PendingResult.request pending_result) with
              | Some e, IrId library_name ir_name =>
                  Some (PendingResult.with_state (PendingResult.Failed e) pending_result,
                        update_channel (channel_of pending_result)
                          (AsyncCommsChannel.notify
                             {| title := "Failed to load IR"; message := EmptyString;
                                error_code := Some e;
                                id := u64_wrap (Hash64 "ir  " + Hash64 library_name
                                                + Hash64 ir_name) |}) m)
              | _, _ => None
              end
          | PendingLoad | Loading => Some (pending_result, m)
          | PendingCancel | CompletedCancelled => None
          end
      end
  | _ => Some (pending_result, m)
  end.

(** A loop over [pending_results] whose body updates the result in place. *)
Fixpoint for_each_pending (body : PendingResult.t -> t -> option (PendingResult.t * t))
    (l : list PendingResult.t) (m : t) : option (list PendingResult.t * t) :=
  match l with
  | [] => Some ([], m)
  | pending_result :: rest =>
      match body pending_result m with
      | None => None
      | Some (pending_result', m') =>
          match for_each_pending body rest m' with
          | None => None
          | Some (rest', m'') => Some (pending_result' :: rest', m'')
          end
      end
  end.

Definition run_pass (body : PendingResult.t -> t -> option (PendingResult.t * t)) (m : t)
    : option t :=
  match for_each_pending body (pending_results m) m with
  | None => None
  | Some (l, m') => Some (with_pending_results l m')
  end.

(** The [LoadResult] built for a terminal pending result. *)
Definition terminal_result (pending_result : PendingResult.t) : option LoadResult.t :=
  let id := QueuedRequest.id (PendingResult.request pending_result) in
  match PendingResult.state pending_result with
  | PendingResult.AwaitingLibrary | PendingResult.AwaitingAudio _ => None
  | PendingResult.Cancelled =>
      Some {| LoadResult.id := id; LoadResult.result := LoadResult.Cancelled |}
  | PendingResult.Failed e =>
      Some {| LoadResult.id := id; LoadResult.result := LoadResult.Error e |}
  | PendingResult.CompletedSuccessfully r =>
      Some {| LoadResult.id := id; LoadResult.result := LoadResult.Success r |}
  end.

(** The predicate of the final [SinglyLinkedListRemoveIf]: whether the
    pending result is removed, and the state after its side effects. *)
Definition dispatch (pending_result : PendingResult.t) (m : t) : bool * t :=
  match terminal_result pending_result with
  | None => (false, m)
  | Some result =>
      if channel_used (channel_of pending_result) (server m) then
        (true, update_channel (channel_of pending_result) (AsyncCommsChannel.deliver result)
                 (ChangeRefCount Retain result m))
      else (true, m)
  end.

Fixpoint dispatch_all (l : list PendingResult.t) (m : t) : list PendingResult.t * t :=
  match l with
  | [] => ([], m)
  | pending_result :: rest =>
      let '(removed, m') := dispatch pending_result m in
      let '(rest', m'') := dispatch_all rest m' in
      (if removed then rest' else pending_result :: rest', m'')
  end.

(** The block [if (!pending_results.Empty()) { ... }] of the loop. *)
Definition process_pending_results (m : t) : option t :=
  if bool_decide (pending_results m = []) then Some m
  else
    m1 ← run_pass fill_in_library m;
    m2 ← run_pass check_for_errors m1;
    m3 ← run_pass check_still_needed m2;
    m4 ← run_pass store_ir_result m3;
    let '(l, m5) := dispatch_all (pending_results m4) m4 in
    Some (with_pending_results l m5).

(** One iteration of the inner do/while of [LoadingThreadLoop], from the
    wake-up to the end of the pending-results block (the debug dump and the
    usage counters at the end of the body are left out). *)
Definition loop_iteration (m : t) : option t :=
  let m1 := consume_requests m in
  match Registry.UpdateLoadingThread (libs_async_ctx m1) (server m1) with
  | None => None
  | Some (async_ctx', server') =>
      process_pending_results
        {| server := server'; libs_async_ctx := async_ctx'; audio := audio m1;
           pending_results := pending_results m1; debug_result_id := debug_result_id m1 |}
  end.

End WithPlatform.
End LoadingThread.

(** ** Vocabulary of the properties *)

Module Invariants.

(** The key [FetchOrCreateAudioData] searches by. *)
Definition audio_key (e : ptr * ListedAudioData) : string * string :=
  (library_name e.2, path e.2).

(** A well-formed audio list: distinct addresses, and one entry per
    (library name, path). *)
Definition store_wf (s : Store) : Prop :=
  NoDup (map fst (audio_datas s)) /\ NoDup (map audio_key (audio_datas s)).

(** What [CancelLoadingAudioForInstrumentIfPossible] does to one entry. *)
Definition cancelled_entry (set : list ptr) (e : ptr * ListedAudioData)
    : ptr * ListedAudioData :=
  if bool_decide (e.1 ∈ set) && bool_decide (refs e.2 = 1%Z)
     && bool_decide (state e.2 = PendingLoad)
  then (e.1, set_state PendingCancel e.2) else e.

Definition refs_at (s : Store) (p : ptr) : option Z :=
  refs <$> lookup_ptr p (audio_datas s).

(** The count an entry had before a call: 0 for an entry the call creates. *)
Definition refs_before (s : Store) (p : ptr) : Z := default 0%Z (refs_at s p).

Definition key_at (s : Store) (p : ptr) : option (string * string) :=
  (fun d => (library_name d, path d)) <$> lookup_ptr p (audio_datas s).

Definition state_at (s : Store) (p : ptr) : option LoadingState :=
  state <$> lookup_ptr p (audio_datas s).

(** At most one live library per name and per path. *)
Definition registry_unique (l : LibrariesList.t) : Prop :=
  NoDup (map (fun n => Library.name (Registry.lib_of n)) (LibrariesList.live l))
  /\ NoDup (map (fun n => Library.path (Registry.lib_of n)) (LibrariesList.live l)).

(** Whether a live library is displaced by a newly read one. *)
Definition same_name_or_path `{Platform} (lib : Library.t) (it : ptr * LibNode.t) : bool :=
  bool_decide (Library.name (Registry.lib_of it) = Library.name lib)
  || path_Equal (Library.path (Registry.lib_of it)) (Library.path lib).

(** The asset a request names is unknown to the library. *)
Definition asset_unknown (library : Library.t) (request : LoadRequest) : Prop :=
  match request with
  | LoadRequestInstrumentIdWithLayer _ inst_name _ =>
      Library.insts_by_name library !! inst_name = None
  | IrId _ ir_name => Library.irs_by_name library !! ir_name = None
  end.

Definition channels_of (m : LoadingThread.t) : list (ptr * AsyncCommsChannel.t) :=
  Server.channels (LoadingThread.server m).

(** [quiet f]: the update [f] of a channel neither delivers nor closes. *)
Definition quiet (f : AsyncCommsChannel.t -> AsyncCommsChannel.t) : Prop :=
  forall c, AsyncCommsChannel.used (f c) = AsyncCommsChannel.used c
            /\ AsyncCommsChannel.results (f c) = AsyncCommsChannel.results c
            /\ AsyncCommsChannel.result_added_callback_calls (f c)
               = AsyncCommsChannel.result_added_callback_calls c.

(** [undelivered m m']: from [m] to [m'] every channel is still there with
    the same flag, and an unused one has the same queue and has seen no
    further callback. *)
Definition undelivered (m m' : LoadingThread.t) : Prop :=
  forall ch c, lookup_ptr ch (channels_of m) = Some c ->
    exists c', lookup_ptr ch (channels_of m') = Some c'
      /\ AsyncCommsChannel.used c' = AsyncCommsChannel.used c
      /\ (AsyncCommsChannel.used c = false ->
          AsyncCommsChannel.results c' = AsyncCommsChannel.results c
          /\ AsyncCommsChannel.result_added_callback_calls c'
             = AsyncCommsChannel.result_added_callback_calls c).

Definition dom_of (s : Store) : list ptr := map fst (audio_datas s).

(** An update that keeps the key and the count of an entry. *)
Definition keeps_key_refs (g : ListedAudioData -> ListedAudioData) : Prop :=
  forall d, library_name (g d) = library_name d /\ path (g d) = path d /\ refs (g d) = refs d.

(** The effect of [for (auto d : audio_data_set) d->refs.FetchAdd(1)] on
    one entry. *)
Definition retained (set : list ptr) (e : ptr * ListedAudioData) : ptr * ListedAudioData :=
  if bool_decide (e.1 ∈ set) then (e.1, AudioStore.set_refs (FetchAdd (refs e.2) 1) e.2) else e.

(** The region loop of [FetchOrCreateInstrument] from a store [s], and what
    holds of its locals after the regions [rs]. *)
Section RegionLoop.
Variables (lib_name waveform_path : string) (s : Store).

Definition loop_init : RegionLoop :=
  {| rl_audio_datas := []; rl_audio_data_set := [];
     rl_file_for_gui_waveform := None; rl_store := s |}.

Definition run_regions (rs : list Region.t) : RegionLoop :=
  foldl (region_step lib_name waveform_path) loop_init rs.

Record loop_inv (rs : list Region.t) (acc : RegionLoop) : Prop := {
  li_wf : store_wf (rl_store acc);
  li_regions :
    Forall2 (fun region a =>
               key_at (rl_store acc) a = Some (lib_name, Region.file_path region))
            rs (rl_audio_datas acc);
  li_set_nodup : NoDup (rl_audio_data_set acc);
  li_set_elem : forall a, a ∈ rl_audio_data_set acc <-> a ∈ rl_audio_datas acc;
  li_dom : forall a, a ∈ dom_of (rl_store acc) <-> a ∈ dom_of s \/ a ∈ rl_audio_datas acc;
  li_old : forall a, a ∈ dom_of s ->
             key_at (rl_store acc) a = key_at s a /\ refs_at (rl_store acc) a = refs_at s a;
  li_new : forall a, a ∈ dom_of (rl_store acc) -> a ∉ dom_of s ->
             refs_at (rl_store acc) a = Some 0%Z;
}.
End RegionLoop.

(** Running a schedule of the interleaving machine. *)
Fixpoint run_events (es : list DecodeRace.Event) (s : DecodeRace.Sys)
    : option DecodeRace.Sys :=
  match es with
  | [] => Some s
  | e :: es' =>
      match DecodeRace.step e s with
      | Some s' => run_events es' s'
      | None => None
      end
  end.

End Invariants.
Import Invariants.

(** ** Concrete instances used by the examples *)

Module Examples.

(** Four characters packed little-endian, a length-based hash, exact path
    comparison, prefix containment, three layers. *)
Definition example_U32FromChars (s : string) : Z :=
  match s with
  | String a (String b (String c (String d _))) =>
      (Z.of_N (Ascii.N_of_ascii a) + 256 * Z.of_N (Ascii.N_of_ascii b)
       + 65536 * Z.of_N (Ascii.N_of_ascii c) + 16777216 * Z.of_N (Ascii.N_of_ascii d))%Z
  | _ => 0%Z
  end.

Definition example_Hash32 (s : string) : Z := (Z.of_nat (String.length s) mod 2 ^ 32)%Z.

Definition example_platform : Platform :=
  {| U32FromChars := example_U32FromChars;
     Hash32 := example_Hash32;
     Hash64 := example_Hash32;
     path_Equal := String.eqb;
     path_IsWithinDirectory := fun p dir => String.prefix dir p;
     k_num_layers := 3;
     k_builtin_library_name := "Built-in";
     EmbeddedIrs := ∅;
     RoundedPercent := fun n d => (100 * Z.of_nat n / Z.of_nat d)%Z |}.

#[local] Existing Instance example_platform.

Definition region (p : string) : Region.t := {| Region.file_path := p |}.

(** Two instruments of one region each, and one of four regions over two
    files. *)
Definition inst_x : Instrument.t :=
  {| Instrument.name := "X"; Instrument.audio_file_path_for_waveform := "a.wav";
     Instrument.regions := [region "a.wav"] |}.

Definition inst_y : Instrument.t :=
  {| Instrument.name := "Y"; Instrument.audio_file_path_for_waveform := "b.wav";
     Instrument.regions := [region "b.wav"] |}.

Definition inst_shared : Instrument.t :=
  {| Instrument.name := "Groups And Refs"; Instrument.audio_file_path_for_waveform := "a.wav";
     Instrument.regions := [region "a.wav"; region "b.wav"; region "a.wav"; region "b.wav"] |}.

Definition library : Library.t :=
  {| Library.name := "Lib";
     Library.insts_by_name :=
       <["X" := inst_x]> (<["Y" := inst_y]> (<["Groups And Refs" := inst_shared]> ∅));
     Library.irs_by_name := ∅;
     Library.path := "/libs/lib.mdata";
     Library.file_hash := 7;
     Library.file_format := Mdata |}.

Definition lib_node : LibNode.t :=
  {| LibNode.value := {| ListedLibrary.lib := library; ListedLibrary.instruments := [] |};
     LibNode.reader_uses := 0 |}.

Definition empty_store : Store := {| audio_datas := []; thread_pool_jobs := [] |}.

Definition entry (p : string) (r : Z) (st : LoadingState) : ListedAudioData :=
  {| library_name := "Lib"; path := p;
     audio_data := {| interleaved_samples_size := 0 |};
     refs := r; state := st; error := None |}.

(** A store with a cancelled entry, and one with a shared and an unshared
    pending entry. *)
Definition cancelled_store : Store :=
  {| audio_datas := [(1, entry "a.wav" 0 CompletedCancelled)]; thread_pool_jobs := [] |}.

Definition pending_store : Store :=
  {| audio_datas := [(2, entry "b.wav" 2 PendingLoad); (1, entry "a.wav" 1 PendingLoad)];
     thread_pool_jobs := [2; 1] |}.

Definition server0 : Server.t :=
  {| Server.libraries := {| LibrariesList.live := [(1, lib_node)]; LibrariesList.dead_list := [] |};
     Server.libraries_by_name := <["Lib" := 1]> ∅;
     Server.error_notifications := [];
     Server.scan_folders := [];
     Server.channels := [];
     Server.request_queue := [] |}.

Definition thread_of (s : Server.t) : LoadingThread.t :=
  {| LoadingThread.server := s;
     LoadingThread.libs_async_ctx := {| jobs := []; num_uncompleted_jobs := 0 |};
     LoadingThread.audio := empty_store;
     LoadingThread.pending_results := [];
     LoadingThread.debug_result_id := 0 |}.

(** The server after a client has loaded "Groups And Refs" and still holds
    it: both files are decoded and referenced once. *)
Definition decoded_store : Store :=
  {| audio_datas := [(2, entry "b.wav" 1 CompletedSucessfully);
                     (1, entry "a.wav" 1 CompletedSucessfully)];
     thread_pool_jobs := [] |}.

Definition listed_shared : ListedInstrument.t :=
  {| ListedInstrument.inst :=
       {| LoadedInstrument.instrument := inst_shared;
          LoadedInstrument.audio_datas := [1; 2; 1; 2];
          LoadedInstrument.file_for_gui_waveform := Some 1 |};
     ListedInstrument.refs := 1;
     ListedInstrument.audio_data_set := [1; 2] |}.

Definition server_loaded : Server.t :=
  {| Server.libraries :=
       {| LibrariesList.live :=
            [(1, {| LibNode.value := {| ListedLibrary.lib := library;
                                        ListedLibrary.instruments := [(1, listed_shared)] |};
                    LibNode.reader_uses := 1 |})];
          LibrariesList.dead_list := [] |};
     Server.libraries_by_name := <["Lib" := 1]> ∅;
     Server.error_notifications := [];
     Server.scan_folders :=
       [(1, {| ScanFolder.path := "/libs"; ScanFolder.source := ScanFolder.ExtraFolder;
               ScanFolder.state := ScanFolder.ScannedSuccessfully |})];
     Server.channels := [];
     Server.request_queue := [] |}.

(** A channel that was opened and closed again. *)
Definition closed_channel_thread : LoadingThread.t :=
  LoadingThread.CloseAsyncCommsChannel 1
    (thread_of (LoadingThread.OpenAsyncCommsChannel [] server0).2).

(** A request for a library nobody has. *)
Definition unknown_library_request : PendingResult.t :=
  {| PendingResult.state := PendingResult.AwaitingLibrary;
     PendingResult.request :=
       {| QueuedRequest.id := 1;
          QueuedRequest.request := LoadRequestInstrumentIdWithLayer "foo" "bar" 0;
          QueuedRequest.async_comms_channel := 1 |};
     PendingResult.debug_id := 0 |}.

Definition read_outcomes : ReadOutcomes :=
  {| ReadEntireFile := Value tt; FromPathOrMemory := Value tt; Hash := Value 7%Z;
     Read := Value library |}.

End Examples.

(** ** [AtomicCountdown] ([os/threading.hpp])

    The counter of decode jobs in flight: [LoadAudioAsync] calls [Increase]
    before it queues a job and the job calls [CountDown] when it returns. *)

Module AtomicCountdown.

(** [LargestRepresentableValue<u32>()]. *)
Definition u32_max : Z := (2 ^ 32 - 1)%Z.

(** [CountDown(steps)]: the counter after [SubFetch] and whether the
    waiting threads are woken; [None] is the failed [ASSERT]. *)
Definition CountDown (steps counter : Z) : option (Z * bool) :=
  let current := FetchSub counter steps in
  if decide (current = 0%Z) then Some (current, true)
  else if decide (current < u32_max)%Z then Some (current, false)
  else None.

Definition Increase (steps counter : Z) : Z := FetchAdd counter steps.

End AtomicCountdown.

(** ** Scan folders: construction, [SetExtraScanFolders], scan requests *)

Module ScanFolders.

(** [AllocateUninitialised], the initialisation of the node and [Insert].
    The list template is not among the sources: as in
    [LibrariesList.Insert], the new node is taken to become the head of
    the list. *)
Definition Insert (f : ScanFolder.t) (l : list (ptr * ScanFolder.t))
    : list (ptr * ScanFolder.t) :=
  (fresh_ptr l, f) :: l.

(** A node as both the constructor of the server and
    [SetExtraScanFolders] fill it in. *)
Definition new_folder (source : ScanFolder.Source) (e : string) : ScanFolder.t :=
  {| ScanFolder.path := e; ScanFolder.source := source;
     ScanFolder.state := ScanFolder.NotScanned |}.

(** The scan folders [Server::Server] starts with. *)
Definition initial_scan_folders (always_scanned_folders : list string)
    : list (ptr * ScanFolder.t) :=
  foldl (fun l e => Insert (new_folder ScanFolder.AlwaysScannedFolder e) l)
        [] always_scanned_folders.

(** [Server::Server], up to the start of the loading thread. *)
Definition new_Server (always_scanned_folders : list string)
    (error_notifications : list Item) : Server.t :=
  {| Server.libraries := {| LibrariesList.live := []; LibrariesList.dead_list := [] |};
     Server.libraries_by_name := ∅;
     Server.error_notifications := error_notifications;
     Server.scan_folders := initial_scan_folders always_scanned_folders;
     Server.channels := [];
     Server.request_queue := [] |}.

Definition is_extra (f : ScanFolder.t) : bool :=
  match ScanFolder.source f with
  | ScanFolder.ExtraFolder => true
  | ScanFolder.AlwaysScannedFolder => false
  end.

(** The first loop of [SetExtraScanFolders]: whether the node is removed. *)
Definition dropped (extra_folders : list string) (it : ptr * ScanFolder.t) : bool :=
  is_extra it.2 && negb (bool_decide (ScanFolder.path it.2 ∈ extra_folders)).

(** The body of its second loop. *)
Definition add_extra (folders : list (ptr * ScanFolder.t)) (e : string)
    : list (ptr * ScanFolder.t) :=
  let already_present :=
    existsb (fun l => bool_decide (ScanFolder.path l.2 = e)) folders in
  if already_present then folders
  else Insert (new_folder ScanFolder.ExtraFolder e) folders.

Definition set_extra_folders (extra_folders : list string)
    (folders : list (ptr * ScanFolder.t)) : list (ptr * ScanFolder.t) :=
  foldl add_extra
        (List.filter (fun it => negb (dropped extra_folders it)) folders)
        extra_folders.

(** [SetExtraScanFolders]. *)
Definition SetExtraScanFolders (extra_folders : list string) (server : Server.t)
    : Server.t :=
  Server.with_scan_folders
    (set_extra_folders extra_folders (Server.scan_folders server)) server.

(** [RequestScanningIfNeeded]: the flag it returns and the folders after
    the loop. *)
Definition RequestScanningIfNeeded (scan_folders : list (ptr * ScanFolder.t))
    : bool * list (ptr * ScanFolder.t) :=
  foldl (fun acc n =>
           let '(exchanged, cell, _) :=
             CompareExchangeStrong (ScanFolder.state n.2) ScanFolder.NotScanned
                                   ScanFolder.RescanRequested in
           (acc.1 || exchanged, acc.2 ++ [(n.1, ScanFolder.set_state cell n.2)]))
        (false, []) scan_folders.

End ScanFolders.

(** ** Queueing library jobs ([AddAsyncJob]) and triggering scans *)

Module JobQueue.

(** [AddAsyncJob], the caller's side: the job becomes the head of the job
    list and is counted; its closure runs later on the pool. *)
Definition AddAsyncJob (data : JobData) (async_ctx : LibrariesAsyncContext.t)
    : LibrariesAsyncContext.t :=
  {| jobs := {| data := data; completed := false; handled := false |} :: jobs async_ctx;
     num_uncompleted_jobs := FetchAdd (num_uncompleted_jobs async_ctx) 1 |}.

(** The [ReadLibrary] case of the closure that [AddAsyncJob] queues: what
    the job leaves in [args.path_or_memory] and in [result].  A Lua
    library given by its path is read into memory first, and the bytes
    then take the place of the path in the job's arguments, which is where
    the handler of the completed job looks for the path. *)
Definition run_read_library (o : ReadOutcomes) (path_or_memory : PathOrMemory)
    (format : FileFormat) (libraries : LibrariesList.t)
    : PathOrMemory * option (ErrorCodeOr Library.t) :=
  (match format, path_or_memory, ReadEntireFile o with
   | Lua, PathString _, Value _ => Memory
   | _, _, _ => path_or_memory
   end,
   try_job o path_or_memory format libraries).

(** One iteration of "trigger folder scanning if any are marked as
    'rescan-requested'"; the loop runs on the loading thread, which finds
    every node of the list alive. *)
Definition trigger_scan (acc : LibrariesAsyncContext.t * list (ptr * ScanFolder.t))
    (node : ptr * ScanFolder.t) : LibrariesAsyncContext.t * list (ptr * ScanFolder.t) :=
  let '(exchanged, cell, _) :=
    CompareExchangeStrong (ScanFolder.state node.2) ScanFolder.RescanRequested
                          ScanFolder.Scanning in
  if exchanged
  then (AddAsyncJob (ScanFolder node.1 (Value tt)) acc.1,
        acc.2 ++ [(node.1, ScanFolder.set_state cell node.2)])
  else (acc.1, acc.2 ++ [node]).

Definition trigger_scans (async_ctx : LibrariesAsyncContext.t) (server : Server.t)
    : LibrariesAsyncContext.t * Server.t :=
  let '(async_ctx', folders) :=
    foldl trigger_scan (async_ctx, []) (Server.scan_folders server) in
  (async_ctx', Server.with_scan_folders folders server).

(** [UpdateLoadingThread] when no directory watcher could be created:
    scans are triggered, then the completed jobs are handled and the
    registry is tidied. *)
Definition UpdateLoadingThread_unwatched `{Platform}
    (async_ctx : LibrariesAsyncContext.t) (server : Server.t)
    : option (LibrariesAsyncContext.t * Server.t) :=
  let '(async_ctx1, server1) := trigger_scans async_ctx server in
  Registry.UpdateLoadingThread async_ctx1 server1.

(** One iteration of the inner do/while of [LoadingThreadLoop] with that
    update: the requests are consumed, scans are triggered and completed
    jobs handled, and the pending results are advanced and dispatched. *)
Definition loop_iteration_unwatched `{Platform} (m : LoadingThread.t)
    : option LoadingThread.t :=
  let m1 := LoadingThread.consume_requests m in
  match UpdateLoadingThread_unwatched (LoadingThread.libs_async_ctx m1)
                                      (LoadingThread.server m1) with
  | None => None
  | Some (async_ctx', server') =>
      LoadingThread.process_pending_results
        {| LoadingThread.server := server';
           LoadingThread.libs_async_ctx := async_ctx';
           LoadingThread.audio := LoadingThread.audio m1;
           LoadingThread.pending_results := LoadingThread.pending_results m1;
           LoadingThread.debug_result_id := LoadingThread.debug_result_id m1 |}
  end.

End JobQueue.

(** ** [RemoveUnreferencedObjects] and the destructors it runs *)

Module Collector.

(** The [ASSERT] of [ListedAudioData::~ListedAudioData]. *)
Definition destructible (d : ListedAudioData) : bool :=
  match state d with
  | CompletedCancelled | CompletedWithError | CompletedSucessfully => true
  | PendingLoad | PendingCancel | Loading => false
  end.

(** [a->refs.FetchSub(1)]. *)
Definition release_audio (p : ptr) (s : Store) : Store :=
  {| audio_datas := update_ptr p (fun d => AudioStore.set_refs (FetchSub (AudioStore.refs d) 1) d)
                      (audio_datas s);
     thread_pool_jobs := thread_pool_jobs s |}.

(** [ListedInstrument::~ListedInstrument], on the audio list and on the
    [reader_uses] of the library node, which [library_refs] refers to. *)
Definition destroy_instrument (i : ListedInstrument.t) (acc : Store * Z) : Store * Z :=
  (foldl (fun s a => release_audio a s) acc.1 (ListedInstrument.audio_data_set i),
   FetchSub acc.2 1).

Definition unreferenced (i : ptr * ListedInstrument.t) : bool :=
  bool_decide (ListedInstrument.refs i.2 = 0%Z).

(** [instruments.RemoveIf(refs == 0)] on one library node. *)
Definition remove_instruments (node : LibNode.t) (s : Store) : LibNode.t * Store :=
  let instruments := ListedLibrary.instruments (LibNode.value node) in
  let '(s', reader_uses) :=
    foldl (fun acc i => if unreferenced i then destroy_instrument i.2 acc else acc)
          (s, LibNode.reader_uses node) instruments in
  ({| LibNode.value :=
        {| ListedLibrary.lib := ListedLibrary.lib (LibNode.value node);
           ListedLibrary.instruments :=
             List.filter (fun i => negb (unreferenced i)) instruments |};
      LibNode.reader_uses := reader_uses |},
   s').

(** The loop over the nodes of a list of libraries. *)
Fixpoint remove_instruments_of (l : list (ptr * LibNode.t)) (s : Store)
    : list (ptr * LibNode.t) * Store :=
  match l with
  | [] => ([], s)
  | (p, node) :: l' =>
      let '(node', s1) := remove_instruments node s in
      let '(l'', s2) := remove_instruments_of l' s1 in
      ((p, node') :: l'', s2)
  end.

(** [audio_datas.RemoveIf(refs == 0)]; [None] is the failed [ASSERT] of
    the destructor of a removed entry. *)
Definition remove_audio (s : Store) : option Store :=
  if forallb (fun e => negb (bool_decide (refs e.2 = 0%Z)) || destructible e.2)
             (audio_datas s)
  then Some {| audio_datas :=
                 List.filter (fun e => negb (bool_decide (refs e.2 = 0%Z))) (audio_datas s);
               thread_pool_jobs := thread_pool_jobs s |}
  else None.

(** Modelled from the spec: [DeleteRemovedAndUnreferenced] belongs to the
    list template, which is not among the sources.  A removed library is
    "deferred-deleted once unreferenced": the removed nodes that no reader
    uses are freed. *)
Definition DeleteRemovedAndUnreferenced (l : LibrariesList.t) : LibrariesList.t :=
  {| LibrariesList.live := LibrariesList.live l;
     LibrariesList.dead_list :=
       List.filter (fun n => negb (bool_decide (LibNode.reader_uses n.2 = 0%Z)))
                   (LibrariesList.dead_list l) |}.

(** [RemoveUnreferencedObjects]. *)
Definition RemoveUnreferencedObjects (server : Server.t) (audio : Store)
    : option (Server.t * Store) :=
  let channels :=
    List.filter (fun h => AsyncCommsChannel.used h.2) (Server.channels server) in
  let '(live, audio1) :=
    remove_instruments_of (LibrariesList.live (Server.libraries server)) audio in
  let '(dead_list, audio2) :=
    remove_instruments_of (LibrariesList.dead_list (Server.libraries server)) audio1 in
  match remove_audio audio2 with
  | None => None
  | Some audio3 =>
      Some (Server.with_libraries
              (DeleteRemovedAndUnreferenced
                 {| LibrariesList.live := live; LibrariesList.dead_list := dead_list |})
              (Server.with_channels channels server),
            audio3)
  end.

End Collector.

(** ** Vocabulary of the further properties *)

Module Accounting.

Definition folder_path (n : ptr * ScanFolder.t) : string := ScanFolder.path n.2.

Definition folder_state (n : ptr * ScanFolder.t) : ScanFolder.State := ScanFolder.state n.2.

(** A folder's node with another scan state. *)
Definition in_state (st : ScanFolder.State) (n : ptr * ScanFolder.t) : ptr * ScanFolder.t :=
  (n.1, ScanFolder.set_state st n.2).

(** The jobs the loading thread has not handled yet. *)
Definition unhandled (l : list Job) : list Job :=
  List.filter (fun j => negb (handled j)) l.

(** The counter of the job context counts the jobs not handled yet, and
    the job list is short enough for a u32 to count it. *)
Definition jobs_counted (async_ctx : LibrariesAsyncContext.t) : Prop :=
  num_uncompleted_jobs async_ctx = Z.of_nat (length (unhandled (jobs async_ctx)))
  /\ (Z.of_nat (length (jobs async_ctx)) < 2 ^ 32)%Z.

(** A job the handling loop passes over. *)
Definition passed_over (j : Job) : bool := handled j || negb (completed j).

(** The scan job queued for a folder. *)
Definition scan_job (n : ptr * ScanFolder.t) : Job :=
  {| data := ScanFolder n.1 (Value tt); completed := false; handled := false |}.

Definition rescan_requested (n : ptr * ScanFolder.t) : bool :=
  bool_decide (ScanFolder.state n.2 = ScanFolder.RescanRequested).

(** A folder whose scan is under way or over: no request and no update
    starts a scan of it. *)
Definition scan_started (n : ptr * ScanFolder.t) : Prop :=
  ScanFolder.state n.2 <> ScanFolder.NotScanned
  /\ ScanFolder.state n.2 <> ScanFolder.RescanRequested.

(** Every node of a list of libraries, removed or not. *)
Definition nodes (l : LibrariesList.t) : list (ptr * LibNode.t) :=
  LibrariesList.live l ++ LibrariesList.dead_list l.

Definition library_name_of (n : ptr * LibNode.t) : string :=
  Library.name (Registry.lib_of n).

(** [grows l l']: every node of [l] is a node of [l'], and the addresses
    stay distinct. *)
Definition grows (l l' : LibrariesList.t) : Prop :=
  NoDup (map fst (nodes l)) ->
  NoDup (map fst (nodes l')) /\ (forall x, x ∈ nodes l -> x ∈ nodes l').

(** The listed instruments of a list of library nodes. *)
Definition instruments_of (l : list (ptr * LibNode.t)) : list ListedInstrument.t :=
  flat_map (fun n => map snd (ListedLibrary.instruments (LibNode.value n.2))) l.

Definition listed_instruments (server : Server.t) : list ListedInstrument.t :=
  instruments_of (nodes (Server.libraries server)).

(** The audio entries a list of instruments names, with repetition. *)
Definition audio_of (insts : list ListedInstrument.t) : list ptr :=
  flat_map ListedInstrument.audio_data_set insts.

(** How many times [a] occurs in a list of addresses. *)
Definition occurrences (a : ptr) (l : list ptr) : nat :=
  length (List.filter (fun x => bool_decide (x = a)) l).

(** Every audio entry that a listed instrument names is in the store, and
    its count is a u32 at least as large as the number of times listed
    instruments name it. *)
Definition audio_accounted (insts : list ListedInstrument.t) (s : Store) : Prop :=
  forall a, a ∈ audio_of insts ->
    exists d, lookup_ptr a (audio_datas s) = Some d
              /\ (Z.of_nat (occurrences a (audio_of insts)) <= refs d < 2 ^ 32)%Z.

Definition instrument_unreferenced (i : ListedInstrument.t) : bool :=
  bool_decide (ListedInstrument.refs i = 0%Z).

(** Whether a pending result has reached a state that is dispatched. *)
Definition terminal (pending_result : PendingResult.t) : bool :=
  match LoadingThread.terminal_result pending_result with
  | Some _ => true
  | None => false
  end.

(** The results that the pending results of [l] owe to the channel [ch],
    in the order of [l]. *)
Definition results_for (ch : ptr) (l : list PendingResult.t) : list LoadResult.t :=
  omap (fun pending_result =>
          if bool_decide (LoadingThread.channel_of pending_result = ch)
          then LoadingThread.terminal_result pending_result else None) l.

(** The requests of a queue whose channel is in use. *)
Definition accepted (server : Server.t) (queue : list QueuedRequest.t)
    : list QueuedRequest.t :=
  List.filter (fun q => LoadingThread.channel_used (QueuedRequest.async_comms_channel q) server)
              queue.

(** What a channel desires on a layer: [desired_inst[layer]] of the
    channel at [ch]. *)
Definition desired_slot (ch : ptr) (layer : nat) (m : LoadingThread.t)
    : option (option InstPtr) :=
  c ← lookup_ptr ch (channels_of m); AsyncCommsChannel.desired_inst c !! layer.

(** A pending result whose library has not been resolved yet and whose
    request is for layer [layer] of the channel at [ch]: resolving it is
    what writes the channel's slot of that layer. *)
Definition unresolved_for (ch : ptr) (layer : nat) (pending_result : PendingResult.t)
    : Prop :=
  PendingResult.state pending_result = PendingResult.AwaitingLibrary
  /\ LoadingThread.channel_of pending_result = ch
  /\ LoadingThread.LayerIndex pending_result = Some layer.

(** A queued request for layer [layer] of the channel at [ch]. *)
Definition requests_layer (ch : ptr) (layer : nat) (q : QueuedRequest.t) : Prop :=
  QueuedRequest.async_comms_channel q = ch
  /\ match QueuedRequest.request q with
     | LoadRequestInstrumentIdWithLayer _ _ layer_index => layer_index = layer
     | IrId _ _ => False
     end.

(** Whether a result is a success that holds the instrument [i], and how
    many results of a queue do. *)
Definition holds_instrument (i : InstPtr) (r : LoadResult.t) : bool :=
  match LoadResult.result r with
  | LoadResult.Success (RefInstrument j) => bool_decide (j = i)
  | _ => false
  end.

Definition results_holding (i : InstPtr) (results : list LoadResult.t) : nat :=
  length (List.filter (holds_instrument i) results).

(** A state of a decode job's entry in which the entry may be destroyed. *)
Definition completed_state (st : LoadingState) : Prop :=
  st = CompletedSucessfully \/ st = CompletedWithError \/ st = CompletedCancelled.

End Accounting.

(** ** Further concrete instances *)

Module Scenarios.
Import Examples.
#[local] Existing Instance example_platform.

Definition note (n : Z) (text : string) : Item :=
  {| title := text; message := EmptyString; error_code := None; id := n |}.

Definition notes : list Item := [note 1 "a"; note 2 "b"].

(** An always-scanned folder that was scanned and an extra folder whose
    rescan was requested. *)
Definition folders : list (ptr * ScanFolder.t) :=
  [(2, {| ScanFolder.path := "/extra"; ScanFolder.source := ScanFolder.ExtraFolder;
          ScanFolder.state := ScanFolder.RescanRequested |});
   (1, {| ScanFolder.path := "/always";
          ScanFolder.source := ScanFolder.AlwaysScannedFolder;
          ScanFolder.state := ScanFolder.ScannedSuccessfully |})].

Definition server_folders : Server.t := Server.with_scan_folders folders server0.

Definition no_jobs : LibrariesAsyncContext.t := {| jobs := []; num_uncompleted_jobs := 0 |}.

(** A scan of folder 2 that has completed, and a read job that found its
    library registered already. *)
Definition scanned_job : Job :=
  {| data := ScanFolder 2 (Value tt); completed := true; handled := false |}.

Definition skipped_job : Job :=
  {| data := ReadLibrary (PathString "/libs/copy.mdata") Mdata None;
     completed := true; handled := false |}.

Definition one_job (j : Job) : LibrariesAsyncContext.t :=
  {| jobs := [j]; num_uncompleted_jobs := 1 |}.

(** The loaded server with a channel opened, both files decoded, and a
    request for "Groups And Refs" that has completed. *)
Definition thread_with_channel : LoadingThread.t :=
  LoadingThread.with_audio decoded_store
    (thread_of (LoadingThread.OpenAsyncCommsChannel [] server_loaded).2).

Definition completed_request : PendingResult.t :=
  {| PendingResult.state := PendingResult.CompletedSuccessfully (RefInstrument (1, 1));
     PendingResult.request :=
       {| QueuedRequest.id := 1;
          QueuedRequest.request := LoadRequestInstrumentIdWithLayer "Lib" "Groups And Refs" 0;
          QueuedRequest.async_comms_channel := 1 |};
     PendingResult.debug_id := 0 |}.

(** A channel is opened on the server of one library and a request for
    the library "foo" is sent. *)
Definition unknown_request : QueuedRequest.t :=
  {| QueuedRequest.id := 1;
     QueuedRequest.request := LoadRequestInstrumentIdWithLayer "foo" "bar" 0;
     QueuedRequest.async_comms_channel := 1 |}.

Definition unknown_request_thread : LoadingThread.t :=
  thread_of
    (LoadingThread.SendAsyncLoadRequest 1 1 (LoadRequestInstrumentIdWithLayer "foo" "bar" 0)
       (LoadingThread.OpenAsyncCommsChannel [] server0).2).

(** The same request as the first one sent to a server that was just
    constructed with one always-scanned folder. *)
Definition first_request_thread : LoadingThread.t :=
  thread_of
    (LoadingThread.SendAsyncLoadRequest 1 1 (LoadRequestInstrumentIdWithLayer "foo" "bar" 0)
       (LoadingThread.OpenAsyncCommsChannel [] (ScanFolders.new_Server ["/always"] [])).2).

(** The file of the library edited and read again, and the library as
    read from a copy of the file at another path. *)
Definition edited_library : Library.t := Library.with_file_hash 8 library.

Definition copied_library : Library.t :=
  {| Library.name := Library.name library;
     Library.insts_by_name := Library.insts_by_name library;
     Library.irs_by_name := Library.irs_by_name library;
     Library.path := "/libs/copy.mdata";
     Library.file_hash := Library.file_hash library;
     Library.file_format := Mdata |}.

Definition copy_outcomes : ReadOutcomes :=
  {| ReadEntireFile := Value tt; FromPathOrMemory := Value tt; Hash := Value 7%Z;
     Read := Value copied_library |}.

(** A read job of the library's file that first fails in the parser and
    then succeeds on the edited file. *)
Definition failing_outcomes : ReadOutcomes :=
  {| ReadEntireFile := Value tt; FromPathOrMemory := Value tt; Hash := Value 8%Z;
     Read := Error (OtherError 5) |}.

Definition edited_outcomes : ReadOutcomes :=
  {| ReadEntireFile := Value tt; FromPathOrMemory := Value tt; Hash := Value 8%Z;
     Read := Value library |}.

(** A server that has scanned "/libs" and registered the library "Other"
    only.  Two read jobs of a later scan have completed: the one queued
    last read "Lib", the one queued before it found the hash of its file,
    a copy of the file of "Other", registered.  The scan job itself was
    handled by an earlier update.  A client has opened a channel and asks
    for an instrument of "Lib". *)
Definition other_library : Library.t :=
  {| Library.name := "Other"; Library.insts_by_name := ∅; Library.irs_by_name := ∅;
     Library.path := "/libs/other.mdata"; Library.file_hash := 9;
     Library.file_format := Mdata |}.

Definition scanned_libs_folder : list (ptr * ScanFolder.t) :=
  [(1, {| ScanFolder.path := "/libs"; ScanFolder.source := ScanFolder.ExtraFolder;
          ScanFolder.state := ScanFolder.ScannedSuccessfully |})].

Definition server_other : Server.t :=
  {| Server.libraries :=
       {| LibrariesList.live :=
            [(1, {| LibNode.value := {| ListedLibrary.lib := other_library;
                                        ListedLibrary.instruments := [] |};
                    LibNode.reader_uses := 0 |})];
          LibrariesList.dead_list := [] |};
     Server.libraries_by_name := <["Other" := 1]> ∅;
     Server.error_notifications := [];
     Server.scan_folders := scanned_libs_folder;
     Server.channels := [];
     Server.request_queue := [] |}.

Definition other_copy_outcomes : ReadOutcomes :=
  {| ReadEntireFile := Value tt; FromPathOrMemory := Value tt; Hash := Value 9%Z;
     Read := Value other_library |}.

Definition completed_read (path : string) (o : ReadOutcomes) (libraries : LibrariesList.t)
    : Job :=
  {| data := ReadLibrary (PathString path) Mdata
               (try_job o (PathString path) Mdata libraries);
     completed := true; handled := false |}.

Definition stale_index_jobs : list Job :=
  [completed_read "/libs/lib.mdata" read_outcomes (Server.libraries server_other);
   completed_read "/libs/other-copy.mdata" other_copy_outcomes (Server.libraries server_other);
   {| data := ScanFolder 1 (Value tt); completed := true; handled := true |}].

Definition stale_index_thread : LoadingThread.t :=
  {| LoadingThread.server :=
       LoadingThread.SendAsyncLoadRequest 1 1 (LoadRequestInstrumentIdWithLayer "Lib" "X" 0)
         (LoadingThread.OpenAsyncCommsChannel [] server_other).2;
     LoadingThread.libs_async_ctx :=
       {| jobs := stale_index_jobs; num_uncompleted_jobs := 2 |};
     LoadingThread.audio := empty_store;
     LoadingThread.pending_results := [];
     LoadingThread.debug_result_id := 0 |}.

(** A library with one impulse response, whose audio is in the store
    already, decoded and referenced by nobody; a client asks for it. *)
Definition reverb_library : Library.t :=
  {| Library.name := "Reverbs"; Library.insts_by_name := ∅;
     Library.irs_by_name :=
       <["Hall" := {| ImpulseResponse.name := "Hall"; ImpulseResponse.path := "hall.flac" |}]> ∅;
     Library.path := "/libs/reverbs.mdata"; Library.file_hash := 11;
     Library.file_format := Mdata |}.

Definition ir_store : Store :=
  {| audio_datas :=
       [(1, {| library_name := "Reverbs"; path := "hall.flac";
               audio_data := {| interleaved_samples_size := 0 |};
               refs := 0; state := CompletedSucessfully; error := None |})];
     thread_pool_jobs := [] |}.

Definition ir_server : Server.t :=
  {| Server.libraries :=
       {| LibrariesList.live :=
            [(1, {| LibNode.value := {| ListedLibrary.lib := reverb_library;
                                        ListedLibrary.instruments := [] |};
                    LibNode.reader_uses := 0 |})];
          LibrariesList.dead_list := [] |};
     Server.libraries_by_name := <["Reverbs" := 1]> ∅;
     Server.error_notifications := [];
     Server.scan_folders := scanned_libs_folder;
     Server.channels := [];
     Server.request_queue := [] |}.

Definition ir_request_thread : LoadingThread.t :=
  LoadingThread.with_audio ir_store
    (thread_of
       (LoadingThread.SendAsyncLoadRequest 1 1 (IrId "Reverbs" "Hall")
          (LoadingThread.OpenAsyncCommsChannel [] ir_server).2)).

(** The server that has scanned "/libs" and registered "Lib", with no
    instrument listed and no audio in the store.  A client opens a channel
    and asks for the instrument X on layer 0. *)
Definition server_idle : Server.t :=
  {| Server.libraries :=
       {| LibrariesList.live := [(1, lib_node)]; LibrariesList.dead_list := [] |};
     Server.libraries_by_name := <["Lib" := 1]> ∅;
     Server.error_notifications := [];
     Server.scan_folders := scanned_libs_folder;
     Server.channels := [];
     Server.request_queue := [] |}.

Definition request_x_thread : LoadingThread.t :=
  thread_of
    (LoadingThread.SendAsyncLoadRequest 1 1 (LoadRequestInstrumentIdWithLayer "Lib" "X" 0)
       (LoadingThread.OpenAsyncCommsChannel [] server_idle).2).

(** The request for X as the loop keeps it once popped, and the
    instrument the library node lists for it once resolved. *)
Definition pending_x : PendingResult.t :=
  {| PendingResult.state := PendingResult.AwaitingLibrary;
     PendingResult.request :=
       {| QueuedRequest.id := 1;
          QueuedRequest.request := LoadRequestInstrumentIdWithLayer "Lib" "X" 0;
          QueuedRequest.async_comms_channel := 1 |};
     PendingResult.debug_id := 0 |}.

Definition listed_x : ListedInstrument.t :=
  {| ListedInstrument.inst :=
       {| LoadedInstrument.instrument := inst_x;
          LoadedInstrument.audio_datas := [1];
          LoadedInstrument.file_for_gui_waveform := Some 1 |};
     ListedInstrument.refs := 0;
     ListedInstrument.audio_data_set := [1] |}.

(** The decode job of the entry at [a] stores its result, a success. *)
Definition decode_done (a : ptr) (m : LoadingThread.t) : LoadingThread.t :=
  LoadingThread.with_audio (store_state a CompletedSucessfully (LoadingThread.audio m)) m.

(** The client asks for the instrument Y on the same layer of the same
    channel. *)
Definition request_y (m : LoadingThread.t) : LoadingThread.t :=
  LoadingThread.with_server
    (LoadingThread.SendAsyncLoadRequest 2 1 (LoadRequestInstrumentIdWithLayer "Lib" "Y" 0)
       (LoadingThread.server m)) m.

(** The request for X is taken up by one iteration; its file is decoded
    and the request for Y arrives; the next iteration runs up to the end
    of the pass that resolves libraries, and to its own end. *)
Definition x_awaiting_audio : option LoadingThread.t :=
  JobQueue.loop_iteration_unwatched request_x_thread.

Definition y_resolved : option LoadingThread.t :=
  m1 ← x_awaiting_audio;
  let m2 := LoadingThread.consume_requests (request_y (decode_done 1 m1)) in
  '(async_ctx, server) ← JobQueue.UpdateLoadingThread_unwatched
                           (LoadingThread.libs_async_ctx m2) (LoadingThread.server m2);
  LoadingThread.run_pass LoadingThread.fill_in_library
    {| LoadingThread.server := server; LoadingThread.libs_async_ctx := async_ctx;
       LoadingThread.audio := LoadingThread.audio m2;
       LoadingThread.pending_results := LoadingThread.pending_results m2;
       LoadingThread.debug_result_id := LoadingThread.debug_result_id m2 |}.

Definition x_superseded : option LoadingThread.t :=
  m1 ← x_awaiting_audio;
  JobQueue.loop_iteration_unwatched (request_y (decode_done 1 m1)).

Definition x_alone : option LoadingThread.t :=
  m1 ← x_awaiting_audio;
  JobQueue.loop_iteration_unwatched (decode_done 1 m1).

(** A decode that was cancelled before it started, and the reload that
    queues the next job once the first has made its exchange to
    [CompletedCancelled]. *)
Definition reload_schedule : list DecodeRace.Event :=
  [DecodeRace.EvCancel 1; DecodeRace.EvJob 0 false false; DecodeRace.EvJob 0 false false;
   DecodeRace.EvTriggerReload; DecodeRace.EvOrchContinue; DecodeRace.EvOrchContinue].

Definition reloaded_sys : DecodeRace.Sys :=
  {| DecodeRace.cell := PendingLoad; DecodeRace.jobs := [DecodeRace.JobQueued];
     DecodeRace.orch := DecodeRace.OrchIdle |}.

(** A decode that ran to its end without interference. *)
Definition decode_schedule : list DecodeRace.Event :=
  [DecodeRace.EvJob 0 false false; DecodeRace.EvJob 0 false false;
   DecodeRace.EvJob 0 false true].

Definition decoded_sys : DecodeRace.Sys :=
  {| DecodeRace.cell := CompletedSucessfully; DecodeRace.jobs := [];
     DecodeRace.orch := DecodeRace.OrchIdle |}.

End Scenarios.

(** * Properties *)

(** ** Address-keyed lists *)

Section PtrLists.
Context {A : Type}.
Implicit Types (l : list (ptr * A)) (p q : ptr) (f : A -> A).

Lemma lookup_ptr_update_eq p f l :
  lookup_ptr p (update_ptr p f l) = f <$> lookup_ptr p l.
Proof.
  induction l as [|[q a] l IH]; simpl; [done|].
  destruct (decide (q = p)) as [->|Hne]; simpl; case_decide; done.
Qed.

Lemma lookup_ptr_update_ne p q f l :
  p <> q -> lookup_ptr q (update_ptr p f l) = lookup_ptr q l.
Proof.
  intros Hpq. induction l as [|[r a] l IH]; simpl; [done|].
  destruct (decide (r = p)) as [->|Hne]; simpl; case_decide; done.
Qed.

Lemma map_fst_update_ptr p f l : map fst (update_ptr p f l) = map fst l.
Proof.
  induction l as [|[q a] l IH]; simpl; [done|].
  rewrite IH. by destruct (decide (q = p)).
Qed.

Lemma update_ptr_app p f l1 l2 :
  update_ptr p f (l1 ++ l2) = update_ptr p f l1 ++ update_ptr p f l2.
Proof. apply map_app. Qed.

Lemma lookup_ptr_Some_elem p a l : lookup_ptr p l = Some a -> (p, a) ∈ l.
Proof.
  induction l as [|[q b] l IH]; simpl; [done|].
  destruct (decide (q = p)) as [->|Hne]; intros Hl.
  - injection Hl as ->. apply elem_of_cons; by left.
  - apply elem_of_cons; right; apply IH, Hl.
Qed.

Lemma elem_map_fst p a l : (p, a) ∈ l -> p ∈ map fst l.
Proof.
  induction l as [|[q b] l IH]; intros Hin.
  - by apply not_elem_of_nil in Hin.
  - apply elem_of_cons in Hin as [Heq|Hin]; simpl.
    + injection Heq as -> ->. apply elem_of_cons; by left.
    + apply elem_of_cons; right; apply IH, Hin.
Qed.

Lemma elem_lookup_ptr p a l :
  NoDup (map fst l) -> (p, a) ∈ l -> lookup_ptr p l = Some a.
Proof.
  induction l as [|[q b] l IH]; simpl; intros Hnd Hin.
  - by apply not_elem_of_nil in Hin.
  - apply NoDup_cons in Hnd as [Hq Hnd].
    apply elem_of_cons in Hin as [Heq|Hin].
    + injection Heq as -> ->. by case_decide.
    + destruct (decide (q = p)) as [->|Hne]; [|by apply IH].
      exfalso. apply Hq. eapply elem_map_fst, Hin.
Qed.

Lemma lookup_ptr_None p l : p ∉ map fst l -> lookup_ptr p l = None.
Proof.
  induction l as [|[q b] l IH]; simpl; intros Hn; [done|].
  apply not_elem_of_cons in Hn as [Hne Hn].
  case_decide; [congruence|]. by apply IH.
Qed.

Lemma lookup_ptr_is_Some p l : p ∈ map fst l -> is_Some (lookup_ptr p l).
Proof.
  induction l as [|[q b] l IH]; simpl; intros Hin.
  - by apply not_elem_of_nil in Hin.
  - case_decide; [by eexists|]. apply IH.
    apply elem_of_cons in Hin as [?|?]; [congruence|done].
Qed.

Lemma le_foldr_max (x : nat) (xs : list nat) : x ∈ xs -> x <= foldr Nat.max 0 xs.
Proof.
  induction xs as [|y xs IH]; intros Hin.
  - by apply not_elem_of_nil in Hin.
  - apply elem_of_cons in Hin as [->|Hin]; simpl; [lia|].
    specialize (IH Hin). lia.
Qed.

Lemma fresh_ptr_fresh l : fresh_ptr l ∉ map fst l.
Proof.
  intros Hin. apply le_foldr_max in Hin. unfold fresh_ptr in Hin. lia.
Qed.

End PtrLists.

(** ** Channels *)

(** C10: the channel returned by [OpenAsyncCommsChannel] is marked used, has
    one loading-percent slot per layer and every slot holds -1, the
    not-loading value a poll reads back. *)
Theorem OpenAsyncCommsChannel_fresh_channel `{Platform}
    (error_notifications : list Item) (s : Server.t) :
  exists c,
    lookup_ptr (LoadingThread.OpenAsyncCommsChannel error_notifications s).1
               (Server.channels (LoadingThread.OpenAsyncCommsChannel error_notifications s).2) = Some c
    /\ AsyncCommsChannel.used c = true
    /\ length (AsyncCommsChannel.instrument_loading_percents c) = k_num_layers
    /\ Forall (fun percent => percent = (-1)%Z) (AsyncCommsChannel.instrument_loading_percents c)
    /\ AsyncCommsChannel.results c = [].
Proof.
  eexists. simpl. split; [by case_decide|]. simpl.
  repeat split; [apply length_replicate|].
  apply Forall_forall. intros x Hx. by apply elem_of_replicate in Hx as [-> _].
Qed.

(** ** Reference counts of results *)

(** C1 (what the code does): changing the reference count of a successful
    impulse-response result changes nothing at all, because the [Ir] case of
    [LoadResult::ChangeRefCount] leaves the switch before it reaches the
    call; in particular the [refs] of the audio entry stay as they were. *)
Theorem ChangeRefCount_ir_result_no_effect (change : RefCountChange) (request_id : Z)
    (a : ptr) (m : LoadingThread.t) :
  LoadingThread.ChangeRefCount change
    {| LoadResult.id := request_id; LoadResult.result := LoadResult.Success (RefIr a) |} m = m.
Proof. reflexivity. Qed.

(** ** [map] and membership *)

Lemma elem_of_map_2 {A B} (f : A -> B) (l : list A) (x : A) : x ∈ l -> f x ∈ map f l.
Proof. intros Hx. apply list_elem_of_In, in_map. by apply list_elem_of_In. Qed.

Lemma elem_of_map_1 {A B} (f : A -> B) (l : list A) (y : B) :
  y ∈ map f l -> exists x, y = f x /\ x ∈ l.
Proof.
  intros Hy. apply list_elem_of_In, in_map_iff in Hy as (x & Hx & Hin).
  exists x. split; [done|]. by apply list_elem_of_In.
Qed.

Lemma elem_of_filter_bool {A} (P : A -> bool) (l : list A) (x : A) :
  x ∈ List.filter P l <-> x ∈ l /\ P x = true.
Proof. rewrite !list_elem_of_In. apply filter_In. Qed.

(** ** Audio data store *)

Lemma find_audio_Some lib_name file_path l p :
  find_audio lib_name file_path l = Some p ->
  exists d, (p, d) ∈ l /\ library_name d = lib_name /\ path d = file_path.
Proof.
  induction l as [|[q d] l IH]; simpl; [done|].
  destruct (bool_decide (lib_name = library_name d) && bool_decide (path d = file_path)) eqn:Hm.
  - intros [= ->]. apply andb_prop in Hm as [H1 H2].
    apply bool_decide_eq_true in H1, H2. exists d. split; [apply elem_of_cons; by left|done].
  - intros Hf. destruct (IH Hf) as (d' & Hin & Hk). exists d'. split; [|done].
    apply elem_of_cons. by right.
Qed.

Lemma find_audio_None lib_name file_path l :
  find_audio lib_name file_path l = None ->
  forall p d, (p, d) ∈ l -> ~ (library_name d = lib_name /\ path d = file_path).
Proof.
  induction l as [|[q d] l IH]; simpl; intros Hf p d' Hin.
  - by apply elem_of_nil in Hin.
  - destruct (bool_decide (lib_name = library_name d) && bool_decide (path d = file_path)) eqn:Hm;
      [done|].
    apply elem_of_cons in Hin as [[= -> ->]|Hin]; [|by eapply IH].
    intros [<- <-]. rewrite !bool_decide_eq_true_2 in Hm by done. done.
Qed.

Lemma find_audio_unique lib_name file_path l p d :
  NoDup (map audio_key l) -> (p, d) ∈ l ->
  library_name d = lib_name -> path d = file_path ->
  find_audio lib_name file_path l = Some p.
Proof.
  intros Hnd Hin Hl Hp. induction l as [|[q x] l IH]; simpl.
  - by apply elem_of_nil in Hin.
  - simpl in Hnd. apply NoDup_cons in Hnd as [Hk Hnd].
    destruct (bool_decide (lib_name = library_name x) && bool_decide (path x = file_path)) eqn:Hm.
    + apply elem_of_cons in Hin as [[= -> ->]|Hin]; [done|].
      apply andb_prop in Hm as [H1 H2]. apply bool_decide_eq_true in H1, H2.
      exfalso. apply Hk. apply list_elem_of_In, in_map_iff. exists (p, d).
      split; [|by apply list_elem_of_In]. unfold audio_key; simpl. congruence.
    + apply elem_of_cons in Hin as [[= -> ->]|Hin]; [|by apply IH].
      rewrite !bool_decide_eq_true_2 in Hm by done. done.
Qed.

Lemma set_state_same d : set_state (state d) d = d.
Proof. by destruct d. Qed.

(** C4: an entry with the requested (library name, path) is returned as it
    is, without allocating and without queuing a decode, unless it was
    [CompletedCancelled] (then one decode is queued) or [PendingCancel]
    (flipped back, no decode); without such an entry a new one is allocated
    in [PendingLoad] with no references and exactly one decode is queued. *)
Theorem FetchOrCreateAudioData_existing_or_new (lib_name file_path : string) (s : Store)
    (Hwf : store_wf s) :
  (forall p d, (p, d) ∈ audio_datas s -> library_name d = lib_name -> path d = file_path ->
     exists s', FetchOrCreateAudioData lib_name file_path s = (p, s')
       /\ map fst (audio_datas s') = map fst (audio_datas s)
       /\ thread_pool_jobs s' =
            (if decide (state d = CompletedCancelled)
             then thread_pool_jobs s ++ [p] else thread_pool_jobs s)
       /\ ((state d = PendingLoad \/ state d = Loading \/ state d = CompletedSucessfully
            \/ state d = CompletedWithError) -> s' = s)
       /\ lookup_ptr p (audio_datas s') =
            Some (if decide (state d = PendingCancel \/ state d = CompletedCancelled)
                  then set_state PendingLoad d else d))
  /\ ((forall p d, (p, d) ∈ audio_datas s ->
         ~ (library_name d = lib_name /\ path d = file_path)) ->
      exists p, (p ∉ map fst (audio_datas s))
        /\ FetchOrCreateAudioData lib_name file_path s =
             (p, {| audio_datas :=
                      (p, {| library_name := lib_name; path := file_path;
                             audio_data := {| interleaved_samples_size := 0 |};
                             refs := 0; state := PendingLoad; error := None |})
                      :: audio_datas s;
                    thread_pool_jobs := thread_pool_jobs s ++ [p] |})).
Proof.
  destruct Hwf as [Hptr Hkey]. split.
  - intros p d Hin Hl Hp. unfold FetchOrCreateAudioData.
    rewrite (find_audio_unique _ _ _ p d Hkey Hin Hl Hp).
    eexists. split; [reflexivity|].
    unfold TriggerReloadIfAudioIsCancelled. rewrite (elem_lookup_ptr _ _ _ Hptr Hin).
    unfold CompareExchangeStrong.
    destruct (state d) eqn:Hst; simpl;
      rewrite ?map_fst_update_ptr, ?lookup_ptr_update_eq, ?(elem_lookup_ptr _ _ _ Hptr Hin);
      simpl; repeat split; try done;
      try (intros [?|[?|[?|?]]]; congruence);
      repeat case_decide; try done; try (destruct_or?; congruence);
      try (exfalso; naive_solver).
  - intros Hnone. unfold FetchOrCreateAudioData.
    destruct (find_audio lib_name file_path (audio_datas s)) as [q|] eqn:Hf.
    + apply find_audio_Some in Hf as (d & Hin & Hk). exfalso. by eapply Hnone.
    + eexists. split; [apply fresh_ptr_fresh|reflexivity].
Qed.

Lemma map_ext_elem {A B} (f g : A -> B) (l : list A) :
  (forall x, x ∈ l -> f x = g x) -> map f l = map g l.
Proof.
  intros Hfg. apply map_ext_in. intros x Hx. apply Hfg. by apply list_elem_of_In.
Qed.

Lemma cancel_loop_effect (set : list ptr) (s : Store) (n : nat) :
  NoDup (map fst (audio_datas s)) ->
  Forall (fun p => exists d, lookup_ptr p (audio_datas s) = Some d /\ refs d <> 0%Z) set ->
  cancel_loop set (s, n) =
    Some ({| audio_datas := map (cancelled_entry set) (audio_datas s);
             thread_pool_jobs := thread_pool_jobs s |},
          n + length (filter (fun p => refs_at s p = Some 1%Z) set)).
Proof.
  revert s n. induction set as [|p set IH]; intros s n Hnd Hrefs.
  - simpl. destruct s as [l j]; simpl. rewrite Nat.add_0_r. do 3 f_equal.
    rewrite <- (map_id l) at 1. apply map_ext_elem. intros e _. unfold cancelled_entry.
    by rewrite bool_decide_eq_false_2 by apply not_elem_of_nil.
  - apply Forall_cons in Hrefs as [(d & Hd & Hr) Hrefs].
    cbn [cancel_loop]. unfold cancel_one. rewrite Hd. rewrite decide_False by done.
    assert (Hone : forall (q : ptr) (x : ListedAudioData),
               (q, x) ∈ audio_datas s -> q = p -> x = d).
    { intros q x Hin ->. apply (elem_lookup_ptr _ _ _ Hnd) in Hin. congruence. }
    destruct (decide (refs d = 1%Z)) as [Hr1|Hr1].
    + unfold CompareExchangeStrong.
      set (c := if decide (state d = PendingLoad) then PendingCancel else state d).
      assert (Hc : (let '(_, cell, _) :=
                      (if decide (state d = PendingLoad)
                       then (true, PendingCancel, PendingLoad)
                       else (false, state d, state d)) in
                    Some (store_state p cell s, S n)) = Some (store_state p c s, S n)).
      { subst c. by destruct (decide (state d = PendingLoad)). }
      rewrite Hc. clear Hc.
      assert (Hp1 : refs_at s p = Some 1%Z) by (unfold refs_at; rewrite Hd; simpl; congruence).
      rewrite IH.
      * rewrite filter_cons, (decide_True (P := refs_at s p = Some 1%Z)) by done.
        f_equal. f_equal.
        -- f_equal. simpl. unfold update_ptr. rewrite map_map. apply map_ext_elem.
           intros [q x] Hin. simpl. unfold cancelled_entry.
           destruct (decide (q = p)) as [->|Hqp]; simpl.
           ++ rewrite (Hone _ _ Hin eq_refl). subst c.
              rewrite (bool_decide_eq_true_2 (p ∈ p :: set)) by (apply elem_of_cons; by left).
              rewrite (bool_decide_eq_true_2 (refs d = 1%Z)) by done.
              destruct (decide (state d = PendingLoad)) as [Hs|Hs]; simpl.
              ** rewrite (bool_decide_eq_true_2 (state d = PendingLoad)) by done.
                 by rewrite andb_false_r.
              ** rewrite !(bool_decide_eq_false_2 (state d = PendingLoad)) by done.
                 rewrite !andb_false_r. by rewrite set_state_same.
           ++ assert (Heq : bool_decide (q ∈ p :: set) = bool_decide (q ∈ set)).
              { apply bool_decide_ext. rewrite elem_of_cons. split; [intros [?|?]; [congruence|done]|by right]. }
              by rewrite Heq.
        -- simpl. rewrite Nat.add_succ_r. f_equal. f_equal. f_equal.
           apply list_filter_iff. intros q. unfold refs_at. simpl.
           destruct (decide (p = q)) as [->|Hpq].
           ++ rewrite lookup_ptr_update_eq. by destruct (lookup_ptr q (audio_datas s)).
           ++ by rewrite lookup_ptr_update_ne.
      * simpl. by rewrite map_fst_update_ptr.
      * eapply Forall_impl; [exact Hrefs|]. intros q (x & Hx & Hxr). simpl.
        destruct (decide (p = q)) as [->|Hpq].
        -- rewrite lookup_ptr_update_eq, Hx. simpl. by eexists.
        -- rewrite lookup_ptr_update_ne by done. by eexists.
    + assert (Hp1 : refs_at s p <> Some 1%Z) by (unfold refs_at; rewrite Hd; simpl; congruence).
      rewrite IH by done.
      rewrite filter_cons, (decide_False (P := refs_at s p = Some 1%Z)) by done.
      f_equal. f_equal. f_equal.
      apply map_ext_elem. intros [q x] Hin. unfold cancelled_entry. simpl.
      destruct (decide (q = p)) as [->|Hqp].
      * rewrite (Hone _ _ Hin eq_refl).
        rewrite !(bool_decide_eq_false_2 (refs d = 1%Z)) by done.
        by rewrite !andb_false_r.
      * assert (Heq : bool_decide (q ∈ p :: set) = bool_decide (q ∈ set)).
        { apply bool_decide_ext. rewrite elem_of_cons. split; [intros [?|?]; [congruence|done]|by right]. }
        by rewrite Heq.
Qed.

(** C5: on a list with distinct addresses, and with every entry of the set
    referenced at least once, the cancellation changes exactly the entries of
    the set whose count is 1 and whose state is [PendingLoad], which become
    [PendingCancel]; every other entry (count above 1, or another state, or
    outside the set) is left as it was, and the exchange is attempted once
    per entry of the set whose count is 1. *)
Theorem CancelLoadingAudioForInstrumentIfPossible_effect (audio_data_set : list ptr)
    (s : Store)
    (Hptr : NoDup (map fst (audio_datas s)))
    (Hrefs : Forall (fun p => exists d, lookup_ptr p (audio_datas s) = Some d /\ refs d <> 0%Z)
                    audio_data_set) :
  CancelLoadingAudioForInstrumentIfPossible audio_data_set s =
    Some ({| audio_datas := map (cancelled_entry audio_data_set) (audio_datas s);
             thread_pool_jobs := thread_pool_jobs s |},
          length (filter (fun p => refs_at s p = Some 1%Z) audio_data_set)).
Proof.
  unfold CancelLoadingAudioForInstrumentIfPossible. by rewrite cancel_loop_effect.
Qed.

Section DecodeRaceProofs.
Import DecodeRace.

(** ** The state machine of one entry under interleaving *)

Lemma inv_jobs_short (s : Sys) : inv s = true -> length (jobs s) <= 1.
Proof.
  destruct s as [c js o]. unfold inv. simpl.
  destruct o, js as [|j [|j' js]]; simpl; try done; try lia; destruct j; done.
Qed.

(** Case analysis on a configuration with at most one job and on the event. *)
Ltac race_cases s e Hinv Hstep :=
  let Hlen := fresh "Hlen" in
  pose proof (inv_jobs_short s Hinv) as Hlen;
  destruct s as [c js o]; simpl in Hlen;
  destruct js as [|j [|j' js]]; simpl in Hlen; [| |lia];
  destruct e as [[|i] sp dec| | |r]; destruct o, c;
  try destruct j as [|[]| |];
  try destruct sp; try destruct dec;
  cbn in Hinv, Hstep; try discriminate;
  try (destruct (decide (r = 1%Z)); cbn in Hstep);
  try (injection Hstep as <-); cbn.

Lemma step_inv (e : Event) (s s' : Sys) :
  inv s = true -> step e s = Some s' -> inv s' = true.
Proof.
  intros Hinv Hstep. race_cases s e Hinv Hstep; try done.
Qed.

Lemma reachable_inv (s : Sys) : reachable s -> inv s = true.
Proof.
  induction 1 as [|s e s' _ IH Hstep]; [done|]. by eapply step_inv.
Qed.

Lemma step_diagram (e : Event) (s s' : Sys) :
  inv s = true -> step e s = Some s' ->
  cell s' = cell s \/ diagram (cell s) (cell s') = true.
Proof.
  intros Hinv Hstep. race_cases s e Hinv Hstep; auto.
Qed.

(** C2: from the creation of an entry on, whatever the interleaving of its
    decode jobs with the loading thread, every step leaves the state of the
    entry as it is or moves it along an edge of the diagram. *)
Theorem LoadingState_transitions_follow_diagram (s s' : Sys) (e : Event)
    (Hreach : reachable s) (Hstep : step e s = Some s') :
  cell s' = cell s \/ diagram (cell s) (cell s') = true.
Proof. eapply step_diagram; [by apply reachable_inv|done]. Qed.

(** The job never reaches [PanicIfReached]. *)
Lemma reachable_no_panic (s : Sys) : reachable s -> JobPanicked ∉ jobs s.
Proof.
  intros Hr. apply reachable_inv in Hr. destruct s as [c js o]. unfold inv in Hr. simpl in *.
  destruct o, js as [|j [|j' js]]; try done; try apply not_elem_of_nil;
    destruct j; try done; intros Hin; apply list_elem_of_singleton in Hin; done.
Qed.

(** Run without interleaving, the steps of the loading thread inside
    [TriggerReloadIfAudioIsCancelled] end in the state the function computes
    on the store, with a job queued exactly when the function queues one. *)
Lemma TriggerReload_steps_agree (p : ptr) (d : ListedAudioData) (js : list JobPc) :
  let s0 := {| cell := state d; jobs := js; orch := OrchIdle |} in
  let st := {| audio_datas := [(p, d)]; thread_pool_jobs := [] |} in
  exists es s1,
    run_events (EvTriggerReload :: es) s0 = Some s1
    /\ orch s1 = OrchIdle
    /\ Some (cell s1) = state_at (TriggerReloadIfAudioIsCancelled p st) p
    /\ length (jobs s1) = length js + length (thread_pool_jobs (TriggerReloadIfAudioIsCancelled p st)).
Proof.
  destruct d as [ln pth ad r st err].
  destruct st; cbn;
    [exists [] | exists [] | exists [] | exists [] | exists []
     | exists [EvOrchContinue; EvOrchContinue]];
    eexists; cbn; (split; [reflexivity|]); cbn;
    unfold TriggerReloadIfAudioIsCancelled, state_at, store_state, LoadAudioAsync, update_ptr,
      CompareExchangeStrong;
    cbn; repeat (case_decide; try done; cbn);
    rewrite ?length_app; cbn; repeat split; try lia; try done.
Qed.

End DecodeRaceProofs.

Section RegistryProofs.
Import Registry.

(** ** Library registry *)

(** C7: when the candidate file is read (a Lua library given by its path is
    loaded whole first) and hashed successfully and a registered library has
    that hash, the read job yields no library whatever the parser would
    have answered, and handling such a job changes nothing of the server: the
    registry keeps exactly the libraries it had. *)
Theorem read_job_with_registered_hash_is_noop `{Platform}
    (o : ReadOutcomes) (path_or_memory : PathOrMemory) (format : FileFormat)
    (libraries : LibrariesList.t) (file_hash : Z) (node : ptr * LibNode.t)
    (Hread : format = Lua -> is_path path_or_memory = true -> ReadEntireFile o = Value tt)
    (Hreader : FromPathOrMemory o = Value tt)
    (Hhash : Hash o = Value file_hash)
    (Hregistered : node ∈ LibrariesList.live libraries)
    (Hsame : Library.file_hash (lib_of node) = file_hash) :
  try_job o path_or_memory format libraries = None
  /\ (forall parsed,
        try_job {| ReadEntireFile := ReadEntireFile o; FromPathOrMemory := FromPathOrMemory o;
                   Hash := Hash o; Read := parsed |} path_or_memory format libraries = None)
  /\ (forall server : Server.t,
        handle_read_library path_or_memory
          (try_job o path_or_memory format libraries) server = (Return, server))
  /\ (forall (server : Server.t) (n : Z),
        UpdateLoadingThread
          {| jobs := [{| data := ReadLibrary path_or_memory format
                                   (try_job o path_or_memory format libraries);
                         completed := true; handled := false |}];
             num_uncompleted_jobs := n |} server
        = Some ({| jobs := [{| data := ReadLibrary path_or_memory format None;
                               completed := true; handled := true |}];
                   num_uncompleted_jobs := FetchSub n 1 |}, server)).
Proof.
  assert (Hex : existsb (fun node0 : ptr * LibNode.t =>
                   bool_decide (Library.file_hash (ListedLibrary.lib (LibNode.value node0.2)) = file_hash))
                  (LibrariesList.live libraries) = true).
  { apply existsb_exists. exists node. split; [by apply list_elem_of_In|].
    by apply bool_decide_eq_true. }
  assert (Hnone : forall parsed,
            try_job {| ReadEntireFile := ReadEntireFile o; FromPathOrMemory := FromPathOrMemory o;
                       Hash := Hash o; Read := parsed |} path_or_memory format libraries = None).
  { intros parsed. unfold try_job. simpl.
    destruct format, (is_path path_or_memory); simpl;
      rewrite ?Hread by done; by rewrite Hreader, Hhash, Hex. }
  assert (Htry : try_job o path_or_memory format libraries = None).
  { destruct o as [o1 o2 o3 o4]. apply (Hnone o4). }
  repeat split; try done.
  - intros server. by rewrite Htry.
  - intros server n. unfold UpdateLoadingThread. simpl. by rewrite Htry.
Qed.

Section RegistryUnique.
Context `{Platform}.
Hypothesis path_Equal_refl : forall p, path_Equal p p = true.

Lemma replace_loop_kept lib l :
  (replace_loop lib l).1.2 = List.filter (fun it => negb (same_name_or_path lib it)) l.
Proof.
  induction l as [|it l IH]; [done|]. simpl.
  destruct (replace_loop lib l) as [[ae kept] removed]. simpl in IH.
  unfold same_name_or_path at 1.
  destruct (bool_decide _ || path_Equal _ _); simpl; by rewrite IH.
Qed.

Lemma NoDup_map_filter {A B} (f : A -> B) (P : A -> bool) (l : list A) :
  NoDup (map f l) -> NoDup (map f (List.filter P l)).
Proof.
  induction l as [|x l IH]; simpl; [done|]. intros Hnd.
  apply NoDup_cons in Hnd as [Hx Hnd]. destruct (P x); simpl; [|by apply IH].
  apply NoDup_cons. split; [|by apply IH]. intros Hin. apply Hx.
  apply list_elem_of_In, in_map_iff in Hin as (y & Hy & Hin).
  apply list_elem_of_In, in_map_iff. exists y. split; [done|].
  by apply filter_In in Hin as [? _].
Qed.

Lemma registry_unique_filter (P : ptr * LibNode.t -> bool) l dead dead' :
  registry_unique {| LibrariesList.live := l; LibrariesList.dead_list := dead |} ->
  registry_unique {| LibrariesList.live := List.filter P l; LibrariesList.dead_list := dead' |}.
Proof. intros [Hn Hp]. split; simpl in *; by apply NoDup_map_filter. Qed.

Lemma handle_read_library_value pm lib server :
  registry_unique (Server.libraries server) ->
  let server' := (handle_read_library pm (Some (Value lib)) server).2 in
  registry_unique (Server.libraries server')
  /\ Forall (fun node => same_name_or_path lib node = true -> lib_of node = lib)
            (LibrariesList.live (Server.libraries server')).
Proof.
  intros Huniq. unfold handle_read_library.
  pose proof (replace_loop_kept lib (LibrariesList.live (Server.libraries server))) as Hkept.
  destruct (replace_loop lib (LibrariesList.live (Server.libraries server)))
    as [[already_exists kept] removed]. simpl in Hkept. subst kept.
  assert (Hk : Forall (fun node => same_name_or_path lib node = true -> lib_of node = lib)
                 (List.filter (fun it => negb (same_name_or_path lib it))
                    (LibrariesList.live (Server.libraries server)))).
  { apply Forall_forall. intros node Hin Hs.
    apply list_elem_of_In, filter_In in Hin as [_ Hn]. by rewrite Hs in Hn. }
  destruct (Server.libraries server) as [l dead] eqn:Hl.
  destruct already_exists; simpl.
  - split; [by eapply registry_unique_filter|done].
  - split.
    + pose proof (registry_unique_filter (fun it => negb (same_name_or_path lib it)) l dead
                    (removed ++ dead) Huniq) as [Hn Hp].
      split; simpl in *; apply NoDup_cons; (split; [|done]); intros Hin;
        apply list_elem_of_In, in_map_iff in Hin as (y & Hy & Hin);
        apply filter_In in Hin as [_ Hneg]; unfold same_name_or_path in Hneg;
        rewrite Hy in Hneg.
      * by rewrite bool_decide_eq_true_2 in Hneg.
      * rewrite path_Equal_refl in Hneg. by rewrite orb_true_r in Hneg.
    + apply Forall_cons. split; [done|apply Hk].
Qed.

Lemma handle_read_library_unique pm result server :
  registry_unique (Server.libraries server) ->
  registry_unique (Server.libraries (handle_read_library pm result server).2).
Proof.
  intros Huniq. destruct result as [[lib|e]|].
  - by apply handle_read_library_value.
  - simpl. by destruct (decide (e = PathDoesNotExist)).
  - done.
Qed.

Lemma handle_scan_folder_libraries folder outcome server :
  Server.libraries (handle_scan_folder folder outcome server) = Server.libraries server.
Proof.
  unfold handle_scan_folder. destruct (lookup_ptr _ _); [|done].
  destruct outcome; simpl; [done|]. by destruct (negb _).
Qed.

Lemma handle_job_unique job server :
  registry_unique (Server.libraries server) ->
  registry_unique (Server.libraries (handle_job job server).2).
Proof.
  intros Huniq. unfold handle_job. destruct (data job).
  - by apply handle_read_library_unique.
  - simpl. by rewrite handle_scan_folder_libraries.
Qed.

Lemma handle_jobs_unique l n server :
  registry_unique (Server.libraries server) ->
  registry_unique (Server.libraries (handle_jobs l n server).2).
Proof.
  revert n server. induction l as [|job rest IH]; intros n server Huniq; [done|]. simpl.
  destruct (handled job || negb (completed job)).
  - specialize (IH n server Huniq).
    by destruct (handle_jobs rest n server) as [[[flow rest'] n'] server'].
  - pose proof (handle_job_unique job server Huniq) as Hj.
    destruct (handle_job job server) as [flow server1]. simpl in Hj.
    destruct flow; [|done].
    specialize (IH (FetchSub n 1) server1 Hj).
    by destruct (handle_jobs rest (FetchSub n 1) server1) as [[[flow' rest'] n'] server'].
Qed.

Lemma remove_orphans_unique server :
  registry_unique (Server.libraries server) ->
  registry_unique (Server.libraries (remove_orphans server)).
Proof.
  intros Huniq. unfold remove_orphans. simpl.
  destruct (Server.libraries server) as [l dead]. by eapply registry_unique_filter.
Qed.

Lemma rebuild_libraries_by_name_Some (l : list (ptr * LibNode.t)) (m : gmap string ptr) :
  NoDup (map (fun n => Library.name (lib_of n)) l) ->
  Forall (fun n => m !! Library.name (lib_of n) = None) l ->
  exists m', rebuild_libraries_by_name l m = Some m'
    /\ Forall (fun n => m' !! Library.name (lib_of n) = Some n.1) l.
Proof.
  revert m. induction l as [|n l IH]; intros m Hnd Hfree; simpl.
  - eexists. split; [done|constructor].
  - cbn [map] in Hnd. apply NoDup_cons in Hnd as [Hn Hnd].
    apply Forall_cons in Hfree as [Hn0 Hfree].
    rewrite Hn0.
    assert (Hother : Forall (fun n0 => Library.name (lib_of n0) <> Library.name (lib_of n)) l).
    { apply Forall_forall. intros x Hx Heq. apply Hn. rewrite <- Heq.
      by apply (elem_of_map_2 (fun n => Library.name (lib_of n))). }
    destruct (IH (<[Library.name (lib_of n) := n.1]> m) Hnd) as (m' & Hm' & Hall).
    { apply Forall_forall. intros x Hx.
      rewrite Forall_forall in Hfree, Hother.
      rewrite lookup_insert_ne; [by apply Hfree|]. intros Heq. by apply (Hother x Hx). }
    exists m'. split; [done|]. apply Forall_cons. split; [|done].
    clear -Hm' Hother. 
    assert (Hkeep : forall l0 m0 m1 k v, rebuild_libraries_by_name l0 m0 = Some m1 ->
               m0 !! k = Some v -> m1 !! k = Some v).
    { induction l0 as [|x l0 IH0]; intros m0 m1 k v; simpl.
      - by intros [= ->].
      - destruct (m0 !! Library.name (lib_of x)) eqn:Hx; [done|]. intros Hr Hk.
        eapply IH0; [exact Hr|]. rewrite lookup_insert_ne; [done|]. congruence. }
    eapply Hkeep; [exact Hm'|]. by rewrite lookup_insert_eq.
Qed.

(** The loop as a whole: whether the hash was seen, the nodes kept and
    the nodes removed, each in the order of the list. *)
Lemma replace_loop_spec lib l :
  replace_loop lib l
  = (existsb (fun it => bool_decide (Library.file_hash (lib_of it) = Library.file_hash lib)) l,
     List.filter (fun it => negb (same_name_or_path lib it)) l,
     List.filter (same_name_or_path lib) l).
Proof.
  induction l as [|it l IH]; [done|]. simpl. rewrite IH.
  change (bool_decide (Library.name (lib_of it) = Library.name lib)
          || path_Equal (Library.path (lib_of it)) (Library.path lib))
    with (same_name_or_path lib it).
  by destruct (same_name_or_path lib it).
Qed.

Lemma hash_seen_false lib (l : list (ptr * LibNode.t)) :
  Forall (fun it => Library.file_hash (lib_of it) <> Library.file_hash lib) l ->
  existsb (fun it => bool_decide (Library.file_hash (lib_of it) = Library.file_hash lib)) l
  = false.
Proof.
  induction 1 as [|it l Hit _ IH]; [done|]. simpl.
  by rewrite bool_decide_eq_false_2, IH.
Qed.

Lemma hash_seen_true lib (l : list (ptr * LibNode.t)) :
  Exists (fun it => Library.file_hash (lib_of it) = Library.file_hash lib) l ->
  existsb (fun it => bool_decide (Library.file_hash (lib_of it) = Library.file_hash lib)) l
  = true.
Proof.
  induction 1 as [it l Hit|it l _ IH]; simpl.
  - by rewrite bool_decide_eq_true_2.
  - rewrite IH. apply orb_true_r.
Qed.

Lemma elem_filter_or {A} (P : A -> bool) (l : list A) (x : A) :
  x ∈ l -> x ∈ List.filter (fun y => negb (P y)) l \/ x ∈ List.filter P l.
Proof.
  intros Hx. destruct (P x) eqn:HP.
  - right. apply elem_of_filter_bool. by split.
  - left. apply elem_of_filter_bool. split; [done|]. by rewrite HP.
Qed.

(** A library whose hash no live library has takes the place of the live
    libraries with its name or path. *)
Lemma handle_read_library_inserts pm lib server :
  Forall (fun it => Library.file_hash (lib_of it) <> Library.file_hash lib)
         (LibrariesList.live (Server.libraries server)) ->
  let libs := Server.libraries server in
  let libs' := Server.libraries (handle_read_library pm (Some (Value lib)) server).2 in
  exists new_node,
    (new_node ∉ map fst (LibrariesList.live libs ++ LibrariesList.dead_list libs))
    /\ LibrariesList.live libs'
       = (new_node, {| LibNode.value := {| ListedLibrary.lib := lib;
                                           ListedLibrary.instruments := [] |};
                       LibNode.reader_uses := 0 |})
         :: List.filter (fun it => negb (same_name_or_path lib it)) (LibrariesList.live libs)
    /\ LibrariesList.dead_list libs'
       = List.filter (same_name_or_path lib) (LibrariesList.live libs)
         ++ LibrariesList.dead_list libs.
Proof.
  intros Hfresh libs libs'. subst libs'. unfold handle_read_library.
  rewrite replace_loop_spec, (hash_seen_false lib _ Hfresh). fold libs.
  cbn [snd Server.libraries Server.with_error_notifications Server.with_libraries
       LibrariesList.Insert LibrariesList.live LibrariesList.dead_list].
  eexists. split; [|split; reflexivity].
  unfold LibrariesList.AllocateUninitialised.
  cbn [LibrariesList.live LibrariesList.dead_list].
  intros Hin. eapply fresh_ptr_fresh.
  apply elem_of_map_1 in Hin as ([q node] & Hq & Hin). rewrite Hq.
  apply (elem_of_map_2 fst _ (q, node)).
  apply elem_of_app in Hin as [Hin|Hin].
  - rewrite app_assoc. apply elem_of_app. left. apply elem_of_app.
    by apply (elem_filter_or (same_name_or_path lib)).
  - rewrite app_assoc. apply elem_of_app. by right.
Qed.

(** When a live library has the hash nothing is inserted. *)
Lemma handle_read_library_skips pm lib server node :
  Exists (fun it => Library.file_hash (lib_of it) = Library.file_hash lib)
         (LibrariesList.live (Server.libraries server)) ->
  node ∈ LibrariesList.live
           (Server.libraries (handle_read_library pm (Some (Value lib)) server).2) ->
  node ∈ LibrariesList.live (Server.libraries server).
Proof.
  intros Hseen. unfold handle_read_library.
  rewrite replace_loop_spec, (hash_seen_true lib _ Hseen).
  cbn [snd Server.libraries Server.with_libraries LibrariesList.live].
  intros Hin. by apply elem_of_filter_bool in Hin as [Hin _].
Qed.

End RegistryUnique.

(** C8 (amended): the live libraries never share a name or a path.  The
    start of the loading thread establishes it.  Handling a successful read
    of a library whose file hash no live library has moves every live
    library with the new library's name or path to the list of removed
    nodes and then inserts the new library at a fresh node, ahead of the
    libraries that stay.  When a live library has the hash already, no
    library is inserted.  Either way the live libraries share no name and
    no path afterwards; a whole update keeps that, and when it rebuilds the
    by-name index no insertion finds its name taken. *)
Theorem registry_one_library_per_name_and_path `{Platform}
    (path_Equal_refl : forall p, path_Equal p p = true) :
  (forall server : Server.t,
     LibrariesList.live (Server.libraries server) = [] ->
     registry_unique (Server.libraries (insert_builtin server)))
  /\ (forall (path_or_memory : PathOrMemory) (lib : Library.t) (server : Server.t),
        registry_unique (Server.libraries server) ->
        Forall (fun it => Library.file_hash (lib_of it) <> Library.file_hash lib)
               (LibrariesList.live (Server.libraries server)) ->
        let libs := Server.libraries server in
        let libs' :=
          Server.libraries (handle_read_library path_or_memory (Some (Value lib)) server).2 in
        exists new_node,
          (new_node ∉ map fst (LibrariesList.live libs ++ LibrariesList.dead_list libs))
          /\ LibrariesList.live libs'
             = (new_node, {| LibNode.value := {| ListedLibrary.lib := lib;
                                                 ListedLibrary.instruments := [] |};
                             LibNode.reader_uses := 0 |})
               :: List.filter (fun it => negb (same_name_or_path lib it))
                              (LibrariesList.live libs)
          /\ LibrariesList.dead_list libs'
             = List.filter (same_name_or_path lib) (LibrariesList.live libs)
               ++ LibrariesList.dead_list libs
          /\ registry_unique libs')
  /\ (forall (path_or_memory : PathOrMemory) (lib : Library.t) (server : Server.t),
        registry_unique (Server.libraries server) ->
        Exists (fun it => Library.file_hash (lib_of it) = Library.file_hash lib)
               (LibrariesList.live (Server.libraries server)) ->
        let libs' :=
          Server.libraries (handle_read_library path_or_memory (Some (Value lib)) server).2 in
        (forall node, node ∈ LibrariesList.live libs' ->
                      node ∈ LibrariesList.live (Server.libraries server))
        /\ registry_unique libs')
  /\ (forall (async_ctx : LibrariesAsyncContext.t) (server : Server.t),
        registry_unique (Server.libraries server) ->
        exists async_ctx' server',
          UpdateLoadingThread async_ctx server = Some (async_ctx', server')
          /\ registry_unique (Server.libraries server')).
Proof.
  split; [|split; [|split]].
  - intros server Hempty. unfold insert_builtin, registry_unique. simpl. rewrite Hempty. simpl.
    split; apply NoDup_singleton.
  - intros pm lib server Huniq Hfresh libs libs'.
    destruct (handle_read_library_inserts pm lib server Hfresh)
      as (new_node & Hnew & Hlive & Hdead).
    exists new_node. split; [done|]. split; [done|]. split; [done|].
    by apply handle_read_library_unique.
  - intros pm lib server Huniq Hseen libs'. split.
    + intros node. by apply handle_read_library_skips.
    + by apply handle_read_library_unique.
  - intros async_ctx server Huniq. unfold UpdateLoadingThread.
    pose proof (handle_jobs_unique path_Equal_refl (jobs async_ctx)
                  (num_uncompleted_jobs async_ctx) server Huniq) as Hj.
    destruct (handle_jobs (jobs async_ctx) (num_uncompleted_jobs async_ctx) server)
      as [[[flow jobs'] n] server1]. simpl in Hj.
    destruct flow; [|by eauto].
    pose proof (remove_orphans_unique server1 Hj) as Ho.
    destruct (rebuild_libraries_by_name_Some
                (LibrariesList.live (Server.libraries (remove_orphans server1))) ∅)
      as (m' & Hm' & _).
    + apply Ho.
    + apply Forall_forall. intros x _. apply lookup_empty.
    + rewrite Hm'. eauto.
Qed.

End RegistryProofs.

Section DeliveryProofs.
Import LoadingThread.

(** ** Delivery to channels *)

Section Delivery.
Context `{Platform}.

Lemma undelivered_refl m : undelivered m m.
Proof. intros ch c Hc. by exists c. Qed.

Lemma undelivered_trans m1 m2 m3 :
  undelivered m1 m2 -> undelivered m2 m3 -> undelivered m1 m3.
Proof.
  intros H12 H23 ch c Hc. destruct (H12 ch c Hc) as (c2 & Hc2 & Hu2 & Hr2).
  destruct (H23 ch c2 Hc2) as (c3 & Hc3 & Hu3 & Hr3). exists c3.
  split; [done|]. split; [congruence|]. intros Hf.
  destruct (Hr2 Hf) as [? ?]. destruct Hr3 as [? ?]; [congruence|]. split; congruence.
Qed.

Lemma undelivered_same_channels m m' :
  channels_of m' = channels_of m -> undelivered m m'.
Proof. intros Heq ch c Hc. exists c. by rewrite Heq. Qed.

Lemma undelivered_update_quiet m x ch f :
  quiet f -> undelivered m x -> undelivered m (update_channel ch f x).
Proof.
  intros Hq Hmx. eapply undelivered_trans; [exact Hmx|]. intros ch' c Hc.
  unfold channels_of, update_channel. simpl.
  destruct (decide (ch = ch')) as [->|Hne].
  - rewrite lookup_ptr_update_eq. unfold channels_of in Hc. rewrite Hc. simpl.
    destruct (Hq c) as (Hu & Hr & Hn). exists (f c). eauto.
  - rewrite lookup_ptr_update_ne by done. by exists c.
Qed.

Lemma undelivered_with_audio m x a : undelivered m x -> undelivered m (with_audio a x).
Proof. intros Hmx. eapply undelivered_trans; [exact Hmx|]. by apply undelivered_same_channels. Qed.

Lemma undelivered_update_libraries m x g :
  undelivered m x -> undelivered m (update_libraries g x).
Proof. intros Hmx. eapply undelivered_trans; [exact Hmx|]. by apply undelivered_same_channels. Qed.

Lemma undelivered_with_pending m x l :
  undelivered m x -> undelivered m (with_pending_results l x).
Proof. intros Hmx. eapply undelivered_trans; [exact Hmx|]. by apply undelivered_same_channels. Qed.

Lemma quiet_notify item : quiet (AsyncCommsChannel.notify item).
Proof. by intros c. Qed.

Lemma quiet_store_percent layer v : quiet (AsyncCommsChannel.store_percent layer v).
Proof. by intros c. Qed.

Lemma quiet_set_desired layer i : quiet (AsyncCommsChannel.set_desired layer i).
Proof. by intros c. Qed.

Lemma undelivered_store_loading_percent m x pr v :
  undelivered m x -> undelivered m (store_loading_percent pr v x).
Proof.
  intros Hmx. unfold store_loading_percent. destruct (LayerIndex pr); [|done].
  by apply undelivered_update_quiet; [apply quiet_store_percent|].
Qed.

Lemma undelivered_ChangeRefCount m x change r :
  undelivered m x -> undelivered m (ChangeRefCount change r x).
Proof.
  intros Hmx. eapply undelivered_trans; [exact Hmx|]. apply undelivered_same_channels.
  unfold ChangeRefCount. destruct (LoadResult.result r) as [[i|a]| |]; done.
Qed.

Create HintDb delivery.
Hint Resolve undelivered_refl undelivered_update_quiet undelivered_with_audio
  undelivered_update_libraries undelivered_with_pending quiet_notify quiet_store_percent
  quiet_set_desired undelivered_store_loading_percent undelivered_ChangeRefCount : delivery.

(** Every branch of a loop body ends in [Some (_, m')] with [m'] built from
    the quiet updates above. *)
Ltac body_cases Hbody :=
  repeat match type of Hbody with
  | context [match ?x with _ => _ end] => destruct x eqn:?; try discriminate
  | context [if ?b then _ else _] => destruct b eqn:?; try discriminate
  end;
  try (injection Hbody as <- <-); eauto 10 with delivery.

Lemma fill_in_library_undelivered pr m pr' m' :
  fill_in_library pr m = Some (pr', m') -> undelivered m m'.
Proof. unfold fill_in_library. intros Hbody. body_cases Hbody. Qed.

Lemma check_for_errors_undelivered pr m pr' m' :
  check_for_errors pr m = Some (pr', m') -> undelivered m m'.
Proof. unfold check_for_errors. intros Hbody. body_cases Hbody. Qed.

Lemma check_still_needed_undelivered pr m pr' m' :
  check_still_needed pr m = Some (pr', m') -> undelivered m m'.
Proof. unfold check_still_needed. intros Hbody. body_cases Hbody. Qed.

Lemma store_ir_result_undelivered pr m pr' m' :
  store_ir_result pr m = Some (pr', m') -> undelivered m m'.
Proof. unfold store_ir_result. intros Hbody. body_cases Hbody. Qed.

Lemma for_each_pending_undelivered body l m l' m' :
  (forall pr x pr' x', body pr x = Some (pr', x') -> undelivered x x') ->
  for_each_pending body l m = Some (l', m') -> undelivered m m'.
Proof.
  intros Hbody. revert m l'. induction l as [|pr l IH]; intros m l'; simpl.
  - intros [= <- <-]. apply undelivered_refl.
  - destruct (body pr m) as [[pr1 m1]|] eqn:Hb; [|done].
    destruct (for_each_pending body l m1) as [[rest m2]|] eqn:Hr; [|done].
    intros [= <- <-]. eapply undelivered_trans; [by eapply Hbody|by eapply IH].
Qed.

Lemma run_pass_undelivered body m m' :
  (forall pr x pr' x', body pr x = Some (pr', x') -> undelivered x x') ->
  run_pass body m = Some m' -> undelivered m m'.
Proof.
  intros Hbody. unfold run_pass.
  destruct (for_each_pending body (pending_results m) m) as [[l x]|] eqn:Hf; [|done].
  intros [= <-]. apply undelivered_with_pending. by eapply for_each_pending_undelivered.
Qed.

Lemma dispatch_undelivered pr m : undelivered m (dispatch pr m).2.
Proof.
  unfold dispatch. destruct (terminal_result pr) as [result|]; [|apply undelivered_refl].
  destruct (channel_used (channel_of pr) (server m)) eqn:Hused; [|apply undelivered_refl].
  simpl. eapply undelivered_trans; [apply undelivered_ChangeRefCount, undelivered_refl|].
  intros ch c Hc. unfold channels_of, update_channel. simpl.
  assert (Hch : Server.channels (server (ChangeRefCount Retain result m))
                = Server.channels (server m)).
  { unfold ChangeRefCount. destruct (LoadResult.result result) as [[i|a]| |]; done. }
  unfold channels_of in Hc. rewrite Hch in Hc. rewrite Hch.
  destruct (decide (channel_of pr = ch)) as [<-|Hne].
  - rewrite lookup_ptr_update_eq, Hc. simpl. eexists. split; [done|]. split; [done|].
    unfold channel_used in Hused. rewrite Hc in Hused. congruence.
  - rewrite lookup_ptr_update_ne by done. by exists c.
Qed.

Lemma dispatch_all_undelivered l m : undelivered m (dispatch_all l m).2.
Proof.
  revert m. induction l as [|pr l IH]; intros m; simpl; [apply undelivered_refl|].
  pose proof (dispatch_undelivered pr m) as Hd.
  destruct (dispatch pr m) as [removed m1]. simpl in Hd.
  specialize (IH m1). destruct (dispatch_all l m1) as [rest m2]. simpl in *.
  by eapply undelivered_trans.
Qed.

Lemma process_pending_results_undelivered m m' :
  process_pending_results m = Some m' -> undelivered m m'.
Proof.
  unfold process_pending_results. case_bool_decide; [intros [= <-]; apply undelivered_refl|].
  destruct (run_pass fill_in_library m) as [m1|] eqn:H1; [|done]. simpl.
  destruct (run_pass check_for_errors m1) as [m2|] eqn:H2; [|done]. simpl.
  destruct (run_pass check_still_needed m2) as [m3|] eqn:H3; [|done]. simpl.
  destruct (run_pass store_ir_result m3) as [m4|] eqn:H4; [|done]. simpl.
  pose proof (dispatch_all_undelivered (pending_results m4) m4) as H5.
  destruct (dispatch_all (pending_results m4) m4) as [l m5]. simpl in H5.
  intros [= <-]. apply undelivered_with_pending.
  eapply undelivered_trans; [eapply run_pass_undelivered, H1; apply fill_in_library_undelivered|].
  eapply undelivered_trans; [eapply run_pass_undelivered, H2; apply check_for_errors_undelivered|].
  eapply undelivered_trans; [eapply run_pass_undelivered, H3; apply check_still_needed_undelivered|].
  eapply undelivered_trans; [eapply run_pass_undelivered, H4; apply store_ir_result_undelivered|].
  done.
Qed.

Lemma consume_request_channels q m :
  channels_of (consume_request q m) = channels_of m.
Proof. unfold consume_request. by destruct (negb _). Qed.

Lemma consume_requests_channels m : channels_of (consume_requests m) = channels_of m.
Proof.
  unfold consume_requests.
  assert (Hfold : forall l x, channels_of (foldl (fun m q => consume_request q m) x l)
                              = channels_of x).
  { induction l as [|q l IH]; intros x; simpl; [done|].
    by rewrite IH, consume_request_channels. }
  by rewrite Hfold.
Qed.

Lemma handle_job_channels job s :
  Server.channels (Registry.handle_job job s).2 = Server.channels s.
Proof.
  unfold Registry.handle_job. destruct (data job) as [pm fmt result|folder outcome]; simpl.
  - unfold Registry.handle_read_library. destruct result as [[lib|e]|]; [| |done].
    + destruct (Registry.replace_loop _ _) as [[ae kept] removed]. by destruct ae.
    + by destruct (decide (e = PathDoesNotExist)).
  - unfold Registry.handle_scan_folder. destruct (lookup_ptr _ _); [|done].
    destruct outcome; simpl; [done|]. by destruct (negb _).
Qed.

Lemma handle_jobs_channels l n s :
  Server.channels (Registry.handle_jobs l n s).2 = Server.channels s.
Proof.
  revert n s. induction l as [|job rest IH]; intros n s; [done|]. simpl.
  destruct (handled job || negb (completed job)).
  - specialize (IH n s).
    by destruct (Registry.handle_jobs rest n s) as [[[flow rest'] n'] s'].
  - pose proof (handle_job_channels job s) as Hj.
    destruct (Registry.handle_job job s) as [flow s1]. simpl in Hj.
    destruct flow; [|done]. specialize (IH (FetchSub n 1) s1).
    destruct (Registry.handle_jobs rest (FetchSub n 1) s1) as [[[flow' rest'] n'] s'].
    simpl in *. congruence.
Qed.

Lemma UpdateLoadingThread_channels async_ctx s async_ctx' s' :
  Registry.UpdateLoadingThread async_ctx s = Some (async_ctx', s') ->
  Server.channels s' = Server.channels s.
Proof.
  unfold Registry.UpdateLoadingThread.
  pose proof (handle_jobs_channels (jobs async_ctx) (num_uncompleted_jobs async_ctx) s) as Hj.
  destruct (Registry.handle_jobs _ _ _) as [[[flow jobs'] n] s1]. simpl in Hj.
  destruct flow.
  - destruct (Registry.rebuild_libraries_by_name _ _) as [index|]; [|done].
    by intros [= _ <-].
  - by intros [= _ <-].
Qed.

Lemma loop_iteration_undelivered m m' : loop_iteration m = Some m' -> undelivered m m'.
Proof.
  unfold loop_iteration.
  destruct (Registry.UpdateLoadingThread _ _) as [[async_ctx' server']|] eqn:Hu; [|done].
  intros Hp. apply process_pending_results_undelivered in Hp.
  eapply undelivered_trans; [|exact Hp]. apply undelivered_same_channels.
  unfold channels_of at 1. simpl. rewrite (UpdateLoadingThread_channels _ _ _ _ Hu).
  apply consume_requests_channels.
Qed.

End Delivery.

Lemma ChangeRefCount_channels change r m :
  Server.channels (server (ChangeRefCount change r m)) = Server.channels (server m).
Proof. unfold ChangeRefCount. destruct (LoadResult.result r) as [[i|a]| |]; done. Qed.

Lemma foldl_Release_channels (l : list LoadResult.t) m :
  Server.channels (server (foldl (fun m r => ChangeRefCount Release r m) m l))
  = Server.channels (server m).
Proof.
  revert m. induction l as [|r l IH]; intros m; simpl; [done|].
  by rewrite IH, ChangeRefCount_channels.
Qed.

Lemma ChangeRefCount_audio change r m : audio (ChangeRefCount change r m) = audio m.
Proof. unfold ChangeRefCount. destruct (LoadResult.result r) as [[i|a]| |]; done. Qed.

Lemma foldl_Release_audio (l : list LoadResult.t) m :
  audio (foldl (fun m r => ChangeRefCount Release r m) m l) = audio m.
Proof.
  revert m. induction l as [|r l IH]; intros m; simpl; [done|].
  by rewrite IH, ChangeRefCount_audio.
Qed.

(** The sibling case: on a successful instrument result the count of the
    listed instrument does change, by one up or down. *)
Lemma ChangeRefCount_instrument_result (change : RefCountChange) (request_id : Z)
    (i : InstPtr) (li : ListedInstrument.t) (m : LoadingThread.t) :
  deref_instrument i (Server.libraries (server m)) = Some li ->
  deref_instrument i
    (Server.libraries
       (server (ChangeRefCount change
                  {| LoadResult.id := request_id;
                     LoadResult.result := LoadResult.Success (RefInstrument i) |} m)))
  = Some (ListedInstrument.set_refs
            (RefCounted_ChangeRefCount change (ListedInstrument.refs li)) li).
Proof.
  unfold deref_instrument, ChangeRefCount, update_libraries, update_instrument,
    LibrariesList.deref, LibrariesList.update. simpl.
  destruct (Server.libraries (server m)) as [live dead]. simpl.
  rewrite <- update_ptr_app.
  rewrite lookup_ptr_update_eq.
  destruct (lookup_ptr i.1 (live ++ dead)) as [node|]; [|done]. simpl.
  rewrite lookup_ptr_update_eq. by intros ->.
Qed.

(** A result that does not hold the instrument leaves its count alone. *)
Lemma ChangeRefCount_other_result (change : RefCountChange) (r : LoadResult.t)
    (i : InstPtr) (m : LoadingThread.t) :
  Accounting.holds_instrument i r = false ->
  deref_instrument i (Server.libraries (server (ChangeRefCount change r m)))
  = deref_instrument i (Server.libraries (server m)).
Proof.
  unfold Accounting.holds_instrument, ChangeRefCount.
  destruct (LoadResult.result r) as [[j|a]| |]; try done.
  intros Hne. apply bool_decide_eq_false in Hne.
  unfold deref_instrument, update_libraries, update_instrument,
    LibrariesList.deref, LibrariesList.update. simpl.
  destruct (Server.libraries (server m)) as [live dead]. simpl.
  rewrite <- update_ptr_app.
  destruct (decide (j.1 = i.1)) as [Heq|Hne1].
  - rewrite Heq, lookup_ptr_update_eq.
    destruct (lookup_ptr i.1 (live ++ dead)) as [node|]; [|done]. simpl.
    apply lookup_ptr_update_ne. intros Heq2. apply Hne.
    destruct i, j. simpl in *. congruence.
  - by rewrite lookup_ptr_update_ne by done.
Qed.

Lemma set_refs_set_refs (r r' : Z) (li : ListedInstrument.t) :
  ListedInstrument.set_refs r (ListedInstrument.set_refs r' li) = ListedInstrument.set_refs r li.
Proof. done. Qed.

Lemma set_refs_same (li : ListedInstrument.t) :
  ListedInstrument.set_refs (ListedInstrument.refs li) li = li.
Proof. by destruct li. Qed.

(** Releasing the results of a queue one after the other counts an
    instrument down once for each result that holds it. *)
Lemma foldl_Release_instrument (l : list LoadResult.t) (i : InstPtr)
    (li : ListedInstrument.t) (m : LoadingThread.t) :
  deref_instrument i (Server.libraries (server m)) = Some li ->
  deref_instrument i
    (Server.libraries (server (foldl (fun m r => ChangeRefCount Release r m) m l)))
  = Some (ListedInstrument.set_refs
            (Nat.iter (Accounting.results_holding i l) (RefCounted_ChangeRefCount Release)
                      (ListedInstrument.refs li)) li).
Proof.
  revert m li. induction l as [|r l IH]; intros m li Hli.
  - simpl. by rewrite set_refs_same.
  - cbn [foldl]. unfold Accounting.results_holding. cbn [List.filter].
    destruct (Accounting.holds_instrument i r) eqn:Hr.
    + assert (Hres : LoadResult.result r = LoadResult.Success (RefInstrument i)).
      { unfold Accounting.holds_instrument in Hr.
        destruct (LoadResult.result r) as [[j|a]| |]; try done.
        by apply bool_decide_eq_true in Hr as ->. }
      assert (Hstep : deref_instrument i
                        (Server.libraries (server (ChangeRefCount Release r m)))
                      = Some (ListedInstrument.set_refs
                                (RefCounted_ChangeRefCount Release (ListedInstrument.refs li)) li)).
      { destruct r as [request_id result]. simpl in Hres. subst result.
        by apply ChangeRefCount_instrument_result. }
      rewrite (IH _ _ Hstep). cbn [length]. rewrite Nat.iter_succ_r.
      by rewrite set_refs_set_refs.
    + apply IH. by rewrite ChangeRefCount_other_result.
Qed.

(** C9 (what the code does): a request whose channel is unused when it is
    popped changes nothing; a terminal result on an unused channel is dropped
    without any effect and on a used channel it is appended to the queue with
    one callback; a whole iteration of the loop leaves the queue and the
    callback count of every unused channel as they were.  Closing a channel
    clears its flag and empties its queue and touches no other channel; the
    count of every listed instrument goes down once for each queued result
    that holds it; the audio store stays as it is, so an impulse-response
    result that was queued is not released: no count of an audio entry
    changes. *)
Theorem unused_channel_receives_nothing `{Platform} :
  (forall (queued_request : QueuedRequest.t) (m : LoadingThread.t),
     channel_used (QueuedRequest.async_comms_channel queued_request) (server m) = false ->
     consume_request queued_request m = m)
  /\ (forall (pending_result : PendingResult.t) (m : LoadingThread.t),
        channel_used (channel_of pending_result) (server m) = false ->
        (dispatch pending_result m).2 = m)
  /\ (forall (pending_result : PendingResult.t) (m : LoadingThread.t)
             (result : LoadResult.t) (c : AsyncCommsChannel.t),
        terminal_result pending_result = Some result ->
        lookup_ptr (channel_of pending_result) (channels_of m) = Some c ->
        AsyncCommsChannel.used c = true ->
        lookup_ptr (channel_of pending_result) (channels_of (dispatch pending_result m).2)
        = Some (AsyncCommsChannel.deliver result c))
  /\ (forall m m' : LoadingThread.t, loop_iteration m = Some m' -> undelivered m m')
  /\ (forall (channel : ptr) (c : AsyncCommsChannel.t) (m : LoadingThread.t),
        lookup_ptr channel (channels_of m) = Some c ->
        let m' := CloseAsyncCommsChannel channel m in
        lookup_ptr channel (channels_of m') = Some (AsyncCommsChannel.closed c)
        /\ (forall ch, ch <> channel ->
                       lookup_ptr ch (channels_of m') = lookup_ptr ch (channels_of m))
        /\ (forall (i : InstPtr) (li : ListedInstrument.t),
              deref_instrument i (Server.libraries (server m)) = Some li ->
              deref_instrument i (Server.libraries (server m'))
              = Some (ListedInstrument.set_refs
                        (Nat.iter (Accounting.results_holding i (AsyncCommsChannel.results c))
                                  (RefCounted_ChangeRefCount Release)
                                  (ListedInstrument.refs li)) li))
        /\ audio m' = audio m).
Proof.
  split; [|split; [|split; [|split]]].
  - intros q m Hused. unfold consume_request. by rewrite Hused.
  - intros pr m Hused. unfold dispatch. rewrite Hused. by destruct (terminal_result pr).
  - intros pr m result c Hterm Hc Hused. unfold dispatch. rewrite Hterm.
    unfold channels_of in *. unfold channel_used. rewrite Hc, Hused. simpl.
    by rewrite lookup_ptr_update_eq, ChangeRefCount_channels, Hc.
  - apply loop_iteration_undelivered.
  - intros channel c m Hc m'. subst m'. unfold CloseAsyncCommsChannel.
    unfold channels_of in *. rewrite Hc. split; [|split; [|split]].
    + rewrite foldl_Release_channels. simpl. by rewrite lookup_ptr_update_eq, Hc.
    + intros ch Hch. rewrite foldl_Release_channels. simpl.
      by rewrite lookup_ptr_update_ne.
    + intros i li Hli. by apply foldl_Release_instrument.
    + by rewrite foldl_Release_audio.
Qed.

End DeliveryProofs.

Section ResolutionProofs.
Import LoadingThread.

(** ** Resolution of the library of a request *)

Section NotFound.
Context `{Platform}.
Hypothesis U32FromChars_range : forall tag, (0 <= U32FromChars tag < 2 ^ 32)%Z.
Hypothesis Hash32_range : forall s, (0 <= Hash32 s < 2 ^ 32)%Z.

(** The upper half of an id is its tag. *)
Lemma Id_tag (tag s : string) : Z.shiftr (Id tag s) 32 = U32FromChars tag.
Proof.
  unfold Id, u64_wrap. pose proof (U32FromChars_range tag) as Ht.
  pose proof (Hash32_range s) as Hs.
  rewrite Z.shiftr_lor. rewrite Z.mod_small.
  - rewrite Z.shiftr_shiftl_l by lia. replace (32 - 32)%Z with 0%Z by lia.
    rewrite Z.shiftl_0_r. rewrite (Z.shiftr_div_pow2 (Hash32 s)) by lia.
    rewrite Z.div_small by lia. apply Z.lor_0_r.
  - rewrite Z.shiftl_mul_pow2 by lia. lia.
Qed.

Lemma Id_tags_differ (tag1 tag2 s1 s2 : string) :
  U32FromChars tag1 <> U32FromChars tag2 -> Id tag1 s1 <> Id tag2 s2.
Proof.
  intros Hne Heq. apply Hne. by rewrite <- (Id_tag tag1 s1), <- (Id_tag tag2 s2), Heq.
Qed.

End NotFound.

Lemma with_state_state st pr : PendingResult.state (PendingResult.with_state st pr) = st.
Proof. done. Qed.

(** Resolution against the by-name index, for a pending result in
    [AwaitingLibrary] on a named library.  If the
    by-name index has no such library, the result fails with [NotFound]
    exactly when no library job is outstanding, notifying under the id of
    tag "lib " and the library name, and otherwise stays as it is.  If the
    library is known and the instrument name is not, it fails with
    [NotFound] under the id of tag "inst" and the instrument name, and the
    two ids differ.  No other case ends in [NotFound] than an absent library
    with no outstanding job or a known library that lacks the named asset. *)
Theorem AwaitingLibrary_NotFound `{Platform}
    (U32FromChars_range : forall tag, (0 <= U32FromChars tag < 2 ^ 32)%Z)
    (Hash32_range : forall s, (0 <= Hash32 s < 2 ^ 32)%Z)
    (tags_differ : U32FromChars "inst" <> U32FromChars "lib ")
    (pending_result : PendingResult.t) (m : LoadingThread.t)
    (Hstate : PendingResult.state pending_result = PendingResult.AwaitingLibrary)
    (Hname : request_library_name (QueuedRequest.request (PendingResult.request pending_result))
             <> EmptyString) :
  let request := QueuedRequest.request (PendingResult.request pending_result) in
  let library_name := request_library_name request in
  let index := Server.libraries_by_name (server m) in
  let outstanding := num_uncompleted_jobs (libs_async_ctx m) in
  (index !! library_name = None ->
     fill_in_library pending_result m =
       Some (if decide (outstanding = 0%Z)
             then (PendingResult.with_state (PendingResult.Failed NotFound) pending_result,
                   update_channel (channel_of pending_result)
                     (AsyncCommsChannel.notify (library_not_found_item library_name)) m)
             else (pending_result, m)))
  /\ (forall pending_result' m',
        index !! library_name = None ->
        fill_in_library pending_result m = Some (pending_result', m') ->
        (PendingResult.state pending_result' = PendingResult.Failed NotFound
         <-> outstanding = 0%Z))
  /\ (forall lib lib_node lname inst_name layer_index,
        request = LoadRequestInstrumentIdWithLayer lname inst_name layer_index ->
        inst_name <> EmptyString ->
        index !! library_name = Some lib ->
        LibrariesList.deref lib (Server.libraries (server m)) = Some lib_node ->
        Library.insts_by_name (ListedLibrary.lib (LibNode.value lib_node)) !! inst_name = None ->
        fill_in_library pending_result m =
          Some (PendingResult.with_state (PendingResult.Failed NotFound) pending_result,
                update_channel (channel_of pending_result)
                  (AsyncCommsChannel.notify (instrument_not_found_item inst_name)) m))
  /\ (forall lname inst_name,
        id (instrument_not_found_item inst_name) <> id (library_not_found_item lname))
  /\ (forall pending_result' m',
        fill_in_library pending_result m = Some (pending_result', m') ->
        (PendingResult.state pending_result' = PendingResult.Failed NotFound
         <-> (index !! library_name = None /\ outstanding = 0%Z)
             \/ (exists lib lib_node,
                   index !! library_name = Some lib
                   /\ LibrariesList.deref lib (Server.libraries (server m)) = Some lib_node
                   /\ asset_unknown (ListedLibrary.lib (LibNode.value lib_node)) request))).
Proof.
  intros request library_name index outstanding.
  assert (Habsent : index !! library_name = None ->
     fill_in_library pending_result m =
       Some (if decide (outstanding = 0%Z)
             then (PendingResult.with_state (PendingResult.Failed NotFound) pending_result,
                   update_channel (channel_of pending_result)
                     (AsyncCommsChannel.notify (library_not_found_item library_name)) m)
             else (pending_result, m))).
  { intros Hnone. unfold fill_in_library. rewrite Hstate.
    fold request. fold library_name. rewrite bool_decide_eq_false_2 by done.
    fold index. rewrite Hnone. fold outstanding. by destruct (decide (outstanding = 0%Z)). }
  split; [exact Habsent|]. split; [|split; [|split]].
  - intros pr' m' Hnone Hfill. rewrite (Habsent Hnone) in Hfill.
    destruct (decide (outstanding = 0%Z)) as [Hz|Hnz]; injection Hfill as <- <-.
    + by rewrite with_state_state.
    + rewrite Hstate. split; [done|]. intros Hz. by destruct Hnz.
  - intros lib lib_node lname inst_name layer_index Hreq Hinst Hlib Hderef Hnone.
    unfold fill_in_library. rewrite Hstate. fold request. fold library_name.
    rewrite bool_decide_eq_false_2 by done. fold index. rewrite Hlib, Hderef.
    rewrite Hreq. rewrite bool_decide_eq_false_2 by done. by rewrite Hnone.
  - intros lname inst_name. simpl. by apply Id_tags_differ.
  - intros pr' m' Hfill. unfold fill_in_library in Hfill. rewrite Hstate in Hfill.
    fold request in Hfill. fold library_name in Hfill.
    rewrite bool_decide_eq_false_2 in Hfill by done. fold index in Hfill.
    destruct (index !! library_name) as [lib|] eqn:Hidx.
    + destruct (LibrariesList.deref lib (Server.libraries (server m))) as [lib_node|] eqn:Hderef;
        [|done].
      assert (Hiff : PendingResult.state pr' = PendingResult.Failed NotFound
                     <-> asset_unknown (ListedLibrary.lib (LibNode.value lib_node)) request).
      { unfold asset_unknown. destruct request as [lname inst_name layer|lname ir_name].
        - case_bool_decide; [done|].
          destruct (Library.insts_by_name _ !! inst_name) as [i|] eqn:Hi.
          + destruct (FetchOrCreateInstrument _ _ _) as [[[inst node'] audio']|]; [|done].
            injection Hfill as <- <-. by rewrite with_state_state.
          + injection Hfill as <- <-. by rewrite with_state_state.
        - destruct (Library.irs_by_name _ !! ir_name) as [ir|] eqn:Hi.
          + destruct (FetchOrCreateAudioData _ _ _) as [a audio'].
            injection Hfill as <- <-. by rewrite with_state_state.
          + injection Hfill as <- <-. by rewrite with_state_state. }
      rewrite Hiff. split.
      * intros Hu. right. by exists lib, lib_node.
      * intros [[? _]|(lib' & node' & Hl & Hd & Hu)]; [done|]. congruence.
    + fold outstanding in Hfill.
      destruct (decide (outstanding = 0%Z)) as [Hz|Hnz]; injection Hfill as <- <-.
      * rewrite with_state_state. split; [by left|done].
      * rewrite Hstate. split; [done|].
        intros [[_ Hz]|(lib' & node' & Hl & _)]; [by destruct Hnz|done].
Qed.

End ResolutionProofs.

(** ** Instrument cache *)

Lemma map_audio_key_update p g l :
  keeps_key_refs g -> map audio_key (update_ptr p g l) = map audio_key l.
Proof.
  intros Hg. unfold update_ptr. rewrite map_map. apply map_ext. intros [q d]. simpl.
  destruct (decide (q = p)); [|done]. unfold audio_key. simpl.
  destruct (Hg d) as (-> & -> & _). done.
Qed.

Lemma keeps_set_state st : keeps_key_refs (set_state st).
Proof. by intros d. Qed.

Lemma TriggerReload_shape p s :
  exists g, keeps_key_refs g
    /\ audio_datas (TriggerReloadIfAudioIsCancelled p s) = update_ptr p g (audio_datas s).
Proof.
  unfold TriggerReloadIfAudioIsCancelled.
  destruct (lookup_ptr p (audio_datas s)) as [d|] eqn:Hd.
  - unfold CompareExchangeStrong. destruct (decide (state d = PendingCancel)).
    + exists (set_state PendingLoad). split; [apply keeps_set_state|done].
    + destruct (decide (state d = CompletedCancelled)).
      * exists (set_state PendingLoad). split; [apply keeps_set_state|done].
      * exists (fun x => x). split; [done|]. unfold update_ptr.
        rewrite <- (map_id (audio_datas s)) at 1. apply map_ext. intros [q x]. simpl.
        by destruct (decide (q = p)).
  - exists (fun x => x). split; [done|]. unfold update_ptr.
    rewrite <- (map_id (audio_datas s)) at 1. apply map_ext. intros [q x]. simpl.
    by destruct (decide (q = p)).
Qed.

Lemma key_refs_at_update p g s s' a :
  keeps_key_refs g -> audio_datas s' = update_ptr p g (audio_datas s) ->
  key_at s' a = key_at s a /\ refs_at s' a = refs_at s a.
Proof.
  intros Hg Hs'. unfold key_at, refs_at. rewrite Hs'.
  destruct (decide (p = a)) as [->|Hne].
  - rewrite lookup_ptr_update_eq. destruct (lookup_ptr a (audio_datas s)) as [d|]; [|done].
    simpl. destruct (Hg d) as (-> & -> & ->). done.
  - by rewrite lookup_ptr_update_ne.
Qed.

Lemma key_at_elem s p d :
  NoDup (dom_of s) -> (p, d) ∈ audio_datas s -> key_at s p = Some (library_name d, path d).
Proof. intros Hnd Hin. unfold key_at. by rewrite (elem_lookup_ptr _ _ _ Hnd Hin). Qed.

(** What one call of [FetchOrCreateAudioData] does to a well-formed store. *)
Lemma FetchOrCreateAudioData_frame lib_name file_path s r s' :
  store_wf s -> FetchOrCreateAudioData lib_name file_path s = (r, s') ->
  store_wf s'
  /\ key_at s' r = Some (lib_name, file_path)
  /\ (forall a, a ∈ dom_of s -> key_at s' a = key_at s a /\ refs_at s' a = refs_at s a)
  /\ (r ∉ dom_of s -> refs_at s' r = Some 0%Z)
  /\ (forall a, a ∈ dom_of s' <-> a = r \/ a ∈ dom_of s).
Proof.
  intros [Hptr Hkey] Hf. change (NoDup (dom_of s)) in Hptr.
  unfold FetchOrCreateAudioData in Hf.
  destruct (find_audio lib_name file_path (audio_datas s)) as [p|] eqn:Hfind.
  - injection Hf as <- <-.
    destruct (TriggerReload_shape p s) as (g & Hg & Hshape).
    apply find_audio_Some in Hfind as (d & Hin & Hl & Hp).
    assert (Hdom : dom_of (TriggerReloadIfAudioIsCancelled p s) = dom_of s).
    { unfold dom_of. by rewrite Hshape, map_fst_update_ptr. }
    repeat split.
    + change (NoDup (dom_of (TriggerReloadIfAudioIsCancelled p s))). by rewrite Hdom.
    + by rewrite Hshape, map_audio_key_update.
    + destruct (key_refs_at_update p g s _ p Hg Hshape) as [-> _].
      rewrite (key_at_elem s p d Hptr Hin). by rewrite Hl, Hp.
    + by destruct (key_refs_at_update p g s _ a Hg Hshape).
    + by destruct (key_refs_at_update p g s _ a Hg Hshape).
    + intros Hnot. exfalso. apply Hnot. by eapply elem_map_fst.
    + rewrite Hdom. by right.
    + rewrite Hdom. intros [-> | ?]; [by eapply elem_map_fst|done].
  - injection Hf as <- <-. pose proof (fresh_ptr_fresh (audio_datas s)) as Hfresh.
    set (r := fresh_ptr (audio_datas s)) in *.
    repeat split; simpl.
    + unfold dom_of. simpl. apply NoDup_cons. by split.
    + apply NoDup_cons. split; [|done]. intros Hin.
      apply elem_of_map_1 in Hin as ([q x] & Hx & Hin). unfold audio_key in Hx. simpl in Hx.
      injection Hx as Hx1 Hx2. by eapply (find_audio_None _ _ _ Hfind q x).
    + unfold key_at. simpl. by case_decide.
    + unfold key_at. simpl. case_decide; [|done]. subst a. by destruct Hfresh.
    + unfold refs_at. simpl. case_decide; [|done]. subst a. by destruct Hfresh.
    + intros _. unfold refs_at. simpl. by case_decide.
    + unfold dom_of. simpl. rewrite elem_of_cons. tauto.
    + unfold dom_of. simpl. rewrite elem_of_cons. tauto.
Qed.

Lemma AppendIfNotAlreadyThere_NoDup l p : NoDup l -> NoDup (AppendIfNotAlreadyThere l p).
Proof.
  intros Hnd. unfold AppendIfNotAlreadyThere. case_bool_decide; [done|].
  apply NoDup_app. repeat split; [done| |apply NoDup_singleton].
  intros x Hx Hin. apply list_elem_of_singleton in Hin. by subst.
Qed.

Lemma AppendIfNotAlreadyThere_elem l p a :
  a ∈ AppendIfNotAlreadyThere l p <-> a ∈ l \/ a = p.
Proof.
  unfold AppendIfNotAlreadyThere. case_bool_decide.
  - split; [by left|]. intros [? | ->]; done.
  - rewrite elem_of_app, list_elem_of_singleton. tauto.
Qed.

Lemma key_at_dom st a k : key_at st a = Some k -> a ∈ dom_of st.
Proof.
  unfold key_at. destruct (lookup_ptr a (audio_datas st)) as [d|] eqn:Hd; [|done].
  intros _. eapply elem_map_fst, lookup_ptr_Some_elem, Hd.
Qed.

Lemma NoDup_map_inj_elem {A B} (f : A -> B) (l : list A) (x y : A) :
  NoDup (map f l) -> x ∈ l -> y ∈ l -> f x = f y -> x = y.
Proof.
  induction l as [|z l IH]; intros Hnd Hx Hy Hxy.
  - by apply elem_of_nil in Hx.
  - cbn [map] in Hnd. apply NoDup_cons in Hnd as [Hz Hnd].
    apply elem_of_cons in Hx as [->|Hx], Hy as [->|Hy]; try done.
    + exfalso. apply Hz. rewrite Hxy. by apply elem_of_map_2.
    + exfalso. apply Hz. rewrite <- Hxy. by apply elem_of_map_2.
    + by apply IH.
Qed.

Lemma NoDup_map_inj_on {A B} (f : A -> B) (l : list A) :
  NoDup l -> (forall x y, x ∈ l -> y ∈ l -> f x = f y -> x = y) -> NoDup (map f l).
Proof.
  induction l as [|z l IH]; intros Hnd Hinj; [constructor|].
  apply NoDup_cons in Hnd as [Hz Hnd]. cbn [map]. apply NoDup_cons. split.
  - intros Hin. apply elem_of_map_1 in Hin as (x & Hx & Hin). apply Hz.
    rewrite (Hinj z x); [done|by left|by right|done].
  - apply IH; [done|]. intros x y Hx Hy. apply Hinj; by right.
Qed.

(** In a well-formed store an entry is determined by its key. *)
Lemma key_at_inj st a b k :
  store_wf st -> key_at st a = Some k -> key_at st b = Some k -> a = b.
Proof.
  intros [Hptr Hkey] Ha Hb. unfold key_at in Ha, Hb.
  destruct (lookup_ptr a (audio_datas st)) as [da|] eqn:Hda; [|done].
  destruct (lookup_ptr b (audio_datas st)) as [db|] eqn:Hdb; [|done].
  simpl in Ha, Hb. apply lookup_ptr_Some_elem in Hda, Hdb.
  assert (Heq : (a, da) = (b, db)).
  { eapply (NoDup_map_inj_elem audio_key); [exact Hkey|done|done|].
    unfold audio_key. simpl. congruence. }
  congruence.
Qed.

Section RegionLoopProofs.
Variables (lib_name waveform_path : string) (s : Store).
Hypothesis Hwf : store_wf s.

Lemma loop_inv_run (rs : list Region.t) :
  loop_inv lib_name s rs (run_regions lib_name waveform_path s rs).
Proof.
  induction rs as [|region rs IH] using rev_ind.
  - split; simpl; try done; try constructor.
    + by left.
    + intros [?|Hn]; [done|]. by apply elem_of_nil in Hn.
  - unfold run_regions. rewrite foldl_app. simpl. fold (run_regions lib_name waveform_path s rs).
    set (acc := run_regions lib_name waveform_path s rs) in *. destruct IH as [Iwf Iregions Ind Ielem Idom Iold Inew].
    unfold region_step.
    destruct (FetchOrCreateAudioData lib_name (Region.file_path region) (rl_store acc))
      as [r s1] eqn:Hf.
    destruct (FetchOrCreateAudioData_frame _ _ _ _ _ Iwf Hf)
      as (Hwf1 & Hkey1 & Hold1 & Hnew1 & Hdom1).
    split; simpl.
    + done.
    + apply Forall2_app; [|by repeat constructor].
      eapply Forall2_impl; [exact Iregions|]. intros x a Hk. simpl in *.
      destruct (Hold1 a) as [-> _]; [by eapply key_at_dom|done].
    + by apply AppendIfNotAlreadyThere_NoDup.
    + intros a. rewrite AppendIfNotAlreadyThere_elem, elem_of_app, list_elem_of_singleton.
      by rewrite Ielem.
    + intros a. rewrite Hdom1, Idom, elem_of_app, list_elem_of_singleton. tauto.
    + intros a Ha. destruct (Iold a Ha) as [<- <-]. apply Hold1. apply Idom. by left.
    + intros a Ha Hnot. apply Hdom1 in Ha as [-> | Ha].
      * destruct (decide (r ∈ dom_of (rl_store acc))) as [Hin|Hnin].
        -- destruct (Hold1 r Hin) as [_ ->]. by apply Inew.
        -- by apply Hnew1.
      * destruct (Hold1 a Ha) as [_ ->]. by apply Inew.
Qed.

End RegionLoopProofs.

Lemma retain_all (set : list ptr) (st : Store) :
  NoDup set ->
  foldl (fun s d => retain_audio d s) st set
  = {| audio_datas := map (retained set) (audio_datas st);
       thread_pool_jobs := thread_pool_jobs st |}.
Proof.
  revert st. induction set as [|p set IH]; intros st Hnd; simpl.
  - destruct st as [l j]. simpl. f_equal. rewrite <- (map_id l) at 1.
    apply map_ext. intros e. unfold retained.
    by rewrite bool_decide_eq_false_2 by apply not_elem_of_nil.
  - apply NoDup_cons in Hnd as [Hp Hnd]. rewrite IH by done. simpl. f_equal.
    unfold update_ptr. rewrite map_map. apply map_ext. intros [q x]. simpl.
    unfold retained. simpl. destruct (decide (q = p)) as [->|Hne]; simpl.
    + rewrite (bool_decide_eq_false_2 (p ∈ set)) by done.
      by rewrite (bool_decide_eq_true_2 (p ∈ p :: set)) by (by left).
    + assert (Heq : bool_decide (q ∈ p :: set) = bool_decide (q ∈ set)).
      { apply bool_decide_ext. rewrite elem_of_cons.
        split; [intros [?|?]; [congruence|done]|by right]. }
      by rewrite Heq.
Qed.

Lemma lookup_retained set l a :
  lookup_ptr a (map (retained set) l)
  = (fun d => if bool_decide (a ∈ set)
              then AudioStore.set_refs (FetchAdd (refs d) 1) d else d) <$> lookup_ptr a l.
Proof.
  induction l as [|[q x] l IH]; simpl; [done|].
  unfold retained at 1. simpl.
  destruct (bool_decide (q ∈ set)) eqn:Hq; simpl;
    destruct (decide (q = a)) as [->|Hne]; simpl; try done; by rewrite Hq.
Qed.

Lemma Forall2_elem_l {A B} (P : A -> B -> Prop) l k x :
  Forall2 P l k -> x ∈ l -> exists y, y ∈ k /\ P x y.
Proof.
  induction 1 as [|a b l k Hab _ IH]; intros Hx.
  - by apply elem_of_nil in Hx.
  - apply elem_of_cons in Hx as [->|Hx].
    + exists b. split; [by left|done].
    + destruct (IH Hx) as (y & Hy & HP). exists y. split; [by right|done].
Qed.

Lemma Forall2_elem_r {A B} (P : A -> B -> Prop) l k y :
  Forall2 P l k -> y ∈ k -> exists x, x ∈ l /\ P x y.
Proof.
  induction 1 as [|a b l k Hab _ IH]; intros Hy.
  - by apply elem_of_nil in Hy.
  - apply elem_of_cons in Hy as [->|Hy].
    + exists a. split; [by left|done].
    + destruct (IH Hy) as (x & Hx & HP). exists x. split; [by right|done].
Qed.

Lemma first_error_none set m :
  Forall (fun a => state_at (LoadingThread.audio m) a = Some CompletedSucessfully) set ->
  LoadingThread.first_error set m = None.
Proof.
  induction 1 as [|a set Ha _ IH]; simpl; [done|]. unfold state_at in Ha.
  destruct (lookup_ptr a (audio_datas (LoadingThread.audio m))) as [d|]; [|done].
  simpl in Ha. injection Ha as Ha. rewrite decide_False by congruence. done.
Qed.

Lemma num_completed_all set m :
  Forall (fun a => state_at (LoadingThread.audio m) a = Some CompletedSucessfully) set ->
  LoadingThread.num_completed set m = length set.
Proof.
  intros Hall. unfold LoadingThread.num_completed. f_equal.
  induction Hall as [|a set Ha _ IH]; simpl; [done|].
  assert (Hb : bool_decide (LoadingThread.audio_state a m = Some CompletedSucessfully) = true)
    by (apply bool_decide_eq_true; exact Ha).
  rewrite Hb. by f_equal.
Qed.

(** The request that still desires a fully decoded instrument succeeds. *)
Lemma desired_and_decoded_succeeds `{Platform} (li : ListedInstrument.t)
    (m : LoadingThread.t) (pr : PendingResult.t) (i : InstPtr) :
  ListedInstrument.audio_data_set li <> [] ->
  PendingResult.state pr = PendingResult.AwaitingAudio (PendingResult.AssetInstrument i) ->
  LoadingThread.deref_instrument i (Server.libraries (LoadingThread.server m)) = Some li ->
  LoadingThread.IsDesired pr i m = true ->
  Forall (fun a => state_at (LoadingThread.audio m) a = Some CompletedSucessfully)
         (ListedInstrument.audio_data_set li) ->
  LoadingThread.check_for_errors pr m = Some (pr, m)
  /\ LoadingThread.check_still_needed pr m
     = Some (PendingResult.with_state (PendingResult.CompletedSuccessfully (RefInstrument i)) pr,
             LoadingThread.store_loading_percent pr (-1) m)
  /\ LoadingThread.terminal_result
       (PendingResult.with_state (PendingResult.CompletedSuccessfully (RefInstrument i)) pr)
     = Some {| LoadResult.id := QueuedRequest.id (PendingResult.request pr);
               LoadResult.result := LoadResult.Success (RefInstrument i) |}.
Proof.
  intros Hset Hstate Hderef Hdesired Hall. repeat split.
  - unfold LoadingThread.check_for_errors. rewrite Hstate, Hderef.
    rewrite bool_decide_eq_false_2 by done. by rewrite first_error_none.
  - unfold LoadingThread.check_still_needed. rewrite Hstate, Hderef, Hdesired.
    by rewrite decide_True by (by apply num_completed_all).
Qed.

(** Materializing an instrument with at least one region on a well-formed
    store: the node of the library, the listed instrument and the store
    afterwards. *)
Lemma FetchOrCreateInstrument_new_instrument `{Platform}
    (lib_node : LibNode.t) (s : Store) (inst : Instrument.t)
    (Hwf : store_wf s)
    (Hnew : find_instrument (Instrument.name inst)
              (ListedLibrary.instruments (LibNode.value lib_node)) = None)
    (Hregions : Instrument.regions inst <> []) :
  let lib_name := Library.name (ListedLibrary.lib (LibNode.value lib_node)) in
  let regions := Instrument.regions inst in
  exists new_inst li lib_node' s',
    FetchOrCreateInstrument lib_node s inst = Some (new_inst, lib_node', s')
    /\ ListedLibrary.instruments (LibNode.value lib_node')
       = (new_inst, li) :: ListedLibrary.instruments (LibNode.value lib_node)
    /\ LoadedInstrument.instrument (ListedInstrument.inst li) = inst
    /\ ListedInstrument.refs li = 0%Z
    /\ LibNode.reader_uses lib_node' = FetchAdd (LibNode.reader_uses lib_node) 1
    /\ store_wf s'
    /\ length (LoadedInstrument.audio_datas (ListedInstrument.inst li)) = length regions
    /\ Forall2 (fun region a => key_at s' a = Some (lib_name, Region.file_path region))
               regions (LoadedInstrument.audio_datas (ListedInstrument.inst li))
    /\ NoDup (ListedInstrument.audio_data_set li)
    /\ (forall a, a ∈ ListedInstrument.audio_data_set li
                  <-> a ∈ LoadedInstrument.audio_datas (ListedInstrument.inst li))
    /\ length (ListedInstrument.audio_data_set li)
       = length (remove_dups (map Region.file_path regions))
    /\ Forall (fun a => refs_at s' a = Some (FetchAdd (refs_before s a) 1))
              (ListedInstrument.audio_data_set li)
    /\ (forall a, a ∉ ListedInstrument.audio_data_set li -> refs_at s' a = refs_at s a).
Proof.
  intros lib_name regions. unfold FetchOrCreateInstrument. rewrite Hnew.
  fold lib_name. fold regions.
  pose proof (loop_inv_run lib_name (Instrument.audio_file_path_for_waveform inst) s Hwf regions)
    as [Iwf Iregions Ind Ielem Idom Iold Inew].
  unfold run_regions, loop_init in *.
  set (loop := foldl (region_step lib_name (Instrument.audio_file_path_for_waveform inst))
                 {| rl_audio_datas := []; rl_audio_data_set := [];
                    rl_file_for_gui_waveform := None; rl_store := s |} regions) in *.
  rewrite (retain_all _ _ Ind).
  set (s' := {| audio_datas := map (retained (rl_audio_data_set loop))
                                   (audio_datas (rl_store loop));
                thread_pool_jobs := thread_pool_jobs (rl_store loop) |}).
  assert (Hlen : length (rl_audio_datas loop) = length regions)
    by (symmetry; eapply Forall2_length, Iregions).
  assert (Hset : rl_audio_data_set loop <> []).
  { intros Hnil. destruct (rl_audio_datas loop) as [|a l] eqn:Hl.
    - apply Hregions, nil_length_inv. fold regions. by rewrite <- Hlen.
    - assert (Ha : a ∈ rl_audio_data_set loop) by (apply Ielem; by left).
      rewrite Hnil in Ha. by apply elem_of_nil in Ha. }
  rewrite bool_decide_eq_false_2 by done.
  assert (Hkey' : forall a, key_at s' a = key_at (rl_store loop) a).
  { intros a. unfold key_at, s'. simpl. rewrite lookup_retained.
    destruct (lookup_ptr a (audio_datas (rl_store loop))) as [d|]; [|done]. simpl.
    by destruct (bool_decide (a ∈ rl_audio_data_set loop)). }
  assert (Hrefs' : forall a, refs_at s' a
            = (fun r => if bool_decide (a ∈ rl_audio_data_set loop) then FetchAdd r 1 else r)
                <$> refs_at (rl_store loop) a).
  { intros a. unfold refs_at, s'. simpl. rewrite lookup_retained.
    destruct (lookup_ptr a (audio_datas (rl_store loop))) as [d|]; [|done]. simpl.
    by destruct (bool_decide (a ∈ rl_audio_data_set loop)). }
  assert (Hwf' : store_wf s').
  { destruct Iwf as [Hp Hk]. split; unfold s'; simpl.
    - rewrite map_map. erewrite map_ext; [exact Hp|]. intros [q x]. unfold retained. simpl.
      by destruct (bool_decide (q ∈ rl_audio_data_set loop)).
    - rewrite map_map. erewrite map_ext; [exact Hk|]. intros [q x]. unfold retained. simpl.
      by destruct (bool_decide (q ∈ rl_audio_data_set loop)). }
  eexists _, _, _, s'. split; [reflexivity|]. simpl.
  repeat (split; [done|]).
  split.
  { eapply Forall2_impl; [exact Iregions|]. intros region a Hk. simpl. by rewrite Hkey'. }
  split; [done|]. split; [done|]. split.
  { (* one entry per distinct path *)
    set (path_of := fun a => default EmptyString (snd <$> key_at (rl_store loop) a)).
    assert (Hnd : NoDup (map path_of (rl_audio_data_set loop))).
    { apply NoDup_map_inj_on; [done|]. intros a b Ha Hb Hab.
      apply Ielem in Ha, Hb.
      destruct (Forall2_elem_r _ _ _ _ Iregions Ha) as (ra & _ & Hka).
      destruct (Forall2_elem_r _ _ _ _ Iregions Hb) as (rb & _ & Hkb).
      simpl in Hka, Hkb. unfold path_of in Hab. rewrite Hka, Hkb in Hab. simpl in Hab.
      eapply key_at_inj; [exact Iwf|exact Hka|]. by rewrite Hab. }
    transitivity (length (map path_of (rl_audio_data_set loop))); [by rewrite length_map|].
    apply Permutation_length, NoDup_Permutation; [done|apply NoDup_remove_dups|].
    intros p. rewrite elem_of_remove_dups. split.
    - intros Hp. apply elem_of_map_1 in Hp as (a & -> & Ha). apply Ielem in Ha.
      destruct (Forall2_elem_r _ _ _ _ Iregions Ha) as (ra & Hra & Hka). simpl in Hka.
      unfold path_of. rewrite Hka. simpl. by apply elem_of_map_2.
    - intros Hp. apply elem_of_map_1 in Hp as (region & -> & Hr).
      destruct (Forall2_elem_l _ _ _ _ Iregions Hr) as (a & Ha & Hka). simpl in Hka.
      apply Ielem in Ha. replace (Region.file_path region) with (path_of a).
      + by apply elem_of_map_2.
      + unfold path_of. by rewrite Hka. }
  split.
  { apply Forall_forall. intros a Ha. rewrite Hrefs'.
    rewrite bool_decide_eq_true_2 by done. unfold refs_before.
    assert (Hdom : a ∈ dom_of (rl_store loop)) by (apply Idom; right; by apply Ielem).
    destruct (decide (a ∈ dom_of s)) as [Hold|Hnew'].
    - destruct (Iold a Hold) as [_ ->].
      destruct (lookup_ptr_is_Some a (audio_datas s) Hold) as [d Hd].
      unfold refs_at. by rewrite Hd.
    - rewrite (Inew a Hdom Hnew'). simpl.
      unfold refs_at. by rewrite (lookup_ptr_None a (audio_datas s) Hnew'). }
  { intros a Ha. rewrite Hrefs'. rewrite bool_decide_eq_false_2 by done.
    destruct (decide (a ∈ dom_of s)) as [Hold|Hnew'].
    - destruct (Iold a Hold) as [_ ->]. by destruct (refs_at s a).
    - assert (Hnot : a ∉ dom_of (rl_store loop)).
      { intros Hin. apply Idom in Hin as [?|Hin]; [done|]. by apply Ielem in Hin. }
      unfold refs_at. rewrite (lookup_ptr_None a (audio_datas s) Hnew').
      by rewrite (lookup_ptr_None a (audio_datas (rl_store loop)) Hnot). }
Qed.

(** ** Well-formedness of the store is an invariant of the orchestrator *)

Lemma store_wf_update p g s s' :
  keeps_key_refs g -> audio_datas s' = update_ptr p g (audio_datas s) ->
  store_wf s -> store_wf s'.
Proof.
  intros Hg Hs' [Hp Hk]. split; rewrite Hs'.
  - by rewrite map_fst_update_ptr.
  - by rewrite map_audio_key_update.
Qed.

Lemma TriggerReload_wf p s : store_wf s -> store_wf (TriggerReloadIfAudioIsCancelled p s).
Proof.
  destruct (TriggerReload_shape p s) as (g & Hg & Hshape). by eapply store_wf_update.
Qed.

Lemma cancel_loop_wf set s n s' n' :
  store_wf s -> cancel_loop set (s, n) = Some (s', n') -> store_wf s'.
Proof.
  revert s n. induction set as [|p set IH]; intros s n Hwf; simpl.
  - by intros [= <- _].
  - destruct (lookup_ptr p (audio_datas s)) as [d|]; [|done].
    destruct (decide (refs d = 0%Z)) as [?|_]; [done|].
    destruct (decide (refs d = 1%Z)) as [_|_]; [|by apply IH].
    destruct (CompareExchangeStrong (state d) PendingLoad PendingCancel) as [[ok c] ex].
    apply IH. eapply (store_wf_update p (set_state c)); [apply keeps_set_state|done|done].
Qed.

Lemma FetchOrCreateInstrument_wf lib_node s inst p lib_node' s' :
  store_wf s -> FetchOrCreateInstrument lib_node s inst = Some (p, lib_node', s') ->
  store_wf s'.
Proof.
  intros Hwf. unfold FetchOrCreateInstrument.
  destruct (find_instrument _ _) as [[q i]|].
  - intros [= _ _ <-]. clear q. revert s Hwf.
    induction (ListedInstrument.audio_data_set i) as [|d l IH]; intros s Hwf; simpl; [done|].
    apply IH. by apply TriggerReload_wf.
  - pose proof (loop_inv_run (Library.name (ListedLibrary.lib (LibNode.value lib_node)))
                  (Instrument.audio_file_path_for_waveform inst) s Hwf
                  (Instrument.regions inst)) as [Iwf _ Ind _ _ _ _].
    unfold run_regions, loop_init in *. rewrite (retain_all _ _ Ind).
    case_bool_decide; [done|]. intros [= _ _ <-].
    destruct Iwf as [Hp Hk]. split; simpl.
    + rewrite map_map. erewrite map_ext; [exact Hp|]. intros [q x]. unfold retained. simpl.
      by destruct (bool_decide _).
    + rewrite map_map. erewrite map_ext; [exact Hk|]. intros [q x]. unfold retained. simpl.
      by destruct (bool_decide _).
Qed.

(** ** The properties at concrete inputs *)

Section Concrete.
Import Examples Scenarios DecodeRace.
#[local] Existing Instance example_platform.

(** Closed decidable facts are settled by evaluation. *)
Ltac by_evaluation := apply (bool_decide_unpack _); vm_compute; exact I.

Lemma reachable_run (es : list Event) (s s' : Sys) :
  reachable s -> run_events es s = Some s' -> reachable s'.
Proof.
  revert s. induction es as [|e es IH]; intros s Hr; simpl.
  - by intros [= <-].
  - destruct (step e s) as [s1|] eqn:Hs; [|done]. apply IH. by eapply reachable_step.
Qed.

(** Every edge of the diagram is taken by some schedule, so the machine
    does move along all of them. *)
Lemma diagram_edges_taken (a b : LoadingState) :
  diagram a b = true ->
  exists es e s s', run_events es created = Some s /\ step e s = Some s'
                    /\ cell s = a /\ cell s' = b.
Proof.
  destruct a, b; try discriminate; intros _.
  - exists [], (EvCancel 1). by eexists _, _.
  - exists [EvJob 0 false false], (EvJob 0 false false). by eexists _, _.
  - exists [EvCancel 1], EvTriggerReload. by eexists _, _.
  - exists [EvCancel 1; EvJob 0 false false], (EvJob 0 false false). by eexists _, _.
  - exists [EvJob 0 false false; EvJob 0 false false], (EvJob 0 false true). by eexists _, _.
  - exists [EvJob 0 false false; EvJob 0 false false], (EvJob 0 false false). by eexists _, _.
  - exists [EvCancel 1; EvJob 0 false false; EvJob 0 false false; EvTriggerReload], EvOrchContinue.
    by eexists _, _.
Qed.

(** C2 at a concrete step: the exchange of a started job moves the entry
    from [PendingLoad] to [Loading]. *)
Lemma LoadingState_transitions_witness :
  reachable {| cell := PendingLoad; jobs := [JobCasLoop PendingLoad]; orch := OrchIdle |}
  /\ (cell {| cell := Loading; jobs := [JobDecoding]; orch := OrchIdle |} = PendingLoad
      \/ diagram PendingLoad Loading = true).
Proof.
  assert (Hr : reachable {| cell := PendingLoad; jobs := [JobCasLoop PendingLoad];
                            orch := OrchIdle |}).
  { apply (reachable_step created (EvJob 0 false false)); [apply reachable_created|reflexivity]. }
  split; [exact Hr|].
  apply (LoadingState_transitions_follow_diagram
           {| cell := PendingLoad; jobs := [JobCasLoop PendingLoad]; orch := OrchIdle |}
           {| cell := Loading; jobs := [JobDecoding]; orch := OrchIdle |}
           (EvJob 0 false false) Hr).
  reflexivity.
Defined.

Lemma cancelled_store_wf : store_wf cancelled_store.
Proof. split; by_evaluation. Qed.

Lemma empty_store_wf : store_wf empty_store.
Proof. split; by_evaluation. Qed.

(** C4 at concrete stores: the cancelled entry of "a.wav" is returned and
    one decode is queued; on the empty store an entry is created. *)
Lemma FetchOrCreateAudioData_witness :
  (exists s', FetchOrCreateAudioData "Lib" "a.wav" cancelled_store = (1, s')
              /\ map fst (audio_datas s') = [1] /\ thread_pool_jobs s' = [1])
  /\ (exists p, FetchOrCreateAudioData "Lib" "a.wav" empty_store
                = (p, {| audio_datas := [(p, entry "a.wav" 0 PendingLoad)];
                         thread_pool_jobs := [p] |})).
Proof.
  split.
  - destruct (FetchOrCreateAudioData_existing_or_new "Lib" "a.wav" cancelled_store
                cancelled_store_wf) as [Hexisting _].
    destruct (Hexisting 1 (entry "a.wav" 0 CompletedCancelled)) as (s' & Hf & Hdom & Hjobs & _).
    + constructor.
    + reflexivity.
    + reflexivity.
    + exists s'. split; [exact Hf|]. split; [exact Hdom|exact Hjobs].
  - destruct (FetchOrCreateAudioData_existing_or_new "Lib" "a.wav" empty_store
                empty_store_wf) as [_ Hnew].
    destruct Hnew as (p & _ & Hf).
    + intros p d Hin. by apply elem_of_nil in Hin.
    + exists p. exact Hf.
Defined.

(** C5 at a concrete store: the entry referenced once goes to
    [PendingCancel], the entry referenced twice stays as it is. *)
Lemma CancelLoadingAudioForInstrumentIfPossible_witness :
  CancelLoadingAudioForInstrumentIfPossible [2; 1] pending_store
  = Some ({| audio_datas := [(2, entry "b.wav" 2 PendingLoad);
                             (1, entry "a.wav" 1 PendingCancel)];
             thread_pool_jobs := [2; 1] |}, 1).
Proof.
  apply (CancelLoadingAudioForInstrumentIfPossible_effect [2; 1] pending_store).
  - by_evaluation.
  - repeat constructor; eexists; (split; [reflexivity|discriminate]).
Defined.

Lemma example_U32FromChars_range (tag : string) :
  (0 <= example_U32FromChars tag < 2 ^ 32)%Z.
Proof.
  unfold example_U32FromChars.
  destruct tag as [|a [|b [|c [|d rest]]]]; try lia.
  pose proof (Ascii.N_ascii_bounded a). pose proof (Ascii.N_ascii_bounded b).
  pose proof (Ascii.N_ascii_bounded c). pose proof (Ascii.N_ascii_bounded d). lia.
Qed.

Lemma example_Hash32_range (s : string) : (0 <= example_Hash32 s < 2 ^ 32)%Z.
Proof. unfold example_Hash32. apply Z.mod_pos_bound. lia. Qed.

(** The resolution of a library at a concrete request: the library "foo"
    is not in the index and no job is outstanding, so the request fails
    with [NotFound] and its channel is notified. *)
Lemma AwaitingLibrary_NotFound_witness :
  LoadingThread.fill_in_library unknown_library_request
    (thread_of (LoadingThread.OpenAsyncCommsChannel [] server0).2)
  = Some (PendingResult.with_state (PendingResult.Failed NotFound) unknown_library_request,
          LoadingThread.update_channel 1
            (AsyncCommsChannel.notify (LoadingThread.library_not_found_item "foo"))
            (thread_of (LoadingThread.OpenAsyncCommsChannel [] server0).2)).
Proof.
  destruct (@AwaitingLibrary_NotFound example_platform example_U32FromChars_range example_Hash32_range
              ltac:(vm_compute; discriminate)
              unknown_library_request
              (thread_of (LoadingThread.OpenAsyncCommsChannel [] server0).2)
              eq_refl ltac:(discriminate)) as [Habsent _].
  apply Habsent. reflexivity.
Defined.

(** C7 at a concrete job: the candidate hashes to 7, the hash of the
    registered library. *)
Lemma read_job_with_registered_hash_witness :
  try_job read_outcomes (PathString "/libs/copy.mdata") Mdata (Server.libraries server0) = None.
Proof.
  apply (@read_job_with_registered_hash_is_noop example_platform read_outcomes (PathString "/libs/copy.mdata")
           Mdata (Server.libraries server0) 7 (1, lib_node)
           ltac:(discriminate) eq_refl eq_refl ltac:(constructor) eq_refl).
Defined.

(** C8 at a concrete server, with exact path comparison.  The file of the
    registered library is edited and read again: the library read takes
    the place of the registered one, which goes to the removed nodes.
    Read from a copy of the unedited file, the library is not inserted. *)
Lemma registry_unique_witness :
  (exists new_node,
     LibrariesList.live
       (Server.libraries
          (Registry.handle_read_library (PathString "/libs/lib.mdata")
             (Some (Value edited_library)) server0).2)
     = [(new_node, {| LibNode.value := {| ListedLibrary.lib := edited_library;
                                          ListedLibrary.instruments := [] |};
                      LibNode.reader_uses := 0 |})]
     /\ new_node <> 1
     /\ LibrariesList.dead_list
          (Server.libraries
             (Registry.handle_read_library (PathString "/libs/lib.mdata")
                (Some (Value edited_library)) server0).2)
        = [(1, lib_node)])
  /\ (forall node,
        node ∈ LibrariesList.live
                 (Server.libraries
                    (Registry.handle_read_library (PathString "/libs/copy.mdata")
                       (Some (Value copied_library)) server0).2) ->
        node = (1, lib_node)).
Proof.
  destruct (@registry_one_library_per_name_and_path example_platform String.eqb_refl)
    as (_ & Hinserts & Hskips & _).
  assert (Hunique : registry_unique (Server.libraries server0)) by (split; by_evaluation).
  split.
  - destruct (Hinserts (PathString "/libs/lib.mdata") edited_library server0 Hunique)
      as (new_node & Hfresh & Hlive & Hdead & _).
    { repeat constructor. discriminate. }
    exists new_node. split; [exact Hlive|]. split; [|exact Hdead].
    intros ->. apply Hfresh. by left.
  - intros node Hnode.
    destruct (Hskips (PathString "/libs/copy.mdata") copied_library server0 Hunique)
      as [Hsub _].
    { by left. }
    apply Hsub in Hnode. by apply list_elem_of_singleton in Hnode.
Defined.

(** C8 as stated fails.  Two copies of one library file are found by a
    scan and both are read before either is handled.  When the second read
    is handled, a live library has its hash already, and the library read
    is not inserted. *)
Lemma registered_hash_is_not_inserted :
  registry_unique (Server.libraries server0)
  /\ try_job copy_outcomes (PathString "/libs/copy.mdata") Mdata
       {| LibrariesList.live := []; LibrariesList.dead_list := [] |}
     = Some (Value copied_library)
  /\ (forall node,
        node ∈ LibrariesList.live
                 (Server.libraries
                    (Registry.handle_read_library (PathString "/libs/copy.mdata")
                       (Some (Value copied_library)) server0).2) ->
        Registry.lib_of node <> copied_library)
  /\ ~ (forall (path_or_memory : PathOrMemory) (lib : Library.t) (server : Server.t),
          registry_unique (Server.libraries server) ->
          exists node,
            node ∈ LibrariesList.live
                     (Server.libraries
                        (Registry.handle_read_library path_or_memory
                           (Some (Value lib)) server).2)
            /\ Registry.lib_of node = lib).
Proof.
  assert (Hunique : registry_unique (Server.libraries server0)) by (split; by_evaluation).
  assert (Hnot : forall node,
            node ∈ LibrariesList.live
                     (Server.libraries
                        (Registry.handle_read_library (PathString "/libs/copy.mdata")
                           (Some (Value copied_library)) server0).2) ->
            Registry.lib_of node <> copied_library).
  { intros node Hnode. exfalso. vm_compute in Hnode. by apply elem_of_nil in Hnode. }
  split; [exact Hunique|]. split; [reflexivity|]. split; [exact Hnot|].
  intros Hall.
  destruct (Hall (PathString "/libs/copy.mdata") copied_library server0 Hunique)
    as (node & Hnode & Hlib).
  by apply (Hnot node).
Qed.

(** C9 at a concrete channel.  A client asks for the impulse response
    "Hall", whose audio is in the store; the result is queued on the
    channel, and the channel is closed with the result still queued.  The
    count of the audio entry is the same before and after. *)
Lemma unused_channel_witness :
  exists m',
    JobQueue.loop_iteration_unwatched ir_request_thread = Some m'
    /\ (AsyncCommsChannel.results <$> lookup_ptr 1 (channels_of m'))
       = Some [{| LoadResult.id := 1; LoadResult.result := LoadResult.Success (RefIr 1) |}]
    /\ (AsyncCommsChannel.results
          <$> lookup_ptr 1 (channels_of (LoadingThread.CloseAsyncCommsChannel 1 m')))
       = Some []
    /\ refs_at (LoadingThread.audio (LoadingThread.CloseAsyncCommsChannel 1 m')) 1
       = refs_at (LoadingThread.audio m') 1
    /\ refs_at (LoadingThread.audio m') 1 = Some 0%Z.
Proof.
  destruct (JobQueue.loop_iteration_unwatched ir_request_thread) as [m'|] eqn:Hiter;
    [|exfalso; vm_compute in Hiter; discriminate].
  exists m'. split; [reflexivity|].
  assert (Hm' : Some m' = JobQueue.loop_iteration_unwatched ir_request_thread) by done.
  vm_compute in Hm'. injection Hm' as Hm'.
  destruct (lookup_ptr 1 (channels_of m')) as [c|] eqn:Hc;
    [|exfalso; rewrite Hm' in Hc; vm_compute in Hc; discriminate].
  destruct (@unused_channel_receives_nothing example_platform) as (_ & _ & _ & _ & Hclose).
  destruct (Hclose 1 c m' Hc) as (Hclosed & _ & _ & Haudio).
  rewrite Hclosed, Haudio. simpl.
  rewrite Hm' in Hc. vm_compute in Hc. injection Hc as <-.
  rewrite Hm'. repeat split; vm_compute; reflexivity.
Defined.

(** C1 at a concrete result: retaining a successful impulse-response
    result leaves the count of its audio entry at 0. *)
Lemma ir_result_retain_example :
  refs_at
    (LoadingThread.audio
       (LoadingThread.ChangeRefCount Retain
          {| LoadResult.id := 1; LoadResult.result := LoadResult.Success (RefIr 1) |}
          (LoadingThread.with_audio cancelled_store (thread_of server0)))) 1
  = Some 0%Z.
Proof. reflexivity. Qed.

End Concrete.

(** * Further properties of the code around the claims *)

(** ** Error notifications *)

Section Notifications.

Lemma update_first_elem (node : Item) (items : list Item) (i : Item) :
  i ∈ update_first node items -> i = node \/ i ∈ items.
Proof.
  induction items as [|j rest IH]; simpl; [by right|].
  destruct (decide (id j = id node)).
  - rewrite !elem_of_cons. intros [-> | ?]; auto.
  - rewrite !elem_of_cons. intros [-> | Hin]; auto. destruct (IH Hin); auto.
Qed.

Lemma update_first_ids (node : Item) (items : list Item) :
  map id (update_first node items) = map id items.
Proof.
  induction items as [|j rest IH]; simpl; [done|].
  destruct (decide (id j = id node)) as [Heq|]; simpl; [by rewrite Heq|by rewrite IH].
Qed.

Lemma update_first_has (node : Item) (items : list Item) :
  existsb (fun i => bool_decide (id i = id node)) items = true ->
  node ∈ update_first node items.
Proof.
  induction items as [|j rest IH]; simpl; [done|].
  destruct (decide (id j = id node)) as [Heq|Hne].
  - intros _. by left.
  - rewrite bool_decide_eq_false_2 by done. simpl. intros Hex. right. by apply IH.
Qed.

Lemma existsb_id_false (x : Z) (items : list Item) :
  existsb (fun i => bool_decide (id i = x)) items = false <-> x ∉ map id items.
Proof.
  induction items as [|j rest IH]; simpl.
  - split; [intros _; apply not_elem_of_nil|done].
  - rewrite orb_false_iff, IH, not_elem_of_cons, bool_decide_eq_false.
    split; intros [Hj Hrest]; split; auto.
Qed.

Lemma update_first_other (node : Item) (items : list Item) (i : Item) :
  id i <> id node -> (i ∈ update_first node items <-> i ∈ items).
Proof.
  intros Hne. induction items as [|j rest IH]; simpl; [done|].
  destruct (decide (id j = id node)) as [Heq|Hne'].
  - rewrite !elem_of_cons. split; intros [-> | ?]; auto; congruence.
  - rewrite !elem_of_cons, IH. done.
Qed.

Lemma RemoveError_update_first (node : Item) (items : list Item) :
  RemoveError (id node) (update_first node items) = RemoveError (id node) items.
Proof.
  unfold RemoveError. induction items as [|j rest IH]; simpl; [done|].
  destruct (decide (id j = id node)) as [Heq|Hne].
  - rewrite !filter_cons. rewrite decide_False by (intros Hn; by apply Hn).
    by rewrite decide_False by (intros Hn; by apply Hn).
  - rewrite !filter_cons. rewrite !decide_True by done. by rewrite IH.
Qed.

Lemma update_first_twice (node : Item) (items : list Item) :
  update_first node (update_first node items) = update_first node items.
Proof.
  induction items as [|j rest IH]; simpl; [done|].
  destruct (decide (id j = id node)) as [Heq|Hne]; simpl.
  - by rewrite decide_True.
  - rewrite decide_False by done. by rewrite IH.
Qed.

Lemma RemoveError_AddOrUpdateError (node : Item) (items : list Item) :
  RemoveError (id node) (AddOrUpdateError node items) = RemoveError (id node) items.
Proof.
  unfold AddOrUpdateError. destruct (existsb _ items).
  - apply RemoveError_update_first.
  - unfold RemoveError. rewrite filter_cons.
    by rewrite decide_False by (intros Hn; by apply Hn).
Qed.

Lemma RemoveError_absent (x : Z) (items : list Item) :
  x ∉ map id items -> RemoveError x items = items.
Proof.
  unfold RemoveError. induction items as [|j rest IH]; intros Hnew; [done|].
  simpl in Hnew. apply not_elem_of_cons in Hnew as [Hj Hrest].
  rewrite filter_cons, decide_True by congruence. f_equal. by apply IH.
Qed.

Lemma RemoveError_gone (x : Z) (items : list Item) : x ∉ map id (RemoveError x items).
Proof.
  unfold RemoveError. intros Hin. apply elem_of_map_1 in Hin as (i & -> & Hi).
  apply list_elem_of_filter in Hi as [Hne _]. by apply Hne.
Qed.

End Notifications.

(** X1: in a list where no two notifications share an id,
    [AddOrUpdateError] keeps it so; afterwards the new notification is in
    the list, it is the only one with its id, and the notifications with
    another id are the ones that were there. *)
Theorem AddOrUpdateError_unique_ids (node : Item) (items : list Item)
    (Hunique : NoDup (map id items)) :
  NoDup (map id (AddOrUpdateError node items))
  /\ node ∈ AddOrUpdateError node items
  /\ (forall i, i ∈ AddOrUpdateError node items -> id i = id node -> i = node)
  /\ (forall i, id i <> id node -> (i ∈ AddOrUpdateError node items <-> i ∈ items)).
Proof.
  unfold AddOrUpdateError.
  destruct (existsb _ items) eqn:Hex.
  - assert (Hnd : NoDup (map id (update_first node items))) by by rewrite update_first_ids.
    split; [done|]. split; [by apply update_first_has|]. split.
    + intros i Hi Hid.
      eapply (NoDup_map_inj_elem id); [exact Hnd|exact Hi|by apply update_first_has|exact Hid].
    + intros i Hne. by apply update_first_other.
  - apply existsb_id_false in Hex. split; [|split; [|split]].
    + simpl. by apply NoDup_cons.
    + by left.
    + intros i [-> | Hin]%elem_of_cons Hid; [done|].
      exfalso. apply Hex. rewrite <- Hid. by apply elem_of_map_2.
    + intros i Hne. rewrite elem_of_cons.
      split; [intros [-> | Hin]; [by destruct Hne|done] | by right].
Qed.

(** X2: removing the id of a notification just added or updated gives what
    removing it from the earlier list gives; when the id was new, that is
    the earlier list itself. *)
Theorem RemoveError_after_AddOrUpdateError (node : Item) (items : list Item) :
  RemoveError (id node) (AddOrUpdateError node items) = RemoveError (id node) items
  /\ (id node ∉ map id items ->
      RemoveError (id node) (AddOrUpdateError node items) = items).
Proof.
  split; [apply RemoveError_AddOrUpdateError|].
  intros Hnew. rewrite RemoveError_AddOrUpdateError. by apply RemoveError_absent.
Qed.

(** Reporting the same notification twice in a row is the same as reporting
    it once. *)
Lemma AddOrUpdateError_idempotent (node : Item) (items : list Item) :
  AddOrUpdateError node (AddOrUpdateError node items) = AddOrUpdateError node items.
Proof.
  unfold AddOrUpdateError.
  destruct (existsb (fun i => bool_decide (id i = id node)) items) eqn:Hex.
  - assert (Hex' : existsb (fun i => bool_decide (id i = id node))
                           (update_first node items) = true).
    { apply existsb_exists. exists node. split.
      - apply list_elem_of_In. by apply update_first_has.
      - by apply bool_decide_eq_true. }
    rewrite Hex'. apply update_first_twice.
  - simpl. rewrite bool_decide_eq_true_2 by done. simpl.
    by rewrite decide_True.
Qed.

Section IdPacking.
Context `{Platform}.
Hypothesis U32FromChars_range : forall tag, (0 <= U32FromChars tag < 2 ^ 32)%Z.
Hypothesis Hash32_range : forall s, (0 <= Hash32 s < 2 ^ 32)%Z.

(** The lower half of an id is the hash. *)
Lemma Id_hash (tag s : string) : Z.land (Id tag s) (Z.ones 32) = Hash32 s.
Proof.
  unfold Id, u64_wrap. pose proof (U32FromChars_range tag) as Ht.
  pose proof (Hash32_range s) as Hs.
  rewrite Z.mod_small by (rewrite Z.shiftl_mul_pow2 by lia; lia).
  rewrite Z.land_lor_distr_l.
  rewrite (Z.land_ones (Z.shiftl _ _)) by lia.
  rewrite Z.shiftl_mul_pow2 by lia. rewrite Z.mod_mul by lia.
  rewrite Z.lor_0_l. rewrite Z.land_ones by lia. apply Z.mod_small. lia.
Qed.

End IdPacking.

(** X3: a notification id keeps both of its parts: when the four-character
    tag and the hash each fit 32 bits, two ids are equal only if their tags
    pack to the same number and their strings have the same hash. *)
Theorem Id_injective `{Platform}
    (U32FromChars_range : forall tag, (0 <= U32FromChars tag < 2 ^ 32)%Z)
    (Hash32_range : forall s, (0 <= Hash32 s < 2 ^ 32)%Z)
    (tag1 tag2 s1 s2 : string) :
  Id tag1 s1 = Id tag2 s2 <->
  U32FromChars tag1 = U32FromChars tag2 /\ Hash32 s1 = Hash32 s2.
Proof.
  split.
  - intros Heq. split.
    + by rewrite <- (Id_tag U32FromChars_range Hash32_range tag1 s1),
                 <- (Id_tag U32FromChars_range Hash32_range tag2 s2), Heq.
    + by rewrite <- (Id_hash U32FromChars_range Hash32_range tag1 s1),
                 <- (Id_hash U32FromChars_range Hash32_range tag2 s2), Heq.
  - intros [Ht Hs]. unfold Id. by rewrite Ht, Hs.
Qed.

(** ** The countdown of decode jobs *)

Section Countdown.
Import AtomicCountdown.

Lemma CountDown_cases (steps counter : Z) :
  (0 <= counter < u32_max)%Z -> (0 <= steps <= u32_max)%Z ->
  CountDown steps counter =
    if decide (steps <= counter)%Z
    then Some ((counter - steps)%Z, bool_decide (steps = counter))
    else if decide (steps = counter + 1)%Z then None
    else Some ((counter - steps + 2 ^ 32)%Z, false).
Proof.
  unfold CountDown, FetchSub, u32_wrap, u32_max. intros Hc Hs.
  destruct (decide (steps <= counter)%Z) as [Hle|Hgt].
  - rewrite Z.mod_small by lia.
    destruct (decide (counter - steps = 0)%Z).
    + rewrite bool_decide_eq_true_2 by lia. done.
    + rewrite bool_decide_eq_false_2 by lia. by rewrite decide_True by lia.
  - assert (Hm : ((counter - steps) mod 2 ^ 32 = counter - steps + 2 ^ 32)%Z).
    { symmetry. apply (Z.mod_unique_pos _ _ (-1)); lia. }
    rewrite Hm. rewrite decide_False by lia.
    destruct (decide (steps = counter + 1)%Z).
    + by rewrite decide_False by lia.
    + by rewrite decide_True by lia.
Qed.

End Countdown.

(** X4: [CountDown] on a counter below the largest u32.  Counting down by
    at most the counter succeeds, subtracts the steps and wakes the waiting
    threads exactly when zero is reached; counting down by one more than
    the counter fails the assertion; counting down by more than that wraps
    around without failing and wakes nobody.  A job that was counted by
    [Increase] and counts itself down again leaves the counter as it was
    and wakes the waiting threads exactly when no other job is counted. *)
Theorem CountDown_result (steps counter : Z)
    (Hcounter : (0 <= counter < AtomicCountdown.u32_max)%Z)
    (Hsteps : (0 <= steps <= AtomicCountdown.u32_max)%Z) :
  ((steps <= counter)%Z ->
     AtomicCountdown.CountDown steps counter
     = Some ((counter - steps)%Z, bool_decide (steps = counter)))
  /\ (steps = (counter + 1)%Z -> AtomicCountdown.CountDown steps counter = None)
  /\ ((counter + 1 < steps)%Z ->
      AtomicCountdown.CountDown steps counter = Some ((counter - steps + 2 ^ 32)%Z, false))
  /\ AtomicCountdown.CountDown steps (AtomicCountdown.Increase steps counter)
     = Some (counter, bool_decide (counter = 0%Z)).
Proof.
  rewrite (CountDown_cases steps counter Hcounter Hsteps).
  split; [|split; [|split]]; try intros Hcase.
  - by rewrite decide_True.
  - rewrite decide_False by lia. by rewrite decide_True.
  - rewrite decide_False by lia. by rewrite decide_False by lia.
  - unfold AtomicCountdown.CountDown, AtomicCountdown.Increase, FetchSub, FetchAdd, u32_wrap.
    unfold AtomicCountdown.u32_max in *.
    assert (Hm : (((counter + steps) mod 2 ^ 32 - steps) mod 2 ^ 32 = counter)%Z).
    { rewrite Zminus_mod_idemp_l. replace (counter + steps - steps)%Z with counter by lia.
      apply Z.mod_small. lia. }
    rewrite Hm. destruct (decide (counter = 0%Z)).
    + by rewrite bool_decide_eq_true_2.
    + rewrite bool_decide_eq_false_2 by done. by rewrite decide_True by lia.
Qed.

Section ScanFolderProofs.
Import ScanFolders Accounting.

(** ** Scan folders *)

Section ScanFolderLists.
Implicit Types (folders : list (ptr * ScanFolder.t)) (es : list string).

Lemma filter_all {A} (P : A -> bool) (l : list A) :
  (forall x, x ∈ l -> P x = true) -> List.filter P l = l.
Proof.
  induction l as [|x l IH]; intros Hall; simpl; [done|].
  rewrite Hall by (by left). f_equal. apply IH. intros y Hy. apply Hall. by right.
Qed.

Lemma filter_none {A} (P : A -> bool) (l : list A) :
  (forall x, x ∈ l -> P x = false) -> List.filter P l = [].
Proof.
  induction l as [|x l IH]; intros Hall; simpl; [done|].
  rewrite Hall by (by left). apply IH. intros y Hy. apply Hall. by right.
Qed.

Lemma already_present_iff folders e :
  existsb (fun l => bool_decide (ScanFolder.path l.2 = e)) folders = true
  <-> e ∈ map folder_path folders.
Proof.
  induction folders as [|n folders IH]; simpl.
  - split; [done|]. by intros ?%not_elem_of_nil.
  - rewrite orb_true_iff, IH, elem_of_cons, bool_decide_eq_true. unfold folder_path.
    split; intros [Hn | Hrest]; auto.
Qed.

(** What the second loop of [SetExtraScanFolders] builds: new nodes in
    front of the old ones, all of them unscanned extra folders. *)
Lemma add_extras_shape folders es :
  exists added,
    foldl add_extra folders es = added ++ folders
    /\ Forall (fun n => n.2 = new_folder ScanFolder.ExtraFolder (folder_path n)
                        /\ folder_path n ∈ es
                        /\ folder_path n ∉ map folder_path folders) added
    /\ (NoDup (map fst folders) -> NoDup (map fst (added ++ folders)))
    /\ (NoDup (map folder_path folders) -> NoDup (map folder_path (added ++ folders)))
    /\ (forall e, e ∈ es -> e ∈ map folder_path (added ++ folders)).
Proof.
  revert folders. induction es as [|e es IH]; intros folders; simpl.
  - exists []. split; [done|]. split; [constructor|]. split; [done|]. split; [done|].
    by intros e ?%not_elem_of_nil.
  - unfold add_extra at 2.
    destruct (existsb _ folders) eqn:Hex.
    + destruct (IH folders) as (added & Heq & Hall & Hptr & Hpath & Hcover).
      exists added. split; [done|]. split.
      * eapply Forall_impl; [exact Hall|]. intros n (? & ? & ?).
        split; [done|]. split; [by right|done].
      * split; [done|]. split; [done|].
        intros e' [-> | He']%elem_of_cons; [|by apply Hcover].
        apply already_present_iff in Hex. rewrite map_app, elem_of_app. by right.
    + assert (Hnew : e ∉ map folder_path folders).
      { intros Hin. apply already_present_iff in Hin. congruence. }
      unfold Insert.
      destruct (IH ((fresh_ptr folders, new_folder ScanFolder.ExtraFolder e) :: folders))
        as (added & Heq & Hall & Hptr & Hpath & Hcover).
      exists (added ++ [(fresh_ptr folders, new_folder ScanFolder.ExtraFolder e)]).
      rewrite <- !app_assoc. simpl. split; [done|]. split.
      * apply Forall_app. split.
        -- eapply Forall_impl; [exact Hall|]. intros n (? & ? & Hn).
           split; [done|]. split; [by right|].
           intros Hin. apply Hn. simpl. by right.
        -- constructor; [|constructor]. split; [done|]. split; [by left|done].
      * split; [|split].
        -- intros Hnd. apply Hptr. simpl. apply NoDup_cons. split; [|done].
           apply fresh_ptr_fresh.
        -- intros Hnd. apply Hpath. simpl. apply NoDup_cons. by split.
        -- intros e' [-> | He']%elem_of_cons; [|by apply Hcover].
           rewrite map_app, elem_of_app. right. simpl. by left.
Qed.

Lemma add_extras_present folders es :
  (forall e, e ∈ es -> e ∈ map folder_path folders) ->
  foldl add_extra folders es = folders.
Proof.
  induction es as [|e es IH]; intros Hall; simpl; [done|].
  unfold add_extra at 2.
  rewrite (proj2 (already_present_iff folders e)) by (apply Hall; by left).
  apply IH. intros e' He'. apply Hall. by right.
Qed.

Lemma not_dropped_iff es (n : ptr * ScanFolder.t) :
  negb (dropped es n) = true
  <-> ScanFolder.source n.2 = ScanFolder.AlwaysScannedFolder \/ folder_path n ∈ es.
Proof.
  unfold dropped, is_extra, folder_path.
  destruct (ScanFolder.source n.2); simpl.
  - split; auto.
  - rewrite negb_involutive, bool_decide_eq_true. split; [by right|]. by intros [?|?].
Qed.

(** The nodes after [SetExtraScanFolders], against the nodes before. *)
Lemma set_extra_folders_shape es folders :
  exists added,
    set_extra_folders es folders
    = added ++ List.filter (fun it => negb (dropped es it)) folders
    /\ Forall (fun n => n.2 = new_folder ScanFolder.ExtraFolder (folder_path n)
                        /\ folder_path n ∈ es) added.
Proof.
  unfold set_extra_folders.
  destruct (add_extras_shape (List.filter (fun it => negb (dropped es it)) folders) es)
    as (added & Heq & Hall & _).
  exists added. split; [done|].
  eapply Forall_impl; [exact Hall|]. by intros n (? & ? & ?).
Qed.

End ScanFolderLists.

Section ScanFolderPaths.

Lemma elem_of_rev {A} (x : A) (l : list A) : x ∈ rev l <-> x ∈ l.
Proof.
  split; intros Hin; apply list_elem_of_In; apply list_elem_of_In in Hin.
  - by apply (proj2 (in_rev l x)).
  - by apply (proj1 (in_rev l x)).
Qed.

Lemma set_extra_folders_paths (extra_folders : list string)
    (folders : list (ptr * ScanFolder.t)) (p : string) :
  p ∈ map folder_path (set_extra_folders extra_folders folders)
  <-> p ∈ extra_folders
      \/ exists n, n ∈ folders /\ folder_path n = p
                   /\ ScanFolder.source n.2 = ScanFolder.AlwaysScannedFolder.
Proof.
  unfold set_extra_folders.
  destruct (add_extras_shape
              (List.filter (fun it => negb (dropped extra_folders it)) folders) extra_folders)
    as (added & -> & Hall & _ & _ & Hcover).
  split.
  - rewrite map_app, elem_of_app. intros [Hin | Hin].
    + apply elem_of_map_1 in Hin as (n & -> & Hn).
      rewrite Forall_forall in Hall. destruct (Hall n Hn) as (_ & He & _). by left.
    + apply elem_of_map_1 in Hin as (n & -> & Hn).
      apply elem_of_filter_bool in Hn as [Hn Hkeep].
      apply not_dropped_iff in Hkeep as [Hsrc | He]; [|by left].
      right. by exists n.
  - intros [He | (n & Hn & <- & Hsrc)]; [by apply Hcover|].
    rewrite map_app, elem_of_app. right. apply elem_of_map_2.
    apply elem_of_filter_bool. split; [done|]. apply not_dropped_iff. by left.
Qed.

(** The folders the constructor of the server lists: one node for each
    given path, always scanned and not scanned yet. *)
Lemma initial_scan_folders_shape (always_scanned_folders : list string)
    (acc : list (ptr * ScanFolder.t)) :
  map snd (foldl (fun l e => Insert (new_folder ScanFolder.AlwaysScannedFolder e) l)
                 acc always_scanned_folders)
  = rev (map (new_folder ScanFolder.AlwaysScannedFolder) always_scanned_folders)
    ++ map snd acc.
Proof.
  revert acc. induction always_scanned_folders as [|e l IH]; intros acc; simpl; [done|].
  rewrite IH. simpl. by rewrite <- app_assoc.
Qed.

End ScanFolderPaths.

(** X5: after [SetExtraScanFolders] the paths of the scan folders are the
    paths given and the paths of the always-scanned folders, and no other;
    on a server as its constructor leaves it, these are the given paths and
    the paths the server was constructed with. *)
Theorem SetExtraScanFolders_paths (extra_folders : list string) (p : string) :
  (forall server : Server.t,
     p ∈ map folder_path (Server.scan_folders (SetExtraScanFolders extra_folders server))
     <-> p ∈ extra_folders
         \/ exists n, n ∈ Server.scan_folders server /\ folder_path n = p
                      /\ ScanFolder.source n.2 = ScanFolder.AlwaysScannedFolder)
  /\ (forall (always_scanned_folders : list string) (error_notifications : list Item),
        p ∈ map folder_path
              (Server.scan_folders
                 (SetExtraScanFolders extra_folders
                    (new_Server always_scanned_folders error_notifications)))
        <-> p ∈ extra_folders \/ p ∈ always_scanned_folders).
Proof.
  split.
  - intros server. apply set_extra_folders_paths.
  - intros always errs. simpl. rewrite set_extra_folders_paths.
    pose proof (initial_scan_folders_shape always []) as Hshape.
    simpl in Hshape. rewrite app_nil_r in Hshape. fold (initial_scan_folders always) in Hshape.
    split; (intros [He | Hrest]; [by left|right]).
    + destruct Hrest as (n & Hn & <- & _).
      apply (elem_of_map_2 snd) in Hn. rewrite Hshape in Hn.
      apply elem_of_rev, elem_of_map_1 in Hn as (e & Heq & He).
      unfold folder_path. by rewrite Heq.
    + assert (Hin : new_folder ScanFolder.AlwaysScannedFolder p
                    ∈ map snd (initial_scan_folders always)).
      { rewrite Hshape. apply elem_of_rev. by apply elem_of_map_2. }
      apply elem_of_map_1 in Hin as (n & Heq & Hn).
      exists n. split; [exact Hn|]. unfold folder_path. by rewrite <- Heq.
Qed.

(** X6: [SetExtraScanFolders] leaves every always-scanned folder and every
    extra folder whose path is still listed where it is, with its address
    and its scan state; every other node of the new list is a new extra
    folder for a listed path, not scanned yet. *)
Theorem SetExtraScanFolders_nodes (extra_folders : list string) (server : Server.t)
    (n : ptr * ScanFolder.t) :
  (n ∈ Server.scan_folders server ->
   ScanFolder.source n.2 = ScanFolder.AlwaysScannedFolder \/ folder_path n ∈ extra_folders ->
   n ∈ Server.scan_folders (SetExtraScanFolders extra_folders server))
  /\ (n ∈ Server.scan_folders (SetExtraScanFolders extra_folders server) ->
      (n ∈ Server.scan_folders server
       /\ (ScanFolder.source n.2 = ScanFolder.AlwaysScannedFolder
           \/ folder_path n ∈ extra_folders))
      \/ (n.2 = new_folder ScanFolder.ExtraFolder (folder_path n)
          /\ folder_path n ∈ extra_folders)).
Proof.
  simpl.
  destruct (set_extra_folders_shape extra_folders (Server.scan_folders server))
    as (added & -> & Hall).
  split.
  - intros Hn Hkeep. rewrite elem_of_app. right.
    apply elem_of_filter_bool. split; [done|]. by apply not_dropped_iff.
  - rewrite elem_of_app. intros [Hn | Hn].
    + right. rewrite Forall_forall in Hall. by apply Hall.
    + left. apply elem_of_filter_bool in Hn as [Hn Hkeep].
      split; [done|]. by apply not_dropped_iff.
Qed.

(** X7: if the scan folders have distinct paths and distinct addresses
    before [SetExtraScanFolders], they have afterwards, also when the given
    list repeats a path or names an always-scanned folder. *)
Theorem SetExtraScanFolders_distinct (extra_folders : list string) (server : Server.t)
    (Hpaths : NoDup (map folder_path (Server.scan_folders server)))
    (Hptrs : NoDup (map fst (Server.scan_folders server))) :
  NoDup (map folder_path (Server.scan_folders (SetExtraScanFolders extra_folders server)))
  /\ NoDup (map fst (Server.scan_folders (SetExtraScanFolders extra_folders server))).
Proof.
  simpl. unfold set_extra_folders.
  destruct (add_extras_shape
              (List.filter (fun it => negb (dropped extra_folders it))
                           (Server.scan_folders server)) extra_folders)
    as (added & -> & _ & Hptr & Hpath & _).
  split; [apply Hpath|apply Hptr]; by apply NoDup_map_filter.
Qed.

Lemma SetExtraScanFolders_idempotent (extra_folders : list string) (server : Server.t) :
  SetExtraScanFolders extra_folders (SetExtraScanFolders extra_folders server)
  = SetExtraScanFolders extra_folders server.
Proof.
  unfold SetExtraScanFolders. destruct server as [libs idx errs folders chans queue]; simpl.
  unfold Server.with_scan_folders; simpl. f_equal.
  unfold set_extra_folders at 1.
  set (after := set_extra_folders extra_folders folders).
  assert (Hkeep : List.filter (fun it => negb (dropped extra_folders it)) after = after).
  { apply filter_all. intros n Hn. apply not_dropped_iff.
    destruct (set_extra_folders_shape extra_folders folders) as (added & Heq & Hall).
    subst after. rewrite Heq in Hn. apply elem_of_app in Hn as [Hn | Hn].
    - right. rewrite Forall_forall in Hall. by apply Hall.
    - apply elem_of_filter_bool in Hn as [_ Hn]. by apply not_dropped_iff. }
  rewrite Hkeep. apply add_extras_present.
  subst after. unfold set_extra_folders.
  destruct (add_extras_shape
              (List.filter (fun it => negb (dropped extra_folders it)) folders) extra_folders)
    as (added & -> & _ & _ & _ & Hcover).
  exact Hcover.
Qed.

Lemma SetExtraScanFolders_cleared (extra_folders : list string) (server : Server.t) :
  Server.scan_folders (SetExtraScanFolders [] (SetExtraScanFolders extra_folders server))
  = List.filter (fun n => negb (is_extra n.2)) (Server.scan_folders server).
Proof.
  simpl. set (folders := Server.scan_folders server).
  destruct (set_extra_folders_shape extra_folders folders) as (added & -> & Hall).
  unfold set_extra_folders. simpl.
  assert (Hd : forall l : list (ptr * ScanFolder.t),
            List.filter (fun it => negb (dropped [] it)) l
            = List.filter (fun n => negb (is_extra n.2)) l).
  { intros l. apply filter_ext. intros n. unfold dropped.
    rewrite bool_decide_eq_false_2 by apply not_elem_of_nil. simpl. by rewrite andb_true_r. }
  rewrite Hd, List.filter_app.
  rewrite filter_none, app_nil_l.
  - induction folders as [|n l IH]; simpl; [done|].
    destruct (negb (dropped extra_folders n)) eqn:Hk; simpl.
    + destruct (negb (is_extra n.2)); simpl; by rewrite IH.
    + rewrite IH. unfold dropped in Hk. apply negb_false_iff, andb_true_iff in Hk as [-> _].
      done.
  - intros n Hn. rewrite Forall_forall in Hall. destruct (Hall n Hn) as [-> _]. done.
Qed.

(** X8: calling [SetExtraScanFolders] again with the same list changes
    nothing; setting the empty list, after any list was set, leaves exactly
    the always-scanned folders, each with the address and the scan state it
    had before the first call. *)
Theorem SetExtraScanFolders_repeated (extra_folders : list string) (server : Server.t) :
  SetExtraScanFolders extra_folders (SetExtraScanFolders extra_folders server)
  = SetExtraScanFolders extra_folders server
  /\ Server.scan_folders (SetExtraScanFolders [] (SetExtraScanFolders extra_folders server))
     = List.filter (fun n => negb (is_extra n.2)) (Server.scan_folders server).
Proof.
  split; [apply SetExtraScanFolders_idempotent|apply SetExtraScanFolders_cleared].
Qed.

Section ScanRequests.

Lemma RequestScanningIfNeeded_acc (acc : bool * list (ptr * ScanFolder.t))
    (folders : list (ptr * ScanFolder.t)) :
  foldl (fun acc n =>
           let '(exchanged, cell, _) :=
             CompareExchangeStrong (ScanFolder.state n.2) ScanFolder.NotScanned
                                   ScanFolder.RescanRequested in
           (acc.1 || exchanged, acc.2 ++ [(n.1, ScanFolder.set_state cell n.2)]))
        acc folders
  = (acc.1 || existsb (fun n => bool_decide (folder_state n = ScanFolder.NotScanned)) folders,
     acc.2 ++ LoadingThread.request_scanning folders).
Proof.
  revert acc. induction folders as [|n folders IH]; intros [any done]; cbn [foldl].
  - simpl. by rewrite orb_false_r, app_nil_r.
  - rewrite IH. simpl. unfold CompareExchangeStrong, folder_state.
    destruct (decide (ScanFolder.state n.2 = ScanFolder.NotScanned)) as [Heq|Hne]; simpl.
    + rewrite bool_decide_eq_true_2 by done. rewrite <- app_assoc. simpl.
      by destruct any.
    + rewrite bool_decide_eq_false_2 by done. rewrite <- app_assoc. simpl.
      by destruct any.
Qed.

Lemma request_scanning_map (folders : list (ptr * ScanFolder.t)) :
  LoadingThread.request_scanning folders
  = map (fun n => if decide (folder_state n = ScanFolder.NotScanned)
                  then in_state ScanFolder.RescanRequested n else n) folders.
Proof.
  unfold LoadingThread.request_scanning. apply map_ext. intros [q f].
  unfold CompareExchangeStrong, folder_state, in_state. simpl.
  destruct (decide (ScanFolder.state f = ScanFolder.NotScanned)); [done|].
  by destruct f.
Qed.

End ScanRequests.

(** X9: [RequestScanningIfNeeded] returns true exactly when some folder
    was not scanned yet; it moves those folders, and only those, to
    [RescanRequested], as the request loop of the loading thread does; a
    second call finds nothing to request and changes nothing. *)
Theorem RequestScanningIfNeeded_effect (scan_folders : list (ptr * ScanFolder.t)) :
  let result := RequestScanningIfNeeded scan_folders in
  (result.1 = true <->
     exists n, n ∈ scan_folders /\ folder_state n = ScanFolder.NotScanned)
  /\ result.2 = map (fun n => if decide (folder_state n = ScanFolder.NotScanned)
                             then in_state ScanFolder.RescanRequested n else n)
                    scan_folders
  /\ result.2 = LoadingThread.request_scanning scan_folders
  /\ RequestScanningIfNeeded result.2 = (false, result.2).
Proof.
  unfold RequestScanningIfNeeded. rewrite !RequestScanningIfNeeded_acc. simpl.
  split; [|split; [|split]].
  - rewrite existsb_exists. split.
    + intros (n & Hn & Hst). exists n. split; [by apply list_elem_of_In|].
      by apply bool_decide_eq_true in Hst.
    + intros (n & Hn & Hst). exists n. split; [by apply list_elem_of_In|].
      by apply bool_decide_eq_true.
  - apply request_scanning_map.
  - done.
  - f_equal.
    + apply not_true_is_false. rewrite existsb_exists. intros (n & Hn & Hst).
      apply bool_decide_eq_true in Hst. apply list_elem_of_In in Hn.
      rewrite request_scanning_map in Hn.
      apply elem_of_map_1 in Hn as (n0 & -> & _).
      destruct (decide (folder_state n0 = ScanFolder.NotScanned)); [|done].
      by destruct n0 as [q []].
    + rewrite !request_scanning_map, map_map. apply map_ext. intros n.
      destruct (decide (folder_state n = ScanFolder.NotScanned)) as [Heq|Hne].
      * rewrite decide_False; [done|]. by destruct n as [q []].
      * by rewrite decide_False.
Qed.

End ScanFolderProofs.

Section JobProofs.
Import ScanFolders Accounting Registry JobQueue.

(** ** Library jobs *)

Section Jobs.
Context `{Platform}.

Lemma trigger_scans_acc (acc : LibrariesAsyncContext.t * list (ptr * ScanFolder.t))
    (folders : list (ptr * ScanFolder.t)) :
  foldl trigger_scan acc folders
  = (foldl (fun c n => AddAsyncJob (ScanFolder n.1 (Value tt)) c) acc.1
           (List.filter rescan_requested folders),
     acc.2 ++ map (fun n => if rescan_requested n
                            then in_state ScanFolder.Scanning n else n) folders).
Proof.
  revert acc. induction folders as [|n folders IH]; intros [c done]; cbn [foldl].
  - simpl. by rewrite app_nil_r.
  - rewrite IH. unfold trigger_scan, CompareExchangeStrong, rescan_requested. simpl.
    destruct (decide (ScanFolder.state n.2 = ScanFolder.RescanRequested)) as [Heq|Hne]; simpl.
    + rewrite bool_decide_eq_true_2 by done. simpl. by rewrite <- app_assoc.
    + rewrite bool_decide_eq_false_2 by done. simpl. by rewrite <- app_assoc.
Qed.

Lemma add_scan_jobs_jobs (c : LibrariesAsyncContext.t) (l : list (ptr * ScanFolder.t)) :
  jobs (foldl (fun c n => AddAsyncJob (ScanFolder n.1 (Value tt)) c) c l)
  = rev (map scan_job l) ++ jobs c.
Proof.
  revert c. induction l as [|n l IH]; intros c; simpl; [done|].
  rewrite IH. simpl. by rewrite <- app_assoc.
Qed.

Lemma unhandled_app (l k : list Job) : unhandled (l ++ k) = unhandled l ++ unhandled k.
Proof. apply List.filter_app. Qed.

Lemma AddAsyncJob_counted (data : JobData) (c : LibrariesAsyncContext.t) :
  jobs_counted c -> (Z.of_nat (S (length (jobs c))) < 2 ^ 32)%Z ->
  jobs_counted (AddAsyncJob data c).
Proof.
  intros [Hn Hlen] Hroom. unfold jobs_counted, AddAsyncJob, FetchAdd, u32_wrap. simpl.
  split; [|lia]. rewrite Hn.
  pose proof (List.filter_length_le (fun j => negb (handled j)) (jobs c)) as Hle.
  fold (unhandled (jobs c)) in Hle.
  rewrite Z.mod_small by lia. lia.
Qed.

Lemma add_scan_jobs_counted (c : LibrariesAsyncContext.t) (l : list (ptr * ScanFolder.t)) :
  jobs_counted c -> (Z.of_nat (length (jobs c) + length l) < 2 ^ 32)%Z ->
  jobs_counted (foldl (fun c n => AddAsyncJob (ScanFolder n.1 (Value tt)) c) c l).
Proof.
  revert c. induction l as [|n l IH]; intros c Hc Hroom; simpl; [done|].
  apply IH.
  - apply AddAsyncJob_counted; [done|]. simpl in Hroom. lia.
  - simpl in *. lia.
Qed.

(** The handling loop only marks jobs, and counts down once per job it
    marks. *)
Lemma handle_jobs_count (l : list Job) (n : Z) (server : Server.t) :
  (Z.of_nat (length (unhandled l)) <= n < 2 ^ 32)%Z ->
  let r := handle_jobs l n server in
  length r.1.1.2 = length l
  /\ (r.1.2 - Z.of_nat (length (unhandled r.1.1.2)) = n - Z.of_nat (length (unhandled l)))%Z.
Proof.
  revert n server. induction l as [|job rest IH]; intros n server Hn; simpl; [done|].
  simpl in Hn. destruct (handled job) eqn:Hh; simpl in *.
  - specialize (IH n server Hn).
    destruct (handle_jobs rest n server) as [[[flow rest'] n'] server']. simpl in *.
    rewrite Hh. simpl. lia.
  - destruct (completed job) eqn:Hc; simpl.
    + destruct (handle_job job server) as [flow server1].
      assert (Hsub : FetchSub n 1 = (n - 1)%Z).
      { unfold FetchSub, u32_wrap. apply Z.mod_small. lia. }
      destruct flow.
      * specialize (IH (FetchSub n 1) server1). rewrite Hsub in *.
        destruct (handle_jobs rest (n - 1) server1) as [[[flow' rest'] n'] server'].
        simpl in *. destruct IH as [Hl Hd]; [lia|]. split; [lia|]. lia.
      * simpl. rewrite Hsub. split; [done|]. lia.
    + specialize (IH n server).
      destruct (handle_jobs rest n server) as [[[flow rest'] n'] server']. simpl in *.
      rewrite Hh. simpl. destruct IH as [Hl Hd]; [lia|]. split; [lia|]. lia.
Qed.

Lemma handle_jobs_counted (c : LibrariesAsyncContext.t) (server : Server.t) :
  jobs_counted c ->
  let r := handle_jobs (jobs c) (num_uncompleted_jobs c) server in
  jobs_counted {| jobs := r.1.1.2; num_uncompleted_jobs := r.1.2 |}.
Proof.
  intros [Hn Hlen].
  pose proof (List.filter_length_le (fun j => negb (handled j)) (jobs c)) as Hle.
  fold (unhandled (jobs c)) in Hle.
  destruct (handle_jobs_count (jobs c) (num_uncompleted_jobs c) server) as [Hl Hd]; [lia|].
  unfold jobs_counted. simpl. split; lia.
Qed.

Lemma unhandled_nil_iff (l : list Job) :
  length (unhandled l) = 0 <-> Forall (fun j => handled j = true) l.
Proof.
  induction l as [|j l IH]; simpl; [split; [constructor|done]|].
  destruct (handled j) eqn:Hh; simpl.
  - rewrite IH. split; [by constructor|]. by intros [_ ?]%Forall_cons.
  - split; [done|]. intros [Hj _]%Forall_cons. congruence.
Qed.

Lemma handle_jobs_passed_over (l : list Job) (n : Z) (server : Server.t) :
  Forall (fun j => passed_over j = true) l -> handle_jobs l n server = (Next, l, n, server).
Proof.
  induction l as [|job rest IH]; intros Hall; simpl; [done|].
  apply Forall_cons in Hall as [Hj Hrest]. unfold passed_over in Hj. rewrite Hj.
  by rewrite (IH Hrest).
Qed.

Lemma handle_jobs_Next (l : list Job) (n : Z) (server : Server.t) l' n' server' :
  handle_jobs l n server = (Next, l', n', server') ->
  Forall (fun j => passed_over j = true) l'.
Proof.
  revert n server l' n' server'.
  induction l as [|job rest IH]; intros n server l' n' server'; simpl.
  - intros [= <- <- <-]. constructor.
  - destruct (handled job || negb (completed job)) eqn:Hp.
    + destruct (handle_jobs rest n server) as [[[flow rest'] n1] server1] eqn:Hr.
      intros [= -> <- <- <-]. constructor; [done|]. by eapply IH.
    + destruct (handle_job job server) as [flow server1].
      destruct flow; [|done].
      destruct (handle_jobs rest (FetchSub n 1) server1) as [[[flow' rest'] n1] server2] eqn:Hr.
      intros [= -> <- <- <-]. constructor; [done|]. by eapply IH.
Qed.

End Jobs.

Section Triggering.

Lemma trigger_scans_spec (async_ctx : LibrariesAsyncContext.t) (server : Server.t) :
  let requested := List.filter rescan_requested (Server.scan_folders server) in
  let after := trigger_scans async_ctx server in
  after.2 = Server.with_scan_folders
              (map (fun n => if rescan_requested n then in_state ScanFolder.Scanning n else n)
                   (Server.scan_folders server))
              server
  /\ jobs after.1 = rev (map scan_job requested) ++ jobs async_ctx
  /\ (jobs_counted async_ctx ->
      (Z.of_nat (length (jobs async_ctx) + length requested) < 2 ^ 32)%Z ->
      jobs_counted after.1).
Proof.
  unfold trigger_scans. rewrite trigger_scans_acc. simpl.
  split; [done|]. split; [apply add_scan_jobs_jobs|]. apply add_scan_jobs_counted.
Qed.

Lemma trigger_scans_libraries (async_ctx : LibrariesAsyncContext.t) (server : Server.t) :
  Server.libraries (trigger_scans async_ctx server).2 = Server.libraries server
  /\ Server.libraries_by_name (trigger_scans async_ctx server).2
     = Server.libraries_by_name server
  /\ Server.channels (trigger_scans async_ctx server).2 = Server.channels server.
Proof. destruct (trigger_scans_spec async_ctx server) as (-> & _). done. Qed.

Lemma scan_jobs_passed_over (l : list (ptr * ScanFolder.t)) :
  Forall (fun j => passed_over j = true) (rev (map scan_job l)).
Proof.
  apply Forall_forall. intros j Hj. apply list_elem_of_In, in_rev, in_map_iff in Hj.
  by destruct Hj as (n & <- & _).
Qed.

(** With no folder waiting for a scan, the triggering loop does nothing. *)
Lemma trigger_scans_idle (async_ctx : LibrariesAsyncContext.t) (server : Server.t) :
  Forall scan_started (Server.scan_folders server) ->
  trigger_scans async_ctx server = (async_ctx, server).
Proof.
  intros Hall. unfold trigger_scans. rewrite trigger_scans_acc. simpl.
  rewrite filter_none.
  - simpl. f_equal. destruct server as [libs idx errs folders chans queue]. simpl in *.
    unfold Server.with_scan_folders. simpl. f_equal.
    rewrite <- (map_id folders) at 2. apply map_ext_elem. intros n Hn.
    rewrite Forall_forall in Hall. destruct (Hall n Hn) as [_ Hr].
    unfold rescan_requested. by rewrite bool_decide_eq_false_2.
  - intros n Hn. rewrite Forall_forall in Hall. destruct (Hall n Hn) as [_ Hr].
    unfold rescan_requested. by rewrite bool_decide_eq_false_2.
Qed.

End Triggering.

(** X10: the scan-triggering loop of [UpdateLoadingThread] moves every
    folder in [RescanRequested] to [Scanning] and queues one scan job for
    it, leaves the other folders and everything else of the server as they
    are, and keeps the job counter equal to the number of unhandled jobs. *)
Theorem trigger_scans_effect (async_ctx : LibrariesAsyncContext.t) (server : Server.t) :
  let requested := List.filter rescan_requested (Server.scan_folders server) in
  let after := trigger_scans async_ctx server in
  after.2 = Server.with_scan_folders
              (map (fun n => if rescan_requested n then in_state ScanFolder.Scanning n else n)
                   (Server.scan_folders server))
              server
  /\ jobs after.1 = rev (map scan_job requested) ++ jobs async_ctx
  /\ (jobs_counted async_ctx ->
      (Z.of_nat (length (jobs async_ctx) + length requested) < 2 ^ 32)%Z ->
      jobs_counted after.1).
Proof.
  unfold trigger_scans. rewrite trigger_scans_acc. simpl.
  split; [done|]. split; [apply add_scan_jobs_jobs|]. apply add_scan_jobs_counted.
Qed.

(** X11: if the job counter equals the number of unhandled jobs before an
    update of the loading thread, it does afterwards, whether the update
    ran to its end or returned early; so the counter is zero exactly when
    every library job has been handled. *)
Theorem job_counter_is_exact `{Platform} (async_ctx async_ctx' : LibrariesAsyncContext.t)
    (server server' : Server.t)
    (Hcounted : jobs_counted async_ctx)
    (Hroom : (Z.of_nat (length (jobs async_ctx) + length (Server.scan_folders server))
              < 2 ^ 32)%Z)
    (Hupdate : UpdateLoadingThread_unwatched async_ctx server = Some (async_ctx', server')) :
  jobs_counted async_ctx'
  /\ (num_uncompleted_jobs async_ctx' = 0%Z
      <-> Forall (fun j => handled j = true) (jobs async_ctx')).
Proof.
  assert (Hc : jobs_counted async_ctx').
  { unfold UpdateLoadingThread_unwatched, trigger_scans in Hupdate.
    rewrite trigger_scans_acc in Hupdate. simpl in Hupdate.
    set (c1 := foldl _ async_ctx _) in Hupdate.
    assert (Hc1 : jobs_counted c1).
    { apply add_scan_jobs_counted; [done|].
      pose proof (List.filter_length_le rescan_requested (Server.scan_folders server)). lia. }
    unfold UpdateLoadingThread in Hupdate.
    pose proof (handle_jobs_counted c1
                  (Server.with_scan_folders
                     (map (fun n => if rescan_requested n
                                    then in_state ScanFolder.Scanning n else n)
                          (Server.scan_folders server)) server) Hc1) as Hj.
    destruct (handle_jobs (jobs c1) (num_uncompleted_jobs c1) _)
      as [[[flow jobs'] n] server1]. simpl in Hj.
    destruct flow.
    - destruct (rebuild_libraries_by_name _ _); [|done]. by injection Hupdate as <- <-.
    - by injection Hupdate as <- <-. }
  split; [done|]. destruct Hc as [-> _]. rewrite <- unhandled_nil_iff. lia.
Qed.

(** X12: when the handling loop runs to its end, every job left in the
    list is handled or not completed yet, and running the loop again at
    once handles nothing and changes nothing. *)
Theorem handle_jobs_settles `{Platform} (l l' : list Job) (n n' : Z) (server server' : Server.t)
    (Hpass : handle_jobs l n server = (Next, l', n', server')) :
  Forall (fun j => passed_over j = true) l'
  /\ handle_jobs l' n' server' = (Next, l', n', server').
Proof.
  pose proof (handle_jobs_Next l n server l' n' server' Hpass) as Hall.
  split; [done|]. by apply handle_jobs_passed_over.
Qed.

(** X13: a completed read job that found its library registered already,
    or whose file is gone, ends the update.  The scans that were requested
    are triggered first; then the job is marked handled and counted down,
    the jobs behind it in the list are not looked at, and the update
    returns with the libraries and the by-name index as they were: no
    orphan is removed and the index is not rebuilt. *)
Theorem skipped_library_ends_the_update `{Platform} (pre post : list Job) (j : Job) (n : Z)
    (server : Server.t) (path_or_memory : PathOrMemory) (format : FileFormat)
    (result : option (ErrorCodeOr Library.t))
    (Hpre : Forall (fun j => passed_over j = true) pre)
    (Hcompleted : completed j = true) (Hunhandled : handled j = false)
    (Hdata : data j = ReadLibrary path_or_memory format result)
    (Hskip : result = None \/ result = Some (Error PathDoesNotExist)) :
  let async_ctx := {| jobs := pre ++ j :: post; num_uncompleted_jobs := n |} in
  let requested := List.filter rescan_requested (Server.scan_folders server) in
  let triggered := trigger_scans async_ctx server in
  UpdateLoadingThread_unwatched async_ctx server
  = Some ({| jobs := rev (map scan_job requested) ++ pre ++ mark_handled j :: post;
             num_uncompleted_jobs := FetchSub (num_uncompleted_jobs triggered.1) 1 |},
          triggered.2)
  /\ Server.libraries triggered.2 = Server.libraries server
  /\ Server.libraries_by_name triggered.2 = Server.libraries_by_name server.
Proof.
  intros async_ctx requested triggered.
  destruct (trigger_scans_libraries async_ctx server) as (Hlibs & Hindex & _).
  split; [|by split].
  destruct (trigger_scans_spec async_ctx server) as (_ & Hjobs & _).
  fold triggered in Hjobs. fold requested in Hjobs.
  unfold UpdateLoadingThread_unwatched. fold triggered.
  destruct triggered as [async_ctx1 server1]. simpl in *.
  unfold UpdateLoadingThread. rewrite Hjobs.
  assert (Hj : forall front m s,
            Forall (fun j => passed_over j = true) front ->
            handle_jobs (front ++ j :: post) m s
            = (Return, front ++ mark_handled j :: post, FetchSub m 1, s)).
  { induction front as [|k front IH]; intros m s Hfront; simpl.
    - rewrite Hunhandled, Hcompleted. simpl. unfold handle_job. rewrite Hdata.
      by destruct Hskip as [-> | ->].
    - apply Forall_cons in Hfront as [Hk Hfront]. unfold passed_over in Hk. rewrite Hk.
      by rewrite (IH _ _ Hfront). }
  rewrite app_assoc, Hj.
  - by rewrite <- app_assoc.
  - apply Forall_app. split; [apply scan_jobs_passed_over|exact Hpre].
Qed.

End JobProofs.

Section OutcomeProofs.
Import ScanFolders Accounting Registry JobQueue.

(** ** Outcomes of scan and read jobs *)

Section Outcomes.
Context `{Platform}.

Lemma AddOrUpdateError_has (node : Item) (items : list Item) :
  node ∈ AddOrUpdateError node items.
Proof.
  unfold AddOrUpdateError. destruct (existsb _ items) eqn:Hex.
  - by apply update_first_has.
  - by left.
Qed.

Lemma replace_loop_already_exists (lib : Library.t) (l : list (ptr * LibNode.t)) :
  (replace_loop lib l).1.1
  = existsb (fun it => bool_decide (Library.file_hash (lib_of it) = Library.file_hash lib)) l.
Proof.
  induction l as [|it l IH]; [done|]. simpl.
  destruct (replace_loop lib l) as [[ae kept] removed]. simpl in IH.
  destruct (bool_decide _ || path_Equal _ _); simpl; by rewrite IH.
Qed.

Lemma replace_loop_perm (lib : Library.t) (l : list (ptr * LibNode.t)) :
  (replace_loop lib l).1.2 ++ (replace_loop lib l).2 ≡ₚ l.
Proof.
  induction l as [|it l IH]; [done|]. simpl.
  destruct (replace_loop lib l) as [[ae kept] removed]. simpl in IH.
  destruct (bool_decide _ || path_Equal _ _); simpl.
  - rewrite <- Permutation_middle. by constructor.
  - by constructor.
Qed.

Lemma filter_split_perm {A} (P : A -> bool) (l : list A) :
  List.filter P l ++ List.filter (fun x => negb (P x)) l ≡ₚ l.
Proof.
  induction l as [|x l IH]; [done|]. simpl. destruct (P x); simpl.
  - by constructor.
  - rewrite <- Permutation_middle. by constructor.
Qed.

Lemma grows_refl l : grows l l.
Proof. by intros ?. Qed.

Lemma grows_trans l1 l2 l3 : grows l1 l2 -> grows l2 l3 -> grows l1 l3.
Proof.
  intros H12 H23 Hnd. destruct (H12 Hnd) as [Hnd2 Hin2].
  destruct (H23 Hnd2) as [Hnd3 Hin3]. split; [done|]. intros x Hx. by apply Hin3, Hin2.
Qed.

Lemma grows_perm l l' : nodes l' ≡ₚ nodes l -> grows l l'.
Proof.
  intros Hp Hnd. split.
  - by rewrite Hp.
  - intros x Hx. by rewrite Hp.
Qed.

Lemma handle_read_library_grows pm result server :
  grows (Server.libraries server) (Server.libraries (handle_read_library pm result server).2).
Proof.
  destruct result as [[lib|e]|]; simpl; [| |apply grows_refl].
  - pose proof (replace_loop_perm lib (LibrariesList.live (Server.libraries server))) as Hp.
    destruct (replace_loop lib (LibrariesList.live (Server.libraries server)))
      as [[already_exists kept] removed]. simpl in Hp.
    assert (Hp' : kept ++ removed ++ LibrariesList.dead_list (Server.libraries server)
                  ≡ₚ nodes (Server.libraries server)).
    { unfold nodes. by rewrite app_assoc, Hp. }
    destruct already_exists; simpl.
    + by apply grows_perm.
    + intros Hnd. unfold nodes, LibrariesList.AllocateUninitialised. simpl. split.
      * apply NoDup_cons. split; [apply fresh_ptr_fresh|]. by rewrite Hp'.
      * intros x Hx. right. by rewrite Hp'.
  - destruct (decide (e = PathDoesNotExist)); apply grows_refl.
Qed.

Lemma handle_job_grows job server :
  grows (Server.libraries server) (Server.libraries (handle_job job server).2).
Proof.
  unfold handle_job. destruct (data job).
  - apply handle_read_library_grows.
  - simpl. rewrite handle_scan_folder_libraries. apply grows_refl.
Qed.

Lemma handle_jobs_grows l n server :
  grows (Server.libraries server) (Server.libraries (handle_jobs l n server).2).
Proof.
  revert n server. induction l as [|job rest IH]; intros n server; [apply grows_refl|].
  simpl. destruct (handled job || negb (completed job)).
  - specialize (IH n server).
    by destruct (handle_jobs rest n server) as [[[flow rest'] n'] server'].
  - pose proof (handle_job_grows job server) as Hj.
    destruct (handle_job job server) as [flow server1]. simpl in Hj.
    destruct flow; [|done].
    specialize (IH (FetchSub n 1) server1).
    destruct (handle_jobs rest (FetchSub n 1) server1) as [[[flow' rest'] n'] server'].
    simpl in *. by eapply grows_trans.
Qed.

Lemma remove_orphans_grows server :
  grows (Server.libraries server) (Server.libraries (remove_orphans server)).
Proof.
  apply grows_perm. unfold remove_orphans, nodes. simpl.
  by rewrite app_assoc, filter_split_perm.
Qed.

Lemma UpdateLoadingThread_grows async_ctx server async_ctx' server' :
  UpdateLoadingThread async_ctx server = Some (async_ctx', server') ->
  grows (Server.libraries server) (Server.libraries server').
Proof.
  unfold UpdateLoadingThread.
  pose proof (handle_jobs_grows (jobs async_ctx) (num_uncompleted_jobs async_ctx) server)
    as Hj.
  destruct (handle_jobs (jobs async_ctx) (num_uncompleted_jobs async_ctx) server)
    as [[[flow jobs'] n] server1]. simpl in Hj.
  destruct flow.
  - destruct (rebuild_libraries_by_name _ _) as [m|]; [|done]. intros [= <- <-]. simpl.
    eapply grows_trans; [exact Hj|]. apply remove_orphans_grows.
  - by intros [= <- <-].
Qed.

(** The index built from the empty table holds exactly the listed
    libraries. *)
Lemma rebuild_libraries_by_name_sound (l : list (ptr * LibNode.t)) (m m' : gmap string ptr) :
  rebuild_libraries_by_name l m = Some m' ->
  forall name p, m' !! name = Some p ->
    m !! name = Some p \/ exists n, n ∈ l /\ library_name_of n = name /\ n.1 = p.
Proof.
  revert m. induction l as [|n l IH]; intros m; simpl.
  - intros [= <-] name p Hp. by left.
  - destruct (m !! Library.name (lib_of n)) eqn:Hn; [done|]. intros Hr name p Hp.
    destruct (IH _ Hr name p Hp) as [Hm | (n0 & Hn0 & Hname & Hptr)].
    + destruct (decide (Library.name (lib_of n) = name)) as [<-|Hne].
      * rewrite lookup_insert_eq in Hm. injection Hm as <-. right. exists n.
        split; [by left|done].
      * rewrite lookup_insert_ne in Hm by done. by left.
    + right. exists n0. split; [by right|done].
Qed.

Lemma rebuild_libraries_by_name_unique (l : list (ptr * LibNode.t)) (m m' : gmap string ptr) :
  rebuild_libraries_by_name l m = Some m' ->
  NoDup (map library_name_of l)
  /\ Forall (fun n => m' !! library_name_of n = Some n.1) l.
Proof.
  revert m. induction l as [|n l IH]; intros m; simpl.
  - intros _. split; constructor.
  - destruct (m !! Library.name (lib_of n)) eqn:Hn; [done|]. intros Hr.
    destruct (IH _ Hr) as [Hnd Hall].
    assert (Hkeep : forall l0 m0 m1 k v, rebuild_libraries_by_name l0 m0 = Some m1 ->
               m0 !! k = Some v ->
               m1 !! k = Some v /\ k ∉ map library_name_of l0).
    { clear. induction l0 as [|x l0 IH0]; intros m0 m1 k v; simpl.
      - intros [= ->] ?. split; [done|apply not_elem_of_nil].
      - destruct (m0 !! Library.name (lib_of x)) eqn:Hx; [done|]. intros Hr Hk.
        assert (Hne : Library.name (lib_of x) <> k) by congruence.
        destruct (IH0 _ _ k v Hr) as [Hm1 Hnot].
        { by rewrite lookup_insert_ne. }
        split; [done|]. apply not_elem_of_cons. split; [done|done]. }
    destruct (Hkeep _ _ _ (Library.name (lib_of n)) n.1 Hr) as [Hm' Hnot].
    { by rewrite lookup_insert_eq. }
    split; [by apply NoDup_cons|]. by constructor.
Qed.

End Outcomes.


(** X15: a scan that succeeds after one that failed leaves the folder in
    [ScannedSuccessfully] and the notifications as they were before the
    failure, less any the folder's id had; the id is gone from the list. *)
Theorem scan_success_clears_failure `{Platform} (folder : ptr) (f : ScanFolder.t)
    (e : ErrorCode) (server : Server.t)
    (Hfolder : lookup_ptr folder (Server.scan_folders server) = Some f) :
  let failed := handle_scan_folder folder (Error e) server in
  let rescanned := handle_scan_folder folder (Value tt) failed in
  lookup_ptr folder (Server.scan_folders rescanned)
  = Some (ScanFolder.set_state ScanFolder.ScannedSuccessfully f)
  /\ Server.error_notifications rescanned
     = RemoveError (Id "libs" (ScanFolder.path f)) (Server.error_notifications server)
  /\ (Id "libs" (ScanFolder.path f) ∉ map id (Server.error_notifications rescanned))
  /\ (Id "libs" (ScanFolder.path f) ∉ map id (Server.error_notifications server) ->
      Server.error_notifications rescanned = Server.error_notifications server).
Proof.
  simpl.
  assert (Hfailed : lookup_ptr folder
                      (Server.scan_folders (handle_scan_folder folder (Error e) server))
                    = Some (ScanFolder.set_state ScanFolder.ScanFailed f)).
  { unfold handle_scan_folder. rewrite Hfolder.
    destruct (negb _); simpl; by rewrite lookup_ptr_update_eq, Hfolder. }
  assert (Herr : Server.error_notifications
                   (handle_scan_folder folder (Value tt)
                      (handle_scan_folder folder (Error e) server))
                 = RemoveError (Id "libs" (ScanFolder.path f))
                               (Server.error_notifications server)).
  { unfold handle_scan_folder at 1. rewrite Hfailed. simpl.
    unfold handle_scan_folder. rewrite Hfolder.
    destruct (negb _); simpl; [|done].
    apply (RemoveError_AddOrUpdateError
             {| title := "Failed to scan library folder"; message := ScanFolder.path f;
                error_code := Some e; id := Id "libs" (ScanFolder.path f) |}). }
  split; [|split; [|split]].
  - unfold handle_scan_folder at 1. rewrite Hfailed. simpl.
    rewrite lookup_ptr_update_eq, Hfailed. simpl. by destruct f.
  - exact Herr.
  - rewrite Herr. apply RemoveError_gone.
  - intros Hnew. rewrite Herr. by apply RemoveError_absent.
Qed.

(** What a read job that produced a library tells: no live library had
    the hash the library carries, and a Lua library given by its path was
    read into memory. *)
Lemma try_job_Value (o : ReadOutcomes) (path_or_memory : PathOrMemory) (format : FileFormat)
    (libraries : LibrariesList.t) (lib : Library.t) :
  try_job o path_or_memory format libraries = Some (Value lib) ->
  Forall (fun it => Library.file_hash (lib_of it) <> Library.file_hash lib)
         (LibrariesList.live libraries)
  /\ (format = Lua -> is_path path_or_memory = true -> ReadEntireFile o = Value tt).
Proof.
  unfold try_job. intros Htry. split.
  - destruct (if _ && _ then ReadEntireFile o else Value tt) as [[]|]; [|done].
    destruct (FromPathOrMemory o) as [[]|]; [|done].
    destruct (Hash o) as [file_hash|]; [|done].
    destruct (existsb _ _) eqn:Hex; [done|].
    destruct (Read o) as [parsed|]; [|done]. injection Htry as <-. simpl.
    apply Forall_forall. intros it Hit Heq.
    assert (Hin : existsb (fun node : ptr * LibNode.t =>
                     bool_decide (Library.file_hash (ListedLibrary.lib (LibNode.value node.2))
                                  = file_hash))
                    (LibrariesList.live libraries) = true).
    { apply existsb_exists. exists it. split; [by apply list_elem_of_In|].
      by apply bool_decide_eq_true. }
    by rewrite Hin in Hex.
  - intros Hformat Hpath. subst format. rewrite Hpath in Htry. simpl in Htry.
    by destruct (ReadEntireFile o) as [[]|].
Qed.

Lemma try_job_read_error (o : ReadOutcomes) (path_or_memory : PathOrMemory)
    (libraries : LibrariesList.t) (e e' : ErrorCode) :
  is_path path_or_memory = true -> ReadEntireFile o = Error e' ->
  try_job o path_or_memory Lua libraries = Some (Error e) -> e = e'.
Proof. unfold try_job. intros Hpath Hread. rewrite Hpath, Hread. simpl. by intros [= <-]. Qed.

(** X16: a library read that fails with another error than a missing file
    is reported under the id of tag "libs" and the path the job holds when
    it is handled, and leaves the registry alone.  The job of a Lua library
    given by its path holds ":memory:" once the file has been read into
    memory.  A later successful read of the same file, handled on the same
    registry, inserts the library and removes the report of the path its job
    holds: that clears the earlier report, except for a Lua library whose
    first read failed in reading the file, whose report stays under the id
    of the path. *)
Theorem reread_clears_failure `{Platform} (o1 o2 : ReadOutcomes) (p : string)
    (format : FileFormat) (e : ErrorCode) (lib : Library.t) (server : Server.t)
    (pm1 pm2 : PathOrMemory)
    (Hfirst : run_read_library o1 (PathString p) format (Server.libraries server)
              = (pm1, Some (Error e)))
    (Herror : e <> PathDoesNotExist)
    (Hsecond : run_read_library o2 (PathString p) format (Server.libraries server)
               = (pm2, Some (Value lib))) :
  let failed := (handle_read_library pm1 (Some (Error e)) server).2 in
  let reread := (handle_read_library pm2 (Some (Value lib)) failed).2 in
  Server.libraries failed = Server.libraries server
  /\ (exists item, item ∈ Server.error_notifications failed
                   /\ id item = Id "libs" (job_path pm1)
                   /\ error_code item = Some e)
  /\ (exists node, node ∈ LibrariesList.live (Server.libraries reread)
                   /\ lib_of node = lib)
  /\ Server.error_notifications reread
     = RemoveError (Id "libs" (job_path pm2)) (Server.error_notifications failed)
  /\ (format = Mdata \/ ReadEntireFile o1 = Value tt ->
      Server.error_notifications reread
      = RemoveError (Id "libs" (job_path pm1)) (Server.error_notifications server)
      /\ (Id "libs" (job_path pm1) ∉ map id (Server.error_notifications reread)))
  /\ (format = Lua -> ReadEntireFile o1 = Error e ->
      Id "libs" p <> Id "libs" ":memory:" ->
      pm1 = PathString p /\ pm2 = Memory
      /\ exists item, item ∈ Server.error_notifications reread
                      /\ id item = Id "libs" p
                      /\ error_code item = Some e).
Proof.
  unfold run_read_library in Hfirst, Hsecond.
  injection Hfirst as Hpm1 Htry1. injection Hsecond as Hpm2 Htry2.
  destruct (try_job_Value _ _ _ _ _ Htry2) as [Hfresh Hread2].
  set (item := {| title := "Failed to read library";
                  message := match pm1 with
                             | PathString s => s ++ String.String (Ascii.ascii_of_nat 10) EmptyString
                             | Memory => EmptyString
                             end;
                  error_code := Some e; id := Id "libs" (job_path pm1) |}).
  assert (Hfailed : (handle_read_library pm1 (Some (Error e)) server).2
                    = Server.with_error_notifications
                        (AddOrUpdateError item (Server.error_notifications server)) server).
  { simpl. by rewrite decide_False by done. }
  intros failed reread. subst failed reread. rewrite Hfailed.
  set (failed := Server.with_error_notifications _ server).
  assert (Hreread : Server.error_notifications
                      (handle_read_library pm2 (Some (Value lib)) failed).2
                    = RemoveError (Id "libs" (job_path pm2))
                        (AddOrUpdateError item (Server.error_notifications server))).
  { unfold handle_read_library. rewrite replace_loop_spec.
    change (Server.libraries failed) with (Server.libraries server).
    by rewrite (hash_seen_false lib _ Hfresh). }
  split; [done|]. split; [exists item; split; [apply AddOrUpdateError_has|done]|].
  split.
  { destruct (handle_read_library_inserts pm2 lib failed Hfresh) as (new_node & _ & Hlive & _).
    eexists. split; [rewrite Hlive; by left|done]. }
  split; [exact Hreread|]. split.
  - intros Hsame.
    assert (Hpath : job_path pm2 = job_path pm1).
    { destruct format.
      - by subst pm1 pm2.
      - destruct Hsame as [?|Hv]; [done|]. rewrite Hv in Hpm1.
        rewrite (Hread2 eq_refl eq_refl) in Hpm2. by subst pm1 pm2. }
    rewrite Hreread, Hpath.
    change (Id "libs" (job_path pm1)) with (id item).
    rewrite RemoveError_AddOrUpdateError. split; [done|apply RemoveError_gone].
  - intros -> Hread1 Hids.
    rewrite Hread1 in Hpm1. rewrite (Hread2 eq_refl eq_refl) in Hpm2. subst pm1 pm2.
    split; [done|]. split; [done|].
    exists item. rewrite Hreread. split; [|done].
    unfold RemoveError. apply list_elem_of_filter. split; [exact Hids|].
    apply AddOrUpdateError_has.
Qed.

(** X17: an update of the loading thread never frees a library node: a
    node that could be dereferenced before, live or removed, is found at
    the same address with the same content afterwards, and the addresses of
    the nodes stay distinct. *)
Theorem UpdateLoadingThread_keeps_library_nodes `{Platform}
    (async_ctx async_ctx' : LibrariesAsyncContext.t) (server server' : Server.t)
    (p : ptr) (node : LibNode.t)
    (Hdistinct : NoDup (map fst (nodes (Server.libraries server))))
    (Hupdate : UpdateLoadingThread_unwatched async_ctx server = Some (async_ctx', server'))
    (Hnode : LibrariesList.deref p (Server.libraries server) = Some node) :
  LibrariesList.deref p (Server.libraries server') = Some node
  /\ NoDup (map fst (nodes (Server.libraries server'))).
Proof.
  unfold UpdateLoadingThread_unwatched in Hupdate.
  destruct (trigger_scans_libraries async_ctx server) as (Hlibs & _).
  destruct (trigger_scans async_ctx server) as [async_ctx1 server1]. simpl in Hlibs.
  pose proof (UpdateLoadingThread_grows _ _ _ _ Hupdate) as Hgrows.
  rewrite Hlibs in Hgrows. destruct (Hgrows Hdistinct) as [Hnd Hin].
  split; [|done]. unfold LibrariesList.deref in *.
  apply elem_lookup_ptr; [exact Hnd|]. apply Hin. by apply lookup_ptr_Some_elem.
Qed.

(** X18: when the handling loop of an update runs to its end, the by-name
    index the update builds agrees with the registry: a name leads to an
    address exactly when a live library of that name is at that address,
    and no two live libraries share a name. *)
Theorem libraries_by_name_matches_registry `{Platform}
    (async_ctx async_ctx' : LibrariesAsyncContext.t) (server server' server1 : Server.t)
    (jobs' : list Job) (n : Z)
    (Hjobs : let triggered := trigger_scans async_ctx server in
             handle_jobs (jobs triggered.1) (num_uncompleted_jobs triggered.1) triggered.2
             = (Next, jobs', n, server1))
    (Hupdate : UpdateLoadingThread_unwatched async_ctx server = Some (async_ctx', server')) :
  NoDup (map library_name_of (LibrariesList.live (Server.libraries server')))
  /\ forall name p,
       Server.libraries_by_name server' !! name = Some p
       <-> exists node, node ∈ LibrariesList.live (Server.libraries server')
                        /\ library_name_of node = name /\ node.1 = p.
Proof.
  unfold UpdateLoadingThread_unwatched in Hupdate. cbv zeta in Hjobs.
  destruct (trigger_scans async_ctx server) as [async_ctx1 server0]. simpl in Hjobs.
  unfold UpdateLoadingThread in Hupdate. rewrite Hjobs in Hupdate.
  destruct (rebuild_libraries_by_name
              (LibrariesList.live (Server.libraries (remove_orphans server1))) ∅)
    as [m|] eqn:Hr; [|done].
  injection Hupdate as <- <-. simpl.
  destruct (rebuild_libraries_by_name_unique _ _ _ Hr) as [Hnd Hall].
  split; [done|]. intros name p. split.
  - intros Hp. destruct (rebuild_libraries_by_name_sound _ _ _ Hr name p Hp) as [He|Hn].
    + by rewrite lookup_empty in He.
    + exact Hn.
  - intros (node & Hnode & <- & <-). rewrite Forall_forall in Hall. by apply Hall.
Qed.

End OutcomeProofs.

Section CollectorProofs.
Import ScanFolders Accounting Collector.

(** ** Removal of unreferenced objects *)

Section Collection.

Lemma lookup_ptr_filter {A} (P : ptr * A -> bool) (l : list (ptr * A)) (p : ptr) (a : A) :
  lookup_ptr p l = Some a -> P (p, a) = true -> lookup_ptr p (List.filter P l) = Some a.
Proof.
  induction l as [|[q b] l IH]; simpl; [done|]. intros Hl HP.
  destruct (decide (q = p)) as [->|Hne].
  - injection Hl as ->. rewrite HP. simpl. by rewrite decide_True.
  - destruct (P (q, b)); simpl; [|by apply IH]. rewrite decide_False by done. by apply IH.
Qed.

Lemma lookup_ptr_app_l {A} (l k : list (ptr * A)) (p : ptr) (a : A) :
  lookup_ptr p l = Some a -> lookup_ptr p (l ++ k) = Some a.
Proof.
  induction l as [|[q b] l IH]; simpl; [done|]. by destruct (decide (q = p)).
Qed.

Lemma release_all_state (l : list ptr) (s : Store) :
  map (fun e => (e.1, state e.2)) (audio_datas (foldl (fun s a => release_audio a s) s l))
  = map (fun e => (e.1, state e.2)) (audio_datas s).
Proof.
  revert s. induction l as [|x l IH]; intros s; simpl; [done|].
  rewrite IH. unfold release_audio, update_ptr. simpl. rewrite map_map.
  apply map_ext. intros [q d]. simpl. by destruct (decide (q = x)).
Qed.

Lemma release_all_jobs (l : list ptr) (s : Store) :
  thread_pool_jobs (foldl (fun s a => release_audio a s) s l) = thread_pool_jobs s.
Proof. revert s. induction l as [|x l IH]; intros s; simpl; [done|]. by rewrite IH. Qed.

(** Releasing the addresses of [l] one by one subtracts from the count of
    an entry the number of times [l] names it. *)
Lemma release_all_refs (l : list ptr) (s : Store) (a : ptr) (d : ListedAudioData) :
  lookup_ptr a (audio_datas s) = Some d ->
  (Z.of_nat (occurrences a l) <= refs d < 2 ^ 32)%Z ->
  lookup_ptr a (audio_datas (foldl (fun s a => release_audio a s) s l))
  = Some (AudioStore.set_refs (refs d - Z.of_nat (occurrences a l)) d).
Proof.
  revert s d. induction l as [|x l IH]; intros s d Hl Hr; simpl.
  - unfold occurrences. simpl. rewrite Z.sub_0_r. rewrite Hl. by destruct d.
  - unfold occurrences in Hr. simpl in Hr.
    destruct (decide (x = a)) as [->|Hne].
    + rewrite bool_decide_eq_true_2 in Hr by done. simpl in Hr.
      fold (occurrences a l) in Hr.
      assert (Hsub : FetchSub (refs d) 1 = (refs d - 1)%Z).
      { unfold FetchSub, u32_wrap. apply Z.mod_small. lia. }
      rewrite (IH (release_audio a s) (AudioStore.set_refs (refs d - 1) d)).
      * unfold occurrences. simpl. rewrite bool_decide_eq_true_2 by done. simpl.
        destruct d. unfold AudioStore.set_refs. simpl. do 2 f_equal. lia.
      * unfold release_audio. simpl. rewrite lookup_ptr_update_eq, Hl. simpl.
        by rewrite Hsub.
      * simpl. lia.
    + rewrite bool_decide_eq_false_2 in Hr by done. fold (occurrences a l) in Hr.
      rewrite (IH (release_audio x s) d).
      * unfold occurrences. simpl. by rewrite bool_decide_eq_false_2.
      * unfold release_audio. simpl. by rewrite lookup_ptr_update_ne.
      * done.
Qed.

Lemma occurrences_app (a : ptr) (l k : list ptr) :
  occurrences a (l ++ k) = occurrences a l + occurrences a k.
Proof. unfold occurrences. by rewrite List.filter_app, length_app. Qed.

Lemma occurrences_pos (a : ptr) (l : list ptr) : a ∈ l -> 0 < occurrences a l.
Proof.
  induction l as [|x l IH]; [by intros ?%not_elem_of_nil|].
  unfold occurrences. simpl. intros [-> | Hin]%elem_of_cons.
  - rewrite bool_decide_eq_true_2 by done. simpl. lia.
  - specialize (IH Hin). unfold occurrences in IH.
    destruct (bool_decide (x = a)); simpl; lia.
Qed.

Lemma audio_of_app (l k : list ListedInstrument.t) :
  audio_of (l ++ k) = audio_of l ++ audio_of k.
Proof. unfold audio_of. apply flat_map_app. Qed.

Lemma instruments_of_app (l k : list (ptr * LibNode.t)) :
  instruments_of (l ++ k) = instruments_of l ++ instruments_of k.
Proof. unfold instruments_of. apply flat_map_app. Qed.

Lemma instruments_of_cons (n : ptr * LibNode.t) (l : list (ptr * LibNode.t)) :
  instruments_of (n :: l)
  = map snd (ListedLibrary.instruments (LibNode.value n.2)) ++ instruments_of l.
Proof. done. Qed.

Lemma audio_of_cons (i : ListedInstrument.t) (l : list ListedInstrument.t) :
  audio_of (i :: l) = ListedInstrument.audio_data_set i ++ audio_of l.
Proof. done. Qed.

(** The instruments split into the removed and the kept ones. *)
Lemma occurrences_split (a : ptr) (insts : list ListedInstrument.t) :
  occurrences a (audio_of insts)
  = occurrences a (audio_of (List.filter instrument_unreferenced insts))
    + occurrences a (audio_of (List.filter (fun i => negb (instrument_unreferenced i)) insts)).
Proof.
  induction insts as [|i insts IH]; [done|].
  rewrite audio_of_cons, occurrences_app, IH. cbn [List.filter].
  destruct (instrument_unreferenced i); cbn [negb];
    rewrite audio_of_cons, occurrences_app; lia.
Qed.

Lemma filter_map_snd {A} (P : A -> bool) (l : list (ptr * A)) :
  List.filter P (map snd l) = map snd (List.filter (fun x => P x.2) l).
Proof.
  induction l as [|x l IH]; [done|]. simpl. destruct (P x.2); simpl; by rewrite IH.
Qed.

(** What [instruments.RemoveIf] does on one node: the unreferenced
    instruments release their audio entries in turn, the others stay. *)
Lemma remove_instruments_spec (node : LibNode.t) (s : Store) :
  let insts := map snd (ListedLibrary.instruments (LibNode.value node)) in
  (remove_instruments node s).2
  = foldl (fun s a => release_audio a s) s
          (audio_of (List.filter instrument_unreferenced insts))
  /\ map snd (ListedLibrary.instruments (LibNode.value (remove_instruments node s).1))
     = List.filter (fun i => negb (instrument_unreferenced i)) insts
  /\ ListedLibrary.instruments (LibNode.value (remove_instruments node s).1)
     = List.filter (fun i => negb (unreferenced i))
                   (ListedLibrary.instruments (LibNode.value node))
  /\ ListedLibrary.lib (LibNode.value (remove_instruments node s).1)
     = ListedLibrary.lib (LibNode.value node).
Proof.
  unfold remove_instruments.
  assert (Hfold : forall l acc,
            (foldl (fun acc i => if unreferenced i then destroy_instrument i.2 acc else acc)
                   acc l).1
            = foldl (fun s a => release_audio a s) acc.1
                    (audio_of (List.filter instrument_unreferenced (map snd l)))).
  { induction l as [|i l IH]; intros acc; [done|]. simpl. rewrite IH.
    unfold unreferenced, instrument_unreferenced.
    destruct (bool_decide (ListedInstrument.refs i.2 = 0%Z)); [|done].
    by rewrite audio_of_cons, foldl_app. }
  specialize (Hfold (ListedLibrary.instruments (LibNode.value node))
                    (s, LibNode.reader_uses node)).
  destruct (foldl _ (s, LibNode.reader_uses node) _) as [s' uses]. simpl in *.
  split; [done|]. split; [|done].
  rewrite filter_map_snd. done.
Qed.

Lemma remove_instruments_of_spec (l : list (ptr * LibNode.t)) (s : Store) :
  (remove_instruments_of l s).2
  = foldl (fun s a => release_audio a s) s
          (audio_of (List.filter instrument_unreferenced (instruments_of l)))
  /\ instruments_of (remove_instruments_of l s).1
     = List.filter (fun i => negb (instrument_unreferenced i)) (instruments_of l)
  /\ map fst (remove_instruments_of l s).1 = map fst l.
Proof.
  revert s. induction l as [|[p node] l IH]; intros s; [done|].
  cbn [remove_instruments_of].
  destruct (remove_instruments_spec node s) as (Hs & Hi & _).
  destruct (remove_instruments node s) as [node' s1]. simpl in Hs, Hi.
  destruct (IH s1) as (Hs2 & Hi2 & Hp2).
  destruct (remove_instruments_of l s1) as [l' s2]. cbn [fst snd] in *.
  split; [|split].
  - rewrite Hs2, Hs, instruments_of_cons. cbn [snd].
    by rewrite List.filter_app, audio_of_app, foldl_app.
  - rewrite !instruments_of_cons. cbn [snd]. by rewrite Hi, Hi2, List.filter_app.
  - cbn [map fst]. by rewrite Hp2.
Qed.

Lemma occurrences_filter_nodes (a : ptr) (P : ptr * LibNode.t -> bool)
    (l : list (ptr * LibNode.t)) :
  occurrences a (audio_of (instruments_of (List.filter P l)))
  <= occurrences a (audio_of (instruments_of l)).
Proof.
  induction l as [|n l IH]; [done|]. cbn [List.filter].
  rewrite instruments_of_cons, audio_of_app, occurrences_app.
  destruct (P n); [|lia].
  rewrite instruments_of_cons, audio_of_app, occurrences_app. lia.
Qed.

Lemma elem_audio_of_filter_nodes (a : ptr) (P : ptr * LibNode.t -> bool)
    (l : list (ptr * LibNode.t)) :
  a ∈ audio_of (instruments_of (List.filter P l)) -> a ∈ audio_of (instruments_of l).
Proof.
  induction l as [|n l IH]; [done|]. cbn [List.filter].
  rewrite instruments_of_cons, audio_of_app, elem_of_app.
  destruct (P n); [|by right; apply IH].
  rewrite instruments_of_cons, audio_of_app, elem_of_app.
  intros [?|?]; [by left|right; by apply IH].
Qed.

Lemma elem_audio_of_filter (a : ptr) (P : ListedInstrument.t -> bool)
    (insts : list ListedInstrument.t) :
  a ∈ audio_of (List.filter P insts) -> a ∈ audio_of insts.
Proof.
  induction insts as [|i insts IH]; [done|]. cbn [List.filter].
  rewrite audio_of_cons, elem_of_app. destruct (P i); [|by right; apply IH].
  rewrite audio_of_cons, elem_of_app. intros [?|?]; [by left|right; by apply IH].
Qed.

(** The three steps of [RemoveUnreferencedObjects] on the libraries and on
    the store. *)
Lemma RemoveUnreferencedObjects_steps (server server' : Server.t) (audio audio' : Store) :
  RemoveUnreferencedObjects server audio = Some (server', audio') ->
  let libs := Server.libraries server in
  let released :=
    foldl (fun s a => release_audio a s) audio
          (audio_of (List.filter instrument_unreferenced (instruments_of (nodes libs)))) in
  exists live dead_list,
    Server.libraries server'
    = DeleteRemovedAndUnreferenced
        {| LibrariesList.live := live; LibrariesList.dead_list := dead_list |}
    /\ instruments_of (live ++ dead_list)
       = List.filter (fun i => negb (instrument_unreferenced i)) (instruments_of (nodes libs))
    /\ remove_audio released = Some audio'
    /\ Server.channels server'
       = List.filter (fun h => AsyncCommsChannel.used h.2) (Server.channels server).
Proof.
  unfold RemoveUnreferencedObjects. simpl.
  destruct (remove_instruments_of_spec (LibrariesList.live (Server.libraries server)) audio)
    as (Hs1 & Hi1 & _).
  destruct (remove_instruments_of (LibrariesList.live (Server.libraries server)) audio)
    as [live audio1]. simpl in Hs1, Hi1.
  destruct (remove_instruments_of_spec (LibrariesList.dead_list (Server.libraries server))
              audio1) as (Hs2 & Hi2 & _).
  destruct (remove_instruments_of (LibrariesList.dead_list (Server.libraries server)) audio1)
    as [dead_list audio2]. simpl in Hs2, Hi2.
  destruct (remove_audio audio2) as [audio3|] eqn:Hra; [|done].
  intros [= <- <-]. exists live, dead_list. simpl.
  split; [done|]. split; [|split; [|done]].
  - unfold nodes. by rewrite !instruments_of_app, List.filter_app, Hi1, Hi2.
  - rewrite <- Hra. f_equal. rewrite Hs2, Hs1. unfold nodes.
    by rewrite instruments_of_app, List.filter_app, audio_of_app, foldl_app.
Qed.

End Collection.

(** X19: if every audio entry is in a completed state, as it is once the
    pool of decode jobs has drained, [RemoveUnreferencedObjects] fails no
    assertion; afterwards no channel is unused, no listed instrument and no
    audio entry has a count of zero, and the scan folders, the
    notifications, the by-name index and the request queue are as before. *)
Theorem RemoveUnreferencedObjects_leaves_referenced (server : Server.t) (audio : Store)
    (Hdrained : Forall (fun e => destructible e.2 = true) (audio_datas audio)) :
  exists server' audio',
    RemoveUnreferencedObjects server audio = Some (server', audio')
    /\ Forall (fun h => AsyncCommsChannel.used h.2 = true) (Server.channels server')
    /\ Forall (fun i => ListedInstrument.refs i <> 0%Z) (listed_instruments server')
    /\ Forall (fun e => refs e.2 <> 0%Z) (audio_datas audio')
    /\ Server.scan_folders server' = Server.scan_folders server
    /\ Server.error_notifications server' = Server.error_notifications server
    /\ Server.libraries_by_name server' = Server.libraries_by_name server
    /\ Server.request_queue server' = Server.request_queue server.
Proof.
  destruct (RemoveUnreferencedObjects server audio) as [[server' audio']|] eqn:Hr.
  - exists server', audio'. split; [done|].
    destruct (RemoveUnreferencedObjects_steps _ _ _ _ Hr) as (live & dead & Hl & Hi & Ha & Hc).
    split; [|split; [|split]].
    + rewrite Hc. apply Forall_forall. intros h Hh.
      by apply elem_of_filter_bool in Hh as [_ ?].
    + unfold listed_instruments. rewrite Hl. unfold nodes, DeleteRemovedAndUnreferenced. simpl.
      apply Forall_forall. intros i Hi'.
      assert (Hin : i ∈ instruments_of (live ++ dead)).
      { rewrite instruments_of_app in *. apply elem_of_app in Hi' as [?|Hd].
        - apply elem_of_app. by left.
        - apply elem_of_app. right. unfold instruments_of in *.
          apply list_elem_of_In, in_flat_map in Hd as (n & Hn & Hd).
          apply list_elem_of_In, in_flat_map. exists n. split; [|done].
          by apply filter_In in Hn as [? _]. }
      rewrite Hi in Hin. apply elem_of_filter_bool in Hin as [_ Hk].
      unfold instrument_unreferenced in Hk. apply negb_true_iff in Hk.
      by apply bool_decide_eq_false in Hk.
    + unfold remove_audio in Ha. destruct (forallb _ _); [|done]. injection Ha as <-. simpl.
      apply Forall_forall. intros e He. apply elem_of_filter_bool in He as [_ Hk].
      apply negb_true_iff in Hk. by apply bool_decide_eq_false in Hk.
    + unfold RemoveUnreferencedObjects in Hr.
      destruct (remove_instruments_of _ audio) as [l1 a1].
      destruct (remove_instruments_of _ a1) as [l2 a2].
      destruct (remove_audio a2); [|done]. by injection Hr as <- <-.
  - exfalso. unfold RemoveUnreferencedObjects in Hr.
    destruct (remove_instruments_of_spec (LibrariesList.live (Server.libraries server)) audio)
      as (Hs1 & _).
    destruct (remove_instruments_of (LibrariesList.live (Server.libraries server)) audio)
      as [live audio1]. simpl in Hs1.
    destruct (remove_instruments_of_spec (LibrariesList.dead_list (Server.libraries server))
                audio1) as (Hs2 & _).
    destruct (remove_instruments_of (LibrariesList.dead_list (Server.libraries server)) audio1)
      as [dead_list audio2]. simpl in Hs2.
    assert (Hok : remove_audio audio2 <> None); [|by destruct (remove_audio audio2)].
    unfold remove_audio.
    assert (Hall : forallb (fun e => negb (bool_decide (refs e.2 = 0%Z)) || destructible e.2)
                           (audio_datas audio2) = true); [|by rewrite Hall].
    apply forallb_forall. intros e He. apply list_elem_of_In in He.
    assert (Hst : (e.1, state e.2) ∈ map (fun e => (e.1, state e.2)) (audio_datas audio)).
    { rewrite <- (release_all_state
                    (audio_of (List.filter instrument_unreferenced
                                 (instruments_of (LibrariesList.live (Server.libraries server)))))
                    audio), <- Hs1.
      rewrite <- (release_all_state
                    (audio_of (List.filter instrument_unreferenced
                                 (instruments_of (LibrariesList.dead_list (Server.libraries server)))))
                    audio1), <- Hs2.
      by apply (elem_of_map_2 (fun e => (e.1, state e.2))). }
    apply elem_of_map_1 in Hst as (e0 & Heq & He0).
    rewrite Forall_forall in Hdrained. specialize (Hdrained e0 He0).
    injection Heq as _ Hstate. unfold destructible in *. rewrite Hstate.
    rewrite Hdrained. apply orb_true_r.
Qed.

(** X20: if the count of every audio entry covers the listed instruments
    that name it, it still does after [RemoveUnreferencedObjects]: every
    audio entry named by an instrument that is left is still in the store,
    so no instrument is left with a dangling audio pointer. *)
Theorem RemoveUnreferencedObjects_no_dangling_audio (server server' : Server.t)
    (audio audio' : Store)
    (Haccounted : audio_accounted (listed_instruments server) audio)
    (Hremoved : RemoveUnreferencedObjects server audio = Some (server', audio')) :
  audio_accounted (listed_instruments server') audio'.
Proof.
  destruct (RemoveUnreferencedObjects_steps _ _ _ _ Hremoved)
    as (live & dead & Hl & Hi & Ha & _).
  unfold listed_instruments in Haccounted.
  set (all := instruments_of (nodes (Server.libraries server))) in *.
  set (gone := audio_of (List.filter instrument_unreferenced all)) in *.
  assert (Hsub : forall a, a ∈ audio_of (listed_instruments server') ->
            a ∈ audio_of (List.filter (fun i => negb (instrument_unreferenced i)) all)
            /\ occurrences a (audio_of (listed_instruments server'))
               <= occurrences a (audio_of (List.filter (fun i => negb (instrument_unreferenced i)) all))).
  { intros a Ha'. unfold listed_instruments in *. rewrite Hl in *.
    unfold nodes, DeleteRemovedAndUnreferenced in *. simpl in *.
    rewrite <- Hi. rewrite !instruments_of_app, !audio_of_app, !occurrences_app in *.
    split.
    - apply elem_of_app in Ha' as [?|Hd]; apply elem_of_app; [by left|right].
      by eapply elem_audio_of_filter_nodes.
    - pose proof (occurrences_filter_nodes a
                    (fun n => negb (bool_decide (LibNode.reader_uses n.2 = 0%Z))) dead).
      lia. }
  intros a Ha'. destruct (Hsub a Ha') as [Hkept Hle].
  assert (Hall : a ∈ audio_of all) by by eapply elem_audio_of_filter.
  destruct (Haccounted a Hall) as (d & Hd & Hrange).
  rewrite (occurrences_split a all) in Hrange. fold gone in Hrange.
  pose proof (occurrences_pos a _ Hkept) as Hpos.
  assert (Hlook : lookup_ptr a (audio_datas (foldl (fun s a => release_audio a s) audio gone))
                  = Some (AudioStore.set_refs (refs d - Z.of_nat (occurrences a gone)) d)).
  { apply release_all_refs; [done|lia]. }
  unfold remove_audio in Ha. destruct (forallb _ _); [|done]. injection Ha as <-. simpl.
  exists (AudioStore.set_refs (refs d - Z.of_nat (occurrences a gone)) d). split.
  - apply lookup_ptr_filter; [done|]. simpl.
    apply negb_true_iff, bool_decide_eq_false. lia.
  - simpl. lia.
Qed.

(** X21: [RemoveUnreferencedObjects] leaves what is in use where it is: a
    channel still marked used, and an instrument of a live library whose
    count is not zero, are found at their addresses afterwards as they
    were. *)
Theorem RemoveUnreferencedObjects_keeps_used (server server' : Server.t)
    (audio audio' : Store)
    (Hremoved : RemoveUnreferencedObjects server audio = Some (server', audio')) :
  (forall ch c, lookup_ptr ch (Server.channels server) = Some c ->
                AsyncCommsChannel.used c = true ->
                lookup_ptr ch (Server.channels server') = Some c)
  /\ (forall p q node li,
        lookup_ptr p (LibrariesList.live (Server.libraries server)) = Some node ->
        lookup_ptr q (ListedLibrary.instruments (LibNode.value node)) = Some li ->
        ListedInstrument.refs li <> 0%Z ->
        LoadingThread.deref_instrument (p, q) (Server.libraries server') = Some li).
Proof.
  split.
  - intros ch c Hc Hused.
    destruct (RemoveUnreferencedObjects_steps _ _ _ _ Hremoved) as (_ & _ & _ & _ & _ & ->).
    by apply lookup_ptr_filter.
  - intros p q node li Hnode Hli Hrefs.
    unfold RemoveUnreferencedObjects in Hremoved.
    assert (Hlive : forall l s, lookup_ptr p l = Some node ->
              exists node', lookup_ptr p (remove_instruments_of l s).1 = Some node'
                /\ lookup_ptr q (ListedLibrary.instruments (LibNode.value node')) = Some li).
    { induction l as [|[p0 n0] l IH]; intros s; simpl; [done|].
      destruct (remove_instruments_spec n0 s) as (_ & _ & Hn0 & _).
      destruct (remove_instruments n0 s) as [n0' s1]. simpl in Hn0.
      specialize (IH s1).
      destruct (remove_instruments_of l s1) as [l' s2]. simpl in *.
      destruct (decide (p0 = p)) as [->|Hne].
      - intros [= ->]. exists n0'. split; [done|]. rewrite Hn0.
        apply lookup_ptr_filter; [done|]. unfold unreferenced. simpl.
        by apply negb_true_iff, bool_decide_eq_false.
      - exact IH. }
    destruct (Hlive (LibrariesList.live (Server.libraries server)) audio Hnode)
      as (node' & Hnode' & Hli').
    destruct (remove_instruments_of (LibrariesList.live (Server.libraries server)) audio)
      as [live audio1].
    destruct (remove_instruments_of (LibrariesList.dead_list (Server.libraries server)) audio1)
      as [dead audio2].
    destruct (remove_audio audio2); [|done]. injection Hremoved as <- <-.
    unfold LoadingThread.deref_instrument, LibrariesList.deref. simpl in *.
    by rewrite (lookup_ptr_app_l _ _ _ _ Hnode').
Qed.

End CollectorProofs.

Section CacheProofs.
Import ScanFolders Accounting.

(** ** The decode job of an entry *)

(** X22: however the decode job, the reload and the cancellation of an
    entry interleave, at most one decode job of the entry has still to make
    its last access to the entry (the store of its result, or the exchange
    to [CompletedCancelled]).  A further job is queued only after that
    access, when the closure of the earlier job may still be running its
    deferred count-down, so no two jobs ever read or write the entry at the
    same time.  No job reaches the panic of its exchange loop: the loop only
    ever sees [PendingLoad] or [PendingCancel]. *)
Theorem decode_jobs_never_overlap (s : DecodeRace.Sys) (Hreach : DecodeRace.reachable s) :
  length (DecodeRace.jobs s) <= 1 /\ DecodeRace.JobPanicked ∉ DecodeRace.jobs s.
Proof.
  split.
  - by apply inv_jobs_short, reachable_inv.
  - by apply reachable_no_panic.
Qed.

(** X23: once no decode job of an entry is left and the loading thread is
    not in the middle of a reload, the entry is in a completed state, which
    is what the destructor of the entry asserts. *)
Theorem drained_pool_means_completed (s : DecodeRace.Sys) (d : ListedAudioData)
    (Hreach : DecodeRace.reachable s)
    (Hdrained : DecodeRace.jobs s = [])
    (Hidle : DecodeRace.orch s = DecodeRace.OrchIdle)
    (Hstate : state d = DecodeRace.cell s) :
  completed_state (state d) /\ Collector.destructible d = true.
Proof.
  apply reachable_inv in Hreach. unfold DecodeRace.inv in Hreach.
  rewrite Hdrained, Hidle in Hreach. unfold completed_state, Collector.destructible.
  rewrite Hstate. destruct (DecodeRace.cell s); try done; auto.
Qed.

(** ** Requests and results *)

Section RequestsAndResults.
Import LoadingThread.

Lemma channel_used_consume_request q m ch :
  channel_used ch (server (consume_request q m)) = channel_used ch (server m).
Proof.
  unfold channel_used. fold (channels_of (consume_request q m)). fold (channels_of m).
  by rewrite consume_request_channels.
Qed.

Lemma accepted_consume_request q m l :
  accepted (server (consume_request q m)) l = accepted (server m) l.
Proof.
  unfold accepted. apply List.filter_ext. intros x. apply channel_used_consume_request.
Qed.

Lemma request_scanning_none_left (folders : list (ptr * ScanFolder.t)) :
  Forall (fun n => folder_state n <> ScanFolder.NotScanned) (request_scanning folders).
Proof.
  rewrite request_scanning_map. apply Forall_forall. intros n Hn.
  apply elem_of_map_1 in Hn as (n0 & -> & _).
  destruct (decide (folder_state n0 = ScanFolder.NotScanned)); [|done].
  by destruct n0 as [q []].
Qed.

Lemma request_scanning_stable (folders : list (ptr * ScanFolder.t)) :
  Forall (fun n => folder_state n <> ScanFolder.NotScanned) folders ->
  request_scanning folders = folders.
Proof.
  intros Hall. rewrite request_scanning_map. rewrite <- (map_id folders) at 2.
  apply map_ext_elem. intros n Hn. rewrite Forall_forall in Hall.
  by rewrite decide_False by by apply Hall.
Qed.

Lemma consume_request_accepted q m :
  channel_used (QueuedRequest.async_comms_channel q) (server m) = true ->
  pending_results (consume_request q m)
  = {| PendingResult.state := PendingResult.AwaitingLibrary;
       PendingResult.request := q;
       PendingResult.debug_id := debug_result_id m |} :: pending_results m
  /\ debug_result_id (consume_request q m) = S (debug_result_id m)
  /\ Server.request_queue (server (consume_request q m)) = Server.request_queue (server m)
  /\ Server.scan_folders (server (consume_request q m))
     = request_scanning (Server.scan_folders (server m)).
Proof. intros Hused. unfold consume_request. by rewrite Hused. Qed.

Lemma consume_request_dropped q m :
  channel_used (QueuedRequest.async_comms_channel q) (server m) = false ->
  consume_request q m = m.
Proof. intros Hused. unfold consume_request. by rewrite Hused. Qed.

Lemma accepted_cons s q l :
  accepted s (q :: l)
  = if channel_used (QueuedRequest.async_comms_channel q) s
    then q :: accepted s l else accepted s l.
Proof. done. Qed.

(** The loop over the popped requests. *)
Lemma consume_loop (l : list QueuedRequest.t) (m : t) :
  let after := foldl (fun m q => consume_request q m) m l in
  map PendingResult.request (pending_results after)
  = rev (accepted (server m) l) ++ map PendingResult.request (pending_results m)
  /\ map PendingResult.debug_id (pending_results after)
     = rev (seq (debug_result_id m) (length (accepted (server m) l)))
       ++ map PendingResult.debug_id (pending_results m)
  /\ map PendingResult.state (pending_results after)
     = replicate (length (accepted (server m) l)) PendingResult.AwaitingLibrary
       ++ map PendingResult.state (pending_results m)
  /\ debug_result_id after = debug_result_id m + length (accepted (server m) l)
  /\ Server.request_queue (server after) = Server.request_queue (server m)
  /\ Server.scan_folders (server after)
     = (if bool_decide (accepted (server m) l = [])
        then Server.scan_folders (server m)
        else request_scanning (Server.scan_folders (server m))).
Proof.
  revert m. induction l as [|q l IH]; intros m; cbn [foldl]; cbv zeta.
  - simpl. by rewrite Nat.add_0_r.
  - destruct (IH (consume_request q m)) as (Hreq & Hid & Hst & Hn & Hq & Hf). clear IH.
    rewrite accepted_consume_request in Hreq, Hid, Hst, Hn, Hf.
    rewrite Hreq, Hid, Hst, Hn, Hq, Hf. clear Hreq Hid Hst Hn Hq Hf.
    rewrite !accepted_cons.
    destruct (channel_used (QueuedRequest.async_comms_channel q) (server m)) eqn:Hused.
    + destruct (consume_request_accepted q m Hused) as (-> & -> & -> & ->).
      cbn [length rev seq map]. rewrite <- !app_assoc. cbn [app].
      split; [done|]. split; [done|]. split.
      { by rewrite replicate_S_end, <- app_assoc. }
      split; [lia|]. split; [done|].
      rewrite (bool_decide_eq_false_2 (_ :: _ = [])) by done.
      destruct (bool_decide (accepted (server m) l = [])); [done|].
      apply request_scanning_stable, request_scanning_none_left.
    + by rewrite (consume_request_dropped q m Hused).
Qed.

Lemma dispatch_removed pr m : (dispatch pr m).1 = terminal pr.
Proof.
  unfold dispatch, terminal. destruct (terminal_result pr); [|done].
  by destruct (channel_used _ _).
Qed.

Lemma dispatch_channel pr m ch c :
  lookup_ptr ch (channels_of m) = Some c -> AsyncCommsChannel.used c = true ->
  lookup_ptr ch (channels_of (dispatch pr m).2)
  = Some (match (if bool_decide (channel_of pr = ch) then terminal_result pr else None) with
          | Some r => AsyncCommsChannel.deliver r c
          | None => c
          end).
Proof.
  intros Hc Hused. unfold dispatch.
  destruct (terminal_result pr) as [r|] eqn:Hr; [|by destruct (bool_decide _)].
  destruct (decide (channel_of pr = ch)) as [Heq|Hne].
  - rewrite bool_decide_eq_true_2 by done.
    unfold channel_used. fold (channels_of m). rewrite Heq, Hc, Hused. simpl.
    unfold channels_of, update_channel. simpl.
    rewrite lookup_ptr_update_eq.
    fold (channels_of (ChangeRefCount Retain r m)).
    unfold channels_of. rewrite ChangeRefCount_channels. fold (channels_of m).
    by rewrite Hc.
  - rewrite bool_decide_eq_false_2 by done.
    destruct (channel_used (channel_of pr) (server m)); [|done]. simpl.
    unfold channels_of, update_channel. simpl.
    rewrite lookup_ptr_update_ne by done. rewrite ChangeRefCount_channels. exact Hc.
Qed.

Lemma update_channel_lookup ch f m :
  lookup_ptr ch (channels_of (update_channel ch f m)) = f <$> lookup_ptr ch (channels_of m).
Proof. unfold channels_of, update_channel. simpl. apply lookup_ptr_update_eq. Qed.

Lemma update_channel_libraries ch f m :
  Server.libraries (server (update_channel ch f m)) = Server.libraries (server m).
Proof. done. Qed.

Lemma foldl_TriggerReload_frame (set : list ptr) (s : Store) :
  let s' := foldl (fun s d => TriggerReloadIfAudioIsCancelled d s) s set in
  dom_of s' = dom_of s
  /\ forall a, key_at s' a = key_at s a /\ refs_at s' a = refs_at s a.
Proof.
  revert s. induction set as [|d set IH]; intros s; simpl; [done|].
  destruct (IH (TriggerReloadIfAudioIsCancelled d s)) as [Hdom Hkr].
  destruct (TriggerReload_shape d s) as (g & Hg & Hs).
  split.
  - rewrite Hdom. unfold dom_of. by rewrite Hs, map_fst_update_ptr.
  - intros a. destruct (Hkr a) as [-> ->]. by eapply key_refs_at_update.
Qed.

Lemma find_instrument_name inst_name l p i :
  find_instrument inst_name l = Some (p, i) ->
  Instrument.name (LoadedInstrument.instrument (ListedInstrument.inst i)) = inst_name.
Proof.
  induction l as [|[q j] l IH]; simpl; [done|].
  destruct (bool_decide _) eqn:Hb; [|done].
  intros [= _ <-]. by apply bool_decide_eq_true in Hb.
Qed.

Lemma map_audio_key_update_key p g (l : list (ptr * ListedAudioData)) :
  (forall d, library_name (g d) = library_name d /\ path (g d) = path d) ->
  map audio_key (update_ptr p g l) = map audio_key l.
Proof.
  intros Hg. unfold update_ptr. rewrite map_map. apply map_ext. intros [q d]. simpl.
  destruct (decide (q = p)); [|done]. unfold audio_key. simpl.
  by destruct (Hg d) as [-> ->].
Qed.

Lemma release_all_wf (l : list ptr) (s : Store) :
  store_wf s -> store_wf (foldl (fun s a => Collector.release_audio a s) s l).
Proof.
  revert s. induction l as [|a l IH]; intros s Hwf; simpl; [done|].
  apply IH. destruct Hwf as [Hp Hk]. split; simpl.
  - by rewrite map_fst_update_ptr.
  - by rewrite map_audio_key_update_key.
Qed.

End RequestsAndResults.

(** X24: the loading thread takes the queued requests in the order they
    were sent and empties the queue.  Each request of a channel in use
    becomes a pending result in [AwaitingLibrary], the newest at the head
    of the list, with consecutive debug ids; requests of unused channels
    are dropped.  The first accepted request asks for a scan of every
    folder not scanned yet; without one the scan folders stay untouched. *)
Theorem consume_requests_in_order (m : LoadingThread.t) :
  let queue := Server.request_queue (LoadingThread.server m) in
  let taken := accepted (LoadingThread.server m) queue in
  let after := LoadingThread.consume_requests m in
  Server.request_queue (LoadingThread.server after) = []
  /\ map PendingResult.request (LoadingThread.pending_results after)
     = rev taken ++ map PendingResult.request (LoadingThread.pending_results m)
  /\ map PendingResult.debug_id (LoadingThread.pending_results after)
     = rev (seq (LoadingThread.debug_result_id m) (length taken))
       ++ map PendingResult.debug_id (LoadingThread.pending_results m)
  /\ map PendingResult.state (LoadingThread.pending_results after)
     = replicate (length taken) PendingResult.AwaitingLibrary
       ++ map PendingResult.state (LoadingThread.pending_results m)
  /\ Server.scan_folders (LoadingThread.server after)
     = (if bool_decide (taken = [])
        then Server.scan_folders (LoadingThread.server m)
        else LoadingThread.request_scanning (Server.scan_folders (LoadingThread.server m))).
Proof.
  unfold LoadingThread.consume_requests.
  destruct (consume_loop (Server.request_queue (LoadingThread.server m))
              (LoadingThread.with_server
                 (Server.with_request_queue [] (LoadingThread.server m)) m))
    as (Hreq & Hid & Hst & _ & Hq & Hf).
  split; [exact Hq|]. split; [exact Hreq|]. split; [exact Hid|]. split; [exact Hst|].
  exact Hf.
Qed.

(** X25: the dispatch at the end of an iteration removes from the pending
    list exactly the results in a terminal state, keeping the others in
    order; a channel in use receives one result and one callback for each
    terminal pending result of its own, in list order, after the results
    it held. *)
Theorem dispatch_all_delivers_each_result_once (l : list PendingResult.t)
    (m : LoadingThread.t) (ch : ptr) (c : AsyncCommsChannel.t)
    (Hchannel : lookup_ptr ch (channels_of m) = Some c)
    (Hused : AsyncCommsChannel.used c = true) :
  let after := LoadingThread.dispatch_all l m in
  after.1 = List.filter (fun pending_result => negb (terminal pending_result)) l
  /\ exists c', lookup_ptr ch (channels_of after.2) = Some c'
       /\ AsyncCommsChannel.used c' = true
       /\ AsyncCommsChannel.results c' = AsyncCommsChannel.results c ++ results_for ch l
       /\ AsyncCommsChannel.result_added_callback_calls c'
          = AsyncCommsChannel.result_added_callback_calls c + length (results_for ch l).
Proof.
  revert m c Hchannel Hused. induction l as [|pr l IH]; intros m c Hc Hused; simpl.
  - split; [done|]. exists c. by rewrite app_nil_r, Nat.add_0_r.
  - pose proof (dispatch_removed pr m) as Hrem.
    pose proof (dispatch_channel pr m ch c Hc Hused) as Hch'.
    destruct (LoadingThread.dispatch pr m) as [removed m1]. simpl in Hrem, Hch'. subst removed.
    set (c1 := match (if bool_decide (LoadingThread.channel_of pr = ch)
                      then LoadingThread.terminal_result pr else None) with
               | Some r => AsyncCommsChannel.deliver r c
               | None => c
               end) in *.
    assert (Hused1 : AsyncCommsChannel.used c1 = true).
    { subst c1. by destruct (if bool_decide _ then _ else _). }
    destruct (IH m1 c1 Hch' Hused1) as (Hl & c' & Hc' & Hu' & Hres & Hcalls).
    destruct (LoadingThread.dispatch_all l m1) as [rest' m2]. simpl in *.
    split.
    + rewrite Hl. by destruct (terminal pr).
    + exists c'. split; [done|]. split; [done|]. rewrite Hres, Hcalls. subst c1.
      unfold results_for. simpl.
      destruct (if bool_decide (LoadingThread.channel_of pr = ch)
                then LoadingThread.terminal_result pr else None) as [r|]; simpl.
      * rewrite <- app_assoc. split; [done|]. lia.
      * done.
Qed.

(** X26: a successful instrument result is retained when it is delivered
    and released when its channel is closed: after a delivery to a channel
    with an empty queue and the closing of that channel, the count of the
    instrument is what it was, and the channel is unused and empty. *)
Theorem delivered_result_released_on_close (pending_result : PendingResult.t)
    (m : LoadingThread.t) (i : InstPtr) (li : ListedInstrument.t) (c : AsyncCommsChannel.t)
    (Hstate : PendingResult.state pending_result
              = PendingResult.CompletedSuccessfully (RefInstrument i))
    (Hchannel : lookup_ptr (LoadingThread.channel_of pending_result) (channels_of m) = Some c)
    (Hused : AsyncCommsChannel.used c = true)
    (Hempty : AsyncCommsChannel.results c = [])
    (Hinst : LoadingThread.deref_instrument i (Server.libraries (LoadingThread.server m))
             = Some li)
    (Hrefs : (0 <= ListedInstrument.refs li < 2 ^ 32)%Z) :
  let delivered := (LoadingThread.dispatch pending_result m).2 in
  let closed :=
    LoadingThread.CloseAsyncCommsChannel (LoadingThread.channel_of pending_result) delivered in
  LoadingThread.deref_instrument i (Server.libraries (LoadingThread.server delivered))
  = Some (ListedInstrument.set_refs (FetchAdd (ListedInstrument.refs li) 1) li)
  /\ LoadingThread.deref_instrument i (Server.libraries (LoadingThread.server closed))
     = Some li
  /\ exists c', lookup_ptr (LoadingThread.channel_of pending_result) (channels_of closed)
                = Some c'
       /\ AsyncCommsChannel.used c' = false /\ AsyncCommsChannel.results c' = [].
Proof.
  set (ch := LoadingThread.channel_of pending_result) in *.
  set (r := {| LoadResult.id := QueuedRequest.id (PendingResult.request pending_result);
               LoadResult.result := LoadResult.Success (RefInstrument i) |}).
  assert (Hterm : LoadingThread.terminal_result pending_result = Some r).
  { unfold LoadingThread.terminal_result. by rewrite Hstate. }
  pose proof (ChangeRefCount_instrument_result Retain
                (QueuedRequest.id (PendingResult.request pending_result)) i li m Hinst)
    as Hret. fold r in Hret.
  assert (Hrel : forall m' li',
            LoadingThread.deref_instrument i (Server.libraries (LoadingThread.server m'))
            = Some li' ->
            LoadingThread.deref_instrument i
              (Server.libraries (LoadingThread.server (LoadingThread.ChangeRefCount Release r m')))
            = Some (ListedInstrument.set_refs
                      (LoadingThread.RefCounted_ChangeRefCount Release
                         (ListedInstrument.refs li')) li')).
  { intros m' li' Hm'. by apply ChangeRefCount_instrument_result. }
  clearbody r.
  assert (Hd : (LoadingThread.dispatch pending_result m).2
               = LoadingThread.update_channel ch (AsyncCommsChannel.deliver r)
                   (LoadingThread.ChangeRefCount Retain r m)).
  { unfold LoadingThread.dispatch. rewrite Hterm. unfold LoadingThread.channel_used.
    fold ch. fold (channels_of m). by rewrite Hchannel, Hused. }
  cbv zeta. rewrite Hd.
  set (m1 := LoadingThread.ChangeRefCount Retain r m) in *.
  assert (Hch1 : lookup_ptr ch (channels_of (LoadingThread.update_channel ch
                                               (AsyncCommsChannel.deliver r) m1))
                 = Some (AsyncCommsChannel.deliver r c)).
  { rewrite update_channel_lookup. unfold channels_of, m1.
    rewrite ChangeRefCount_channels. fold (channels_of m). by rewrite Hchannel. }
  split; [by rewrite update_channel_libraries|].
  unfold LoadingThread.CloseAsyncCommsChannel. fold (channels_of (LoadingThread.update_channel ch
                                               (AsyncCommsChannel.deliver r) m1)).
  rewrite Hch1. cbn [AsyncCommsChannel.results AsyncCommsChannel.deliver].
  rewrite Hempty. cbn [app foldl].
  split.
  - rewrite (Hrel _ (ListedInstrument.set_refs (FetchAdd (ListedInstrument.refs li) 1) li)).
    + f_equal. destruct li as [inst refs set]. unfold ListedInstrument.set_refs.
      simpl in *. f_equal.
      unfold FetchSub, FetchAdd, u32_wrap. rewrite Zminus_mod_idemp_l.
      replace (refs + 1 - 1)%Z with refs by lia. by apply Z.mod_small.
    + by rewrite !update_channel_libraries.
  - exists (AsyncCommsChannel.closed (AsyncCommsChannel.deliver r c)).
    unfold channels_of at 1. rewrite ChangeRefCount_channels.
    fold (channels_of (LoadingThread.update_channel ch AsyncCommsChannel.closed
                         (LoadingThread.update_channel ch (AsyncCommsChannel.deliver r) m1))).
    rewrite update_channel_lookup, Hch1. done.
Qed.

(** ** The instrument cache *)

(** X27: asking for an instrument again returns the listed instrument of
    the first call and lists nothing new: the second call leaves the
    library node as the first left it, and every audio entry keeps its
    address, its key and its count. *)
Theorem FetchOrCreateInstrument_twice (lib_node lib_node' : LibNode.t) (s s' : Store)
    (inst : Instrument.t) (p : ptr)
    (Hfirst : FetchOrCreateInstrument lib_node s inst = Some (p, lib_node', s')) :
  exists s'',
    FetchOrCreateInstrument lib_node' s' inst = Some (p, lib_node', s'')
    /\ dom_of s'' = dom_of s'
    /\ forall a, key_at s'' a = key_at s' a /\ refs_at s'' a = refs_at s' a.
Proof.
  unfold FetchOrCreateInstrument in Hfirst.
  destruct (find_instrument (Instrument.name inst)
              (ListedLibrary.instruments (LibNode.value lib_node))) as [[q i]|] eqn:Hfind.
  - injection Hfirst as <- <- <-.
    unfold FetchOrCreateInstrument. rewrite Hfind.
    eexists. split; [done|]. apply foldl_TriggerReload_frame.
  - destruct (bool_decide _) eqn:Hempty; [done|]. injection Hfirst as <- <- <-.
    unfold FetchOrCreateInstrument. simpl. rewrite bool_decide_eq_true_2 by done.
    eexists. split; [done|]. apply foldl_TriggerReload_frame.
Qed.

(** X28: the audio list stays well formed, with distinct addresses and
    one entry for each pair of library name and path, under every operation
    the loading thread performs on it: fetching or creating an entry or an
    instrument, cancelling the entries of an instrument, and removing the
    unreferenced objects. *)
Theorem audio_store_stays_well_formed (s : Store) (Hwf : store_wf s) :
  (forall lib_name file_path, store_wf (FetchOrCreateAudioData lib_name file_path s).2)
  /\ (forall lib_node inst p lib_node' s',
        FetchOrCreateInstrument lib_node s inst = Some (p, lib_node', s') -> store_wf s')
  /\ (forall audio_data_set s' num_cancelled,
        CancelLoadingAudioForInstrumentIfPossible audio_data_set s = Some (s', num_cancelled) ->
        store_wf s')
  /\ (forall server server' s',
        Collector.RemoveUnreferencedObjects server s = Some (server', s') -> store_wf s').
Proof.
  split; [|split; [|split]].
  - intros lib_name file_path.
    destruct (FetchOrCreateAudioData lib_name file_path s) as [r s'] eqn:Hf.
    by destruct (FetchOrCreateAudioData_frame _ _ _ _ _ Hwf Hf) as [? _].
  - intros lib_node inst p lib_node' s' Hf. by eapply FetchOrCreateInstrument_wf.
  - intros set s' n Hc. by eapply cancel_loop_wf.
  - intros server server' s' Hr.
    destruct (RemoveUnreferencedObjects_steps _ _ _ _ Hr) as (_ & _ & _ & _ & Ha & _).
    unfold Collector.remove_audio in Ha. destruct (forallb _ _); [|done].
    injection Ha as <-.
    pose proof (release_all_wf
                  (audio_of (List.filter instrument_unreferenced
                               (instruments_of (nodes (Server.libraries server))))) s Hwf)
      as [Hp Hk].
    split; simpl; by apply NoDup_map_filter.
Qed.

End CacheProofs.

Section IterationProofs.
Import ScanFolders Accounting JobQueue.

(** ** A whole iteration of the loading thread *)

Section WholeIteration.
Import LoadingThread.
Context `{Platform}.

Lemma remove_orphans_live_elem (s : Server.t) (n : ptr * LibNode.t) :
  n ∈ LibrariesList.live (Server.libraries (Registry.remove_orphans s)) ->
  n ∈ LibrariesList.live (Server.libraries s).
Proof. unfold Registry.remove_orphans. simpl. by intros [? _]%elem_of_filter_bool. Qed.

(** An update that finds no job to handle rebuilds the index over the
    live libraries that are within a scan folder. *)
Lemma UpdateLoadingThread_passed_over (l : list Job) (n : Z) (s : Server.t) :
  Forall (fun j => passed_over j = true) l ->
  registry_unique (Server.libraries s) ->
  exists index,
    Registry.UpdateLoadingThread {| jobs := l; num_uncompleted_jobs := n |} s
    = Some ({| jobs := l; num_uncompleted_jobs := n |},
            Server.with_libraries_by_name index (Registry.remove_orphans s))
    /\ forall name,
         (forall node, node ∈ LibrariesList.live (Server.libraries s) ->
                       library_name_of node <> name) ->
         index !! name = None.
Proof.
  intros Hpassed Huniq. unfold Registry.UpdateLoadingThread.
  cbn [jobs num_uncompleted_jobs]. rewrite (handle_jobs_passed_over l n s Hpassed).
  pose proof (remove_orphans_unique s Huniq) as [Hnames _].
  destruct (rebuild_libraries_by_name_Some
              (LibrariesList.live (Server.libraries (Registry.remove_orphans s))) ∅ Hnames)
    as (index & Hindex & _).
  { apply Forall_forall. intros x _. apply lookup_empty. }
  exists index. rewrite Hindex. split; [done|].
  intros name Hnone. destruct (index !! name) as [p|] eqn:Hp; [|done]. exfalso.
  destruct (rebuild_libraries_by_name_sound _ _ _ Hindex name p Hp)
    as [He | (node & Hnode & Hname & _)].
  - by rewrite lookup_empty in He.
  - apply (Hnone node); [|done]. by apply remove_orphans_live_elem.
Qed.

Lemma request_scanning_length (folders : list (ptr * ScanFolder.t)) :
  length (request_scanning folders) = length folders.
Proof. unfold request_scanning. apply length_map. Qed.

(** After the request loop and the triggering loop every folder's scan is
    under way or over. *)
Lemma triggered_scan_started (folders : list (ptr * ScanFolder.t)) :
  Forall scan_started
         (map (fun n => if rescan_requested n then in_state ScanFolder.Scanning n else n)
              (request_scanning folders)).
Proof.
  apply Forall_forall. intros n Hn. apply elem_of_map_1 in Hn as (n0 & -> & Hn0).
  pose proof (request_scanning_none_left folders) as Hnone.
  rewrite Forall_forall in Hnone. specialize (Hnone n0 Hn0).
  unfold rescan_requested, scan_started, folder_state in *.
  destruct (decide (ScanFolder.state n0.2 = ScanFolder.RescanRequested)) as [Heq|Hne].
  - rewrite bool_decide_eq_true_2 by done. by split.
  - rewrite bool_decide_eq_false_2 by done. by split.
Qed.

Lemma not_scanned_is_requested (folders : list (ptr * ScanFolder.t)) (n : ptr * ScanFolder.t) :
  n ∈ folders -> folder_state n = ScanFolder.NotScanned ->
  0 < length (List.filter rescan_requested (request_scanning folders)).
Proof.
  intros Hn Hstate.
  assert (Hin : in_state ScanFolder.RescanRequested n
                ∈ List.filter rescan_requested (request_scanning folders)).
  { apply elem_of_filter_bool. split; [|done].
    rewrite request_scanning_map.
    apply (elem_of_map_2 (fun n => if decide (folder_state n = ScanFolder.NotScanned)
                                   then in_state ScanFolder.RescanRequested n else n)) in Hn.
    by rewrite decide_True in Hn. }
  destruct (List.filter rescan_requested (request_scanning folders)); [|simpl; lia].
  by apply not_elem_of_nil in Hin.
Qed.

End WholeIteration.

(** X29: a request that names a library nobody has is answered within the
    iteration that takes it from the queue, once scanning is under way or
    over.  With no folder waiting for a scan, no library job outstanding and
    no live library of that name, one iteration of the loading thread
    empties the queue, leaves no pending result, reports the missing
    library to the channel's notifications and delivers exactly one result
    to the channel, the error [NotFound] under the request's id. *)
Theorem unknown_library_answered_in_one_iteration `{Platform}
    (m : LoadingThread.t) (q : QueuedRequest.t) (c : AsyncCommsChannel.t)
    (Hqueue : Server.request_queue (LoadingThread.server m) = [q])
    (Hpending : LoadingThread.pending_results m = [])
    (Hjobs : LoadingThread.libs_async_ctx m = {| jobs := []; num_uncompleted_jobs := 0 |})
    (Hscanned : Forall scan_started (Server.scan_folders (LoadingThread.server m)))
    (Hunique : registry_unique (Server.libraries (LoadingThread.server m)))
    (Hchannel : lookup_ptr (QueuedRequest.async_comms_channel q) (channels_of m) = Some c)
    (Hused : AsyncCommsChannel.used c = true)
    (Hnamed : LoadingThread.request_library_name (QueuedRequest.request q) <> EmptyString)
    (Hunknown : forall node,
        node ∈ LibrariesList.live (Server.libraries (LoadingThread.server m)) ->
        library_name_of node
        <> LoadingThread.request_library_name (QueuedRequest.request q)) :
  let name := LoadingThread.request_library_name (QueuedRequest.request q) in
  let result := {| LoadResult.id := QueuedRequest.id q;
                   LoadResult.result := LoadResult.Error NotFound |} in
  exists m',
    loop_iteration_unwatched m = Some m'
    /\ Server.request_queue (LoadingThread.server m') = []
    /\ LoadingThread.pending_results m' = []
    /\ lookup_ptr (QueuedRequest.async_comms_channel q) (channels_of m')
       = Some (AsyncCommsChannel.deliver result
                 (AsyncCommsChannel.notify (LoadingThread.library_not_found_item name) c)).
Proof.
  intros name result. unfold loop_iteration_unwatched, LoadingThread.consume_requests.
  rewrite Hqueue. cbn [foldl].
  assert (Hused0 : LoadingThread.channel_used (QueuedRequest.async_comms_channel q)
                     (LoadingThread.server
                        (LoadingThread.with_server
                           (Server.with_request_queue [] (LoadingThread.server m)) m)) = true).
  { unfold LoadingThread.channel_used. simpl. fold (channels_of m). by rewrite Hchannel. }
  unfold LoadingThread.consume_request. rewrite Hused0. cbn [negb].
  cbn [LoadingThread.server LoadingThread.libs_async_ctx LoadingThread.audio
       LoadingThread.pending_results LoadingThread.debug_result_id
       LoadingThread.with_server].
  rewrite Hjobs, Hpending.
  set (server1 := Server.with_scan_folders _ _).
  assert (Huniq1 : registry_unique (Server.libraries server1)) by exact Hunique.
  assert (Hfolders1 : Forall scan_started (Server.scan_folders server1)).
  { subst server1. cbn [Server.scan_folders Server.with_scan_folders].
    rewrite request_scanning_stable; [exact Hscanned|].
    eapply Forall_impl; [exact Hscanned|]. by intros n [? _]. }
  unfold UpdateLoadingThread_unwatched. rewrite (trigger_scans_idle _ server1 Hfolders1).
  destruct (UpdateLoadingThread_passed_over [] 0 server1 ltac:(constructor) Huniq1)
    as (index & -> & Hindex).
  assert (Hnone : index !! name = None) by (apply Hindex; exact Hunknown).
  set (pr0 := {| PendingResult.state := PendingResult.AwaitingLibrary;
                 PendingResult.request := q;
                 PendingResult.debug_id := LoadingThread.debug_result_id m |}).
  set (m2 := {| LoadingThread.server := _; LoadingThread.libs_async_ctx := _;
                LoadingThread.audio := _; LoadingThread.pending_results := [pr0];
                LoadingThread.debug_result_id := _ |}).
  assert (Hch2 : lookup_ptr (QueuedRequest.async_comms_channel q) (channels_of m2) = Some c).
  { exact Hchannel. }
  set (pr1 := PendingResult.with_state (PendingResult.Failed NotFound) pr0).
  set (m3 := LoadingThread.update_channel (QueuedRequest.async_comms_channel q)
               (AsyncCommsChannel.notify (LoadingThread.library_not_found_item name)) m2).
  assert (Hfill : LoadingThread.fill_in_library pr0 m2 = Some (pr1, m3)).
  { unfold LoadingThread.fill_in_library. cbn [PendingResult.state pr0 PendingResult.request].
    fold name. rewrite bool_decide_eq_false_2 by exact Hnamed.
    change (Server.libraries_by_name (LoadingThread.server m2)) with index.
    rewrite Hnone. done. }
  unfold LoadingThread.process_pending_results.
  rewrite bool_decide_eq_false_2 by done.
  assert (Hp1 : LoadingThread.run_pass LoadingThread.fill_in_library m2
                = Some (LoadingThread.with_pending_results [pr1] m3)).
  { unfold LoadingThread.run_pass. cbn [LoadingThread.pending_results m2].
    cbn [LoadingThread.for_each_pending]. by rewrite Hfill. }
  rewrite Hp1. cbn [mbind option_bind].
  set (m4 := LoadingThread.with_pending_results [pr1] m3).
  assert (Hskip : forall body,
            (forall x, body pr1 x = Some (pr1, x)) ->
            LoadingThread.run_pass body m4 = Some m4).
  { intros body Hbody. unfold LoadingThread.run_pass.
    change (LoadingThread.pending_results m4) with [pr1].
    cbn [LoadingThread.for_each_pending]. by rewrite Hbody. }
  rewrite (Hskip LoadingThread.check_for_errors) by done. cbn [mbind option_bind].
  rewrite (Hskip LoadingThread.check_still_needed) by done. cbn [mbind option_bind].
  rewrite (Hskip LoadingThread.store_ir_result) by done. cbn [mbind option_bind].
  change (LoadingThread.pending_results m4) with [pr1].
  assert (Hch4 : lookup_ptr (QueuedRequest.async_comms_channel q) (channels_of m4)
                 = Some (AsyncCommsChannel.notify
                           (LoadingThread.library_not_found_item name) c)).
  { change (channels_of m4) with (channels_of m3). unfold m3.
    by rewrite update_channel_lookup, Hch2. }
  assert (Hterm : LoadingThread.terminal_result pr1 = Some result) by done.
  assert (Hd : LoadingThread.dispatch pr1 m4
               = (true, LoadingThread.update_channel (QueuedRequest.async_comms_channel q)
                          (AsyncCommsChannel.deliver result) m4)).
  { unfold LoadingThread.dispatch. rewrite Hterm. unfold LoadingThread.channel_used.
    change (LoadingThread.channel_of pr1) with (QueuedRequest.async_comms_channel q).
    fold (channels_of m4). rewrite Hch4. cbn [AsyncCommsChannel.used AsyncCommsChannel.notify].
    by rewrite Hused. }
  cbn [LoadingThread.dispatch_all]. rewrite Hd.
  eexists. split; [reflexivity|]. split; [done|]. split; [done|].
  change (channels_of (LoadingThread.with_pending_results [] ?x)) with (channels_of x).
  by rewrite update_channel_lookup, Hch4.
Qed.

(** X30: a request that arrives while a folder has not been scanned yet is
    not answered with [NotFound]: the iteration that takes it from the queue
    starts a scan of every folder that was waiting for one, counts the scan
    jobs, and leaves the request pending in [AwaitingLibrary], with nothing
    delivered to its channel. *)
Theorem first_request_waits_for_scan `{Platform}
    (m : LoadingThread.t) (q : QueuedRequest.t) (c : AsyncCommsChannel.t)
    (folder : ptr * ScanFolder.t)
    (Hqueue : Server.request_queue (LoadingThread.server m) = [q])
    (Hpending : LoadingThread.pending_results m = [])
    (Hjobs : LoadingThread.libs_async_ctx m = {| jobs := []; num_uncompleted_jobs := 0 |})
    (Hfolder : folder ∈ Server.scan_folders (LoadingThread.server m))
    (Hnot_scanned : folder_state folder = ScanFolder.NotScanned)
    (Hroom : (Z.of_nat (length (Server.scan_folders (LoadingThread.server m))) < 2 ^ 32)%Z)
    (Hunique : registry_unique (Server.libraries (LoadingThread.server m)))
    (Hchannel : lookup_ptr (QueuedRequest.async_comms_channel q) (channels_of m) = Some c)
    (Hused : AsyncCommsChannel.used c = true)
    (Hnamed : LoadingThread.request_library_name (QueuedRequest.request q) <> EmptyString)
    (Hunknown : forall node,
        node ∈ LibrariesList.live (Server.libraries (LoadingThread.server m)) ->
        library_name_of node
        <> LoadingThread.request_library_name (QueuedRequest.request q)) :
  exists m',
    loop_iteration_unwatched m = Some m'
    /\ LoadingThread.pending_results m'
       = [{| PendingResult.state := PendingResult.AwaitingLibrary;
             PendingResult.request := q;
             PendingResult.debug_id := LoadingThread.debug_result_id m |}]
    /\ channels_of m' = channels_of m
    /\ Forall scan_started (Server.scan_folders (LoadingThread.server m'))
    /\ (0 < num_uncompleted_jobs (LoadingThread.libs_async_ctx m'))%Z
    /\ num_uncompleted_jobs (LoadingThread.libs_async_ctx m')
       = Z.of_nat (length (jobs (LoadingThread.libs_async_ctx m')))
    /\ Forall (fun j => completed j = false) (jobs (LoadingThread.libs_async_ctx m')).
Proof.
  unfold loop_iteration_unwatched, LoadingThread.consume_requests.
  rewrite Hqueue. cbn [foldl].
  assert (Hused0 : LoadingThread.channel_used (QueuedRequest.async_comms_channel q)
                     (LoadingThread.server
                        (LoadingThread.with_server
                           (Server.with_request_queue [] (LoadingThread.server m)) m)) = true).
  { unfold LoadingThread.channel_used. simpl. fold (channels_of m). by rewrite Hchannel. }
  unfold LoadingThread.consume_request. rewrite Hused0. cbn [negb].
  cbn [LoadingThread.server LoadingThread.libs_async_ctx LoadingThread.audio
       LoadingThread.pending_results LoadingThread.debug_result_id
       LoadingThread.with_server].
  rewrite Hjobs, Hpending.
  set (folders := Server.scan_folders (LoadingThread.server m)) in *.
  set (server1 := Server.with_scan_folders _ _).
  set (ctx0 := {| jobs := []; num_uncompleted_jobs := 0 |}).
  set (requested := List.filter rescan_requested (LoadingThread.request_scanning folders)).
  assert (Hreq_pos : 0 < length requested) by by eapply not_scanned_is_requested.
  assert (Hreq_le : length requested <= length folders).
  { unfold requested. etransitivity; [apply List.filter_length_le|].
    by rewrite request_scanning_length. }
  destruct (trigger_scans_spec ctx0 server1) as (Hserver2 & Hjobs1 & Hcounted).
  change (Server.scan_folders server1) with (LoadingThread.request_scanning folders)
    in Hserver2, Hjobs1, Hcounted.
  fold requested in Hjobs1, Hcounted.
  destruct Hcounted as [Hcount _].
  { split; [reflexivity|]. simpl. lia. }
  { simpl. lia. }
  unfold UpdateLoadingThread_unwatched.
  destruct (trigger_scans ctx0 server1) as [ctx1 server2]. cbn [fst snd] in *.
  simpl in Hjobs1. rewrite app_nil_r in Hjobs1.
  destruct ctx1 as [jobs1 n1]. cbn [jobs num_uncompleted_jobs] in *. subst jobs1.
  assert (Hunhandled : unhandled (rev (map scan_job requested)) = rev (map scan_job requested)).
  { apply filter_all. intros j Hj. apply list_elem_of_In, in_rev, in_map_iff in Hj.
    by destruct Hj as (n & <- & _). }
  rewrite Hunhandled, length_rev, length_map in Hcount.
  assert (Huniq2 : registry_unique (Server.libraries server2)) by (by subst server2).
  destruct (UpdateLoadingThread_passed_over (rev (map scan_job requested)) n1 server2
              (scan_jobs_passed_over requested) Huniq2) as (index & -> & Hindex).
  set (name := LoadingThread.request_library_name (QueuedRequest.request q)) in *.
  assert (Hnone : index !! name = None).
  { apply Hindex. subst server2. exact Hunknown. }
  set (pr0 := {| PendingResult.state := PendingResult.AwaitingLibrary;
                 PendingResult.request := q;
                 PendingResult.debug_id := LoadingThread.debug_result_id m |}).
  set (m2 := {| LoadingThread.server := _; LoadingThread.libs_async_ctx := _;
                LoadingThread.audio := _; LoadingThread.pending_results := [pr0];
                LoadingThread.debug_result_id := _ |}).
  assert (Hfill : LoadingThread.fill_in_library pr0 m2 = Some (pr0, m2)).
  { unfold LoadingThread.fill_in_library. cbn [PendingResult.state pr0 PendingResult.request].
    fold name. rewrite bool_decide_eq_false_2 by exact Hnamed.
    change (Server.libraries_by_name (LoadingThread.server m2)) with index.
    rewrite Hnone.
    change (num_uncompleted_jobs (LoadingThread.libs_async_ctx m2)) with n1.
    rewrite decide_False by lia. done. }
  assert (Hskip : forall body,
            (body pr0 m2 = Some (pr0, m2)) ->
            LoadingThread.run_pass body m2 = Some m2).
  { intros body Hbody. unfold LoadingThread.run_pass.
    change (LoadingThread.pending_results m2) with [pr0].
    cbn [LoadingThread.for_each_pending]. by rewrite Hbody. }
  unfold LoadingThread.process_pending_results.
  rewrite bool_decide_eq_false_2 by done.
  rewrite (Hskip LoadingThread.fill_in_library Hfill). cbn [mbind option_bind].
  (* the request is in no state the later passes act on, and has no result
     to dispatch *)
  exists m2. split; [reflexivity|]. split; [done|]. split.
  { unfold channels_of. cbn [LoadingThread.server LoadingThread.with_pending_results m2].
    subst server2. done. }
  split.
  { cbn [LoadingThread.server LoadingThread.with_pending_results m2].
    subst server2. cbn [Server.scan_folders Server.with_libraries_by_name
                        Registry.remove_orphans Server.with_libraries Server.with_scan_folders].
    apply triggered_scan_started. }
  cbn [LoadingThread.libs_async_ctx LoadingThread.with_pending_results m2 jobs
       num_uncompleted_jobs].
  split; [lia|]. split.
  - by rewrite length_rev, length_map.
  - apply Forall_forall. intros j Hj. apply list_elem_of_In, in_rev, in_map_iff in Hj.
    by destruct Hj as (n & <- & _).
Qed.

(** ** An index that an early return has left behind *)

Section StaleIndex.
Import Examples Scenarios.
#[local] Existing Instance example_platform.

(** C6 (what the code does): a request for a library that is registered
  is answered with [NotFound].  The update handles the read job that
  registers "Lib" and then the read job that found its hash registered,
  on which it returns before the by-name index is rebuilt, with both jobs
  counted down.  The request for "Lib", taken up by the same iteration,
  finds no such name in the index and no job outstanding. *)
Theorem registered_library_answered_NotFound :
exists m',
  loop_iteration_unwatched stale_index_thread = Some m'
  /\ (exists node, node ∈ LibrariesList.live (Server.libraries (LoadingThread.server m'))
                   /\ library_name_of node = "Lib")
  /\ Server.libraries_by_name (LoadingThread.server m') !! "Lib" = None
  /\ num_uncompleted_jobs (LoadingThread.libs_async_ctx m') = 0%Z
  /\ LoadingThread.pending_results m' = []
  /\ (AsyncCommsChannel.results <$> lookup_ptr 1 (channels_of m'))
     = Some [{| LoadResult.id := 1; LoadResult.result := LoadResult.Error NotFound |}].
Proof.
destruct (loop_iteration_unwatched stale_index_thread) as [m'|] eqn:Hiter;
  [|exfalso; vm_compute in Hiter; discriminate].
exists m'. split; [reflexivity|].
vm_compute in Hiter. injection Hiter as <-.
split; [|repeat split; vm_compute; reflexivity].
eexists. split; [left|reflexivity].
Qed.

End StaleIndex.

End IterationProofs.

Section SupersessionProofs.
Import ScanFolders Accounting JobQueue.

(** ** What a channel desires on a layer *)

Section DesiredSlot.
Import LoadingThread.
Context `{Platform}.

Lemma desired_slot_update ch ch' layer f m :
  (ch' = ch -> forall c, AsyncCommsChannel.desired_inst (f c) !! layer
                         = AsyncCommsChannel.desired_inst c !! layer) ->
  desired_slot ch layer (update_channel ch' f m) = desired_slot ch layer m.
Proof.
  intros Hf. unfold desired_slot, channels_of, update_channel. simpl.
  destruct (decide (ch' = ch)) as [->|Hne].
  - rewrite lookup_ptr_update_eq.
    destruct (lookup_ptr ch (Server.channels (server m))) as [c|]; [|done]. simpl.
    by apply Hf.
  - by rewrite lookup_ptr_update_ne.
Qed.

Lemma desired_slot_same_channels ch layer m m' :
  channels_of m' = channels_of m -> desired_slot ch layer m' = desired_slot ch layer m.
Proof. unfold desired_slot. by intros ->. Qed.

Lemma desired_slot_store_loading_percent ch layer pr v m :
  desired_slot ch layer (store_loading_percent pr v m) = desired_slot ch layer m.
Proof.
  unfold store_loading_percent. destruct (LayerIndex pr); [|done].
  by apply desired_slot_update.
Qed.

Lemma desired_slot_set ch layer i m c :
  lookup_ptr ch (channels_of m) = Some c ->
  layer < length (AsyncCommsChannel.desired_inst c) ->
  desired_slot ch layer (update_channel ch (AsyncCommsChannel.set_desired layer i) m)
  = Some (Some i).
Proof.
  unfold desired_slot, channels_of, update_channel. simpl. intros Hc Hlen.
  rewrite lookup_ptr_update_eq, Hc. simpl. by apply list_lookup_insert_eq.
Qed.

(** [IsDesired] reads the slot of the request's channel and layer. *)
Lemma IsDesired_slot pr i m layer :
  LayerIndex pr = Some layer ->
  IsDesired pr i m = bool_decide (desired_slot (channel_of pr) layer m = Some (Some i)).
Proof.
  intros Hlayer. unfold IsDesired, desired_slot, channels_of. rewrite Hlayer.
  by destruct (lookup_ptr (channel_of pr) (Server.channels (server m))).
Qed.

Lemma IsDesired_no_layer pr i m : LayerIndex pr = None -> IsDesired pr i m = false.
Proof. unfold IsDesired. by intros ->. Qed.

(** Of the passes over the pending results, only resolving the library
    of a request for the channel and layer writes the slot. *)
Lemma fill_in_library_slot ch layer pr m pr' m' :
  fill_in_library pr m = Some (pr', m') ->
  ~ unresolved_for ch layer pr ->
  desired_slot ch layer m' = desired_slot ch layer m.
Proof.
  unfold fill_in_library, unresolved_for, channel_of, LayerIndex.
  destruct (PendingResult.state pr) eqn:Hstate; try (by intros [= _ <-]).
  case_bool_decide; [done|].
  destruct (Server.libraries_by_name (server m) !! _) as [lib|].
  - destruct (LibrariesList.deref lib _) as [lib_node|]; [|done].
    destruct (QueuedRequest.request (PendingResult.request pr))
      as [lname inst_name layer_index|lname ir_name].
    + case_bool_decide; [done|].
      destruct (Library.insts_by_name _ !! inst_name) as [i|].
      * destruct (FetchOrCreateInstrument _ _ _) as [[[inst node'] audio']|]; [|done].
        intros [= _ <-] Hother.
        rewrite desired_slot_update.
        -- etransitivity; [apply desired_slot_same_channels; reflexivity|].
           by apply desired_slot_update.
        -- intros Hch c. simpl. apply list_lookup_insert_ne. intros ->.
           by apply Hother.
      * intros [= _ <-] _. by apply desired_slot_update.
    + destruct (Library.irs_by_name _ !! ir_name) as [ir|].
      * destruct (FetchOrCreateAudioData _ _ _) as [a audio']. by intros [= _ <-].
      * intros [= _ <-] _. by apply desired_slot_update.
  - destruct (decide _); intros [= _ <-] _; [|done]. by apply desired_slot_update.
Qed.

Lemma check_for_errors_slot ch layer pr m pr' m' :
  check_for_errors pr m = Some (pr', m') ->
  desired_slot ch layer m' = desired_slot ch layer m.
Proof.
  unfold check_for_errors.
  destruct (PendingResult.state pr) as [|[i|a]| | |]; try (by intros [= _ <-]).
  destruct (deref_instrument i _) as [li|]; [|done].
  case_bool_decide; [done|].
  destruct (first_error _ m) as [error|]; [|by intros [= _ <-]].
  destruct (CancelLoadingAudioForInstrumentIfPossible _ _) as [[audio' n]|]; [|done].
  intros [= _ <-].
  destruct (IsDesired _ _ _).
  - rewrite desired_slot_store_loading_percent.
    etransitivity; [apply desired_slot_same_channels; reflexivity|].
    by apply desired_slot_update.
  - etransitivity; [apply desired_slot_same_channels; reflexivity|].
    by apply desired_slot_update.
Qed.

Lemma check_still_needed_slot ch layer pr m pr' m' :
  check_still_needed pr m = Some (pr', m') ->
  desired_slot ch layer m' = desired_slot ch layer m.
Proof.
  unfold check_still_needed.
  destruct (PendingResult.state pr) as [|[i|a]| | |]; try (by intros [= _ <-]).
  destruct (deref_instrument i _) as [li|]; [|done].
  destruct (IsDesired pr i m).
  - destruct (decide _); intros [= _ <-]; apply desired_slot_store_loading_percent.
  - destruct (is_desired_by_another i m); [by intros [= _ <-]|].
    destruct (CancelLoadingAudioForInstrumentIfPossible _ _) as [[audio' n]|]; [|done].
    by intros [= _ <-].
Qed.

Lemma store_ir_result_slot ch layer pr m pr' m' :
  store_ir_result pr m = Some (pr', m') ->
  desired_slot ch layer m' = desired_slot ch layer m.
Proof.
  unfold store_ir_result.
  destruct (PendingResult.state pr) as [|[i|a]| | |]; try (by intros [= _ <-]).
  destruct (lookup_ptr a _) as [ir_data|]; [|done].
  destruct (AudioStore.state ir_data); try done; try (by intros [= _ <-]).
  destruct (AudioStore.error ir_data) as [e|]; [|done].
  destruct (QueuedRequest.request (PendingResult.request pr)); [done|].
  intros [= _ <-]. by apply desired_slot_update.
Qed.

Lemma dispatch_slot ch layer pr m :
  desired_slot ch layer (dispatch pr m).2 = desired_slot ch layer m.
Proof.
  unfold dispatch. destruct (terminal_result pr) as [result|]; [|done].
  destruct (channel_used _ _); [|done]. simpl.
  rewrite desired_slot_update by done.
  apply desired_slot_same_channels. unfold channels_of. apply ChangeRefCount_channels.
Qed.

Lemma dispatch_all_slot ch layer l m :
  desired_slot ch layer (dispatch_all l m).2 = desired_slot ch layer m.
Proof.
  revert m. induction l as [|pr l IH]; intros m; [done|]. simpl.
  pose proof (dispatch_slot ch layer pr m) as Hd.
  destruct (dispatch pr m) as [removed m1]. simpl in Hd.
  specialize (IH m1). destruct (dispatch_all l m1) as [rest m2]. simpl in *.
  congruence.
Qed.

(** A pass over the pending results, for a body that keeps the slot on
    the results that satisfy [P]. *)
Lemma for_each_pending_slot ch layer (P : PendingResult.t -> Prop) body l m l' m' :
  (forall pr x pr' x', body pr x = Some (pr', x') -> P pr ->
                       desired_slot ch layer x' = desired_slot ch layer x) ->
  Forall P l ->
  for_each_pending body l m = Some (l', m') ->
  desired_slot ch layer m' = desired_slot ch layer m.
Proof.
  intros Hbody. revert m l' m'. induction l as [|pr l IH]; intros m l' m' Hall; simpl.
  - by intros [= _ <-].
  - apply Forall_cons in Hall as [Hpr Hall].
    destruct (body pr m) as [[pr1 m1]|] eqn:Hb; [|done].
    destruct (for_each_pending body l m1) as [[rest m2]|] eqn:Hrest; [|done].
    intros [= _ <-]. rewrite (IH _ _ _ Hall Hrest). by eapply Hbody.
Qed.

Lemma run_pass_slot ch layer (P : PendingResult.t -> Prop) body m m' :
  (forall pr x pr' x', body pr x = Some (pr', x') -> P pr ->
                       desired_slot ch layer x' = desired_slot ch layer x) ->
  Forall P (pending_results m) ->
  run_pass body m = Some m' ->
  desired_slot ch layer m' = desired_slot ch layer m.
Proof.
  intros Hbody Hall. unfold run_pass.
  destruct (for_each_pending body (pending_results m) m) as [[l x]|] eqn:Hf; [|done].
  intros [= <-]. by apply (for_each_pending_slot ch layer P body _ _ _ _ Hbody Hall Hf).
Qed.

Lemma process_pending_results_slot ch layer m m' :
  process_pending_results m = Some m' ->
  Forall (fun pr => ~ unresolved_for ch layer pr) (pending_results m) ->
  desired_slot ch layer m' = desired_slot ch layer m.
Proof.
  unfold process_pending_results. case_bool_decide; [by intros [= <-]|].
  destruct (run_pass fill_in_library m) as [m1|] eqn:H1; [|done]. simpl.
  destruct (run_pass check_for_errors m1) as [m2|] eqn:H2; [|done]. simpl.
  destruct (run_pass check_still_needed m2) as [m3|] eqn:H3; [|done]. simpl.
  destruct (run_pass store_ir_result m3) as [m4|] eqn:H4; [|done]. simpl.
  pose proof (dispatch_all_slot ch layer (pending_results m4) m4) as Hd.
  destruct (dispatch_all (pending_results m4) m4) as [l m5]. simpl in Hd.
  intros [= <-] Hall.
  assert (Htrue : forall x : LoadingThread.t, Forall (fun _ => True) (pending_results x)).
  { intros x. by apply Forall_forall. }
  transitivity (desired_slot ch layer m5); [done|]. rewrite Hd.
  rewrite (run_pass_slot ch layer (fun _ => True) _ _ _
             (fun pr x pr' x' Hb _ => store_ir_result_slot ch layer pr x pr' x' Hb)
             (Htrue m3) H4).
  rewrite (run_pass_slot ch layer (fun _ => True) _ _ _
             (fun pr x pr' x' Hb _ => check_still_needed_slot ch layer pr x pr' x' Hb)
             (Htrue m2) H3).
  rewrite (run_pass_slot ch layer (fun _ => True) _ _ _
             (fun pr x pr' x' Hb _ => check_for_errors_slot ch layer pr x pr' x' Hb)
             (Htrue m1) H2).
  exact (run_pass_slot ch layer _ _ _ _ (fill_in_library_slot ch layer) Hall H1).
Qed.

(** The requests that the loop pops become unresolved pending results. *)
Lemma consume_loop_unresolved ch layer (l : list QueuedRequest.t) (m : t) :
  Forall (fun q => ~ requests_layer ch layer q) l ->
  Forall (fun pr => ~ unresolved_for ch layer pr) (pending_results m) ->
  Forall (fun pr => ~ unresolved_for ch layer pr)
         (pending_results (foldl (fun m q => consume_request q m) m l)).
Proof.
  revert m. induction l as [|q l IH]; intros m Hq Hp; [done|]. cbn [foldl].
  apply Forall_cons in Hq as [Hq Hl]. apply IH; [done|].
  unfold consume_request. destruct (negb _); [done|]. simpl.
  apply Forall_cons. split; [|done].
  intros (_ & Hch & Hlayer). apply Hq. unfold requests_layer.
  unfold channel_of, LayerIndex in *. simpl in *. split; [done|].
  destruct (QueuedRequest.request q); [|done]. congruence.
Qed.

(** An iteration of the loop that neither pops a request for the channel
    and layer nor has one waiting for its library leaves the slot as it
    is. *)
Lemma loop_iteration_unwatched_slot ch layer m m' :
  loop_iteration_unwatched m = Some m' ->
  Forall (fun q => ~ requests_layer ch layer q) (Server.request_queue (server m)) ->
  Forall (fun pr => ~ unresolved_for ch layer pr) (pending_results m) ->
  desired_slot ch layer m' = desired_slot ch layer m.
Proof.
  unfold loop_iteration_unwatched, UpdateLoadingThread_unwatched.
  intros Hiter Hqueue Hpending.
  pose proof (consume_loop_unresolved ch layer (Server.request_queue (server m))
                (with_server (Server.with_request_queue [] (server m)) m) Hqueue Hpending)
    as Hconsumed.
  fold (consume_requests m) in Hconsumed.
  pose proof (consume_requests_channels m) as Hch.
  destruct (trigger_scans_libraries (libs_async_ctx (consume_requests m))
              (server (consume_requests m))) as (_ & _ & Htrig).
  destruct (trigger_scans (libs_async_ctx (consume_requests m))
              (server (consume_requests m))) as [async_ctx1 server1].
  simpl in Htrig.
  destruct (Registry.UpdateLoadingThread async_ctx1 server1)
    as [[async_ctx' server']|] eqn:Hupdate; [|done].
  apply UpdateLoadingThread_channels in Hupdate.
  rewrite (process_pending_results_slot ch layer _ _ Hiter) by exact Hconsumed.
  apply desired_slot_same_channels. unfold channels_of in *. simpl. congruence.
Qed.

End DesiredSlot.

(** ** Resolution, success and supersession of an instrument request *)

Section Supersession.
Import LoadingThread.
Context `{Platform}.

(** Resolving the library of a request: the instrument is fetched or
    created and becomes the one the channel desires on the request's
    layer. *)
Lemma fill_in_library_resolves pr m lib_name inst_name layer lib lib_node inst c
    p lib_node' s' :
  PendingResult.state pr = PendingResult.AwaitingLibrary ->
  QueuedRequest.request (PendingResult.request pr)
  = LoadRequestInstrumentIdWithLayer lib_name inst_name layer ->
  lib_name <> EmptyString -> inst_name <> EmptyString ->
  Server.libraries_by_name (server m) !! lib_name = Some lib ->
  LibrariesList.deref lib (Server.libraries (server m)) = Some lib_node ->
  Library.insts_by_name (ListedLibrary.lib (LibNode.value lib_node)) !! inst_name = Some inst ->
  FetchOrCreateInstrument lib_node (audio m) inst = Some (p, lib_node', s') ->
  lookup_ptr (channel_of pr) (channels_of m) = Some c ->
  layer < length (AsyncCommsChannel.desired_inst c) ->
  exists m',
    fill_in_library pr m
    = Some (PendingResult.with_state
              (PendingResult.AwaitingAudio (PendingResult.AssetInstrument (lib, p))) pr, m')
    /\ desired_slot (channel_of pr) layer m' = Some (Some (lib, p))
    /\ audio m' = s'
    /\ LibrariesList.deref lib (Server.libraries (server m')) = Some lib_node'.
Proof.
  intros Hstate Hrequest Hlib_name Hinst_name Hindex Hderef Hinst Hfetch Hc Hlayer.
  unfold fill_in_library. rewrite Hstate, Hrequest. cbn [request_library_name].
  rewrite (bool_decide_eq_false_2 (lib_name = EmptyString)) by done.
  rewrite Hindex, Hderef.
  rewrite (bool_decide_eq_false_2 (inst_name = EmptyString)) by done.
  rewrite Hinst. cbn [audio update_channel with_server]. rewrite Hfetch.
  eexists. split; [reflexivity|].
  set (m2 := with_audio s' _).
  assert (Hc2 : exists c2, lookup_ptr (channel_of pr) (channels_of m2) = Some c2
                           /\ AsyncCommsChannel.desired_inst c2
                              = AsyncCommsChannel.desired_inst c).
  { exists (AsyncCommsChannel.store_percent layer 0 c). split; [|done].
    unfold m2, channels_of, channel_of. simpl.
    unfold channels_of, channel_of in Hc. by rewrite lookup_ptr_update_eq, Hc. }
  destruct Hc2 as (c2 & Hc2 & Hdesired).
  split; [|split; [done|]].
  - apply (desired_slot_set _ _ _ _ c2); [exact Hc2|]. by rewrite Hdesired.
  - unfold LibrariesList.deref, LibrariesList.update. simpl.
    rewrite <- update_ptr_app, lookup_ptr_update_eq.
    unfold LibrariesList.deref in Hderef. by rewrite Hderef.
Qed.

Lemma first_error_no_error set m :
  Forall (fun a => state_at (audio m) a <> Some CompletedWithError) set ->
  first_error set m = None.
Proof.
  induction 1 as [|a set Ha _ IH]; simpl; [done|]. unfold state_at in Ha.
  destruct (lookup_ptr a (audio_datas (audio m))) as [d|]; [|done].
  simpl in Ha. rewrite decide_False by congruence. done.
Qed.

(** The cancellation fails no assertion when every entry of the set is
    referenced. *)
Lemma cancel_loop_total (set : list ptr) (s : Store) (n : nat) :
  Forall (fun a => exists r, refs_at s a = Some r /\ r <> 0%Z) set ->
  exists s' n', cancel_loop set (s, n) = Some (s', n').
Proof.
  revert s n. induction set as [|a set IH]; intros s n Hall; [by eexists _, _|].
  apply Forall_cons in Hall as [(r & Hr & Hnz) Hall].
  cbn [cancel_loop]. unfold cancel_one. unfold refs_at in Hr.
  destruct (lookup_ptr a (audio_datas s)) as [d|] eqn:Hd; [|done].
  simpl in Hr. injection Hr as Hr. rewrite decide_False by congruence.
  destruct (decide (refs d = 1%Z)) as [_|_]; [|by apply IH].
  destruct (CompareExchangeStrong (state d) PendingLoad PendingCancel) as [[ok cell] ex].
  apply IH. eapply Forall_impl; [exact Hall|]. intros b (rb & Hb & Hbnz).
  exists rb. split; [|done]. unfold refs_at in *. simpl.
  destruct (decide (a = b)) as [->|Hne].
  - rewrite lookup_ptr_update_eq. by destruct (lookup_ptr b (audio_datas s)).
  - by rewrite lookup_ptr_update_ne.
Qed.

(** A request whose channel desires its instrument on its layer succeeds
    once every entry of the instrument's set has decoded. *)
Lemma desired_instrument_succeeds (li : ListedInstrument.t) (m : t) (pr : PendingResult.t)
    (i : InstPtr) (layer : nat) :
  ListedInstrument.audio_data_set li <> [] ->
  PendingResult.state pr = PendingResult.AwaitingAudio (PendingResult.AssetInstrument i) ->
  LayerIndex pr = Some layer ->
  deref_instrument i (Server.libraries (server m)) = Some li ->
  desired_slot (channel_of pr) layer m = Some (Some i) ->
  Forall (fun a => state_at (audio m) a = Some CompletedSucessfully)
         (ListedInstrument.audio_data_set li) ->
  check_for_errors pr m = Some (pr, m)
  /\ check_still_needed pr m
     = Some (PendingResult.with_state (PendingResult.CompletedSuccessfully (RefInstrument i)) pr,
             store_loading_percent pr (-1) m)
  /\ terminal_result
       (PendingResult.with_state (PendingResult.CompletedSuccessfully (RefInstrument i)) pr)
     = Some {| LoadResult.id := QueuedRequest.id (PendingResult.request pr);
               LoadResult.result := LoadResult.Success (RefInstrument i) |}.
Proof.
  intros Hset Hstate Hlayer Hderef Hslot Hall.
  apply (desired_and_decoded_succeeds li m pr i Hset Hstate Hderef); [|exact Hall].
  rewrite (IsDesired_slot pr i m layer Hlayer). by apply bool_decide_eq_true_2.
Qed.

(** A request whose channel desires another instrument on its layer, or
    none, ends as cancelled. *)
Lemma superseded_instrument_is_cancelled (li : ListedInstrument.t) (m : t)
    (pr : PendingResult.t) (i : InstPtr) (layer : nat) :
  ListedInstrument.audio_data_set li <> [] ->
  PendingResult.state pr = PendingResult.AwaitingAudio (PendingResult.AssetInstrument i) ->
  LayerIndex pr = Some layer ->
  deref_instrument i (Server.libraries (server m)) = Some li ->
  desired_slot (channel_of pr) layer m <> Some (Some i) ->
  Forall (fun a => state_at (audio m) a <> Some CompletedWithError)
         (ListedInstrument.audio_data_set li) ->
  Forall (fun a => exists r, refs_at (audio m) a = Some r /\ r <> 0%Z)
         (ListedInstrument.audio_data_set li) ->
  check_for_errors pr m = Some (pr, m)
  /\ (exists m',
        check_still_needed pr m
        = Some (PendingResult.with_state PendingResult.Cancelled pr, m')
        /\ channels_of m' = channels_of m
        /\ Server.libraries (server m') = Server.libraries (server m))
  /\ terminal_result (PendingResult.with_state PendingResult.Cancelled pr)
     = Some {| LoadResult.id := QueuedRequest.id (PendingResult.request pr);
               LoadResult.result := LoadResult.Cancelled |}.
Proof.
  intros Hset Hstate Hlayer Hderef Hslot Hok Hrefs. split; [|split; [|done]].
  - unfold check_for_errors. rewrite Hstate, Hderef.
    rewrite bool_decide_eq_false_2 by done. by rewrite first_error_no_error.
  - unfold check_still_needed. rewrite Hstate, Hderef.
    rewrite (IsDesired_slot pr i m layer Hlayer).
    rewrite bool_decide_eq_false_2 by done.
    destruct (is_desired_by_another i m); [by eexists|].
    unfold CancelLoadingAudioForInstrumentIfPossible.
    destruct (cancel_loop_total (ListedInstrument.audio_data_set li) (audio m) 0 Hrefs)
      as (s' & n' & ->).
    by eexists.
Qed.

End Supersession.

(** C3 (amended): materializing an instrument with at least one region on a
    well-formed store succeeds; [audio_datas] has one entry per region, the
    entry of that region's file; [audio_data_set] has no repetition and as
    many entries as there are distinct region paths; the count of each entry
    of the set goes up by one (modulo 2^32) and no other count changes.
    Resolving the library of a request for the instrument makes it the one
    the request's channel desires on the request's layer.  Nothing but the
    resolution of a request for that channel and layer changes what the
    channel desires there: no other step of a pass over the pending
    results, and no iteration of the loop that pops no such request and has
    none waiting for its library.  While the channel desires the instrument
    the request ends in success once every entry of the set has decoded;
    when the channel desires another instrument on the layer the request
    ends as cancelled. *)
Theorem FetchOrCreateInstrument_materializes `{Platform}
    (lib_node : LibNode.t) (s : Store) (inst : Instrument.t)
    (Hwf : store_wf s)
    (Hnew : find_instrument (Instrument.name inst)
              (ListedLibrary.instruments (LibNode.value lib_node)) = None)
    (Hregions : Instrument.regions inst <> []) :
  let lib_name := Library.name (ListedLibrary.lib (LibNode.value lib_node)) in
  let regions := Instrument.regions inst in
  exists new_inst li lib_node' s',
    FetchOrCreateInstrument lib_node s inst = Some (new_inst, lib_node', s')
    /\ ListedLibrary.instruments (LibNode.value lib_node')
       = (new_inst, li) :: ListedLibrary.instruments (LibNode.value lib_node)
    /\ LoadedInstrument.instrument (ListedInstrument.inst li) = inst
    /\ ListedInstrument.refs li = 0%Z
    /\ LibNode.reader_uses lib_node' = FetchAdd (LibNode.reader_uses lib_node) 1
    /\ store_wf s'
    /\ length (LoadedInstrument.audio_datas (ListedInstrument.inst li)) = length regions
    /\ Forall2 (fun region a => key_at s' a = Some (lib_name, Region.file_path region))
               regions (LoadedInstrument.audio_datas (ListedInstrument.inst li))
    /\ NoDup (ListedInstrument.audio_data_set li)
    /\ (forall a, a ∈ ListedInstrument.audio_data_set li
                  <-> a ∈ LoadedInstrument.audio_datas (ListedInstrument.inst li))
    /\ length (ListedInstrument.audio_data_set li)
       = length (remove_dups (map Region.file_path regions))
    /\ Forall (fun a => refs_at s' a = Some (FetchAdd (refs_before s a) 1))
              (ListedInstrument.audio_data_set li)
    /\ (forall a, a ∉ ListedInstrument.audio_data_set li -> refs_at s' a = refs_at s a)
    /\ (forall (m : LoadingThread.t) (pending_result : PendingResult.t)
               (c : AsyncCommsChannel.t) (lib : ptr) (library_name inst_name : string)
               (layer : nat),
          LoadingThread.audio m = s ->
          PendingResult.state pending_result = PendingResult.AwaitingLibrary ->
          QueuedRequest.request (PendingResult.request pending_result)
          = LoadRequestInstrumentIdWithLayer library_name inst_name layer ->
          library_name <> EmptyString -> inst_name <> EmptyString ->
          Server.libraries_by_name (LoadingThread.server m) !! library_name = Some lib ->
          LibrariesList.deref lib (Server.libraries (LoadingThread.server m)) = Some lib_node ->
          Library.insts_by_name (ListedLibrary.lib (LibNode.value lib_node)) !! inst_name
          = Some inst ->
          lookup_ptr (LoadingThread.channel_of pending_result) (channels_of m) = Some c ->
          layer < length (AsyncCommsChannel.desired_inst c) ->
          exists m',
            LoadingThread.fill_in_library pending_result m
            = Some (PendingResult.with_state
                      (PendingResult.AwaitingAudio (PendingResult.AssetInstrument (lib, new_inst)))
                      pending_result, m')
            /\ LoadingThread.audio m' = s'
            /\ LoadingThread.deref_instrument (lib, new_inst)
                 (Server.libraries (LoadingThread.server m')) = Some li
            /\ desired_slot (LoadingThread.channel_of pending_result) layer m'
               = Some (Some (lib, new_inst)))
    /\ (forall (ch : ptr) (layer : nat) (pending_result pending_result' : PendingResult.t)
               (m m' : LoadingThread.t),
          (LoadingThread.fill_in_library pending_result m = Some (pending_result', m') ->
           ~ unresolved_for ch layer pending_result ->
           desired_slot ch layer m' = desired_slot ch layer m)
          /\ (LoadingThread.check_for_errors pending_result m = Some (pending_result', m') ->
              desired_slot ch layer m' = desired_slot ch layer m)
          /\ (LoadingThread.check_still_needed pending_result m = Some (pending_result', m') ->
              desired_slot ch layer m' = desired_slot ch layer m)
          /\ (LoadingThread.store_ir_result pending_result m = Some (pending_result', m') ->
              desired_slot ch layer m' = desired_slot ch layer m)
          /\ desired_slot ch layer (LoadingThread.dispatch pending_result m).2
             = desired_slot ch layer m)
    /\ (forall (ch : ptr) (layer : nat) (m m' : LoadingThread.t),
          loop_iteration_unwatched m = Some m' ->
          Forall (fun q => ~ requests_layer ch layer q)
                 (Server.request_queue (LoadingThread.server m)) ->
          Forall (fun pending_result => ~ unresolved_for ch layer pending_result)
                 (LoadingThread.pending_results m) ->
          desired_slot ch layer m' = desired_slot ch layer m)
    /\ (forall (m : LoadingThread.t) (pending_result : PendingResult.t) (i : InstPtr)
               (layer : nat),
          PendingResult.state pending_result
          = PendingResult.AwaitingAudio (PendingResult.AssetInstrument i) ->
          LoadingThread.LayerIndex pending_result = Some layer ->
          LoadingThread.deref_instrument i (Server.libraries (LoadingThread.server m)) = Some li ->
          desired_slot (LoadingThread.channel_of pending_result) layer m = Some (Some i) ->
          Forall (fun a => state_at (LoadingThread.audio m) a = Some CompletedSucessfully)
                 (ListedInstrument.audio_data_set li) ->
          LoadingThread.check_for_errors pending_result m = Some (pending_result, m)
          /\ LoadingThread.check_still_needed pending_result m
             = Some (PendingResult.with_state
                       (PendingResult.CompletedSuccessfully (RefInstrument i)) pending_result,
                     LoadingThread.store_loading_percent pending_result (-1) m)
          /\ LoadingThread.terminal_result
               (PendingResult.with_state
                  (PendingResult.CompletedSuccessfully (RefInstrument i)) pending_result)
             = Some {| LoadResult.id := QueuedRequest.id (PendingResult.request pending_result);
                       LoadResult.result := LoadResult.Success (RefInstrument i) |})
    /\ (forall (m : LoadingThread.t) (pending_result : PendingResult.t) (i : InstPtr)
               (layer : nat),
          PendingResult.state pending_result
          = PendingResult.AwaitingAudio (PendingResult.AssetInstrument i) ->
          LoadingThread.LayerIndex pending_result = Some layer ->
          LoadingThread.deref_instrument i (Server.libraries (LoadingThread.server m)) = Some li ->
          desired_slot (LoadingThread.channel_of pending_result) layer m <> Some (Some i) ->
          Forall (fun a => state_at (LoadingThread.audio m) a <> Some CompletedWithError)
                 (ListedInstrument.audio_data_set li) ->
          Forall (fun a => exists r, refs_at (LoadingThread.audio m) a = Some r /\ r <> 0%Z)
                 (ListedInstrument.audio_data_set li) ->
          LoadingThread.check_for_errors pending_result m = Some (pending_result, m)
          /\ (exists m',
                LoadingThread.check_still_needed pending_result m
                = Some (PendingResult.with_state PendingResult.Cancelled pending_result, m')
                /\ channels_of m' = channels_of m
                /\ Server.libraries (LoadingThread.server m')
                   = Server.libraries (LoadingThread.server m))
          /\ LoadingThread.terminal_result
               (PendingResult.with_state PendingResult.Cancelled pending_result)
             = Some {| LoadResult.id := QueuedRequest.id (PendingResult.request pending_result);
                       LoadResult.result := LoadResult.Cancelled |}).
Proof.
  intros lib_name regions.
  destruct (FetchOrCreateInstrument_new_instrument lib_node s inst Hwf Hnew Hregions)
    as (new_inst & li & lib_node' & s' & Hfetch & Hinsts & Hinst & Hrefs & Huses & Hwf'
        & Hlen & Hkeys & Hnodup & Helem & Hdistinct & Hretained & Hothers).
  assert (Hset : ListedInstrument.audio_data_set li <> []).
  { intros Hnil. fold regions in Hlen.
    destruct (LoadedInstrument.audio_datas (ListedInstrument.inst li)) as [|a l] eqn:Hl.
    - apply Hregions. fold regions. by apply nil_length_inv.
    - assert (Ha : a ∈ ListedInstrument.audio_data_set li) by (apply Helem; by left).
      rewrite Hnil in Ha. by apply elem_of_nil in Ha. }
  exists new_inst, li, lib_node', s'.
  do 13 (split; [done|]).
  split; [|split; [|split; [|split]]].
  - intros m pr c lib library_name inst_name layer Haudio Hstate Hrequest Hlib_name Hinst_name
      Hindex Hderef Hknown Hc Hlayer. subst s.
    destruct (fill_in_library_resolves pr m library_name inst_name layer lib lib_node inst c
                new_inst lib_node' s' Hstate Hrequest Hlib_name Hinst_name Hindex Hderef
                Hknown Hfetch Hc Hlayer) as (m' & Hfill & Hslot & Haudio' & Hderef').
    exists m'. split; [done|]. split; [done|]. split; [|done].
    unfold LoadingThread.deref_instrument. cbn [fst snd]. rewrite Hderef', Hinsts.
    simpl. by rewrite decide_True.
  - intros ch layer pr pr' m m'. split; [apply fill_in_library_slot|].
    split; [apply check_for_errors_slot|]. split; [apply check_still_needed_slot|].
    split; [apply store_ir_result_slot|apply dispatch_slot].
  - intros ch layer m m'. apply loop_iteration_unwatched_slot.
  - intros m pr i layer. by apply desired_instrument_succeeds.
  - intros m pr i layer. by apply superseded_instrument_is_cancelled.
Qed.

Section SupersessionScenario.
Import Examples Scenarios.
#[local] Existing Instance example_platform.

(** C3 at the scenario of four regions over two files: four entries in
    [audio_datas], two in [audio_data_set]; and at the request for X on
    layer 0 of channel 1: resolving its library makes X the instrument the
    channel desires there. *)
Lemma shared_files_scenario :
  (exists new_inst li lib_node' s',
     FetchOrCreateInstrument lib_node empty_store inst_shared = Some (new_inst, lib_node', s')
     /\ ListedLibrary.instruments (LibNode.value lib_node') = [(new_inst, li)]
     /\ length (LoadedInstrument.audio_datas (ListedInstrument.inst li)) = 4
     /\ length (ListedInstrument.audio_data_set li) = 2)
  /\ (exists new_inst m',
        LoadingThread.fill_in_library pending_x (LoadingThread.consume_requests request_x_thread)
        = Some (PendingResult.with_state
                  (PendingResult.AwaitingAudio (PendingResult.AssetInstrument (1, new_inst)))
                  pending_x, m')
        /\ desired_slot 1 0 m' = Some (Some (1, new_inst))).
Proof.
  split.
  - destruct (@FetchOrCreateInstrument_materializes example_platform lib_node empty_store
                inst_shared empty_store_wf eq_refl ltac:(discriminate))
      as (new_inst & li & lib_node' & s' & Hf & Hinsts & _ & _ & _ & _ & Hlen & _ & _ & _
          & Hset & _).
    exists new_inst, li, lib_node', s'.
    split; [exact Hf|]. split; [exact Hinsts|]. split; [exact Hlen|exact Hset].
  - destruct (@FetchOrCreateInstrument_materializes example_platform lib_node empty_store
                inst_x empty_store_wf eq_refl ltac:(discriminate))
      as (new_inst & li & lib_node' & s' & _ & _ & _ & _ & _ & _ & _ & _ & _ & _ & _ & _ & _
          & Hresolve & _).
    destruct (lookup_ptr 1 (channels_of (LoadingThread.consume_requests request_x_thread)))
      as [c|] eqn:Hc; [|by vm_compute in Hc].
    assert (Hsome : Some c = lookup_ptr 1 (channels_of (LoadingThread.consume_requests
                                                          request_x_thread))) by done.
    vm_compute in Hsome. injection Hsome as Hc'.
    destruct (Hresolve (LoadingThread.consume_requests request_x_thread) pending_x c
                1 "Lib" "X" 0) as (m' & Hfill & _ & _ & Hslot);
      [reflexivity|reflexivity|reflexivity|discriminate|discriminate|reflexivity|reflexivity
      |reflexivity|exact Hc|rewrite Hc'; simpl; lia|].
    exists new_inst, m'. split; [exact Hfill|exact Hslot].
Defined.

(** C3 as stated fails.  The request for X on layer 0 of channel 1 is
    taken up by one iteration of the loop: its library is resolved, X is
    materialized by [FetchOrCreateInstrument] and is what the channel
    desires on the layer.  The only file of X is then decoded, and the
    client sends a newer request, for Y on the same layer.  The next
    iteration resolves the library of the newer request, after which the
    channel desires Y; it then delivers [Cancelled] for X, although X was
    materialized and every region of X has its audio. *)
Lemma superseded_request_is_cancelled :
  (exists m1 m2 m3,
     x_awaiting_audio = Some m1
     /\ LoadingThread.pending_results m1
        = [PendingResult.with_state
             (PendingResult.AwaitingAudio (PendingResult.AssetInstrument (1, 1))) pending_x]
     /\ LoadingThread.deref_instrument (1, 1) (Server.libraries (LoadingThread.server m1))
        = Some listed_x
     /\ desired_slot 1 0 m1 = Some (Some (1, 1))
     /\ y_resolved = Some m2
     /\ desired_slot 1 0 m2 = Some (Some (1, 2))
     /\ state_at (LoadingThread.audio m2) 1 = Some CompletedSucessfully
     /\ x_superseded = Some m3
     /\ (AsyncCommsChannel.results <$> lookup_ptr 1 (channels_of m3))
        = Some [{| LoadResult.id := 1; LoadResult.result := LoadResult.Cancelled |}])
  /\ (exists m4,
        x_alone = Some m4
        /\ (AsyncCommsChannel.results <$> lookup_ptr 1 (channels_of m4))
           = Some [{| LoadResult.id := 1;
                      LoadResult.result := LoadResult.Success (RefInstrument (1, 1)) |}])
  /\ ~ (forall (m : LoadingThread.t) (pending_result : PendingResult.t) (i : InstPtr)
               (li : ListedInstrument.t),
          PendingResult.state pending_result
          = PendingResult.AwaitingAudio (PendingResult.AssetInstrument i) ->
          LoadingThread.deref_instrument i (Server.libraries (LoadingThread.server m))
          = Some li ->
          Forall (fun a => state_at (LoadingThread.audio m) a = Some CompletedSucessfully)
                 (ListedInstrument.audio_data_set li) ->
          exists m',
            LoadingThread.check_still_needed pending_result m
            = Some (PendingResult.with_state
                      (PendingResult.CompletedSuccessfully (RefInstrument i)) pending_result,
                    m')).
Proof.
  destruct x_awaiting_audio as [m1|] eqn:Hx; [|by vm_compute in Hx].
  assert (Hsome1 : Some m1 = x_awaiting_audio) by done.
  vm_compute in Hsome1. injection Hsome1 as Hm1.
  destruct y_resolved as [m2|] eqn:Hy; [|by vm_compute in Hy].
  assert (Hsome2 : Some m2 = y_resolved) by done.
  vm_compute in Hsome2. injection Hsome2 as Hm2.
  destruct x_superseded as [m3|] eqn:Hs; [|by vm_compute in Hs].
  assert (Hsome3 : Some m3 = x_superseded) by done.
  vm_compute in Hsome3. injection Hsome3 as Hm3.
  destruct x_alone as [m4|] eqn:Ha; [|by vm_compute in Ha].
  assert (Hsome4 : Some m4 = x_alone) by done.
  vm_compute in Hsome4. injection Hsome4 as Hm4.
  split; [|split].
  - exists m1, m2, m3. rewrite Hm1, Hm2, Hm3.
    repeat (split; [vm_compute; reflexivity|]). vm_compute. reflexivity.
  - exists m4. split; [done|]. rewrite Hm4. vm_compute. reflexivity.
  - intros Hall.
    destruct (Hall m2
                (PendingResult.with_state
                   (PendingResult.AwaitingAudio (PendingResult.AssetInstrument (1, 1)))
                   pending_x)
                (1, 1) listed_x) as [m' Hm'].
    + reflexivity.
    + rewrite Hm2. vm_compute. reflexivity.
    + rewrite Hm2. repeat constructor.
    + rewrite Hm2 in Hm'. vm_compute in Hm'. discriminate.
Qed.

End SupersessionScenario.

End SupersessionProofs.

Section InstanceProofs.
Import ScanFolders Accounting.

(** ** The further properties at concrete inputs *)

Section FurtherInstances.
Import Examples Scenarios.
#[local] Existing Instance example_platform.

Ltac evaluated := apply (bool_decide_unpack _); vm_compute; exact I.

(** X1 on two notifications, the second of which is reported again. *)
Lemma AddOrUpdateError_unique_ids_witness :
  NoDup (map id (AddOrUpdateError (note 2 "again") notes))
  /\ note 2 "again" ∈ AddOrUpdateError (note 2 "again") notes.
Proof.
  destruct (AddOrUpdateError_unique_ids (note 2 "again") notes ltac:(evaluated))
    as (Hnd & Hin & _).
  split; [exact Hnd|exact Hin].
Defined.

(** X2 on a notification with a new id. *)
Lemma RemoveError_after_AddOrUpdateError_witness :
  RemoveError 3 (AddOrUpdateError (note 3 "c") notes) = notes.
Proof.
  destruct (RemoveError_after_AddOrUpdateError (note 3 "c") notes) as [_ Hnew].
  apply Hnew. vm_compute. intros Hin.
  repeat (apply elem_of_cons in Hin as [Hin|Hin]; [discriminate|]).
  by apply not_elem_of_nil in Hin.
Defined.

(** X3 on the ids of two instruments whose names have the same length,
    which the example hash does not tell apart. *)
Lemma Id_injective_witness :
  Id "inst" "Piano" = Id "inst" "Organ"
  <-> U32FromChars "inst" = U32FromChars "inst" /\ Hash32 "Piano" = Hash32 "Organ".
Proof.
  apply (@Id_injective example_platform example_U32FromChars_range example_Hash32_range).
Defined.

(** X4 with three jobs in flight, one of which ends, and for a job that
    is the only one in flight. *)
Lemma CountDown_result_witness :
  AtomicCountdown.CountDown 1 3 = Some (2%Z, false)
  /\ AtomicCountdown.CountDown 1 (AtomicCountdown.Increase 1 0) = Some (0%Z, true).
Proof.
  destruct (CountDown_result 1 3 ltac:(unfold AtomicCountdown.u32_max; lia)
              ltac:(unfold AtomicCountdown.u32_max; lia)) as (Hle & _).
  destruct (CountDown_result 1 0 ltac:(unfold AtomicCountdown.u32_max; lia)
              ltac:(unfold AtomicCountdown.u32_max; lia)) as (_ & _ & _ & Hround).
  split; [apply Hle; lia|exact Hround].
Defined.

(** X6: the always-scanned folder stays when the extra folders change. *)
Lemma SetExtraScanFolders_nodes_witness :
  (1, {| ScanFolder.path := "/always";
         ScanFolder.source := ScanFolder.AlwaysScannedFolder;
         ScanFolder.state := ScanFolder.ScannedSuccessfully |})
  ∈ Server.scan_folders (SetExtraScanFolders ["/other"] server_folders).
Proof.
  destruct (SetExtraScanFolders_nodes ["/other"] server_folders
              (1, {| ScanFolder.path := "/always";
                     ScanFolder.source := ScanFolder.AlwaysScannedFolder;
                     ScanFolder.state := ScanFolder.ScannedSuccessfully |})) as [Hkeep _].
  apply Hkeep; [|by left]. right. left.
Defined.

(** X7 with a list that names the always-scanned folder and repeats a
    path. *)
Lemma SetExtraScanFolders_distinct_witness :
  NoDup (map folder_path
           (Server.scan_folders
              (SetExtraScanFolders ["/always"; "/new"; "/new"] server_folders))).
Proof.
  destruct (SetExtraScanFolders_distinct ["/always"; "/new"; "/new"] server_folders
              ltac:(evaluated) ltac:(evaluated)) as [Hpaths _].
  exact Hpaths.
Defined.

Lemma no_jobs_counted : jobs_counted no_jobs.
Proof. split; [reflexivity|]. simpl. lia. Qed.

(** X10: the requested rescan of the extra folder is counted. *)
Lemma trigger_scans_effect_witness :
  jobs_counted (JobQueue.trigger_scans no_jobs server_folders).1.
Proof.
  destruct (trigger_scans_effect no_jobs server_folders) as (_ & _ & Hcounted).
  apply Hcounted; [exact no_jobs_counted|]. vm_compute. reflexivity.
Defined.

(** X11 on the update that triggers that rescan. *)
Lemma job_counter_is_exact_witness :
  exists async_ctx' server',
    JobQueue.UpdateLoadingThread_unwatched no_jobs server_folders
    = Some (async_ctx', server')
    /\ jobs_counted async_ctx'.
Proof.
  destruct (JobQueue.UpdateLoadingThread_unwatched no_jobs server_folders)
    as [[async_ctx' server']|] eqn:Hupdate.
  - exists async_ctx', server'. split; [reflexivity|].
    destruct (@job_counter_is_exact example_platform no_jobs async_ctx' server_folders
                server' no_jobs_counted ltac:(vm_compute; reflexivity) Hupdate)
      as [Hcounted _].
    exact Hcounted.
  - exfalso. vm_compute in Hupdate. discriminate.
Defined.

(** X12 on a completed scan of the extra folder. *)
Lemma handle_jobs_settles_witness :
  Forall (fun j => passed_over j = true)
         (Registry.handle_jobs [scanned_job] 1 server_folders).1.1.2.
Proof.
  destruct (Registry.handle_jobs [scanned_job] 1 server_folders)
    as [[[flow l'] n'] server'] eqn:Hpass.
  assert (Hflow : flow = Registry.Next).
  { vm_compute in Hpass. by injection Hpass as <- _ _ _. }
  subst flow.
  destruct (@handle_jobs_settles example_platform _ _ _ _ _ _ Hpass) as [Hall _].
  exact Hall.
Defined.

(** X13 on a read job that found its library registered, while the
    rescan of the extra folder is requested. *)
Lemma skipped_library_ends_the_update_witness :
  JobQueue.UpdateLoadingThread_unwatched (one_job skipped_job) server_folders
  = Some ({| jobs := [scan_job
                        (2, {| ScanFolder.path := "/extra";
                               ScanFolder.source := ScanFolder.ExtraFolder;
                               ScanFolder.state := ScanFolder.RescanRequested |});
                      Registry.mark_handled skipped_job];
             num_uncompleted_jobs := 1 |},
          (JobQueue.trigger_scans (one_job skipped_job) server_folders).2).
Proof.
  destruct (@skipped_library_ends_the_update example_platform [] [] skipped_job 1
              server_folders (PathString "/libs/copy.mdata") Mdata None
              ltac:(constructor) eq_refl eq_refl eq_refl (or_introl eq_refl))
    as [Hupdate _].
  exact Hupdate.
Defined.


(** X15 on the same folder, scanned again with success. *)
Lemma scan_success_clears_failure_witness :
  Server.error_notifications
    (Registry.handle_scan_folder 1 (Value tt)
       (Registry.handle_scan_folder 1 (Error (OtherError 5)) server_loaded))
  = [].
Proof.
  destruct (@scan_success_clears_failure example_platform 1
              {| ScanFolder.path := "/libs"; ScanFolder.source := ScanFolder.ExtraFolder;
                 ScanFolder.state := ScanFolder.ScannedSuccessfully |}
              (OtherError 5) server_loaded eq_refl) as (_ & Herr & _).
  exact Herr.
Defined.

(** X16 on the file of the registered library, edited so that it first
    fails to parse and then reads. *)
Lemma reread_clears_failure_witness :
  Registry.job_path (PathString "/libs/lib.mdata") = "/libs/lib.mdata"
  /\ Server.error_notifications
       (Registry.handle_read_library (PathString "/libs/lib.mdata")
          (Some (Value edited_library))
          (Registry.handle_read_library (PathString "/libs/lib.mdata")
             (Some (Error (OtherError 5))) server0).2).2
     = []
  /\ exists node,
       node ∈ LibrariesList.live
                (Server.libraries
                   (Registry.handle_read_library (PathString "/libs/lib.mdata")
                      (Some (Value edited_library))
                      (Registry.handle_read_library (PathString "/libs/lib.mdata")
                         (Some (Error (OtherError 5))) server0).2).2)
       /\ Registry.lib_of node = edited_library.
Proof.
  destruct (@reread_clears_failure example_platform failing_outcomes edited_outcomes
              "/libs/lib.mdata" Mdata (OtherError 5) edited_library server0
              (PathString "/libs/lib.mdata") (PathString "/libs/lib.mdata")
              eq_refl ltac:(discriminate) eq_refl)
    as (_ & _ & Hlive & _ & Hcleared & _).
  destruct (Hcleared ltac:(by left)) as [Hnotes _].
  split; [reflexivity|]. split; [exact Hnotes|exact Hlive].
Defined.

(** X17 and X18 on an update of the loaded server with no job to handle. *)
Lemma UpdateLoadingThread_keeps_library_nodes_witness :
  exists async_ctx' server',
    JobQueue.UpdateLoadingThread_unwatched no_jobs server_loaded
    = Some (async_ctx', server')
    /\ LibrariesList.deref 1 (Server.libraries server')
       = LibrariesList.deref 1 (Server.libraries server_loaded).
Proof.
  destruct (JobQueue.UpdateLoadingThread_unwatched no_jobs server_loaded)
    as [[async_ctx' server']|] eqn:Hupdate.
  - exists async_ctx', server'. split; [reflexivity|].
    destruct (LibrariesList.deref 1 (Server.libraries server_loaded)) as [node|] eqn:Hnode.
    + destruct (@UpdateLoadingThread_keeps_library_nodes example_platform no_jobs async_ctx'
                  server_loaded server' 1 node ltac:(evaluated) Hupdate Hnode) as [Hkept _].
      exact Hkept.
    + exfalso. vm_compute in Hnode. discriminate.
  - exfalso. vm_compute in Hupdate. discriminate.
Defined.

Lemma libraries_by_name_matches_registry_witness :
  exists async_ctx' server',
    JobQueue.UpdateLoadingThread_unwatched no_jobs server_loaded
    = Some (async_ctx', server')
    /\ NoDup (map library_name_of (LibrariesList.live (Server.libraries server'))).
Proof.
  destruct (JobQueue.UpdateLoadingThread_unwatched no_jobs server_loaded)
    as [[async_ctx' server']|] eqn:Hupdate.
  - exists async_ctx', server'. split; [reflexivity|].
    destruct (@libraries_by_name_matches_registry example_platform no_jobs async_ctx'
                server_loaded server' server_loaded [] 0 eq_refl Hupdate) as [Hnd _].
    exact Hnd.
  - exfalso. vm_compute in Hupdate. discriminate.
Defined.

(** X19, X20 and X21 on the loaded server, whose instrument a client
    holds and whose two files are decoded. *)
Lemma RemoveUnreferencedObjects_leaves_referenced_witness :
  exists server' audio',
    Collector.RemoveUnreferencedObjects server_loaded decoded_store = Some (server', audio')
    /\ Forall (fun e => refs e.2 <> 0%Z) (audio_datas audio').
Proof.
  destruct (RemoveUnreferencedObjects_leaves_referenced server_loaded decoded_store
              ltac:(evaluated)) as (server' & audio' & Hr & _ & _ & Haudio & _).
  exists server', audio'. split; [exact Hr|exact Haudio].
Defined.

Lemma loaded_audio_accounted : audio_accounted (listed_instruments server_loaded) decoded_store.
Proof.
  intros a Ha. change (a ∈ [1; 2]) in Ha.
  apply elem_of_cons in Ha as [-> | Ha].
  - eexists. split; [reflexivity|]. vm_compute. split; [discriminate|reflexivity].
  - apply elem_of_cons in Ha as [-> | Ha]; [|by apply not_elem_of_nil in Ha].
    eexists. split; [reflexivity|]. vm_compute. split; [discriminate|reflexivity].
Qed.

Lemma RemoveUnreferencedObjects_no_dangling_audio_witness :
  exists server' audio',
    Collector.RemoveUnreferencedObjects server_loaded decoded_store = Some (server', audio')
    /\ audio_accounted (listed_instruments server') audio'.
Proof.
  destruct (Collector.RemoveUnreferencedObjects server_loaded decoded_store)
    as [[server' audio']|] eqn:Hr.
  - exists server', audio'. split; [reflexivity|].
    exact (RemoveUnreferencedObjects_no_dangling_audio server_loaded server' decoded_store
             audio' loaded_audio_accounted Hr).
  - exfalso. vm_compute in Hr. discriminate.
Defined.

Lemma RemoveUnreferencedObjects_keeps_used_witness :
  exists server' audio',
    Collector.RemoveUnreferencedObjects server_loaded decoded_store = Some (server', audio')
    /\ LoadingThread.deref_instrument (1, 1) (Server.libraries server') = Some listed_shared.
Proof.
  destruct (Collector.RemoveUnreferencedObjects server_loaded decoded_store)
    as [[server' audio']|] eqn:Hr.
  - exists server', audio'. split; [reflexivity|].
    destruct (RemoveUnreferencedObjects_keeps_used server_loaded server' decoded_store
                audio' Hr) as [_ Hinst].
    apply (Hinst 1 1
             {| LibNode.value := {| ListedLibrary.lib := library;
                                    ListedLibrary.instruments := [(1, listed_shared)] |};
                LibNode.reader_uses := 1 |} listed_shared eq_refl eq_refl).
    discriminate.
  - exfalso. vm_compute in Hr. discriminate.
Defined.

(** X22 on the entry after a cancelled decode and a reload, with the next
    job queued, and X23 after a decode. *)
Lemma decode_jobs_never_overlap_witness :
  run_events reload_schedule DecodeRace.created = Some reloaded_sys
  /\ length (DecodeRace.jobs reloaded_sys) <= 1
  /\ DecodeRace.JobPanicked ∉ DecodeRace.jobs reloaded_sys.
Proof.
  split; [reflexivity|].
  exact (decode_jobs_never_overlap reloaded_sys
           (reachable_run reload_schedule DecodeRace.created reloaded_sys
              DecodeRace.reachable_created eq_refl)).
Defined.

Lemma drained_pool_means_completed_witness :
  Collector.destructible (entry "a.wav" 1 CompletedSucessfully) = true.
Proof.
  destruct (drained_pool_means_completed decoded_sys (entry "a.wav" 1 CompletedSucessfully)
              (reachable_run decode_schedule DecodeRace.created decoded_sys
                 DecodeRace.reachable_created eq_refl)
              eq_refl eq_refl eq_refl) as [_ Hd].
  exact Hd.
Defined.

(** X25 and X26 on the completed request for "Groups And Refs". *)
Lemma dispatch_all_delivers_each_result_once_witness :
  (LoadingThread.dispatch_all [completed_request] thread_with_channel).1 = [].
Proof.
  destruct (dispatch_all_delivers_each_result_once [completed_request] thread_with_channel 1
              {| AsyncCommsChannel.error_notifications := [];
                 AsyncCommsChannel.result_added_callback_calls := 0;
                 AsyncCommsChannel.used := true;
                 AsyncCommsChannel.instrument_loading_percents := replicate 3 (-1)%Z;
                 AsyncCommsChannel.desired_inst := replicate 3 None;
                 AsyncCommsChannel.results := [] |}
              eq_refl eq_refl) as [Hleft _].
  exact Hleft.
Defined.

Lemma delivered_result_released_on_close_witness :
  LoadingThread.deref_instrument (1, 1)
    (Server.libraries
       (LoadingThread.server
          (LoadingThread.CloseAsyncCommsChannel 1
             (LoadingThread.dispatch completed_request thread_with_channel).2)))
  = Some listed_shared.
Proof.
  destruct (delivered_result_released_on_close completed_request thread_with_channel (1, 1)
              listed_shared
              {| AsyncCommsChannel.error_notifications := [];
                 AsyncCommsChannel.result_added_callback_calls := 0;
                 AsyncCommsChannel.used := true;
                 AsyncCommsChannel.instrument_loading_percents := replicate 3 (-1)%Z;
                 AsyncCommsChannel.desired_inst := replicate 3 None;
                 AsyncCommsChannel.results := [] |}
              eq_refl eq_refl eq_refl eq_refl eq_refl
              ltac:(vm_compute; split; [discriminate|reflexivity])) as (_ & Hclosed & _).
  exact Hclosed.
Defined.

(** X27 on the instrument of four regions over two files. *)
Lemma FetchOrCreateInstrument_twice_witness :
  exists p lib_node' s' s'',
    FetchOrCreateInstrument lib_node empty_store inst_shared = Some (p, lib_node', s')
    /\ FetchOrCreateInstrument lib_node' s' inst_shared = Some (p, lib_node', s'').
Proof.
  destruct (FetchOrCreateInstrument lib_node empty_store inst_shared)
    as [[[p lib_node'] s']|] eqn:Hfirst.
  - destruct (FetchOrCreateInstrument_twice lib_node lib_node' empty_store s' inst_shared p
                Hfirst) as (s'' & Hsecond & _).
    exists p, lib_node', s', s''. split; [reflexivity|exact Hsecond].
  - exfalso. vm_compute in Hfirst. discriminate.
Defined.

(** X28 on the first entry of an empty store. *)
Lemma audio_store_stays_well_formed_witness :
  store_wf (FetchOrCreateAudioData "Lib" "a.wav" empty_store).2.
Proof.
  destruct (audio_store_stays_well_formed empty_store empty_store_wf) as [Hfetch _].
  apply Hfetch.
Defined.

(** X29 on a request for the library "foo", which the server of one
    library does not have. *)
Lemma unknown_library_answered_in_one_iteration_witness :
  exists m',
    JobQueue.loop_iteration_unwatched unknown_request_thread = Some m'
    /\ LoadingThread.pending_results m' = []
    /\ (AsyncCommsChannel.results
          <$> lookup_ptr 1 (channels_of m'))
       = Some [{| LoadResult.id := 1; LoadResult.result := LoadResult.Error NotFound |}].
Proof.
  destruct (@unknown_library_answered_in_one_iteration example_platform
              unknown_request_thread unknown_request
              {| AsyncCommsChannel.error_notifications := [];
                 AsyncCommsChannel.result_added_callback_calls := 0;
                 AsyncCommsChannel.used := true;
                 AsyncCommsChannel.instrument_loading_percents := replicate 3 (-1)%Z;
                 AsyncCommsChannel.desired_inst := replicate 3 None;
                 AsyncCommsChannel.results := [] |}
              eq_refl eq_refl eq_refl ltac:(constructor)
              ltac:(split; evaluated) eq_refl eq_refl ltac:(discriminate)
              ltac:(intros node Hnode;
                    apply elem_of_cons in Hnode as [-> | Hnode];
                    [discriminate|by apply not_elem_of_nil in Hnode]))
    as (m' & Hiter & _ & Hpending & Hch).
  exists m'. split; [exact Hiter|]. split; [exact Hpending|].
  change 1 with (QueuedRequest.async_comms_channel unknown_request) at 1.
  by rewrite Hch.
Defined.

(** X30 on the first request to a server that was just constructed with
    one always-scanned folder. *)
Lemma first_request_waits_for_scan_witness :
  exists m',
    JobQueue.loop_iteration_unwatched first_request_thread = Some m'
    /\ length (LoadingThread.pending_results m') = 1
    /\ channels_of m' = channels_of first_request_thread
    /\ num_uncompleted_jobs (LoadingThread.libs_async_ctx m') = 1%Z.
Proof.
  destruct (@first_request_waits_for_scan example_platform
              first_request_thread unknown_request
              {| AsyncCommsChannel.error_notifications := [];
                 AsyncCommsChannel.result_added_callback_calls := 0;
                 AsyncCommsChannel.used := true;
                 AsyncCommsChannel.instrument_loading_percents := replicate 3 (-1)%Z;
                 AsyncCommsChannel.desired_inst := replicate 3 None;
                 AsyncCommsChannel.results := [] |}
              (1, new_folder ScanFolder.AlwaysScannedFolder "/always")
              eq_refl eq_refl eq_refl ltac:(left) eq_refl ltac:(simpl; lia)
              ltac:(split; evaluated) eq_refl eq_refl ltac:(discriminate)
              ltac:(intros node Hnode; by apply not_elem_of_nil in Hnode))
    as (m' & Hiter & Hpending & Hch & _ & _ & Hcount & _).
  exists m'. split; [exact Hiter|]. split; [by rewrite Hpending|].
  split; [exact Hch|].
  rewrite Hcount. injection Hiter as <-. reflexivity.
Defined.

End FurtherInstances.

End InstanceProofs.
